(** * Data migration to the utility network: the row-update routines

    A shallow embedding of the update routines of
    [BG_Utility_Geodatabase.py], [ROM_Utility_Geodatabase.py] and
    [add_DB_GLOBALID__DB_OBJECTID.py].

    The scripts run against a geodatabase through the GIS library: feature
    classes are tables named by a path, read with search cursors, edited with
    update cursors, inside the edit sessions of an editor object.  The library
    is the environment of the routines; its part is modelled in [Section
    Arcpy] (tables, cursors, the editor, the spatial join), with the
    geometric predicates left abstract in the class [Geometry]. *)

From stdpp Require Import base option list gmap sets strings pretty.
From Stdlib Require Import ZArith.

#[local] Set Warnings "-clear-no-such-hyp".

Open Scope Z_scope.
Open Scope string_scope.
Open Scope list_scope.

(** ** Python values held by attribute fields *)

(** Attribute fields hold [None] (a database null), integers or text.
    Floating-point attributes are not modelled. *)
Inductive value :=
| VNone
| VInt (z : Z)
| VStr (s : string).

#[global] Instance value_eq_dec : EqDecision value.
Proof. solve_decision. Defined.

Definition value_encode (v : value) : unit + (Z + string) :=
  match v with
  | VNone => inl tt
  | VInt z => inr (inl z)
  | VStr s => inr (inr s)
  end.

Definition value_decode (x : unit + (Z + string)) : value :=
  match x with
  | inl _ => VNone
  | inr (inl z) => VInt z
  | inr (inr s) => VStr s
  end.

#[global] Instance value_countable : Countable value.
Proof.
  apply (inj_countable' value_encode value_decode).
  intros []; reflexivity.
Defined.

(** Python truth value: [None], [0] and [''] are falsy. *)
Definition truthy (v : value) : bool :=
  match v with
  | VNone => false
  | VInt z => negb (Z.eqb z 0)
  | VStr s => negb (String.eqb s "")
  end.

(** ** Geometry: the predicates of the GIS library *)

(** [within a b], [touches a b], [disjoint a b] are the methods
    [a.within(b)], [a.touches(b)], [a.disjoint(b)] of a geometry object;
    [intersects] is the match option [INTERSECT] of the spatial join.
    Nothing is assumed about them. *)
Class Geometry (G : Type) := {
  within : G -> G -> bool;
  touches : G -> G -> bool;
  disjoint : G -> G -> bool;
  intersects : G -> G -> bool
}.

(** ** Exceptions and outcomes *)

Inductive exn :=
| RuntimeError (msg : string)
| AttributeError (msg : string)
| TypeError (msg : string)
| KeyError (k : string)
| IndexError (msg : string)
| ValueError (msg : string)
| OSError (msg : string)
| UnboundLocalError (var : string).

Inductive outcome (A : Type) :=
| Ok (a : A)
| Raise (e : exn).
Arguments Ok {A} a.
Arguments Raise {A} e.

(** ** What the editor and the cursors do, as a trace *)

Inductive event :=
| EStartEditing (with_undo multiuser_mode : bool)
| EStartOperation
| EStopOperation
| EStopEditing (save_changes : bool)
| EUpdateRow (fc : string) (idx : nat) (vals : list value)
    (* [cursor.updateRow(row)] on row [idx] of [fc], storing [vals] *)
| EAddField (fc field_name : string)
| EDeleteField (fc field_name : string)
| EAddWarning (about : value).

Definition is_editor_event (e : event) : bool :=
  match e with
  | EStartEditing _ _ | EStartOperation | EStopOperation | EStopEditing _ => true
  | _ => false
  end.

Definition is_update_of (fc : string) (idx : nat) (e : event) : bool :=
  match e with
  | EUpdateRow fc' idx' _ => bool_decide (fc' = fc) && bool_decide (idx' = idx)
  | _ => false
  end.

Section Arcpy.
Context {G : Type} `{!Geometry G}.

(** ** Feature classes *)

(** A feature (a row) has a shape, [None] for a null geometry, read with the
    token [SHAPE@], and attribute values by field name.  A field without an
    entry reads as [None]. *)
Record feature := Feature {
  shape : option G;
  attrs : gmap string value
}.

(** A feature class has its list of fields ([arcpy.ListFields]) and its
    rows in cursor order. *)
Record feature_class := FeatureClass {
  fc_fields : list string;
  fc_rows : list feature
}.

Definition get_field (f : feature) (k : string) : value :=
  default VNone (attrs f !! k).

Definition set_field (k : string) (v : value) (f : feature) : feature :=
  Feature (shape f) (<[k := v]> (attrs f)).

(** ** The world: the geodatabase, the edit session, the trace *)

Record world := World {
  tables : gmap string feature_class;
  session : option (gmap string feature_class);
  log : list event
}.

Definition M (A : Type) : Type := world -> outcome A * world.

Definition ret {A} (a : A) : M A := fun w => (Ok a, w).

Definition bind {A B} (m : M A) (k : A -> M B) : M B :=
  fun w =>
    match m w with
    | (Ok a, w') => k a w'
    | (Raise e, w') => (Raise e, w')
    end.

Definition raise {A} (e : exn) : M A := fun w => (Raise e, w).

Definition emit (ev : event) : M unit :=
  fun w => (Ok tt, World (tables w) (session w) (log w ++ [ev])).

End Arcpy.

Arguments feature G : clear implicits.
Arguments feature_class G : clear implicits.
Arguments world G : clear implicits.
Arguments M G A : clear implicits.

Declare Scope py_scope.
Delimit Scope py_scope with py.
Notation "x <- m ;; k" := (bind m (fun x => k))
  (at level 100, m at next level, right associativity) : py_scope.
Notation "m ;;; k" := (bind m (fun _ => k))
  (at level 100, right associativity) : py_scope.

(** ** The library: cursors, the editor, schema changes, the spatial join *)

Inductive join_operation := JOIN_ONE_TO_ONE | JOIN_ONE_TO_MANY.

Section Library.
Context {G : Type} `{!Geometry G}.
Local Open Scope py_scope.

(** A cursor row: the [SHAPE@] column and the attribute columns, in the
    order the cursor was asked for them. *)
Record row := Row {
  row_shape : option G;
  row_vals : list value
}.

(** [row[i]] on the attribute columns.  A cursor hands out rows as long as
    its field list, so the default is never read. *)
Definition col (vals : list value) (i : nat) : value :=
  default VNone (vals !! i).

Definition read_row (flds : list string) (f : feature G) : row :=
  Row (shape f) (map (get_field f) flds).

(** [cursor.updateRow(row)]: the attribute columns are stored back under
    the cursor's fields, left to right.  The routines put [SHAPE@] in
    their cursors themselves and never assign to it, so the shape is not
    stored.  A field list is one of attribute fields: a geometry token
    that a caller puts in the field names it passes is outside the model,
    where such a cursor does not open.  Storing does not fail: the types
    and lengths of the fields are not modelled. *)
Definition write_row (flds : list string) (vals : list value)
    (f : feature G) : feature G :=
  foldl (fun f kv => set_field kv.1 kv.2 f) f (zip flds vals).

Definition has_fields (fc : feature_class G) (flds : list string) : bool :=
  forallb (fun k => bool_decide (k ∈ fc_fields fc)) flds.

(** Opening a cursor fails on a table or a field that does not exist. *)
Definition open_cursor (path : string) (flds : list string)
    : M G (feature_class G) :=
  fun w =>
    match tables w !! path with
    | None => (Raise (RuntimeError "cannot open the table"), w)
    | Some fc =>
        if has_fields fc flds then (Ok fc, w)
        else (Raise (RuntimeError "cannot find a field"), w)
    end.

Definition SearchCursor (path : string) (flds : list string)
    : M G (list row) :=
  fc <- open_cursor path flds ;;
  ret (map (read_row flds) (fc_rows fc)).

(** The body of a [for row in cursor] loop of an update cursor: from the
    loop's local variables and the row, the new locals and either an
    exception, or [Some vals] when the body ends in
    [cursor.updateRow(row)] with the columns [vals], or [None] when it
    leaves the row alone. *)
Definition updater (L : Type) : Type :=
  L -> row -> L * outcome (option (list value)).

Fixpoint update_rows {L} (path : string) (flds : list string)
    (sel : feature G -> bool) (body : updater L) (idx : nat)
    (fs : list (feature G)) (s : L)
    : L * outcome unit * list (feature G) * list event :=
  match fs with
  | [] => (s, Ok tt, [], [])
  | f :: rest =>
      if sel f then
        match body s (read_row flds f) with
        | (s', Raise e) => (s', Raise e, f :: rest, [])
        | (s', Ok upd) =>
            let '(s'', o, rest', evs) :=
              update_rows path flds sel body (S idx) rest s' in
            match upd with
            | Some vals =>
                (s'', o, write_row flds vals f :: rest',
                 EUpdateRow path idx vals :: evs)
            | None => (s'', o, f :: rest', evs)
            end
        end
      else
        let '(s'', o, rest', evs) :=
          update_rows path flds sel body (S idx) rest s in
        (s'', o, f :: rest', evs)
  end.

(** [with arcpy.da.UpdateCursor(path, flds, where) as cursor: for row in
    cursor: body].  The result keeps the loop's locals next to the outcome:
    Python locals outlive an exception. *)
Definition UpdateCursor {L} (path : string) (flds : list string)
    (sel : feature G -> bool) (body : updater L) (s0 : L)
    : world G -> (L * outcome unit) * world G :=
  fun w =>
    match open_cursor path flds w with
    | (Raise e, w') => ((s0, Raise e), w')
    | (Ok fc, w') =>
        let '(s, o, rows', evs) :=
          update_rows path flds sel body 0 (fc_rows fc) s0 in
        ((s, o),
         World (<[path := FeatureClass (fc_fields fc) rows']> (tables w'))
               (session w') (log w' ++ evs))
    end.

(** The same loop as a computation that raises what the loop raised. *)
Definition for_update {L} (path : string) (flds : list string)
    (sel : feature G -> bool) (body : updater L) (s0 : L) : M G L :=
  fun w =>
    match UpdateCursor path flds sel body s0 w with
    | ((s, Ok _), w') => (Ok s, w')
    | ((s, Raise e), w') => (Raise e, w')
    end.

Definition all_rows : feature G -> bool := fun _ => true.

(** [arcpy.Describe(path).path], the geodatabase an editor is made for:
    it fails on a table that does not exist. *)
Definition Describe (path : string) : M G unit :=
  fun w =>
    match tables w !! path with
    | None => (Raise (OSError "the table does not exist"), w)
    | Some _ => (Ok tt, w)
    end.

(** The editor.  [startEditing] opens a session on the geodatabase;
    [stopEditing(True)] keeps the edits made since, [stopEditing(False)]
    discards them. *)
Definition startEditing (with_undo multiuser_mode : bool) : M G unit :=
  fun w =>
    (Ok tt, World (tables w) (Some (tables w))
                  (log w ++ [EStartEditing with_undo multiuser_mode])).

Definition startOperation : M G unit := emit EStartOperation.
Definition stopOperation : M G unit := emit EStopOperation.

Definition stopEditing (save_changes : bool) : M G unit :=
  fun w =>
    (Ok tt,
     World (if save_changes then tables w
            else default (tables w) (session w))
           None (log w ++ [EStopEditing save_changes])).

(** [edit.stopOperation(); edit.stopEditing(True)], the end of a [try]
    block, and [edit.stopOperation(); edit.stopEditing(False)], the
    [except] block before its [raise]. *)
Definition commit : M G unit := stopOperation ;;; stopEditing true.
Definition rollback : M G unit := stopOperation ;;; stopEditing false.

(** [[field.name for field in arcpy.ListFields(path)]] *)
Definition ListFields (path : string) : M G (list string) :=
  fun w =>
    match tables w !! path with
    | None => (Raise (RuntimeError "cannot open the table"), w)
    | Some fc => (Ok (fc_fields fc), w)
    end.

Definition AddField (path field_name : string) : M G unit :=
  fun w =>
    match tables w !! path with
    | None => (Raise (RuntimeError "cannot open the table"), w)
    | Some fc =>
        (Ok tt,
         World (<[path := FeatureClass (fc_fields fc ++ [field_name])
                                        (fc_rows fc)]> (tables w))
               (session w) (log w ++ [EAddField path field_name]))
    end.

Definition drop_field (field_name : string) (f : feature G) : feature G :=
  Feature (shape f) (delete field_name (attrs f)).

Definition DeleteField (path field_name : string) : M G unit :=
  fun w =>
    match tables w !! path with
    | None => (Raise (RuntimeError "cannot open the table"), w)
    | Some fc =>
        (Ok tt,
         World (<[path :=
                    FeatureClass
                      (List.filter (fun k => negb (bool_decide (k = field_name)))
                                   (fc_fields fc))
                      (map (drop_field field_name) (fc_rows fc))]> (tables w))
               (session w) (log w ++ [EDeleteField path field_name]))
    end.

(** The spatial join with [KEEP_COMMON] and [INTERSECT]: the output has a
    row for a target feature and a join feature whose shapes intersect (the
    first such join feature with [JOIN_ONE_TO_ONE], each of them with
    [JOIN_ONE_TO_MANY]); the row has the join feature's attributes and, as
    [TARGET_FID], the target feature's [OBJECTID].  The attributes of the
    target feature are not carried over: the routines read none of them. *)
Definition matches (t j : feature G) : bool :=
  match shape t, shape j with
  | Some a, Some b => intersects a b
  | _, _ => false
  end.

Definition joined (t j : feature G) : feature G :=
  Feature (shape t) (<["TARGET_FID" := get_field t "OBJECTID"]> (attrs j)).

Definition join_rows (op : join_operation) (ts js : list (feature G))
    : list (feature G) :=
  flat_map
    (fun t =>
       let ms := List.filter (matches t) js in
       match op with
       | JOIN_ONE_TO_ONE =>
           match ms with
           | [] => []
           | j :: _ => [joined t j]
           end
       | JOIN_ONE_TO_MANY => map (joined t) ms
       end) ts.

Definition SpatialJoin (target_features join_features out_feature_class : string)
    (op : join_operation) : M G unit :=
  fun w =>
    match tables w !! target_features, tables w !! join_features with
    | Some tfc, Some jfc =>
        (Ok tt,
         World (<[out_feature_class :=
                    FeatureClass ("TARGET_FID" :: fc_fields jfc)
                                 (join_rows op (fc_rows tfc) (fc_rows jfc))]>
                  (tables w))
               (session w) (log w))
    | _, _ => (Raise (RuntimeError "cannot open the table"), w)
    end.

(** [if arcpy.Exists(path): arcpy.management.Delete(path)] *)
Definition Delete_if_exists (path : string) : M G unit :=
  fun w => (Ok tt, World (delete path (tables w)) (session w) (log w)).

(** [arcpy.management.Delete(path)], which fails on a dataset that does
    not exist *)
Definition Delete (path : string) : M G unit :=
  fun w =>
    match tables w !! path with
    | None => (Raise (RuntimeError "the dataset does not exist"), w)
    | Some _ => (Ok tt, World (delete path (tables w)) (session w) (log w))
    end.

(** [if path: m], on a path that may be [None] *)
Definition if_path (path : option string) (m : string -> M G unit)
    : M G unit :=
  match path with
  | Some p => if truthy (VStr p) then m p else ret tt
  | None => ret tt
  end.

(** [try: body  except Exception: handler; raise] *)
Definition try_except {A} (body : M G A) (handler : M G unit) : M G A :=
  fun w =>
    match body w with
    | (Ok a, w') => (Ok a, w')
    | (Raise e, w') =>
        match handler w' with
        | (Ok _, w'') => (Raise e, w'')
        | (Raise e', w'') => (Raise e', w'')
        end
    end.

(** [try: body  finally: fin]: an exception of [fin] replaces the outcome
    of [body]. *)
Definition try_finally {A} (body : M G A) (fin : M G unit) : M G A :=
  fun w =>
    match body w with
    | (o, w') =>
        match fin w' with
        | (Ok _, w'') => (o, w'')
        | (Raise e', w'') => (Raise e', w'')
        end
    end.

(** A [try] block whose locals are read after an exception: the block
    yields its frame of locals next to its outcome. *)
Definition framed (L A : Type) : Type := world G -> (L * outcome A) * world G.

(** [try: body  except Exception: handler; raise], on a framed block *)
Definition except_reraise {L A} (body : framed L A) (handler : M G unit)
    : framed L A :=
  fun w =>
    match body w with
    | ((l, Ok a), w') => ((l, Ok a), w')
    | ((l, Raise e), w') =>
        match handler w' with
        | (Ok _, w'') => ((l, Raise e), w'')
        | (Raise e', w'') => ((l, Raise e'), w'')
        end
    end.

(** [try: body  finally: fin], where [fin] reads the frame *)
Definition finally_with {L A} (body : framed L A) (fin : L -> M G unit)
    : M G A :=
  fun w =>
    match body w with
    | ((l, o), w') =>
        match fin l w' with
        | (Ok _, w'') => (o, w'')
        | (Raise e', w'') => (Raise e', w'')
        end
    end.

End Library.

Arguments row G : clear implicits.
Arguments updater G L : clear implicits.
Arguments framed G L A : clear implicits.

(** ** Loop bodies shared by the two utility scripts

    Where [BG_Utility_Geodatabase.py] and [ROM_Utility_Geodatabase.py] have
    the same statements, the statements are embedded once. *)

Section Bodies.
Context {G : Type} `{!Geometry G}.

(** [{names[i]: vals[i] for i in range(len(names))}] *)
Definition dict_of_columns (names : list string) (vals : list value)
    : gmap string value :=
  foldl (fun d kv => <[kv.1 := kv.2]> d) ∅ (zip names vals).

(** [update_fc_from_dict], the search loop:
    [origin_fc_dict[row[0]] = {source_fields[i]: row[i + 1] ...}] *)
Definition build_origin_fc_dict (source_fields : list string)
    (rows : list (row G)) : gmap value (gmap string value) :=
  foldl
    (fun d r =>
       <[col (row_vals r) 0 :=
           dict_of_columns source_fields (tail (row_vals r))]> d)
    ∅ rows.

(** [for i in range(len(destination_fields)):
       row[i+1] = related_data[field_pairs[i][0]]] *)
Fixpoint assign_related (related_data : gmap string value)
    (field_pairs : list (string * string)) (i : nat) (vals : list value)
    : outcome (list value) :=
  match field_pairs with
  | [] => Ok vals
  | fp :: rest =>
      match related_data !! fp.1 with
      | Some v => assign_related related_data rest (S i) (<[S i := v]> vals)
      | None => Raise (KeyError fp.1)
      end
  end.

(** [update_fc_from_dict], the body of the update loop.  The local is
    [common_guid], unbound ([None]) until the first row. *)
Definition copy_related (origin_fc_dict : gmap value (gmap string value))
    (field_pairs : list (string * string)) : updater G (option value) :=
  fun _ r =>
    let common_guid := col (row_vals r) 0 in
    match origin_fc_dict !! common_guid with
    | Some related_data =>
        match assign_related related_data field_pairs 0 (row_vals r) with
        | Ok vals => (Some common_guid, Ok (Some vals))
        | Raise e => (Some common_guid, Raise e)
        end
    | None => (Some common_guid, Ok None)
    end.

(** [update_mig_voltage.update_field], the search loop:
    [if key and voltage: origin_fc_dict[key] = voltage] *)
Definition build_voltage_dict (rows : list (row G)) : gmap value value :=
  foldl
    (fun d r =>
       let key := col (row_vals r) 0 in
       let voltage := col (row_vals r) 1 in
       if truthy key && truthy voltage then <[key := voltage]> d else d)
    ∅ rows.

(** [update_mig_voltage.update_field], the body of the update loop *)
Definition copy_voltage (origin_fc_dict : gmap value value)
    : updater G unit :=
  fun _ r =>
    let common_guid := col (row_vals r) 0 in
    match origin_fc_dict !! common_guid with
    | Some voltage => (tt, Ok (Some (<[1%nat := voltage]> (row_vals r))))
    | None => (tt, Ok None)
    end.

(** [update_field_based_on_whether_it_lies], the search loop over the
    joined layer:
    [if row[0] not in updated_features: features_to_update.add(row[0])] *)
Definition collect_features_to_update (updated_features : gset value)
    (rows : list (row G)) : gset value :=
  foldl
    (fun features_to_update r =>
       if decide (col (row_vals r) 0 ∈ updated_features)
       then features_to_update
       else features_to_update ∪ {[col (row_vals r) 0]})
    ∅ rows.

(** [update_field_based_on_whether_it_lies], the body of the update loop.
    The locals are [updated_features] and [local_count]. *)
Definition mark_parenttype (features_to_update : gset value) (v : value)
    : updater G (gset value * nat) :=
  fun '(updated_features, local_count) r =>
    if decide (col (row_vals r) 1 ∈ features_to_update)
    then ((updated_features ∪ {[col (row_vals r) 1]}, S local_count),
          Ok (Some (<[0%nat := v]> (row_vals r))))
    else ((updated_features, local_count), Ok None).

(** [station_dict = {row[0]: row[1] for row in SearchCursor(station_fc,
    [globalid_field, 'SHAPE@'])}]: a Python dictionary keeps its keys in
    the order of their first insertion, and a later value for a key
    replaces the earlier one in place. *)
Fixpoint dict_set {V} (k : value) (v : V) (d : list (value * V))
    : list (value * V) :=
  match d with
  | [] => [(k, v)]
  | (k', v') :: rest =>
      if decide (k = k') then (k, v) :: rest
      else (k', v') :: dict_set k v rest
  end.

Definition build_station_dict (rows : list (row G))
    : list (value * option G) :=
  foldl (fun d r => dict_set (col (row_vals r) 0) (row_shape r) d) [] rows.

(** The loop over [station_dict.items()] of the two boundary routines of
    [BG_Utility_Geodatabase.py], for a geometry that is not [None]: the
    first station whose polygon passes the [if] (within) or the [elif]
    ([touches] for points, [not disjoint] for lines) ends the loop; a
    station without polygon is skipped.  The result is the station's
    global ID and whether the [if] branch was taken. *)
Fixpoint scan_stations (elif_test : G -> G -> bool)
    (items : list (value * option G)) (geom : G) : option (value * bool) :=
  match items with
  | [] => None
  | (station_global_id, None) :: rest => scan_stations elif_test rest geom
  | (station_global_id, Some station_polygon) :: rest =>
      if within geom station_polygon then Some (station_global_id, true)
      else if elif_test geom station_polygon
           then Some (station_global_id, false)
           else scan_stations elif_test rest geom
  end.

(** The same loop in [ROM_Utility_Geodatabase.py], which has no test for
    [None]: on a [None] geometry the first [geom.within(...)] is an
    attribute error.  What the library's [within] does with a [None]
    polygon is not in the source; here it raises too. *)
Fixpoint scan_stations_unguarded (elif_test : G -> G -> bool)
    (items : list (value * option G)) (geom : option G)
    : outcome (option (value * bool)) :=
  match items with
  | [] => Ok None
  | (station_global_id, station_polygon) :: rest =>
      match geom, station_polygon with
      | None, _ =>
          Raise (AttributeError "'NoneType' object has no attribute 'within'")
      | Some g, None => Raise (TypeError "within(None)")
      | Some g, Some p =>
          if within g p then Ok (Some (station_global_id, true))
          else if elif_test g p then Ok (Some (station_global_id, false))
               else scan_stations_unguarded elif_test rest geom
      end
  end.

(** What the loop body then stores.  The cursor is on
    [['SHAPE@', mig_stationguid_field, field_name]]: Python's [row[1]] and
    [row[2]] are the attribute columns 0 and 1. *)
Definition store_status (elif_label : string) (hit : option (value * bool))
    (vals : list value) : list value :=
  match hit with
  | Some (station_global_id, inside) =>
      <[1%nat := VStr (if inside then "Inside" else elif_label)]>
        (<[0%nat := station_global_id]> vals)
  | None => <[1%nat := VStr "Outside"]> (<[0%nat := VNone]> vals)
  end.

Definition station_status (elif_test : G -> G -> bool) (elif_label : string)
    (station_dict : list (value * option G)) : updater G unit :=
  fun _ r =>
    match row_shape r with
    | None => (tt, Ok None)
    | Some geom =>
        (tt, Ok (Some (store_status elif_label
                         (scan_stations elif_test station_dict geom)
                         (row_vals r))))
    end.

Definition station_status_unguarded (elif_test : G -> G -> bool)
    (elif_label : string) (station_dict : list (value * option G))
    : updater G unit :=
  fun _ r =>
    match scan_stations_unguarded elif_test station_dict (row_shape r) with
    | Raise e => (tt, Raise e)
    | Ok hit => (tt, Ok (Some (store_status elif_label hit (row_vals r))))
    end.

Definition not_disjoint (a b : G) : bool := negb (disjoint a b).

(** [update_fc_within], the body of the update loop of
    [BG_Utility_Geodatabase.py].  The cursor is on
    [['SHAPE@', 'MIG_PARENTTYPE']]: Python's [row[1]] is the attribute
    column 0. *)
Definition within_any (inner_polygon : G) (outer_polygons : list (option G))
    : bool :=
  existsb
    (fun outer =>
       match outer with
       | Some o => within inner_polygon o
       | None => false
       end)
    outer_polygons.

Definition mark_station (outer_polygons : list (option G)) : updater G unit :=
  fun _ r =>
    match row_shape r with
    | None => (tt, Ok None)
    | Some inner_polygon =>
        if within_any inner_polygon outer_polygons
        then (tt, Ok (Some (<[0%nat := VStr "Station"]> (row_vals r))))
        else (tt, Ok None)
    end.

(** [any(inner_polygon.within(outer) for outer in outer_polygons)] of
    [ROM_Utility_Geodatabase.py], evaluated lazily and without a test for
    [None]. *)
Fixpoint within_any_unguarded (inner_polygon : option G)
    (outer_polygons : list (option G)) : outcome bool :=
  match outer_polygons with
  | [] => Ok false
  | outer :: rest =>
      match inner_polygon, outer with
      | None, _ =>
          Raise (AttributeError "'NoneType' object has no attribute 'within'")
      | Some g, None => Raise (TypeError "within(None)")
      | Some g, Some o =>
          if within g o then Ok true
          else within_any_unguarded inner_polygon rest
      end
  end.

Definition mark_station_unguarded (outer_polygons : list (option G))
    : updater G unit :=
  fun _ r =>
    match within_any_unguarded (row_shape r) outer_polygons with
    | Raise e => (tt, Raise e)
    | Ok true => (tt, Ok (Some (<[0%nat := VStr "Station"]> (row_vals r))))
    | Ok false => (tt, Ok None)
    end.

(** [fields.index(x)], the first position of [x] *)
Fixpoint index_of (x : string) (l : list string) : option nat :=
  match l with
  | [] => None
  | y :: rest => if decide (x = y) then Some 0%nat else S <$> index_of x rest
  end.

(** [str(v)] *)
Definition py_str (v : value) : value :=
  match v with
  | VNone => VStr "None"
  | VInt z => VStr (pretty z)
  | VStr s => VStr s
  end.

(** [needle in s], on strings *)
Definition contains (needle s : string) : bool :=
  match String.index 0 needle s with
  | Some _ => true
  | None => false
  end.

(** [update_fc_self], the loop over [update_sub_tuple[1:]]:
    [row[target_index] = ...], where [convert] is what the script does to
    the source value for a target field. *)
Fixpoint assign_targets (convert : string -> value -> value)
    (fields : list string) (source_value : value) (targets : list string)
    (vals : list value) : outcome (list value) :=
  match targets with
  | [] => Ok vals
  | each_target_field :: rest =>
      match index_of each_target_field fields with
      | Some target_index =>
          assign_targets convert fields source_value rest
            (<[target_index := convert each_target_field source_value]> vals)
      | None => Raise (ValueError "not in list")
      end
  end.

(** [update_fc_self], the loop over [field_updates]; a tuple is the list
    of its field names, and [update_sub_tuple[0]] of an empty tuple is an
    index error. *)
Fixpoint self_update (convert : string -> value -> value)
    (fields : list string) (field_updates : list (list string))
    (vals : list value) : outcome (list value) :=
  match field_updates with
  | [] => Ok vals
  | update_sub_tuple :: rest =>
      match update_sub_tuple with
      | [] => Raise (IndexError "tuple index out of range")
      | source_field :: targets =>
          match index_of source_field fields with
          | None => Raise (ValueError "not in list")
          | Some source_index =>
              match assign_targets convert fields (col vals source_index)
                      targets vals with
              | Ok vals' => self_update convert fields rest vals'
              | Raise e => Raise e
              end
          end
      end
  end.

(** [update_fc_self], the body of the update loop *)
Definition copy_self (convert : string -> value -> value)
    (fields : list string) (field_updates : list (list string))
    : updater G unit :=
  fun _ r =>
    match self_update convert fields field_updates (row_vals r) with
    | Ok vals => (tt, Ok (Some vals))
    | Raise e => (tt, Raise e)
    end.

(** [update_mig_issource], the body of the update loop, on the cursor
    fields [SUBSOURCE, MIG_ISSOURCE, OBJECTID]; [relationship_exists] is
    the result of [check_relationship] for a value, [False] when the check
    raised. *)
Definition mark_issource (relationship_exists : value -> bool)
    : updater G unit :=
  fun _ r =>
    match row_vals r with
    | subsource :: _ :: objectid_value :: _ =>
        if relationship_exists objectid_value
        then (tt, Ok (Some (<[1%nat := VInt 1]> (row_vals r))))
        else if decide (subsource = VInt 1)
             then (tt, Ok (Some (<[1%nat := VInt 2]> (row_vals r))))
             else (tt, Ok (Some (row_vals r)))
    | _ => (tt, Raise (IndexError "list index out of range"))
    end.

(** [update_mig_issource] of the script for ROM, the body of the update
    loop, on the cursor fields [SUBSOURCE, MIG_ISSOURCE, GLOBALID].
    [relationship] is [None] when the call names no source or no column,
    and else the outcome of [check_relationship] for a value; when the
    check raises, the [except] block leaves the row as it was read. *)
Definition mark_issource_rom (relationship : option (value -> outcome bool))
    : updater G unit :=
  fun _ r =>
    match row_vals r with
    | subsource :: _ :: global_id_value :: _ =>
        match relationship with
        | Some check =>
            match check global_id_value with
            | Ok relationship_exists =>
                if decide (subsource = VInt 1)
                then (tt, Ok (Some (<[1%nat := VInt 2]> (row_vals r))))
                else if relationship_exists
                     then (tt, Ok (Some (<[1%nat := VInt 1]> (row_vals r))))
                     else (tt, Ok (Some (row_vals r)))
            | Raise _ => (tt, Ok (Some (row_vals r)))
            end
        | None =>
            if decide (subsource = VInt 1)
            then (tt, Ok (Some (<[1%nat := VInt 2]> (row_vals r))))
            else (tt, Ok (Some (row_vals r)))
        end
    | _ => (tt, Raise (IndexError "list index out of range"))
    end.

End Bodies.

(** ** [ROM_Utility_Geodatabase.py]

    The routines of this script edit through bare update cursors: there is
    no editor object and no [try] in them. *)

Module ROM.
Section Routines.
Context {G : Type} `{!Geometry G}.
Local Open Scope py_scope.

Definition update_fc_from_dict (source_fc destination_fc : string)
    (source_key_field destination_key_field : string)
    (field_pairs : list (string * string))
    (where_clause : feature G -> bool) : M G unit :=
  let source_fields := field_pairs.*1 in
  let destination_fields := field_pairs.*2 in
  let fields_to_retrieve := source_key_field :: source_fields in
  rows <- SearchCursor source_fc fields_to_retrieve ;;
  let origin_fc_dict := build_origin_fc_dict source_fields rows in
  let fields_to_update := destination_key_field :: destination_fields in
  _ <- for_update destination_fc fields_to_update where_clause
         (copy_related origin_fc_dict field_pairs) None ;;
  ret tt.

Definition update_fc_within (inner_fc outer_fc : string) : M G unit :=
  outer_rows <- SearchCursor outer_fc [] ;;
  let outer_polygons := map row_shape outer_rows in
  for_update inner_fc ["MIG_PARENTTYPE"] all_rows
    (mark_station_unguarded outer_polygons) tt.

(** [update_mig_voltage.update_field] *)
Definition update_field (source_fc destination_fc : string)
    (source_globalid operatingvoltage dest_globalid mig_voltage : string)
    : M G unit :=
  let fields_to_retrieve := [source_globalid; operatingvoltage] in
  rows <- SearchCursor source_fc fields_to_retrieve ;;
  let origin_fc_dict := build_voltage_dict rows in
  for_update destination_fc [dest_globalid; mig_voltage] all_rows
    (copy_voltage origin_fc_dict) tt.

Definition temp_join : string := "TempJoin".

(** [update_field_based_on_whether_it_lies], the loop over
    [mapping_layers.items()] *)
Fixpoint lies_layers (target_fc : string) (mig_parenttype objectid : string)
    (layers : list (string * value)) (updated_features : gset value)
    : M G (gset value) :=
  match layers with
  | [] => ret updated_features
  | (join_fc, v) :: rest =>
      SpatialJoin target_fc join_fc temp_join JOIN_ONE_TO_ONE ;;;
      rows <- SearchCursor temp_join ["TARGET_FID"] ;;
      let features_to_update :=
        collect_features_to_update updated_features rows in
      frame <- for_update target_fc [mig_parenttype; objectid] all_rows
                 (mark_parenttype features_to_update v)
                 (updated_features, 0%nat) ;;
      Delete_if_exists temp_join ;;;
      lies_layers target_fc mig_parenttype objectid rest frame.1
  end.

Definition update_field_based_on_whether_it_lies (target_fc : string)
    (mapping_layers : list (string * value))
    (mig_parenttype objectid : string) : M G unit :=
  _ <- lies_layers target_fc mig_parenttype objectid mapping_layers ∅ ;;
  ret tt.

(** The two boundary routines differ in the [elif] test, in its label and
    in the name of the status field; the cursor names the status field and
    [GLOBALID] themselves, whatever [field_name] is. *)
Definition update_fc_within_station_boundary
    (elif_test : G -> G -> bool) (elif_label status_field : string)
    (fc station_fc : string) (field_name : string) : M G unit :=
  fields <- ListFields fc ;;
  field_added <-
    (if decide (field_name ∈ fields) then ret false
     else (AddField fc field_name ;;; ret true)) ;;
  station_rows <- SearchCursor station_fc ["GLOBALID"] ;;
  let station_dict := build_station_dict station_rows in
  for_update fc ["MIG_STATIONGUID"; status_field] all_rows
    (station_status_unguarded elif_test elif_label station_dict) tt ;;;
  if field_added : bool then DeleteField fc field_name else ret tt.

Definition update_line_fc_within_station_boundary (line_fc station_fc : string)
    (field_name : string) : M G unit :=
  update_fc_within_station_boundary not_disjoint "Partly Inside"
    "LINE_STATUS" line_fc station_fc field_name.

Definition update_point_fc_within_station_boundary
    (point_fc station_fc : string) (field_name : string) : M G unit :=
  update_fc_within_station_boundary touches "On Boundary"
    "POINT_STATUS" point_fc station_fc field_name.

(** [update_fc_self]: a target field with [TEXT] in its name gets the
    source value as a string. *)
Definition update_fc_self (source_fc : string)
    (field_updates : list (list string)) : M G unit :=
  let fields := concat field_updates in
  for_update source_fc fields all_rows
    (copy_self
       (fun each_target_field source_value =>
          if contains "TEXT" each_target_field then py_str source_value
          else source_value)
       fields field_updates) tt.

Definition check_relationship (source_fc global_id_column : string)
    (global_id_value : value) : M G bool :=
  rows <- SearchCursor source_fc [global_id_column] ;;
  ret (existsb (fun r => bool_decide (col (row_vals r) 0 = global_id_value))
               rows).

(** [update_mig_issource]; [None] is the default of [source_fc] and of
    [global_id_column].  The check reads the source table as it is when
    the update loop starts: the loop stores back what it read in every
    column but [MIG_ISSOURCE] of the destination. *)
Definition update_mig_issource (dest_fc : string)
    (source_fc global_id_column : option string) : M G unit :=
  let fields := ["SUBSOURCE"; "MIG_ISSOURCE"; "GLOBALID"] in
  fun w =>
    let relationship :=
      match source_fc, global_id_column with
      | Some s, Some c =>
          if truthy (VStr s) && truthy (VStr c)
          then Some (fun global_id_value =>
                       (check_relationship s c global_id_value w).1)
          else None
      | _, _ => None
      end in
    for_update dest_fc fields all_rows (mark_issource_rom relationship) tt w.

End Routines.
End ROM.

(** ** [BG_Utility_Geodatabase.py]

    Each routine makes an editor for the geodatabase of the table it
    updates, and runs its update loop inside [startEditing] /
    [startOperation] and a [try]. *)

Module BG.
Section Routines.
Context {G : Type} `{!Geometry G}.
Local Open Scope py_scope.

(** [update_fc_from_dict], the [try] block.  Its frame is [common_guid],
    which the [finally] block reads. *)
Definition update_fc_from_dict_try (source_fc destination_fc : string)
    (source_key_field destination_key_field : string)
    (field_pairs : list (string * string))
    (where_clause : feature G -> bool) : framed G (option value) unit :=
  let source_fields := field_pairs.*1 in
  let destination_fields := field_pairs.*2 in
  let fields_to_retrieve := source_key_field :: source_fields in
  fun w =>
    match SearchCursor source_fc fields_to_retrieve w with
    | (Raise e, w1) => ((None, Raise e), w1)
    | (Ok rows, w1) =>
        let origin_fc_dict := build_origin_fc_dict source_fields rows in
        let fields_to_update := destination_key_field :: destination_fields in
        match UpdateCursor destination_fc fields_to_update where_clause
                (copy_related origin_fc_dict field_pairs) None w1 with
        | ((common_guid, Raise e), w2) => ((common_guid, Raise e), w2)
        | ((common_guid, Ok _), w2) =>
            match commit w2 with
            | (o, w3) => ((common_guid, o), w3)
            end
        end
    end.

(** [update_fc_from_dict], the [finally] block: the warning is formatted
    with [common_guid], a local that is bound by the first row of the
    update loop only. *)
Definition update_fc_from_dict_finally (common_guid : option value)
    : M G unit :=
  match common_guid with
  | Some guid => emit (EAddWarning guid)
  | None => raise (UnboundLocalError "common_guid")
  end.

Definition update_fc_from_dict (source_fc destination_fc : string)
    (source_key_field destination_key_field : string)
    (field_pairs : list (string * string))
    (where_clause : feature G -> bool) : M G unit :=
  Describe destination_fc ;;;
  startEditing false true ;;;
  startOperation ;;;
  finally_with
    (except_reraise
       (update_fc_from_dict_try source_fc destination_fc source_key_field
          destination_key_field field_pairs where_clause)
       rollback)
    update_fc_from_dict_finally.

Definition update_fc_within (inner_fc outer_fc : string) : M G unit :=
  outer_rows <- SearchCursor outer_fc [] ;;
  let outer_polygons := map row_shape outer_rows in
  Describe inner_fc ;;;
  startEditing false true ;;;
  startOperation ;;;
  try_except
    (for_update inner_fc ["MIG_PARENTTYPE"] all_rows
       (mark_station outer_polygons) tt ;;;
     commit)
    rollback.

(** [update_mig_voltage.update_field]; [dest_fc] is the variable of the
    enclosing [update_mig_voltage] the editor is made for.  The [else]
    block of the [try] commits. *)
Definition update_field (dest_fc : string) (source_fc destination_fc : string)
    (source_globalid operatingvoltage dest_globalid mig_voltage : string)
    : M G unit :=
  let fields_to_retrieve := [source_globalid; operatingvoltage] in
  Describe dest_fc ;;;
  startEditing false true ;;;
  startOperation ;;;
  try_except
    (rows <- SearchCursor source_fc fields_to_retrieve ;;
     let origin_fc_dict := build_voltage_dict rows in
     for_update destination_fc [dest_globalid; mig_voltage] all_rows
       (copy_voltage origin_fc_dict) tt)
    rollback ;;;
  commit.

Definition temp_join : string := "TempJoin".

(** [update_field_based_on_whether_it_lies], the [try] block of one layer.
    Its frame is [local_count], which the [finally] block prints; its
    result is [updated_features] and the count. *)
Definition lies_try (target_fc : string) (mig_parenttype objectid : string)
    (v : value) (updated_features : gset value) (local_count : option nat)
    : framed G (option nat) (gset value * nat) :=
  fun w =>
    match SearchCursor temp_join ["TARGET_FID"] w with
    | (Raise e, w1) => ((local_count, Raise e), w1)
    | (Ok rows, w1) =>
        let features_to_update :=
          collect_features_to_update updated_features rows in
        match UpdateCursor target_fc [mig_parenttype; objectid] all_rows
                (mark_parenttype features_to_update v)
                (updated_features, 0%nat) w1 with
        | ((frame, Raise e), w2) => ((Some frame.2, Raise e), w2)
        | ((frame, Ok _), w2) =>
            match commit w2 with
            | (Ok _, w3) => ((Some frame.2, Ok frame), w3)
            | (Raise e, w3) => ((Some frame.2, Raise e), w3)
            end
        end
    end.

Definition lies_finally (local_count : option nat) : M G unit :=
  match local_count with
  | Some _ => Delete_if_exists temp_join
  | None => raise (UnboundLocalError "local_count")
  end.

Fixpoint lies_layers (target_fc : string) (mig_parenttype objectid : string)
    (layers : list (string * value)) (updated_features : gset value)
    (local_count : option nat) : M G (gset value) :=
  match layers with
  | [] => ret updated_features
  | (join_fc, v) :: rest =>
      SpatialJoin target_fc join_fc temp_join JOIN_ONE_TO_ONE ;;;
      Describe target_fc ;;;
      startEditing false true ;;;
      startOperation ;;;
      frame <- finally_with
                 (except_reraise
                    (lies_try target_fc mig_parenttype objectid v
                       updated_features local_count)
                    rollback)
                 lies_finally ;;
      lies_layers target_fc mig_parenttype objectid rest frame.1
        (Some frame.2)
  end.

Definition update_field_based_on_whether_it_lies (target_fc : string)
    (mapping_layers : list (string * value))
    (mig_parenttype objectid : string) : M G unit :=
  _ <- lies_layers target_fc mig_parenttype objectid mapping_layers ∅ None ;;
  ret tt.

Definition classify_junction (subtypes : gset value)
    (overhead_types underground_types : list value) : string :=
  if forallb (fun subtype => bool_decide (subtype ∈ overhead_types))
             (elements subtypes)
  then "Overhead Conductor"
  else if forallb (fun subtype => bool_decide (subtype ∈ underground_types))
                  (elements subtypes)
       then "Underground Conductor"
       else "Overhead Conductor Underground Conductor".

Definition overhead_types : list value :=
  [VStr "Въздушна линия ВН"; VStr "Въздушна линия СрН";
   VStr "Въздушна линия НН"; VStr "Въздушна изолирана линия СрН";
   VStr "Въздушна изолирана линия НН"].

Definition underground_types : list value :=
  [VStr "Кабелна линия ВН"; VStr "Кабелна линия СрН";
   VStr "Кабелна линия НН"; VStr "Земно въже ВН"; VStr "Земно въже СрН"].

Definition temp_join_conductor : string := "TempJoinConductor".

(** [update_conductor_type], the search loop over the joined layer:
    [junction_conductor_map[target_fid].add(subtype_cd)] *)
Definition build_junction_conductor_map (rows : list (row G))
    : gmap value (gset value) :=
  foldl
    (fun m r =>
       let target_fid := col (row_vals r) 0 in
       let subtype_cd := col (row_vals r) 1 in
       <[target_fid := default ∅ (m !! target_fid) ∪ {[subtype_cd]}]> m)
    ∅ rows.

(** [update_conductor_type], the body of the update loop; the local is
    [updated_count]. *)
Definition retype_conductor (junction_conductor_map : gmap value (gset value))
    : updater G nat :=
  fun updated_count r =>
    if decide (col (row_vals r) 0 = VStr "Conductor") then
      match junction_conductor_map !! col (row_vals r) 1 with
      | Some subtype_set =>
          (S updated_count,
           Ok (Some (<[0%nat := VStr (classify_junction subtype_set
                                        overhead_types underground_types)]>
                       (row_vals r))))
      | None => (updated_count, Ok None)
      end
    else (updated_count, Ok None).

Definition update_conductor_type (target_fc conductor_fc : string)
    (mig_parenttype subtype_field : string) : M G unit :=
  SpatialJoin target_fc conductor_fc temp_join_conductor JOIN_ONE_TO_MANY ;;;
  rows <- SearchCursor temp_join_conductor ["TARGET_FID"; subtype_field] ;;
  let junction_conductor_map := build_junction_conductor_map rows in
  Describe target_fc ;;;
  startEditing false true ;;;
  startOperation ;;;
  try_finally
    (try_except
       (_ <- for_update target_fc [mig_parenttype; "OBJECTID"] all_rows
               (retype_conductor junction_conductor_map) 0%nat ;;
        commit)
       rollback)
    (Delete_if_exists temp_join_conductor).

(** The two boundary routines differ in the [elif] test and in its label. *)
Definition update_fc_within_station_boundary
    (elif_test : G -> G -> bool) (elif_label : string)
    (fc station_fc : string) (globalid_field mig_stationguid_field : string)
    (field_name : string) : M G unit :=
  fields <- ListFields fc ;;
  field_added <-
    (if decide (field_name ∈ fields) then ret false
     else (AddField fc field_name ;;; ret true)) ;;
  station_rows <- SearchCursor station_fc [globalid_field] ;;
  let station_dict := build_station_dict station_rows in
  Describe fc ;;;
  startEditing false true ;;;
  startOperation ;;;
  try_finally
    (try_except
       (for_update fc [mig_stationguid_field; field_name] all_rows
          (station_status elif_test elif_label station_dict) tt ;;;
        commit)
       rollback)
    (if field_added : bool then DeleteField fc field_name else ret tt).

Definition update_line_fc_within_station_boundary (line_fc station_fc : string)
    (globalid_field mig_stationguid_field : string) (field_name : string)
    : M G unit :=
  update_fc_within_station_boundary not_disjoint "Partly Inside"
    line_fc station_fc globalid_field mig_stationguid_field field_name.

Definition update_point_fc_within_station_boundary
    (point_fc station_fc : string)
    (globalid_field mig_stationguid_field : string) (field_name : string)
    : M G unit :=
  update_fc_within_station_boundary touches "On Boundary"
    point_fc station_fc globalid_field mig_stationguid_field field_name.

(** [update_fc_self]: a target field with [TEXT] in its name gets the
    source value as a string. *)
Definition update_fc_self (source_fc : string)
    (field_updates : list (list string)) : M G unit :=
  let fields := concat field_updates in
  Describe source_fc ;;;
  startEditing false true ;;;
  startOperation ;;;
  try_except
    (for_update source_fc fields all_rows
       (copy_self
          (fun each_target_field source_value =>
             if contains "TEXT" each_target_field then py_str source_value
             else source_value)
          fields field_updates) tt ;;;
     commit)
    rollback.

Definition check_relationship (source_fc global_id_column : string)
    (global_id_value : value) : M G bool :=
  rows <- SearchCursor source_fc [global_id_column] ;;
  ret (existsb (fun r => bool_decide (col (row_vals r) 0 = global_id_value))
               rows).

(** [update_mig_issource]; [None] is the default of [source_fc], of
    [objectid_column] and of [fields], and an update cursor takes no
    [None] for its fields.  The inner [try] turns an exception of
    [check_relationship] into [False].  The check reads the source table
    as it is when the update loop starts: the loop stores back what it
    read in every column but the second one of the destination. *)
Definition update_mig_issource (dest_fc : string)
    (source_fc objectid_column : option string)
    (fields : option (list string)) : M G unit :=
  Describe dest_fc ;;;
  startEditing false true ;;;
  startOperation ;;;
  try_except
    (fun w =>
       let relationship_exists objectid_value :=
         match source_fc, objectid_column with
         | Some s, Some c =>
             if truthy (VStr s) && truthy (VStr c) then
               match check_relationship s c objectid_value w with
               | (Ok b, _) => b
               | (Raise _, _) => false
               end
             else false
         | _, _ => false
         end in
       match fields with
       | Some fields =>
           (for_update dest_fc fields all_rows
              (mark_issource relationship_exists) tt ;;;
            commit) w
       | None => (Raise (TypeError "field_names"), w)
       end)
    rollback.

(** [update_mig_voltage]; a layer name that is [None] or empty is left
    out.  The two [except] blocks print and raise.  The spatial joins are
    made without a field mapping: [OPERATINGVOLTAGE] of the output is read
    as the field of the join feature, which it is when the destination has
    no field of that name. *)
Definition update_mig_voltage (join_internal join_conductor join_busbar
    : option string) (dest_fc : string) : M G unit :=
  try_except
    (if_path join_internal
       (fun out =>
          SpatialJoin dest_fc "Свързваща линия" out JOIN_ONE_TO_ONE) ;;;
     if_path join_conductor
       (fun out => SpatialJoin dest_fc "Проводник" out JOIN_ONE_TO_ONE) ;;;
     if_path join_busbar
       (fun out => SpatialJoin dest_fc "Шина" out JOIN_ONE_TO_ONE))
    (ret tt) ;;;
  try_except
    (if_path join_internal
       (fun source_fc =>
          update_field dest_fc source_fc dest_fc "TARGET_FID"
            "OPERATINGVOLTAGE" "OBJECTID" "MIG_VOLTAGE") ;;;
     if_path join_conductor
       (fun source_fc =>
          update_field dest_fc source_fc dest_fc "TARGET_FID"
            "OPERATINGVOLTAGE" "OBJECTID" "MIG_VOLTAGE") ;;;
     if_path join_busbar
       (fun source_fc =>
          update_field dest_fc source_fc dest_fc "TARGET_FID"
            "OPERATINGVOLTAGE" "OBJECTID" "MIG_VOLTAGE") ;;;
     if_path join_internal Delete ;;;
     if_path join_conductor Delete ;;;
     if_path join_busbar Delete)
    (ret tt).

End Routines.
End BG.

(** ** [add_DB_GLOBALID__DB_OBJECTID.py] *)

Module AddDB.
Section Routines.
Context {G : Type} `{!Geometry G}.
Local Open Scope py_scope.

(** [update_fc_self]: every target field gets the source value as it
    is. *)
Definition update_fc_self (source_fc : string)
    (field_updates : list (list string)) : M G unit :=
  let fields := concat field_updates in
  Describe source_fc ;;;
  startEditing false true ;;;
  startOperation ;;;
  try_except
    (for_update source_fc fields all_rows
       (copy_self (fun _ source_value => source_value) fields field_updates)
       tt ;;;
     commit)
    rollback.

End Routines.
End AddDB.

(** ** A geometry to run the routines on

    Shapes on a line: a point, or a closed interval standing for a station
    polygon or for a line feature.  A point is within an interval when it
    is in its interior and touches it at its two ends. *)

Module Interval.
Local Open Scope Z_scope.

Inductive shape1 :=
| Pt (x : Z)
| Seg (lo hi : Z).

Definition lo_of (a : shape1) : Z :=
  match a with Pt x => x | Seg lo _ => lo end.
Definition hi_of (a : shape1) : Z :=
  match a with Pt x => x | Seg _ hi => hi end.

Definition within1 (a b : shape1) : bool :=
  match a with
  | Pt x => (lo_of b <? x) && (x <? hi_of b)
  | Seg lo hi => (lo_of b <=? lo) && (hi <=? hi_of b)
  end.

Definition touches1 (a b : shape1) : bool :=
  match a with
  | Pt x => (x =? lo_of b) || (x =? hi_of b)
  | Seg lo hi => (hi =? lo_of b) || (lo =? hi_of b)
  end.

Definition disjoint1 (a b : shape1) : bool :=
  (hi_of a <? lo_of b) || (hi_of b <? lo_of a).

#[global] Instance geometry : Geometry shape1 := {
  within := within1;
  touches := touches1;
  disjoint := disjoint1;
  intersects a b := negb (disjoint1 a b)
}.

(** A feature from its shape and its attribute values. *)
Definition feat (g : option shape1) (kvs : list (string * value))
    : feature shape1 :=
  Feature g (list_to_map kvs).

Definition db (tbls : list (string * feature_class shape1)) : world shape1 :=
  World (list_to_map tbls) None [].

End Interval.

(** ** Sample geodatabases *)

Module Sample.
Import Interval.

(** Stations and the equipment that refers to them by [STATION_OID]. *)
Definition station_table : feature_class shape1 :=
  FeatureClass ["OBJECTID"; "OPERATINGVOLTAGE"]
    [feat None [("OBJECTID", VInt 1); ("OPERATINGVOLTAGE", VInt 20)];
     feat None [("OBJECTID", VInt 2); ("OPERATINGVOLTAGE", VInt 110)]].

Definition equipment_table : feature_class shape1 :=
  FeatureClass ["STATION_OID"; "MIG_VOLTAGE"]
    [feat None [("STATION_OID", VInt 2); ("MIG_VOLTAGE", VNone)];
     feat None [("STATION_OID", VInt 7); ("MIG_VOLTAGE", VInt 5)];
     feat None [("STATION_OID", VNone); ("MIG_VOLTAGE", VNone)]].

Definition station_db : world shape1 :=
  db [("Station", station_table); ("StationEquipment", equipment_table)].

(** [STATION_OID IS NOT NULL] *)
Definition station_oid_not_null (f : feature shape1) : bool :=
  negb (bool_decide (get_field f "STATION_OID" = VNone)).

(** Bays that name their parent bay, a row of the same table. *)
Definition bay_table : feature_class shape1 :=
  FeatureClass ["OBJECTID"; "PARENT_OID"; "STATION"; "MIG_STATION"]
    [feat None [("OBJECTID", VInt 1); ("PARENT_OID", VNone);
                ("STATION", VStr "North"); ("MIG_STATION", VNone)];
     feat None [("OBJECTID", VInt 2); ("PARENT_OID", VInt 1);
                ("STATION", VNone); ("MIG_STATION", VNone)]].

Definition bay_db : world shape1 := db [("Bay", bay_table)].

(** A joined layer with voltages, some of them zero, empty or null, and
    the connectors the voltages go to. *)
Definition join_conductor_table : feature_class shape1 :=
  FeatureClass ["TARGET_FID"; "OPERATINGVOLTAGE"]
    [feat None [("TARGET_FID", VInt 1); ("OPERATINGVOLTAGE", VInt 20)];
     feat None [("TARGET_FID", VInt 2); ("OPERATINGVOLTAGE", VInt 0)];
     feat None [("TARGET_FID", VInt 3); ("OPERATINGVOLTAGE", VStr "")];
     feat None [("TARGET_FID", VInt 2); ("OPERATINGVOLTAGE", VNone)];
     feat None [("TARGET_FID", VNone); ("OPERATINGVOLTAGE", VInt 10)]].

Definition connector_table : feature_class shape1 :=
  FeatureClass ["OBJECTID"; "MIG_VOLTAGE"]
    [feat None [("OBJECTID", VInt 1); ("MIG_VOLTAGE", VNone)];
     feat None [("OBJECTID", VInt 2); ("MIG_VOLTAGE", VInt 6)];
     feat None [("OBJECTID", VInt 3); ("MIG_VOLTAGE", VInt 6)];
     feat None [("OBJECTID", VInt 4); ("MIG_VOLTAGE", VNone)]].

Definition connector_db : world shape1 :=
  db [("join_conductor_layer", join_conductor_table);
      ("Connector", connector_table)].

(** A station scheme on [0, 10], and bay schemes: one without geometry,
    one inside the station scheme, one outside. *)
Definition station_scheme_table : feature_class shape1 :=
  FeatureClass ["OBJECTID"] [feat (Some (Seg 0 10)) [("OBJECTID", VInt 1)]].

Definition bay_scheme_table : feature_class shape1 :=
  FeatureClass ["OBJECTID"; "MIG_PARENTTYPE"]
    [feat None [("OBJECTID", VInt 1); ("MIG_PARENTTYPE", VNone)];
     feat (Some (Seg 2 3)) [("OBJECTID", VInt 2); ("MIG_PARENTTYPE", VNone)];
     feat (Some (Seg 20 30)) [("OBJECTID", VInt 3); ("MIG_PARENTTYPE", VNone)]].

Definition scheme_db : world shape1 :=
  db [("StationScheme", station_scheme_table);
      ("BayScheme", bay_scheme_table)].

(** Two station boundaries that overlap, [A] on [0, 10] and [B] on
    [5, 20]; junctions at 3, at 10 (an end of [A], inside [B]) and at 30;
    lines on [1, 4], on [8, 12] (across the end of [A], inside [B]) and on
    [30, 40].  The status fields are there before the calls. *)
Definition station_boundary_table : feature_class shape1 :=
  FeatureClass ["GLOBALID"]
    [feat (Some (Seg 0 10)) [("GLOBALID", VStr "{A}")];
     feat (Some (Seg 5 20)) [("GLOBALID", VStr "{B}")]].

Definition junction_table : feature_class shape1 :=
  FeatureClass ["OBJECTID"; "MIG_STATIONGUID"; "POINT_STATUS"]
    [feat (Some (Pt 3)) [("OBJECTID", VInt 1)];
     feat (Some (Pt 10)) [("OBJECTID", VInt 2)];
     feat (Some (Pt 30)) [("OBJECTID", VInt 3)]].

Definition connection_table : feature_class shape1 :=
  FeatureClass ["OBJECTID"; "MIG_STATIONGUID"; "LINE_STATUS"]
    [feat (Some (Seg 1 4)) [("OBJECTID", VInt 1)];
     feat (Some (Seg 8 12)) [("OBJECTID", VInt 2)];
     feat (Some (Seg 30 40)) [("OBJECTID", VInt 3)]].

Definition boundary_db : world shape1 :=
  db [("StationBoundary", station_boundary_table);
      ("Electric_Net_Junctions", junction_table);
      ("InternalConnection", connection_table)].

(** Transformers without a status field, the first without geometry. *)
Definition transformer_table : feature_class shape1 :=
  FeatureClass ["OBJECTID"; "MIG_STATIONGUID"]
    [feat None [("OBJECTID", VInt 1)];
     feat (Some (Pt 3)) [("OBJECTID", VInt 2)]].

Definition transformer_db : world shape1 :=
  db [("StationBoundary", station_boundary_table);
      ("MeasurementTransformer", transformer_table)].

(** A small network: a busbar, conductors of overhead and underground
    subtypes, internal connections, and junctions at 5, 15, 25, 100 and
    200. *)
Definition busbar_table : feature_class shape1 :=
  FeatureClass ["OBJECTID"]
    [feat (Some (Seg 20 26)) [("OBJECTID", VInt 1)]].

Definition conductor_table : feature_class shape1 :=
  FeatureClass ["OBJECTID"; "SUBTYPE_CD"]
    [feat (Some (Seg 0 10))
       [("OBJECTID", VInt 1); ("SUBTYPE_CD", VStr "Въздушна линия ВН")];
     feat (Some (Seg 4 16))
       [("OBJECTID", VInt 2); ("SUBTYPE_CD", VStr "Кабелна линия НН")];
     feat (Some (Seg 14 30))
       [("OBJECTID", VInt 3); ("SUBTYPE_CD", VStr "Кабелна линия СрН")]].

Definition internal_connection_table : feature_class shape1 :=
  FeatureClass ["OBJECTID"]
    [feat (Some (Seg 24 28)) [("OBJECTID", VInt 1)];
     feat (Some (Seg 90 110)) [("OBJECTID", VInt 2)]].

Definition net_junction_table : feature_class shape1 :=
  FeatureClass ["OBJECTID"; "MIG_PARENTTYPE"]
    [feat (Some (Pt 5)) [("OBJECTID", VInt 1)];
     feat (Some (Pt 15)) [("OBJECTID", VInt 2)];
     feat (Some (Pt 25)) [("OBJECTID", VInt 3)];
     feat (Some (Pt 100)) [("OBJECTID", VInt 4)];
     feat (Some (Pt 200)) [("OBJECTID", VInt 5)]].

Definition net_db : world shape1 :=
  db [("Busbar", busbar_table); ("Conductor", conductor_table);
      ("InternalConnection", internal_connection_table);
      ("Electric_Net_Junctions", net_junction_table)].

Definition mapping_el_net_junction : list (string * value) :=
  [("Busbar", VStr "Busbar"); ("Conductor", VStr "Conductor");
   ("InternalConnection", VStr "Internal Connection")].

(** The junctions once their parent type is known. *)
Definition typed_junction_table : feature_class shape1 :=
  FeatureClass ["OBJECTID"; "MIG_PARENTTYPE"]
    [feat (Some (Pt 5))
       [("OBJECTID", VInt 1); ("MIG_PARENTTYPE", VStr "Conductor")];
     feat (Some (Pt 15))
       [("OBJECTID", VInt 2); ("MIG_PARENTTYPE", VStr "Conductor")];
     feat (Some (Pt 25))
       [("OBJECTID", VInt 3); ("MIG_PARENTTYPE", VStr "Busbar")];
     feat (Some (Pt 100))
       [("OBJECTID", VInt 4); ("MIG_PARENTTYPE", VStr "Internal Connection")];
     feat (Some (Pt 200))
       [("OBJECTID", VInt 5); ("MIG_PARENTTYPE", VStr "Conductor")]].

Definition typed_net_db : world shape1 :=
  db [("Conductor", conductor_table);
      ("Electric_Net_Junctions", typed_junction_table)].

(** Circuit sources, and the circuit breakers some of them refer to. *)
Definition circuit_source_table : feature_class shape1 :=
  FeatureClass
    ["OBJECTID"; "GLOBALID"; "CIRCUITBREAKER_OID"; "MIG_OID"; "MIG_OID_TEXT";
     "MIG_GLOBALID"]
    [feat None [("OBJECTID", VInt 1); ("GLOBALID", VStr "{C1}");
                ("CIRCUITBREAKER_OID", VInt 10)];
     feat None [("OBJECTID", VInt 2); ("GLOBALID", VStr "{C2}");
                ("CIRCUITBREAKER_OID", VInt 13)]].

Definition circuit_breaker_table : feature_class shape1 :=
  FeatureClass ["SUBSOURCE"; "MIG_ISSOURCE"; "OBJECTID"]
    [feat None [("SUBSOURCE", VInt 1); ("OBJECTID", VInt 10)];
     feat None [("SUBSOURCE", VInt 1); ("OBJECTID", VInt 11)];
     feat None [("SUBSOURCE", VInt 0); ("OBJECTID", VInt 12)];
     feat None [("SUBSOURCE", VInt 0); ("OBJECTID", VInt 13)]].

Definition circuit_db : world shape1 :=
  db [("CircuitSource", circuit_source_table);
      ("CircuitBreaker", circuit_breaker_table)].

(** Breakers of the pilot geodatabase, and the sources that refer to them
    by [BREAKER_GUID]. *)
Definition breaker_table : feature_class shape1 :=
  FeatureClass ["SUBSOURCE"; "MIG_ISSOURCE"; "GLOBALID"]
    [feat None [("SUBSOURCE", VInt 1); ("GLOBALID", VStr "{B1}")];
     feat None [("SUBSOURCE", VInt 1); ("GLOBALID", VStr "{B2}")];
     feat None [("SUBSOURCE", VInt 0); ("GLOBALID", VStr "{B3}")];
     feat None [("SUBSOURCE", VInt 0); ("GLOBALID", VStr "{B4}")]].

Definition breaker_source_table : feature_class shape1 :=
  FeatureClass ["BREAKER_GUID"]
    [feat None [("BREAKER_GUID", VStr "{B1}")];
     feat None [("BREAKER_GUID", VStr "{B4}")]].

Definition breaker_db : world shape1 :=
  db [("CircuitSource", breaker_source_table);
      ("CircuitBreaker", breaker_table)].

(** Connectors at 5, 15, 25 and 100, and the three layers
    [update_mig_voltage] joins them with.  The connector at 5 lies on a
    conductor and on an internal connection, the one at 15 on an internal
    connection without a voltage, the one at 25 on the busbar and on a
    conductor, the one at 100 on nothing. *)
Definition voltage_connector_table : feature_class shape1 :=
  FeatureClass ["OBJECTID"; "MIG_VOLTAGE"]
    [feat (Some (Pt 5)) [("OBJECTID", VInt 1)];
     feat (Some (Pt 15)) [("OBJECTID", VInt 2)];
     feat (Some (Pt 25)) [("OBJECTID", VInt 3)];
     feat (Some (Pt 100)) [("OBJECTID", VInt 4); ("MIG_VOLTAGE", VInt 7)]].

Definition voltage_busbar_table : feature_class shape1 :=
  FeatureClass ["OPERATINGVOLTAGE"]
    [feat (Some (Seg 20 30)) [("OPERATINGVOLTAGE", VInt 110)]].

Definition voltage_conductor_table : feature_class shape1 :=
  FeatureClass ["OPERATINGVOLTAGE"]
    [feat (Some (Seg 0 10)) [("OPERATINGVOLTAGE", VInt 20)];
     feat (Some (Seg 24 26)) [("OPERATINGVOLTAGE", VInt 35)]].

Definition voltage_internal_table : feature_class shape1 :=
  FeatureClass ["OPERATINGVOLTAGE"]
    [feat (Some (Seg 4 6)) [("OPERATINGVOLTAGE", VInt 10)];
     feat (Some (Seg 14 16)) [("OPERATINGVOLTAGE", VInt 0)]].

Definition voltage_db : world shape1 :=
  db [("Connector", voltage_connector_table);
      ("Шина", voltage_busbar_table);
      ("Проводник", voltage_conductor_table);
      ("Свързваща линия", voltage_internal_table)].

(** The list of fields of a table. *)
Definition fields_of (w : world shape1) (path : string)
    : option (list string) :=
  fc_fields <$> tables w !! path.

(** The column of a field of a table, [None] when the table is missing. *)
Definition column (w : world shape1) (path field : string)
    : option (list value) :=
  (fun fc => map (fun f => get_field f field) (fc_rows fc))
    <$> tables w !! path.

End Sample.

(** ** Vocabulary of the statements *)

Section Vocabulary.
Context {G : Type} `{!Geometry G}.

(** What an update loop does to one feature, when what its body stores
    is a function [g] of the row alone. *)
Definition apply_update (flds : list string) (sel : feature G -> bool)
    (g : row G -> outcome (option (list value))) (f : feature G)
    : feature G :=
  if sel f then
    match g (read_row flds f) with
    | Ok (Some vals) => write_row flds vals f
    | _ => f
    end
  else f.

(** The [updateRow] events of such a loop, from row index [idx] on. *)
Fixpoint update_events (path : string) (flds : list string)
    (sel : feature G -> bool) (g : row G -> outcome (option (list value)))
    (idx : nat) (fs : list (feature G)) : list event :=
  match fs with
  | [] => []
  | f :: rest =>
      (if sel f then
         match g (read_row flds f) with
         | Ok (Some vals) => [EUpdateRow path idx vals]
         | _ => []
         end
       else [])
      ++ update_events path flds sel g (S idx) rest
  end.

(** The locals of a loop after its last row, when no row raises. *)
Definition loop_locals {L} (flds : list string) (sel : feature G -> bool)
    (body : updater G L) (fs : list (feature G)) (s : L) : L :=
  foldl (fun s f => if sel f then (body s (read_row flds f)).1 else s) s fs.

(** The last row, in cursor order, whose [key_field] holds [k]. *)
Definition last_match (key_field : string) (k : value)
    (rows : list (feature G)) : option (feature G) :=
  last (List.filter (fun s => bool_decide (get_field s key_field = k)) rows).

(** [update_fc_from_dict] on one destination row [d], with result [d']:
    a selected row whose key is the key of a source row has, in each
    destination field of a pair, the value of the pair's source field in
    the last source row with that key, and nothing else of it is changed;
    any other row is left as it is. *)
Definition copied_from (source_rows : list (feature G))
    (source_key_field destination_key_field : string)
    (field_pairs : list (string * string)) (where_clause : feature G -> bool)
    (d d' : feature G) : Prop :=
  match (if where_clause d
         then last_match source_key_field
                (get_field d destination_key_field) source_rows
         else None) with
  | Some s =>
      (forall sf df, (sf, df) ∈ field_pairs -> get_field d' df = get_field s sf)
      /\ (forall k, k ∉ field_pairs.*2 -> get_field d' k = get_field d k)
      /\ shape d' = shape d
  | None => d' = d
  end.

(** [if key and voltage], on a source row of [update_field] *)
Definition live (source_globalid operatingvoltage : string) (s : feature G)
    : bool :=
  truthy (get_field s source_globalid) && truthy (get_field s operatingvoltage).

(** The last source row with key [k] that passes [if key and voltage]. *)
Definition last_live_match (source_globalid operatingvoltage : string)
    (k : value) (rows : list (feature G)) : option (feature G) :=
  last (List.filter
          (fun s => bool_decide (get_field s source_globalid = k)
                    && live source_globalid operatingvoltage s)
          rows).

(** [update_field] on one destination row [d], with result [d']. *)
Definition voltage_copied (source_rows : list (feature G))
    (source_globalid operatingvoltage dest_globalid mig_voltage : string)
    (d d' : feature G) : Prop :=
  match last_live_match source_globalid operatingvoltage
          (get_field d dest_globalid) source_rows with
  | Some s =>
      get_field d' mig_voltage = get_field s operatingvoltage
      /\ (forall k, k <> mig_voltage -> get_field d' k = get_field d k)
      /\ shape d' = shape d
  | None => d' = d
  end.

(** A feature whose geometry is within a polygon of one of the rows. *)
Definition within_some (outer_rows : list (feature G)) (d : feature G)
    : Prop :=
  exists g o p,
    shape d = Some g /\ o ∈ outer_rows /\ shape o = Some p
    /\ within g p = true.

(** [update_fc_within] on one inner feature [d], with result [d']. *)
Definition station_marked (outer_rows : list (feature G))
    (d d' : feature G) : Prop :=
  (within_some outer_rows d ->
     get_field d' "MIG_PARENTTYPE" = VStr "Station"
     /\ (forall k, k <> "MIG_PARENTTYPE" -> get_field d' k = get_field d k)
     /\ shape d' = shape d)
  /\ (~ within_some outer_rows d -> d' = d).

(** A station of the station dictionary reaches a geometry when it has a
    polygon and the geometry is within the polygon or passes the [elif]
    test on it ([touches] for a point, not [disjoint] for a line). *)
Definition reaches (elif_test : G -> G -> bool) (g : G)
    (station : value * option G) : bool :=
  match station.2 with
  | Some p => within g p || elif_test g p
  | None => false
  end.

(** The station GUID and the status of a geometry: those of the first
    station of the dictionary that reaches it, ['Inside'] when the geometry
    is within that station's polygon and the [elif] label otherwise; no
    GUID and ['Outside'] when no station reaches it. *)
Definition boundary_result (elif_test : G -> G -> bool) (elif_label : string)
    (station_dict : list (value * option G)) (g : G) : value * string :=
  match List.find (reaches elif_test g) station_dict with
  | Some (station_global_id, Some p) =>
      (station_global_id, if within g p then "Inside" else elif_label)
  | _ => (VNone, "Outside")
  end.

(** The result of a boundary routine on the table [pts] at [fc], started
    in the world [w]: it returns; the table keeps its list of fields; the
    trace grows by events among which those of [evs] are all the
    [updateRow] calls on [fc]; and for every row with a geometry, [evs] has
    one [updateRow] on the row, storing the station GUID and the status of
    [boundary_result], the row ends with that station GUID, and with that
    status when the status field was there before the call. *)
Definition classifies (elif_test : G -> G -> bool) (elif_label : string)
    (station_dict : list (value * option G))
    (fc mig_stationguid_field field_name : string) (pts : feature_class G)
    (w : world G) (result : outcome unit * world G) : Prop :=
  result.1 = Ok tt
  /\ exists rows' pre evs post,
       tables result.2 !! fc = Some (FeatureClass (fc_fields pts) rows')
       /\ log result.2 = log w ++ pre ++ evs ++ post
       /\ Forall (fun e => forall i v, e <> EUpdateRow fc i v) (pre ++ post)
       /\ forall i d g,
            fc_rows pts !! i = Some d -> shape d = Some g ->
            let res := boundary_result elif_test elif_label station_dict g in
            (forall vals,
               EUpdateRow fc i vals ∈ evs <-> vals = [res.1; VStr res.2])
            /\ exists d',
                 rows' !! i = Some d'
                 /\ get_field d' mig_stationguid_field = res.1
                 /\ (field_name ∈ fc_fields pts ->
                     get_field d' field_name = VStr res.2).

(** The subtypes the spatial join has for a target [OBJECTID]: those of
    the rows of the joined layer with that [TARGET_FID]. *)
Definition fid_subtypes (subtype_field : string) (oid : value)
    (join : list (feature G)) : list value :=
  map (fun r => get_field r subtype_field)
      (List.filter (fun r => bool_decide (get_field r "TARGET_FID" = oid))
                   join).

(** [update_conductor_type] on one target row [d], with result [d']. *)
Definition conductor_retyped (join : list (feature G))
    (mig_parenttype subtype_field : string) (d d' : feature G) : Prop :=
  if decide (get_field d mig_parenttype = VStr "Conductor"
             /\ fid_subtypes subtype_field (get_field d "OBJECTID") join <> [])
  then
    get_field d' mig_parenttype =
      VStr (BG.classify_junction
              (list_to_set
                 (fid_subtypes subtype_field (get_field d "OBJECTID") join))
              BG.overhead_types BG.underground_types)
    /\ (forall k, k <> mig_parenttype -> get_field d' k = get_field d k)
    /\ shape d' = shape d
  else d' = d.

(** The [TARGET_FID]s of the spatial join of the target rows with the
    rows of a layer. *)
Definition layer_fids (target_rows layer_rows : list (feature G))
    : list value :=
  map (fun r => get_field r "TARGET_FID")
      (join_rows JOIN_ONE_TO_ONE target_rows layer_rows).

(** The mapping layers as the routine meets them: for each layer of the
    mapping, in its iteration order, the [TARGET_FID]s of its join with
    the target rows, and the value of the layer. *)
Definition layers_fids (tbls : gmap string (feature_class G))
    (target_rows : list (feature G)) (mapping_layers : list (string * value))
    : list (list value * value) :=
  map (fun lv =>
         (layer_fids target_rows (default [] (fc_rows <$> tbls !! lv.1)),
          lv.2))
      mapping_layers.

(** The first layer whose join has the key [k]. *)
Definition first_layer (layers : list (list value * value)) (k : value)
    : option (list value * value) :=
  List.find (fun lv => bool_decide (k ∈ lv.1)) layers.

(** [update_field_based_on_whether_it_lies] on one target row [d], when
    the set [updated_features] is [updated] and the layers to come are
    [layers]: a row whose key is in [updated] stays; another row gets the
    value of the first layer whose join has its key. *)
Definition lies_row (mig_parenttype objectid : string)
    (layers : list (list value * value)) (updated : gset value)
    (d : feature G) : feature G :=
  if decide (get_field d objectid ∈ updated) then d
  else
    match first_layer layers (get_field d objectid) with
    | Some (_, v) =>
        write_row [mig_parenttype; objectid] [v; get_field d objectid] d
    | None => d
    end.

(** How often that row is stored. *)
Definition lies_count (objectid : string)
    (layers : list (list value * value)) (updated : gset value)
    (d : feature G) : nat :=
  if decide (get_field d objectid ∈ updated) then 0
  else
    match first_layer layers (get_field d objectid) with
    | Some _ => 1
    | None => 0
    end.

(** How often the trace stores row [idx] of the table [fc]. *)
Definition count_updates (fc : string) (idx : nat) (evs : list event) : nat :=
  length (List.filter (is_update_of fc idx) evs).

(** The result of the loop over the layers, started in the world [w] on
    the target table [tgt] with the set [updated]: in the world [w'] the
    target table has the rows of [lies_row], the other tables but the
    temporary one are as in [w], and the events [evs] that were added to the
    trace store each target row as often as [lies_count] has it. *)
Definition lies_result (target_fc mig_parenttype objectid : string)
    (layers : list (string * value)) (updated : gset value)
    (tgt : feature_class G) (w w' : world G) (evs : list event) : Prop :=
  let lf := layers_fids (tables w) (fc_rows tgt) layers in
  tables w' !! target_fc =
    Some (FeatureClass (fc_fields tgt)
            (map (lies_row mig_parenttype objectid lf updated) (fc_rows tgt)))
  /\ (forall p, p <> target_fc -> p <> "TempJoin" ->
        tables w' !! p = tables w !! p)
  /\ log w' = log w ++ evs
  /\ forall i,
       count_updates target_fc i evs =
         match fc_rows tgt !! i with
         | Some d => lies_count objectid lf updated d
         | None => 0%nat
         end.

(** The first layer of the mapping, in its iteration order, that has a
    feature whose shape intersects the shape of [d]. *)
Definition first_intersecting (tbls : gmap string (feature_class G))
    (mapping_layers : list (string * value)) (d : feature G)
    : option (string * value) :=
  List.find
    (fun lv => existsb (matches d) (default [] (fc_rows <$> tbls !! lv.1)))
    mapping_layers.

(** The result of [update_field_based_on_whether_it_lies] on the target
    table [tgt], started in the world [w]: it returns; every target row is
    stored at most once; a row that a layer intersects is stored once and
    ends with the value of the first such layer in [MIG_PARENTTYPE], its
    other fields as they were; a row that no layer intersects is not
    stored and is unchanged. *)
Definition first_layer_wins (target_fc mig_parenttype : string)
    (mapping_layers : list (string * value)) (tgt : feature_class G)
    (w : world G) (result : outcome unit * world G) : Prop :=
  result.1 = Ok tt
  /\ exists evs rows',
       log result.2 = log w ++ evs
       /\ tables result.2 !! target_fc
          = Some (FeatureClass (fc_fields tgt) rows')
       /\ forall i d,
            fc_rows tgt !! i = Some d ->
            (count_updates target_fc i evs <= 1)%nat
            /\ exists d',
                 rows' !! i = Some d'
                 /\ match first_intersecting (tables w) mapping_layers d with
                    | Some (_, v) =>
                        count_updates target_fc i evs = 1%nat
                        /\ get_field d' mig_parenttype = v
                        /\ (forall k, k <> mig_parenttype ->
                              get_field d' k = get_field d k)
                        /\ shape d' = shape d
                    | None =>
                        count_updates target_fc i evs = 0%nat /\ d' = d
                    end.

(** ** Edit sessions in the trace

    The editor is idle, has a session open ([startEditing]), has an
    operation open in it ([startOperation]), or has stopped the operation
    and not yet the session.  [sessions st evs] reads a trace from the
    state [st]: it is [None] unless every [updateRow] is inside an
    operation, every session is opened with [startEditing(False, True)]
    followed by [startOperation] and closed with [stopOperation] followed
    by [stopEditing], and no session is left open; then it is the list of
    the [save_changes] arguments of the [stopEditing] calls. *)
Inductive editor_state := Idle | Editing | Operating | Stopping.

Fixpoint sessions (st : editor_state) (evs : list event)
    : option (list bool) :=
  match evs with
  | [] =>
      match st with
      | Idle => Some []
      | _ => None
      end
  | ev :: rest =>
      match st, ev with
      | Idle, EStartEditing false true => sessions Editing rest
      | Idle, (EAddField _ _ | EDeleteField _ _ | EAddWarning _) =>
          sessions Idle rest
      | Editing, EStartOperation => sessions Operating rest
      | Operating, EUpdateRow _ _ _ => sessions Operating rest
      | Operating, EStopOperation => sessions Stopping rest
      | Stopping, EStopEditing save_changes =>
          cons save_changes <$> sessions Idle rest
      | _, _ => None
      end
  end.

(** The computation [m] raises [e] from the world [w0]. *)
Definition raises {A} (m : M G A) (w0 : world G) (e : exn) : Prop :=
  (m w0).1 = Raise e.

(** The same of a [try] block whose [finally] block reads a local of the
    block: the block has raised, and [e] is its exception when the local
    is bound.  An unbound local makes the [finally] block raise; what the
    call raises then is left open. *)
Definition raises_framed {L A} (block : framed G (option L) A)
    (w0 : world G) (e : exn) : Prop :=
  exists e', (block w0).1.2 = Raise e'
    /\ (is_Some (block w0).1.1 -> e = e').

(** A call from the world [w] with the result [r] edits in sessions: its
    trace is one of sessions; when the call returns, every session was
    saved; a session that was not saved is the last one, and the call
    raises; when the call raises [e], either it has not saved its last
    session and [e] is an exception [caught] in a session, or every
    session it opened is saved and [e] was raised [outside] the sessions,
    which is said of the number of sessions and of the final world; and
    when the [try] block of the call has raised, which [tried] says, the
    last session is not saved. *)
Definition edits_in_session (tried caught : exn -> Prop)
    (outside : nat -> world G -> exn -> Prop) (w : world G)
    (r : outcome unit * world G) : Prop :=
  exists evs flags,
    log r.2 = log w ++ evs
    /\ sessions Idle evs = Some flags
    /\ (r.1 = Ok tt -> Forall (fun save_changes => save_changes = true) flags)
    /\ (forall i, flags !! i = Some false ->
          S i = length flags /\ exists e, r.1 = Raise e)
    /\ (forall e, r.1 = Raise e ->
          (last flags = Some false /\ caught e)
          \/ (Forall (fun save_changes => save_changes = true) flags
              /\ outside (length flags) r.2 e))
    /\ ((exists e, tried e) -> last flags = Some false).

(** The same of a routine that makes one session: an exception outside
    the session is one raised before the session is opened, and the
    exception caught is that of the [try] block. *)
Definition before_session : nat -> world G -> exn -> Prop :=
  fun sessions_made _ _ => sessions_made = 0%nat.

Definition edits_in_one_session (tried : exn -> Prop) (w : world G)
    (r : outcome unit * world G) : Prop :=
  edits_in_session tried tried before_session w r.

(** A call from the world [w] with the result [r] has called no editor. *)
Definition calls_no_editor (w : world G) (r : outcome unit * world G)
    : Prop :=
  exists evs,
    log r.2 = log w ++ evs
    /\ Forall (fun ev => is_editor_event ev = false) evs.

Definition updates (evs : list event) : Prop :=
  Forall (fun e => exists fc i vals, e = EUpdateRow fc i vals) evs.

(** The world after [edit.startEditing(False, True)] and
    [edit.startOperation()] *)
Definition opened (w : world G) : world G :=
  World (tables w) (Some (tables w))
        (log w ++ [EStartEditing false true; EStartOperation]).

(** ** The routines the scripts have besides *)

(** [str(v)] for a target field with [TEXT] in its name *)
Definition text_as_string (each_target_field : string) (source_value : value)
    : value :=
  if contains "TEXT" each_target_field then py_str source_value
  else source_value.

(** [update_fc_self] on one feature [d], with result [d']: every target
    field has the value of its source field, as [convert] stores it, and
    all else is as it was. *)
Definition self_copied (convert : string -> value -> value)
    (field_updates : list (list string)) (d d' : feature G) : Prop :=
  shape d' = shape d
  /\ (forall source_field targets t,
        (source_field :: targets) ∈ field_updates -> t ∈ targets ->
        get_field d' t = convert t (get_field d source_field))
  /\ (forall k,
        (forall source_field targets,
           (source_field :: targets) ∈ field_updates -> k ∉ targets) ->
        get_field d' k = get_field d k).

(** Some row of the table at [source_fc] has the value [v] in [column]. *)
Definition related_to (w : world G) (source_fc column : string) (v : value)
    : Prop :=
  exists src f,
    tables w !! source_fc = Some src /\ column ∈ fc_fields src
    /\ f ∈ fc_rows src /\ get_field f column = v.

(** The relationship check of [update_mig_issource] is made: the call names
    a source and a column. *)
Definition checks (source_fc column : option string) (s c : string) : Prop :=
  source_fc = Some s /\ column = Some c /\ s <> "" /\ c <> "".

(** The relationship of a value: the check is made and finds the value. *)
Definition related (w : world G) (source_fc column : option string)
    (v : value) : Prop :=
  exists s c, checks source_fc column s c /\ related_to w s c v.

(** The check is made and raises: the source table or its column is
    missing. *)
Definition check_fails (w : world G) (source_fc column : option string)
    : Prop :=
  exists s c,
    checks source_fc column s c
    /\ forall src, tables w !! s = Some src -> c ∉ fc_fields src.

(** [update_mig_issource] of the script for BG on one feature [d], with
    result [d'], for the cursor fields [f0], [f1], [f2]. *)
Definition marked_issource_bg (w : world G)
    (source_fc objectid_column : option string) (f0 f1 f2 : string)
    (d d' : feature G) : Prop :=
  shape d' = shape d
  /\ (forall k, k <> f1 -> get_field d' k = get_field d k)
  /\ (related w source_fc objectid_column (get_field d f2) ->
      get_field d' f1 = VInt 1)
  /\ (~ related w source_fc objectid_column (get_field d f2) ->
      get_field d f0 = VInt 1 -> get_field d' f1 = VInt 2)
  /\ (~ related w source_fc objectid_column (get_field d f2) ->
      get_field d f0 <> VInt 1 -> get_field d' f1 = get_field d f1).

(** [update_mig_issource] of the script for ROM on one feature [d], with
    result [d']. *)
Definition marked_issource_rom (w : world G)
    (source_fc global_id_column : option string) (d d' : feature G) : Prop :=
  shape d' = shape d
  /\ (forall k, k <> "MIG_ISSOURCE" -> get_field d' k = get_field d k)
  /\ (check_fails w source_fc global_id_column ->
      get_field d' "MIG_ISSOURCE" = get_field d "MIG_ISSOURCE")
  /\ (~ check_fails w source_fc global_id_column ->
      get_field d "SUBSOURCE" = VInt 1 ->
      get_field d' "MIG_ISSOURCE" = VInt 2)
  /\ (get_field d "SUBSOURCE" <> VInt 1 ->
      related w source_fc global_id_column (get_field d "GLOBALID") ->
      get_field d' "MIG_ISSOURCE" = VInt 1)
  /\ (get_field d "SUBSOURCE" <> VInt 1 ->
      ~ related w source_fc global_id_column (get_field d "GLOBALID") ->
      get_field d' "MIG_ISSOURCE" = get_field d "MIG_ISSOURCE").

(** The voltage a layer gives a destination feature: that of the first
    feature of the layer that intersects it, when the object identifier of
    the destination feature and the voltage are truthy. *)
Definition layer_voltage (layer_rows : list (feature G)) (d : feature G)
    : option value :=
  match List.find (matches d) layer_rows with
  | Some j =>
      if truthy (get_field d "OBJECTID")
         && truthy (get_field j "OPERATINGVOLTAGE")
      then Some (get_field j "OPERATINGVOLTAGE")
      else None
  | None => None
  end.

(** The output of a spatial join, as a table *)
Definition join_table (dst layer : feature_class G) : feature_class G :=
  FeatureClass ("TARGET_FID" :: fc_fields layer)
    (join_rows JOIN_ONE_TO_ONE (fc_rows dst) (fc_rows layer)).

(** [update_mig_voltage] on one destination feature [d], with result
    [d']: the voltage of the busbar layer, else that of the conductor
    layer, else that of the layer of internal connections, else the one it
    had. *)
Definition voltage_by_priority (internal conductor busbar : list (feature G))
    (d d' : feature G) : Prop :=
  shape d' = shape d
  /\ (forall k, k <> "MIG_VOLTAGE" -> get_field d' k = get_field d k)
  /\ get_field d' "MIG_VOLTAGE"
     = match layer_voltage busbar d, layer_voltage conductor d,
             layer_voltage internal d with
       | Some v, _, _ => v
       | None, Some v, _ => v
       | None, None, Some v => v
       | None, None, None => get_field d "MIG_VOLTAGE"
       end.

(** A boundary routine on one feature [d], with result [d']: the shape and
    the fields other than the station GUID and the status are as they were;
    a feature without geometry keeps its station GUID too, and when the
    status field was there before the call it is unchanged. *)
Definition boundary_rest (mig_stationguid_field field_name : string)
    (had_field : Prop) (d d' : feature G) : Prop :=
  shape d' = shape d
  /\ (forall k, k <> mig_stationguid_field -> k <> field_name ->
        get_field d' k = get_field d k)
  /\ (shape d = None ->
      get_field d' mig_stationguid_field = get_field d mig_stationguid_field
      /\ (had_field -> d' = d)).

End Vocabulary.

(** ** Calls of the routines *)

Section Calls.
Context {G : Type} `{!Geometry G}.

(** A call of a routine of the three scripts *)
Inductive call :=
| BG_update_fc_from_dict (source_fc destination_fc : string)
    (source_key_field destination_key_field : string)
    (field_pairs : list (string * string)) (where_clause : feature G -> bool)
| BG_update_fc_within (inner_fc outer_fc : string)
| BG_update_fc_self (source_fc : string) (field_updates : list (list string))
| BG_update_field (dest_fc source_fc destination_fc : string)
    (source_globalid operatingvoltage dest_globalid mig_voltage : string)
| BG_update_mig_voltage (join_internal join_conductor join_busbar
    : option string) (dest_fc : string)
| BG_update_field_based_on_whether_it_lies (target_fc : string)
    (mapping_layers : list (string * value))
    (mig_parenttype objectid : string)
| BG_update_conductor_type (target_fc conductor_fc : string)
    (mig_parenttype subtype_field : string)
| BG_update_line_fc_within_station_boundary (line_fc station_fc : string)
    (globalid_field mig_stationguid_field field_name : string)
| BG_update_point_fc_within_station_boundary (point_fc station_fc : string)
    (globalid_field mig_stationguid_field field_name : string)
| BG_update_mig_issource (dest_fc : string)
    (source_fc objectid_column : option string)
    (fields : option (list string))
| ROM_update_fc_from_dict (source_fc destination_fc : string)
    (source_key_field destination_key_field : string)
    (field_pairs : list (string * string)) (where_clause : feature G -> bool)
| ROM_update_fc_within (inner_fc outer_fc : string)
| ROM_update_fc_self (source_fc : string) (field_updates : list (list string))
| ROM_update_field (source_fc destination_fc : string)
    (source_globalid operatingvoltage dest_globalid mig_voltage : string)
| ROM_update_field_based_on_whether_it_lies (target_fc : string)
    (mapping_layers : list (string * value))
    (mig_parenttype objectid : string)
| ROM_update_line_fc_within_station_boundary (line_fc station_fc : string)
    (field_name : string)
| ROM_update_point_fc_within_station_boundary (point_fc station_fc : string)
    (field_name : string)
| ROM_update_mig_issource (dest_fc : string)
    (source_fc global_id_column : option string)
| AddDB_update_fc_self (source_fc : string)
    (field_updates : list (list string)).

Definition run (c : call) : M G unit :=
  match c with
  | BG_update_fc_from_dict s d sk dk fp wc =>
      BG.update_fc_from_dict s d sk dk fp wc
  | BG_update_fc_within i o => BG.update_fc_within i o
  | BG_update_fc_self s fu => BG.update_fc_self s fu
  | BG_update_field e s d sg ov dg mv => BG.update_field e s d sg ov dg mv
  | BG_update_mig_voltage ji jc jb d => BG.update_mig_voltage ji jc jb d
  | BG_update_field_based_on_whether_it_lies t ml mp oid =>
      BG.update_field_based_on_whether_it_lies t ml mp oid
  | BG_update_conductor_type t c mp sf => BG.update_conductor_type t c mp sf
  | BG_update_line_fc_within_station_boundary l s g m f =>
      BG.update_line_fc_within_station_boundary l s g m f
  | BG_update_point_fc_within_station_boundary p s g m f =>
      BG.update_point_fc_within_station_boundary p s g m f
  | BG_update_mig_issource d s oc fs => BG.update_mig_issource d s oc fs
  | ROM_update_fc_from_dict s d sk dk fp wc =>
      ROM.update_fc_from_dict s d sk dk fp wc
  | ROM_update_fc_within i o => ROM.update_fc_within i o
  | ROM_update_fc_self s fu => ROM.update_fc_self s fu
  | ROM_update_field s d sg ov dg mv => ROM.update_field s d sg ov dg mv
  | ROM_update_field_based_on_whether_it_lies t ml mp oid =>
      ROM.update_field_based_on_whether_it_lies t ml mp oid
  | ROM_update_line_fc_within_station_boundary l s f =>
      ROM.update_line_fc_within_station_boundary l s f
  | ROM_update_point_fc_within_station_boundary p s f =>
      ROM.update_point_fc_within_station_boundary p s f
  | ROM_update_mig_issource d s gc => ROM.update_mig_issource d s gc
  | AddDB_update_fc_self s fu => AddDB.update_fc_self s fu
  end.

(** The table a call updates rows of *)
Definition destination (c : call) : string :=
  match c with
  | BG_update_fc_from_dict _ d _ _ _ _ | ROM_update_fc_from_dict _ d _ _ _ _
  | BG_update_field _ _ d _ _ _ _ | ROM_update_field _ d _ _ _ _
  | BG_update_mig_voltage _ _ _ d
  | BG_update_mig_issource d _ _ _ | ROM_update_mig_issource d _ _ => d
  | BG_update_fc_within i _ | ROM_update_fc_within i _ => i
  | BG_update_fc_self s _ | ROM_update_fc_self s _
  | AddDB_update_fc_self s _ => s
  | BG_update_field_based_on_whether_it_lies t _ _ _
  | ROM_update_field_based_on_whether_it_lies t _ _ _
  | BG_update_conductor_type t _ _ _ => t
  | BG_update_line_fc_within_station_boundary l _ _ _ _
  | ROM_update_line_fc_within_station_boundary l _ _ => l
  | BG_update_point_fc_within_station_boundary p _ _ _ _
  | ROM_update_point_fc_within_station_boundary p _ _ => p
  end.

(** The tables a call makes for itself: the outputs of its spatial joins *)
Definition temporaries (c : call) : list string :=
  match c with
  | BG_update_mig_voltage join_internal join_conductor join_busbar _ =>
      omap id [join_internal; join_conductor; join_busbar]
  | BG_update_field_based_on_whether_it_lies _ _ _ _ => [BG.temp_join]
  | ROM_update_field_based_on_whether_it_lies _ _ _ _ => [ROM.temp_join]
  | BG_update_conductor_type _ _ _ _ => [BG.temp_join_conductor]
  | _ => []
  end.

End Calls.

Arguments call G : clear implicits.

Section CallKinds.
Context {G : Type} `{!Geometry G}.

(** The routine of the script for ROM that has the name and the arguments
    of a routine of the script for BG, where the two have the same update
    rule *)
Definition rom_sibling (c : call G) : option (call G) :=
  match c with
  | BG_update_fc_from_dict s d sk dk fp wc =>
      Some (ROM_update_fc_from_dict s d sk dk fp wc)
  | BG_update_fc_within i o => Some (ROM_update_fc_within i o)
  | BG_update_fc_self s fu => Some (ROM_update_fc_self s fu)
  | BG_update_field _ s d sg ov dg mv =>
      Some (ROM_update_field s d sg ov dg mv)
  | BG_update_field_based_on_whether_it_lies t ml mp oid =>
      Some (ROM_update_field_based_on_whether_it_lies t ml mp oid)
  | _ => None
  end.

End CallKinds.

(** * Verification *)

(** ** Rows: reading and storing columns *)

Section RowLemmas.
Context {G : Type} `{!Geometry G}.

Lemma shape_write_row flds vals (f : feature G) :
  shape (write_row flds vals f) = shape f.
Proof.
  unfold write_row. generalize (zip flds vals). intros kvs.
  revert f. induction kvs as [|kv kvs IH]; intros f; simpl; [done|].
  by rewrite IH.
Qed.

Lemma attrs_write_row_other flds vals (f : feature G) k :
  k ∉ flds -> attrs (write_row flds vals f) !! k = attrs f !! k.
Proof.
  unfold write_row. revert vals f.
  induction flds as [|k' flds IH]; intros vals f Hk; simpl; [done|].
  destruct vals as [|v vals]; simpl; [done|].
  rewrite IH; [|set_solver]. simpl.
  apply lookup_insert_ne. set_solver.
Qed.

Lemma get_field_write_row_other flds vals (f : feature G) k :
  k ∉ flds -> get_field (write_row flds vals f) k = get_field f k.
Proof. intros. unfold get_field. by rewrite attrs_write_row_other. Qed.

Lemma get_field_write_row flds vals (f : feature G) i k v :
  NoDup flds -> flds !! i = Some k -> vals !! i = Some v ->
  get_field (write_row flds vals f) k = v.
Proof.
  unfold write_row. revert vals f i.
  induction flds as [|k' flds IH]; intros vals f i Hnd Hk Hv; [done|].
  destruct vals as [|v' vals]; [done|].
  apply NoDup_cons in Hnd as [Hk' Hnd]. simpl.
  destruct i as [|i]; simpl in *.
  - simplify_eq.
    change (get_field (write_row flds vals (set_field k v f)) k = v).
    rewrite get_field_write_row_other; [|done].
    unfold get_field, set_field. simpl. by rewrite lookup_insert_eq.
  - by apply (IH vals _ i).
Qed.

Lemma length_read_row flds (f : feature G) :
  length (row_vals (read_row flds f)) = length flds.
Proof. unfold read_row. simpl. by rewrite length_map. Qed.

Lemma col_read_row flds (f : feature G) i k :
  flds !! i = Some k -> col (row_vals (read_row flds f)) i = get_field f k.
Proof.
  intros Hk. unfold col, read_row. simpl.
  by rewrite list_lookup_fmap, Hk.
Qed.

End RowLemmas.

(** ** Update loops whose stored columns depend on the row alone *)

Section LoopLemmas.
Context {G : Type} `{!Geometry G}.

Definition row_ok (flds : list string) (sel : feature G -> bool)
    (g : row G -> outcome (option (list value))) (f : feature G) : Prop :=
  sel f = true -> exists u, g (read_row flds f) = Ok u.

Lemma update_rows_stateless {L} path flds sel (body : updater G L) g :
  (forall s r, (body s r).2 = g r) ->
  forall fs idx s,
    Forall (row_ok flds sel g) fs ->
    update_rows path flds sel body idx fs s =
      (loop_locals flds sel body fs s, Ok tt,
       map (apply_update flds sel g) fs,
       update_events path flds sel g idx fs).
Proof.
  intros Hg fs. induction fs as [|f fs IH]; intros idx s Hok; [done|].
  apply Forall_cons in Hok as [Hf Hfs]. simpl.
  unfold apply_update, row_ok in *.
  destruct (sel f) eqn:Hsel; simpl.
  - destruct (Hf eq_refl) as [u Hu].
    specialize (Hg s (read_row flds f)).
    destruct (body s (read_row flds f)) as [s' o] eqn:Hb. simpl in Hg.
    rewrite Hu in Hg. subst o. rewrite Hu.
    rewrite (IH (S idx) s' Hfs). by destruct u.
  - by rewrite (IH (S idx) s Hfs).
Qed.

Lemma open_cursor_ok path flds (w : world G) fc :
  tables w !! path = Some fc -> has_fields fc flds = true ->
  open_cursor path flds w = (Ok fc, w).
Proof. intros Ht Hf. unfold open_cursor. by rewrite Ht, Hf. Qed.

Lemma SearchCursor_ok path flds (w : world G) fc :
  tables w !! path = Some fc -> has_fields fc flds = true ->
  SearchCursor path flds w = (Ok (map (read_row flds) (fc_rows fc)), w).
Proof.
  intros Ht Hf. unfold SearchCursor, bind.
  by rewrite (open_cursor_ok _ _ _ fc).
Qed.

Lemma UpdateCursor_stateless {L} path flds sel (body : updater G L) g s0
    (w : world G) fc :
  (forall s r, (body s r).2 = g r) ->
  tables w !! path = Some fc -> has_fields fc flds = true ->
  Forall (row_ok flds sel g) (fc_rows fc) ->
  UpdateCursor path flds sel body s0 w =
    ((loop_locals flds sel body (fc_rows fc) s0, Ok tt),
     World (<[path := FeatureClass (fc_fields fc)
                        (map (apply_update flds sel g) (fc_rows fc))]>
              (tables w))
           (session w)
           (log w ++ update_events path flds sel g 0 (fc_rows fc))).
Proof.
  intros Hg Ht Hf Hok. unfold UpdateCursor.
  rewrite (open_cursor_ok _ _ _ fc) by done.
  by rewrite (update_rows_stateless _ _ _ _ g).
Qed.

Lemma for_update_stateless {L} path flds sel (body : updater G L) g s0
    (w : world G) fc :
  (forall s r, (body s r).2 = g r) ->
  tables w !! path = Some fc -> has_fields fc flds = true ->
  Forall (row_ok flds sel g) (fc_rows fc) ->
  for_update path flds sel body s0 w =
    (Ok (loop_locals flds sel body (fc_rows fc) s0),
     World (<[path := FeatureClass (fc_fields fc)
                        (map (apply_update flds sel g) (fc_rows fc))]>
              (tables w))
           (session w)
           (log w ++ update_events path flds sel g 0 (fc_rows fc))).
Proof.
  intros Hg Ht Hf Hok. unfold for_update.
  by rewrite (UpdateCursor_stateless _ _ _ _ g _ _ fc).
Qed.

End LoopLemmas.

(** ** [update_fc_from_dict]: the dictionary and the copied columns *)

Section FromDict.
Context {G : Type} `{!Geometry G}.

(** What [copy_related] stores, as a function of the row. *)
Definition related_columns (origin_fc_dict : gmap value (gmap string value))
    (field_pairs : list (string * string)) (r : row G)
    : outcome (option (list value)) :=
  match origin_fc_dict !! col (row_vals r) 0 with
  | Some related_data =>
      match assign_related related_data field_pairs 0 (row_vals r) with
      | Ok vals => Ok (Some vals)
      | Raise e => Raise e
      end
  | None => Ok None
  end.

Lemma copy_related_columns origin_fc_dict field_pairs s (r : row G) :
  (copy_related origin_fc_dict field_pairs s r).2 =
    related_columns origin_fc_dict field_pairs r.
Proof.
  unfold copy_related, related_columns.
  destruct (origin_fc_dict !! _); [|done].
  by destruct (assign_related _ _ _ _).
Qed.

Lemma foldl_insert_lookup (h : string -> value) (kvs : list (string * value))
    (d : gmap string value) k :
  (forall k' v, (k', v) ∈ kvs -> v = h k') ->
  foldl (fun d kv => <[kv.1 := kv.2]> d) d kvs !! k =
    if decide (k ∈ kvs.*1) then Some (h k) else d !! k.
Proof.
  revert d. induction kvs as [|[k' v] kvs IH]; intros d Hh.
  - done.
  - cbn [foldl]. rewrite fmap_cons. cbn [fst snd].
    rewrite IH by (intros; apply Hh; set_solver).
    assert (v = h k') as -> by (apply Hh; set_solver).
    destruct (decide (k ∈ kvs.*1)) as [Hin|Hin].
    + by rewrite decide_True by set_solver.
    + destruct (decide (k = k')) as [->|Hne].
      * rewrite decide_True by set_solver. by rewrite lookup_insert_eq.
      * rewrite decide_False by set_solver. by rewrite lookup_insert_ne.
Qed.

Lemma dict_of_columns_lookup (h : string -> value) names k :
  dict_of_columns names (map h names) !! k =
    if decide (k ∈ names) then Some (h k) else None.
Proof.
  unfold dict_of_columns. rewrite (foldl_insert_lookup h).
  - rewrite fst_zip, lookup_empty; [done|].
    rewrite length_map. lia.
  - intros k' v Hin. apply list_elem_of_lookup in Hin as [i Hi].
    apply lookup_zip_with_Some in Hi as (x & y & Heq & Hx & Hy).
    simplify_eq. change (map h names) with (h <$> names) in Hy.
    rewrite list_lookup_fmap, Hx in Hy. simpl in Hy. by simplify_eq.
Qed.

Lemma last_match_snoc key_field k (rows : list (feature G)) s :
  last_match key_field k (rows ++ [s]) =
    if decide (get_field s key_field = k) then Some s
    else last_match key_field k rows.
Proof.
  unfold last_match. rewrite List.filter_app. simpl.
  destruct (decide _) as [Heq|Hne].
  - rewrite bool_decide_eq_true_2 by done. by rewrite last_snoc.
  - rewrite bool_decide_eq_false_2 by done. by rewrite app_nil_r.
Qed.

(** The dictionary holds, for a key, the source columns of the last source
    row with that key. *)
Lemma build_origin_fc_dict_lookup source_key_field source_fields
    (rows : list (feature G)) k :
  build_origin_fc_dict source_fields
    (map (read_row (source_key_field :: source_fields)) rows) !! k =
  (fun s => dict_of_columns source_fields (map (get_field s) source_fields))
    <$> last_match source_key_field k rows.
Proof.
  unfold build_origin_fc_dict.
  induction rows as [|s rows IH] using rev_ind; [done|].
  rewrite map_app, foldl_app, last_match_snoc. simpl.
  change (col (get_field s source_key_field :: map (get_field s) source_fields) 0)
    with (get_field s source_key_field).
  destruct (decide _) as [<-|Hne].
  - by rewrite lookup_insert_eq.
  - by rewrite lookup_insert_ne.
Qed.

Lemma assign_related_ok (h : string -> value) related_data field_pairs :
  (forall fp, fp ∈ field_pairs -> related_data !! fp.1 = Some (h fp.1)) ->
  forall i vals,
    length vals = (S i + length field_pairs)%nat ->
    assign_related related_data field_pairs i vals =
      Ok (take (S i) vals ++ map (fun fp => h fp.1) field_pairs).
Proof.
  induction field_pairs as [|fp rest IH]; intros Hrel i vals Hlen; simpl.
  - rewrite app_nil_r, take_ge; [done|]. simpl in Hlen. lia.
  - rewrite Hrel by set_solver.
    rewrite IH.
    + f_equal. simpl in Hlen.
      rewrite (take_S_r _ (S i) (h fp.1)).
      * rewrite take_insert_ge by lia. by rewrite <- app_assoc.
      * apply list_lookup_insert_eq. lia.
    + intros; apply Hrel; set_solver.
    + rewrite length_insert. simpl in *. lia.
Qed.

End FromDict.

Section FromDictRows.
Context {G : Type} `{!Geometry G}.

Lemma related_columns_ok source_key_field destination_key_field field_pairs
    (source_rows : list (feature G)) (d : feature G) :
  let origin_fc_dict :=
    build_origin_fc_dict field_pairs.*1
      (map (read_row (source_key_field :: field_pairs.*1)) source_rows) in
  related_columns origin_fc_dict field_pairs
    (read_row (destination_key_field :: field_pairs.*2) d) =
  Ok ((fun s =>
         get_field d destination_key_field ::
         map (fun fp => get_field s fp.1) field_pairs)
      <$> last_match source_key_field (get_field d destination_key_field)
            source_rows).
Proof.
  intros origin_fc_dict. unfold related_columns, origin_fc_dict.
  change (col (row_vals (read_row (destination_key_field :: field_pairs.*2) d)) 0)
    with (get_field d destination_key_field).
  rewrite build_origin_fc_dict_lookup.
  destruct (last_match _ _ _) as [s|]; [|done]. simpl.
  rewrite (assign_related_ok (get_field s)).
  - done.
  - intros fp Hfp. rewrite dict_of_columns_lookup.
    rewrite decide_True; [done|]. by apply list_elem_of_fmap_2.
  - simpl. rewrite length_map, length_fmap. done.
Qed.

Lemma apply_update_copied source_key_field destination_key_field field_pairs
    where_clause (source_rows : list (feature G)) (d : feature G) :
  NoDup (destination_key_field :: field_pairs.*2) ->
  copied_from source_rows source_key_field destination_key_field field_pairs
    where_clause d
    (apply_update (destination_key_field :: field_pairs.*2) where_clause
       (related_columns
          (build_origin_fc_dict field_pairs.*1
             (map (read_row (source_key_field :: field_pairs.*1)) source_rows))
          field_pairs) d).
Proof.
  intros Hnd. unfold copied_from, apply_update.
  destruct (where_clause d); [|done].
  rewrite related_columns_ok.
  destruct (last_match _ _ _) as [s|]; [|done]. simpl.
  split; [|split].
  - intros sf df Hin. apply list_elem_of_lookup in Hin as [i Hi].
    apply (get_field_write_row _ _ _ (S i)); [done| |]; simpl.
    + by rewrite list_lookup_fmap, Hi.
    + change (map (fun fp => get_field s fp.1) field_pairs)
        with ((fun fp : string * string => get_field s fp.1) <$> field_pairs).
      by rewrite list_lookup_fmap, Hi.
  - intros k Hk. destruct (decide (k = destination_key_field)) as [->|Hne].
    + by apply (get_field_write_row _ _ _ 0%nat).
    + apply get_field_write_row_other. set_solver.
  - apply shape_write_row.
Qed.

Lemma related_columns_row_ok source_key_field destination_key_field
    field_pairs where_clause (source_rows : list (feature G))
    (d : feature G) :
  row_ok (destination_key_field :: field_pairs.*2) where_clause
    (related_columns
       (build_origin_fc_dict field_pairs.*1
          (map (read_row (source_key_field :: field_pairs.*1)) source_rows))
       field_pairs) d.
Proof. intros _. rewrite related_columns_ok. eauto. Qed.

Lemma copy_related_binds origin_fc_dict field_pairs s (r : row G) :
  (copy_related origin_fc_dict field_pairs s r).1 = Some (col (row_vals r) 0).
Proof.
  unfold copy_related. destruct (origin_fc_dict !! _); [|done].
  by destruct (assign_related _ _ _ _).
Qed.

(** [common_guid] after the loop: bound as soon as a row was selected. *)
Lemma copy_related_locals_bound origin_fc_dict field_pairs flds sel
    (fs : list (feature G)) v :
  exists v',
    loop_locals flds sel (copy_related origin_fc_dict field_pairs) fs (Some v)
    = Some v'.
Proof.
  revert v. induction fs as [|f fs IH]; intros v; simpl; [eauto|].
  destruct (sel f); [|apply IH].
  rewrite copy_related_binds. apply IH.
Qed.

Lemma copy_related_locals origin_fc_dict field_pairs flds sel
    (fs : list (feature G)) :
  if existsb sel fs
  then exists v,
      loop_locals flds sel (copy_related origin_fc_dict field_pairs) fs None
      = Some v
  else loop_locals flds sel (copy_related origin_fc_dict field_pairs) fs None
       = None.
Proof.
  induction fs as [|f fs IH]; simpl; [done|].
  destruct (sel f); simpl; [|apply IH].
  rewrite copy_related_binds. apply copy_related_locals_bound.
Qed.

End FromDictRows.

Section FromDictTheorem.
Context {G : Type} `{!Geometry G}.

Lemma Forall2_map_self {A} (P : A -> A -> Prop) (h : A -> A) (l : list A) :
  (forall x, P x (h x)) -> Forall2 P l (map h l).
Proof. intros HP. induction l; simpl; constructor; auto. Qed.

Lemma Forall_all {A} (P : A -> Prop) (l : list A) :
  (forall x, P x) -> Forall P l.
Proof. intros HP. induction l; constructor; auto. Qed.

(** C1. On tables that have the fields the call names, with destination
    fields that are pairwise distinct and distinct from the destination key
    field, [update_fc_from_dict] ends with the destination rows related to
    the rows before the call by [copied_from]: a row selected by
    [where_clause] whose key is among the source keys gets, in each
    destination field, the value of the paired source field of the source
    row with that key (the last one in cursor order); every other row is
    unchanged.  The script for ROM returns; the script for BG returns when
    some row was selected, and otherwise ends in its [finally] block on the
    unbound [common_guid], after the edits were saved. *)
Theorem update_fc_from_dict_copies (w : world G)
    (source_fc destination_fc source_key_field destination_key_field : string)
    (field_pairs : list (string * string)) (where_clause : feature G -> bool)
    (src dst : feature_class G) :
  tables w !! source_fc = Some src ->
  tables w !! destination_fc = Some dst ->
  has_fields src (source_key_field :: field_pairs.*1) = true ->
  has_fields dst (destination_key_field :: field_pairs.*2) = true ->
  NoDup (destination_key_field :: field_pairs.*2) ->
  exists rows',
    Forall2 (copied_from (fc_rows src) source_key_field destination_key_field
               field_pairs where_clause)
            (fc_rows dst) rows'
    /\ (exists w',
          ROM.update_fc_from_dict source_fc destination_fc source_key_field
            destination_key_field field_pairs where_clause w = (Ok tt, w')
          /\ tables w' =
               <[destination_fc := FeatureClass (fc_fields dst) rows']>
                 (tables w))
    /\ (exists w',
          BG.update_fc_from_dict source_fc destination_fc source_key_field
            destination_key_field field_pairs where_clause w =
            (if existsb where_clause (fc_rows dst) then Ok tt
             else Raise (UnboundLocalError "common_guid"), w')
          /\ tables w' =
               <[destination_fc := FeatureClass (fc_fields dst) rows']>
                 (tables w)).
Proof.
  intros Hsrc Hdst Hsf Hdf Hnd.
  set (g := related_columns (G:=G)
              (build_origin_fc_dict field_pairs.*1
                 (map (read_row (source_key_field :: field_pairs.*1))
                      (fc_rows src)))
              field_pairs).
  exists (map (apply_update (destination_key_field :: field_pairs.*2)
                 where_clause g) (fc_rows dst)).
  split; [|split].
  - apply Forall2_map_self. intros d. by apply apply_update_copied.
  - eexists. split.
    + unfold ROM.update_fc_from_dict, bind.
      rewrite (SearchCursor_ok _ _ _ src) by done.
      rewrite (for_update_stateless _ _ _ _ g _ _ dst); try done.
      * intros; apply copy_related_columns.
      * apply Forall_all. intros d. apply related_columns_row_ok.
    + done.
  - unfold BG.update_fc_from_dict, bind, Describe. rewrite Hdst.
    unfold startEditing, startOperation, emit, finally_with, except_reraise,
      BG.update_fc_from_dict_try. simpl.
    rewrite (SearchCursor_ok _ _ _ src) by done.
    rewrite (UpdateCursor_stateless _ _ _ _ g _ _ dst); try done.
    + simpl.
      pose proof (copy_related_locals
                    (build_origin_fc_dict field_pairs.*1
                       (map (read_row (source_key_field :: field_pairs.*1))
                          (fc_rows src)))
                    field_pairs (destination_key_field :: field_pairs.*2)
                    where_clause (fc_rows dst)) as Hloc.
      destruct (existsb where_clause (fc_rows dst)).
      * destruct Hloc as [v ->]. simpl. eauto.
      * rewrite Hloc. simpl. eauto.
    + intros; apply copy_related_columns.
    + apply Forall_all. intros d. apply related_columns_row_ok.
Qed.

End FromDictTheorem.

(** A station table with voltages, copied down to the station's equipment:
    the call of the script on [Station] and [StationEquipment]. *)
Lemma update_fc_from_dict_copies_witness :
  exists rows',
    Forall2 (copied_from (fc_rows Sample.station_table) "OBJECTID"
               "STATION_OID" [("OPERATINGVOLTAGE", "MIG_VOLTAGE")]
               Sample.station_oid_not_null)
            (fc_rows Sample.equipment_table) rows'
    /\ (exists w',
          ROM.update_fc_from_dict "Station" "StationEquipment" "OBJECTID"
            "STATION_OID" [("OPERATINGVOLTAGE", "MIG_VOLTAGE")]
            Sample.station_oid_not_null Sample.station_db = (Ok tt, w')
          /\ tables w' =
               <["StationEquipment" :=
                   FeatureClass (fc_fields Sample.equipment_table) rows']>
                 (tables Sample.station_db))
    /\ (exists w',
          BG.update_fc_from_dict "Station" "StationEquipment" "OBJECTID"
            "STATION_OID" [("OPERATINGVOLTAGE", "MIG_VOLTAGE")]
            Sample.station_oid_not_null Sample.station_db =
            (if existsb Sample.station_oid_not_null
                  (fc_rows Sample.equipment_table)
             then Ok tt else Raise (UnboundLocalError "common_guid"), w')
          /\ tables w' =
               <["StationEquipment" :=
                   FeatureClass (fc_fields Sample.equipment_table) rows']>
                 (tables Sample.station_db)).
Proof.
  apply (update_fc_from_dict_copies Sample.station_db "Station"
           "StationEquipment" "OBJECTID" "STATION_OID"
           [("OPERATINGVOLTAGE", "MIG_VOLTAGE")] Sample.station_oid_not_null
           Sample.station_table Sample.equipment_table).
  - reflexivity.
  - reflexivity.
  - reflexivity.
  - reflexivity.
  - apply (bool_decide_unpack _). reflexivity.
Defined.

(** ** [update_fc_from_dict]: the source feature class *)

Section Frames.
Context {G : Type} `{!Geometry G}.

Lemma SearchCursor_world path flds (w : world G) :
  (SearchCursor path flds w).2 = w.
Proof.
  unfold SearchCursor, bind, open_cursor.
  destruct (tables w !! path) as [fc|]; [|done].
  by destruct (has_fields fc flds).
Qed.

(** An update cursor writes to its own table, keeps the edit session as it
    is, and adds [updateRow] events only. *)
Lemma update_rows_events {L} path flds sel (body : updater G L) fs idx s :
  Forall (fun e => exists i vals, e = EUpdateRow path i vals)
    (update_rows path flds sel body idx fs s).2.
Proof.
  revert idx s. induction fs as [|f fs IH]; intros idx s; simpl; [done|].
  destruct (sel f).
  - destruct (body s (read_row flds f)) as [s' [upd|e]]; [|done].
    specialize (IH (S idx) s').
    destruct (update_rows path flds sel body (S idx) fs s')
      as [[[s'' o] rest'] evs].
    destruct upd; simpl in *; [|done].
    constructor; eauto.
  - specialize (IH (S idx) s).
    by destruct (update_rows path flds sel body (S idx) fs s)
      as [[[s'' o] rest'] evs].
Qed.

Lemma UpdateCursor_world {L} path flds sel (body : updater G L) s0
    (w : world G) :
  exists tbl evs,
    (UpdateCursor path flds sel body s0 w).2 =
      World tbl (session w) (log w ++ evs)
    /\ (forall p, p <> path -> tbl !! p = tables w !! p)
    /\ Forall (fun e => exists i vals, e = EUpdateRow path i vals) evs.
Proof.
  unfold UpdateCursor, open_cursor.
  destruct (tables w !! path) as [fc|] eqn:Ht; simpl.
  - destruct (has_fields fc flds); simpl.
    + pose proof (update_rows_events path flds sel body (fc_rows fc) 0 s0)
        as Hev.
      destruct (update_rows path flds sel body 0 (fc_rows fc) s0)
        as [[[s o] rows'] evs].
      eexists _, evs. split; [done|]. split; [|done].
      intros p Hp. by rewrite lookup_insert_ne.
    + exists (tables w), []. rewrite app_nil_r. by destruct w.
  - exists (tables w), []. rewrite app_nil_r. by destruct w.
Qed.

Lemma for_update_world {L} path flds sel (body : updater G L) s0
    (w : world G) :
  exists tbl evs,
    (for_update path flds sel body s0 w).2 =
      World tbl (session w) (log w ++ evs)
    /\ (forall p, p <> path -> tbl !! p = tables w !! p)
    /\ Forall (fun e => exists i vals, e = EUpdateRow path i vals) evs.
Proof.
  destruct (UpdateCursor_world path flds sel body s0 w)
    as (tbl & evs & Hw & Htbl & Hevs).
  exists tbl, evs. split; [|done].
  unfold for_update.
  destruct (UpdateCursor path flds sel body s0 w) as [[s [[]|e]] w'];
    simpl in *; done.
Qed.

End Frames.

Section SourceFrame.
Context {G : Type} `{!Geometry G}.

(** C7, as amended.  When the destination is another feature class than
    the source, [update_fc_from_dict] leaves the source feature class as it
    was, rows and fields, however the call ends. *)
Theorem update_fc_from_dict_keeps_source (w : world G)
    (source_fc destination_fc source_key_field destination_key_field : string)
    (field_pairs : list (string * string)) (where_clause : feature G -> bool) :
  source_fc <> destination_fc ->
  tables (ROM.update_fc_from_dict source_fc destination_fc source_key_field
            destination_key_field field_pairs where_clause w).2 !! source_fc
    = tables w !! source_fc
  /\ tables (BG.update_fc_from_dict source_fc destination_fc source_key_field
               destination_key_field field_pairs where_clause w).2 !! source_fc
    = tables w !! source_fc.
Proof.
  intros Hne. split.
  - unfold ROM.update_fc_from_dict, bind.
    pose proof (SearchCursor_world source_fc
                  (source_key_field :: field_pairs.*1) w) as Hs.
    destruct (SearchCursor _ _ w) as [[rows|e] w1]; simpl in Hs; subst w1;
      [|done].
    match goal with
    | |- context [for_update ?p ?f ?s ?b ?l w] =>
        destruct (for_update_world p f s b l w) as (tbl & evs & Hw & Htbl & _);
        destruct (for_update p f s b l w) as [[s'|e] w2]
    end; simpl in *; subst w2; simpl; by apply Htbl.
  - unfold BG.update_fc_from_dict, bind, Describe.
    destruct (tables w !! destination_fc) as [dst|]; [|done].
    unfold startEditing, startOperation, emit, finally_with, except_reraise,
      BG.update_fc_from_dict_try. simpl.
    match goal with
    | |- context [SearchCursor ?p ?f ?w0] =>
        pose proof (SearchCursor_world p f w0) as Hs;
        destruct (SearchCursor p f w0) as [[rows|e] w1]
    end; simpl in Hs; subst w1.
    + match goal with
      | |- context [UpdateCursor ?p ?f ?s ?b ?l ?w0] =>
          destruct (UpdateCursor_world p f s b l w0)
            as (tbl & evs & Hw & Htbl & _);
          destruct (UpdateCursor p f s b l w0) as [[cg [[]|e]] w2]
      end; simpl in *; subst w2; simpl.
      * destruct cg; simpl; by apply Htbl.
      * destruct cg; simpl; done.
    + simpl. done.
Qed.

End SourceFrame.

Lemma update_fc_from_dict_keeps_source_witness :
  tables (ROM.update_fc_from_dict "Station" "StationEquipment" "OBJECTID"
            "STATION_OID" [("OPERATINGVOLTAGE", "MIG_VOLTAGE")]
            Sample.station_oid_not_null Sample.station_db).2 !! "Station"
    = tables Sample.station_db !! "Station"
  /\ tables (BG.update_fc_from_dict "Station" "StationEquipment" "OBJECTID"
               "STATION_OID" [("OPERATINGVOLTAGE", "MIG_VOLTAGE")]
               Sample.station_oid_not_null Sample.station_db).2 !! "Station"
    = tables Sample.station_db !! "Station".
Proof.
  apply (update_fc_from_dict_keeps_source Sample.station_db "Station"
           "StationEquipment" "OBJECTID" "STATION_OID"
           [("OPERATINGVOLTAGE", "MIG_VOLTAGE")] Sample.station_oid_not_null).
  vm_compute. discriminate.
Defined.

(** C7 as stated fails when the source is the destination: copying the
    parent bay's [STATION] into [MIG_STATION] of the same table changes a
    row of the source feature class, in both scripts. *)
Lemma update_fc_from_dict_changes_aliased_source :
  let after_rom :=
    (ROM.update_fc_from_dict "Bay" "Bay" "OBJECTID" "PARENT_OID"
       [("STATION", "MIG_STATION")] all_rows Sample.bay_db).2 in
  let after_bg :=
    (BG.update_fc_from_dict "Bay" "Bay" "OBJECTID" "PARENT_OID"
       [("STATION", "MIG_STATION")] all_rows Sample.bay_db).2 in
  Sample.column Sample.bay_db "Bay" "MIG_STATION" = Some [VNone; VNone]
  /\ Sample.column after_rom "Bay" "MIG_STATION" = Some [VNone; VStr "North"]
  /\ Sample.column after_bg "Bay" "MIG_STATION" = Some [VNone; VStr "North"]
  /\ tables after_rom !! "Bay" <> tables Sample.bay_db !! "Bay"
  /\ tables after_bg !! "Bay" <> tables Sample.bay_db !! "Bay".
Proof.
  assert (forall w : world Interval.shape1,
            Sample.column w "Bay" "MIG_STATION" = Some [VNone; VStr "North"] ->
            tables w !! "Bay" <> tables Sample.bay_db !! "Bay") as Hdiff.
  { intros w Hcol Heq. unfold Sample.column in Hcol. rewrite Heq in Hcol.
    vm_compute in Hcol. discriminate. }
  repeat split; try (vm_compute; reflexivity);
    apply Hdiff; vm_compute; reflexivity.
Qed.

(** ** [update_mig_voltage.update_field] *)

Section Voltage.
Context {G : Type} `{!Geometry G}.

Definition voltage_columns (origin_fc_dict : gmap value value) (r : row G)
    : outcome (option (list value)) :=
  match origin_fc_dict !! col (row_vals r) 0 with
  | Some voltage => Ok (Some (<[1%nat := voltage]> (row_vals r)))
  | None => Ok None
  end.

Lemma copy_voltage_columns origin_fc_dict s (r : row G) :
  (copy_voltage origin_fc_dict s r).2 = voltage_columns origin_fc_dict r.
Proof.
  unfold copy_voltage, voltage_columns. by destruct (origin_fc_dict !! _).
Qed.

Lemma last_live_match_snoc sg ov k (rows : list (feature G)) s :
  last_live_match sg ov k (rows ++ [s]) =
    if bool_decide (get_field s sg = k) && live sg ov s then Some s
    else last_live_match sg ov k rows.
Proof.
  unfold last_live_match. rewrite List.filter_app. simpl.
  destruct (_ && _).
  - by rewrite last_snoc.
  - by rewrite app_nil_r.
Qed.

(** The dictionary maps a key to the voltage of the last source row with
    that key among those with a truthy key and a truthy voltage. *)
Lemma build_voltage_dict_lookup sg ov (rows : list (feature G)) k :
  build_voltage_dict (map (read_row [sg; ov]) rows) !! k =
    (fun s => get_field s ov) <$> last_live_match sg ov k rows.
Proof.
  unfold build_voltage_dict.
  induction rows as [|s rows IH] using rev_ind; [done|].
  rewrite map_app, foldl_app, last_live_match_snoc. simpl.
  change (col [get_field s sg; get_field s ov] 0) with (get_field s sg).
  change (col [get_field s sg; get_field s ov] 1) with (get_field s ov).
  fold (live sg ov s).
  destruct (live sg ov s) eqn:Hl.
  - rewrite andb_true_r. destruct (bool_decide_reflect (get_field s sg = k))
      as [<-|Hne].
    + by rewrite lookup_insert_eq.
    + by rewrite lookup_insert_ne.
  - by rewrite andb_false_r.
Qed.

Lemma last_Some_elem {A} (l : list A) x : last l = Some x -> x ∈ l.
Proof.
  intros Hl. apply last_Some in Hl as [l' ->]. set_solver.
Qed.

Lemma last_live_match_Some sg ov k (rows : list (feature G)) s :
  last_live_match sg ov k rows = Some s ->
  s ∈ rows /\ get_field s sg = k /\ live sg ov s = true.
Proof.
  intros Hl. apply last_Some_elem in Hl.
  apply list_elem_of_In, List.filter_In in Hl as [Hin Hp].
  apply andb_true_iff in Hp as [Hk Hlive].
  apply bool_decide_eq_true in Hk.
  split; [by apply list_elem_of_In|done].
Qed.

Lemma last_live_match_None sg ov k (rows : list (feature G)) :
  (forall s, s ∈ rows -> get_field s sg = k -> live sg ov s = false) ->
  last_live_match sg ov k rows = None.
Proof.
  intros Hall. destruct (last_live_match sg ov k rows) as [s|] eqn:Hl; [|done].
  apply last_live_match_Some in Hl as (Hin & Hk & Hlive).
  rewrite (Hall s Hin Hk) in Hlive. done.
Qed.

Lemma apply_update_voltage sg ov dg mv (source_rows : list (feature G))
    (d : feature G) :
  dg <> mv ->
  voltage_copied source_rows sg ov dg mv d
    (apply_update [dg; mv] all_rows
       (voltage_columns (build_voltage_dict (map (read_row [sg; ov]) source_rows)))
       d).
Proof.
  intros Hne. unfold voltage_copied, apply_update, voltage_columns. simpl.
  change (col [get_field d dg; get_field d mv] 0) with (get_field d dg).
  rewrite build_voltage_dict_lookup.
  destruct (last_live_match _ _ _ _) as [s|]; [|done]. simpl.
  assert (NoDup [dg; mv]) as Hnd.
  { repeat constructor; set_solver. }
  split; [|split].
  - by apply (get_field_write_row _ _ _ 1%nat).
  - intros k Hk. destruct (decide (k = dg)) as [->|Hkd].
    + by apply (get_field_write_row _ _ _ 0%nat).
    + apply get_field_write_row_other. set_solver.
  - done.
Qed.

End Voltage.

Section VoltageTheorem.
Context {G : Type} `{!Geometry G}.

(** C10.  In [update_field], the lookup dictionary has an entry only from a
    source row whose key and voltage are both truthy, so every voltage it
    holds is truthy.  On tables that have the fields named, with the
    destination key field another field than the voltage field, both
    scripts return, and each destination row is either left as it was or
    has its voltage field set to a truthy voltage of a source row with its
    key; a destination row whose key is only the key of source rows with a
    falsy key or voltage is left as it was. *)
Theorem update_field_skips_falsy (w : world G)
    (source_fc destination_fc : string)
    (source_globalid operatingvoltage dest_globalid mig_voltage : string)
    (src dst : feature_class G) :
  tables w !! source_fc = Some src ->
  tables w !! destination_fc = Some dst ->
  has_fields src [source_globalid; operatingvoltage] = true ->
  has_fields dst [dest_globalid; mig_voltage] = true ->
  dest_globalid <> mig_voltage ->
  let origin_fc_dict :=
    build_voltage_dict
      (map (read_row [source_globalid; operatingvoltage]) (fc_rows src)) in
  (forall k v, origin_fc_dict !! k = Some v ->
     truthy k = true /\ truthy v = true
     /\ exists s, s ∈ fc_rows src /\ get_field s source_globalid = k
                  /\ get_field s operatingvoltage = v)
  /\ exists rows',
       Forall2
         (fun d d' =>
            voltage_copied (fc_rows src) source_globalid operatingvoltage
              dest_globalid mig_voltage d d'
            /\ (d' = d \/ truthy (get_field d' mig_voltage) = true)
            /\ ((forall s, s ∈ fc_rows src ->
                   get_field s source_globalid = get_field d dest_globalid ->
                   live source_globalid operatingvoltage s = false) ->
                d' = d))
         (fc_rows dst) rows'
       /\ (exists w',
             ROM.update_field source_fc destination_fc source_globalid
               operatingvoltage dest_globalid mig_voltage w = (Ok tt, w')
             /\ tables w' =
                  <[destination_fc := FeatureClass (fc_fields dst) rows']>
                    (tables w))
       /\ (exists w',
             BG.update_field destination_fc source_fc destination_fc
               source_globalid operatingvoltage dest_globalid mig_voltage w
             = (Ok tt, w')
             /\ tables w' =
                  <[destination_fc := FeatureClass (fc_fields dst) rows']>
                    (tables w)).
Proof.
  intros Hsrc Hdst Hsf Hdf Hne origin_fc_dict.
  split.
  { intros k v Hkv. unfold origin_fc_dict in Hkv.
    rewrite build_voltage_dict_lookup in Hkv.
    destruct (last_live_match _ _ _ _) as [s|] eqn:Hl; [|done].
    simpl in Hkv. simplify_eq.
    apply last_live_match_Some in Hl as (Hin & Hk & Hlive).
    apply andb_true_iff in Hlive as [Hkt Hvt]. rewrite Hk in Hkt.
    eauto 10. }
  set (g := voltage_columns (G:=G) origin_fc_dict).
  assert (Forall (row_ok [dest_globalid; mig_voltage] all_rows g) (fc_rows dst))
    as Hok.
  { apply Forall_all. intros d _. unfold g, voltage_columns.
    destruct (origin_fc_dict !! _); eauto. }
  exists (map (apply_update [dest_globalid; mig_voltage] all_rows g)
            (fc_rows dst)).
  split; [|split].
  - apply Forall2_map_self. intros d.
    pose proof (apply_update_voltage source_globalid operatingvoltage
                  dest_globalid mig_voltage (fc_rows src) d Hne) as Hcopied.
    fold origin_fc_dict in Hcopied. fold g in Hcopied.
    split; [done|]. unfold voltage_copied in Hcopied.
    destruct (last_live_match _ _ _ _) as [s|] eqn:Hl.
    + apply last_live_match_Some in Hl as (Hin & Hk & Hlive).
      destruct Hcopied as (Hv & _). split.
      * right. rewrite Hv. by apply andb_true_iff in Hlive as [_ ?].
      * intros Hall. rewrite (Hall s Hin Hk) in Hlive. done.
    + split; [left; exact Hcopied|intros _; exact Hcopied].
  - eexists. split.
    + unfold ROM.update_field, bind.
      rewrite (SearchCursor_ok _ _ _ src) by done.
      rewrite (for_update_stateless _ _ _ _ g _ _ dst); try done.
      * by destruct (loop_locals _ _ _ _ _).
      * intros; apply copy_voltage_columns.
    + done.
  - eexists. split.
    + unfold BG.update_field, bind, Describe. rewrite Hdst.
      unfold startEditing, startOperation, emit, try_except, bind. simpl.
      rewrite (SearchCursor_ok _ _ _ src) by done.
      rewrite (for_update_stateless _ _ _ _ g _ _ dst); try done.
      intros; apply copy_voltage_columns.
    + done.
Qed.

End VoltageTheorem.

Lemma update_field_skips_falsy_witness :
  let origin_fc_dict :=
    build_voltage_dict
      (map (read_row ["TARGET_FID"; "OPERATINGVOLTAGE"])
           (fc_rows Sample.join_conductor_table)) in
  (forall k v, origin_fc_dict !! k = Some v ->
     truthy k = true /\ truthy v = true
     /\ exists s, s ∈ fc_rows Sample.join_conductor_table
                  /\ get_field s "TARGET_FID" = k
                  /\ get_field s "OPERATINGVOLTAGE" = v)
  /\ exists rows',
       Forall2
         (fun d d' =>
            voltage_copied (fc_rows Sample.join_conductor_table) "TARGET_FID"
              "OPERATINGVOLTAGE" "OBJECTID" "MIG_VOLTAGE" d d'
            /\ (d' = d \/ truthy (get_field d' "MIG_VOLTAGE") = true)
            /\ ((forall s, s ∈ fc_rows Sample.join_conductor_table ->
                   get_field s "TARGET_FID" = get_field d "OBJECTID" ->
                   live "TARGET_FID" "OPERATINGVOLTAGE" s = false) ->
                d' = d))
         (fc_rows Sample.connector_table) rows'
       /\ (exists w',
             ROM.update_field "join_conductor_layer" "Connector" "TARGET_FID"
               "OPERATINGVOLTAGE" "OBJECTID" "MIG_VOLTAGE" Sample.connector_db
             = (Ok tt, w')
             /\ tables w' =
                  <["Connector" :=
                      FeatureClass (fc_fields Sample.connector_table) rows']>
                    (tables Sample.connector_db))
       /\ (exists w',
             BG.update_field "Connector" "join_conductor_layer" "Connector"
               "TARGET_FID" "OPERATINGVOLTAGE" "OBJECTID" "MIG_VOLTAGE"
               Sample.connector_db
             = (Ok tt, w')
             /\ tables w' =
                  <["Connector" :=
                      FeatureClass (fc_fields Sample.connector_table) rows']>
                    (tables Sample.connector_db)).
Proof.
  apply (update_field_skips_falsy Sample.connector_db "join_conductor_layer"
           "Connector" "TARGET_FID" "OPERATINGVOLTAGE" "OBJECTID" "MIG_VOLTAGE"
           Sample.join_conductor_table Sample.connector_table).
  - reflexivity.
  - reflexivity.
  - reflexivity.
  - reflexivity.
  - vm_compute. discriminate.
Defined.

(** On the sample, the connector with a live voltage gets it, and the
    connectors matched by zero, empty or null voltages keep their own. *)
Example update_field_sample :
  Sample.column
    (BG.update_field "Connector" "join_conductor_layer" "Connector"
       "TARGET_FID" "OPERATINGVOLTAGE" "OBJECTID" "MIG_VOLTAGE"
       Sample.connector_db).2 "Connector" "MIG_VOLTAGE"
  = Some [VInt 20; VInt 6; VInt 6; VNone].
Proof. vm_compute. reflexivity. Qed.

(** ** [update_fc_within] *)

Section Within.
Context {G : Type} `{!Geometry G}.

Definition station_columns (outer_polygons : list (option G)) (r : row G)
    : outcome (option (list value)) :=
  match row_shape r with
  | None => Ok None
  | Some inner_polygon =>
      if within_any inner_polygon outer_polygons
      then Ok (Some (<[0%nat := VStr "Station"]> (row_vals r)))
      else Ok None
  end.

Lemma mark_station_columns outer_polygons s (r : row G) :
  (mark_station outer_polygons s r).2 = station_columns outer_polygons r.
Proof.
  unfold mark_station, station_columns. destruct (row_shape r); [|done].
  by destruct (within_any _ _).
Qed.

Lemma within_any_true (g : G) (outer_rows : list (feature G)) :
  within_any g (map row_shape (map (read_row []) outer_rows)) = true <->
  exists o p, o ∈ outer_rows /\ shape o = Some p /\ within g p = true.
Proof.
  unfold within_any. rewrite existsb_exists. split.
  - intros (x & Hin & Hx). destruct x as [p|]; [|done].
    apply in_map_iff in Hin as (r & Hr & Hin).
    apply in_map_iff in Hin as (o & <- & Hin).
    exists o, p. split; [by apply list_elem_of_In|done].
  - intros (o & p & Hin & Hs & Hw). exists (Some p). split; [|done].
    apply in_map_iff. exists (read_row [] o). split; [done|].
    apply in_map_iff. exists o. split; [done|]. by apply list_elem_of_In.
Qed.

Lemma apply_update_station (outer_rows : list (feature G)) (d : feature G) :
  station_marked outer_rows d
    (apply_update ["MIG_PARENTTYPE"] all_rows
       (station_columns (map row_shape (map (read_row []) outer_rows))) d).
Proof.
  unfold station_marked, apply_update, station_columns, within_some. simpl.
  destruct (shape d) as [g|] eqn:Hg.
  - destruct (within_any g _) eqn:Hw.
    + split; [|intros Hn; exfalso; apply Hn].
      * intros _. split; [|split].
        -- apply (get_field_write_row _ _ _ 0%nat); [|done..].
           repeat constructor; set_solver.
        -- intros k Hk. apply get_field_write_row_other. set_solver.
        -- rewrite shape_write_row. done.
      * apply within_any_true in Hw as (o & p & ?). by exists g, o, p.
    + split; [|done]. intros (g' & o & p & Hg' & Hin & Hp & Hwp).
      simplify_eq.
      assert (within_any g' (map row_shape (map (read_row []) outer_rows))
              = true) as Hw' by (apply within_any_true; eauto).
      congruence.
  - split; [|done]. intros (g' & o & p & Hg' & _). done.
Qed.

(** Without null geometries, the unguarded test of the script for ROM is
    the guarded one. *)
Lemma within_any_unguarded_ok (g : G) (outer_polygons : list (option G)) :
  Forall is_Some outer_polygons ->
  within_any_unguarded (Some g) outer_polygons
    = Ok (within_any g outer_polygons).
Proof.
  induction 1 as [|o rest [p ->] _ IH]; simpl; [done|].
  destruct (within g p); [done|]. by rewrite IH.
Qed.

(** X1.  [update_fc_within] of the script for BG, on an inner table with the
    field [MIG_PARENTTYPE]: the call returns, and [MIG_PARENTTYPE] is set
    to ['Station'] on exactly the features within a polygon of the outer
    table; all else is unchanged.  The script for ROM does the same when no
    geometry of the two tables is null. *)
Lemma update_fc_within_marks_station (w : world G) (inner_fc outer_fc : string)
    (inner outer : feature_class G) :
  tables w !! inner_fc = Some inner ->
  tables w !! outer_fc = Some outer ->
  has_fields inner ["MIG_PARENTTYPE"] = true ->
  exists rows',
    Forall2 (station_marked (fc_rows outer)) (fc_rows inner) rows'
    /\ (exists w',
          BG.update_fc_within inner_fc outer_fc w = (Ok tt, w')
          /\ tables w' =
               <[inner_fc := FeatureClass (fc_fields inner) rows']> (tables w))
    /\ (Forall (fun f => is_Some (shape f)) (fc_rows inner) ->
        Forall (fun f => is_Some (shape f)) (fc_rows outer) ->
        exists w',
          ROM.update_fc_within inner_fc outer_fc w = (Ok tt, w')
          /\ tables w' =
               <[inner_fc := FeatureClass (fc_fields inner) rows']> (tables w)).
Proof.
  intros Hin Hout Hf.
  set (polys := map row_shape (map (read_row (G:=G) []) (fc_rows outer))).
  set (g := station_columns polys).
  assert (Forall (row_ok ["MIG_PARENTTYPE"] all_rows g) (fc_rows inner)) as Hok.
  { apply Forall_all. intros d _. unfold g, station_columns.
    destruct (row_shape _); [|eauto]. destruct (within_any _ _); eauto. }
  exists (map (apply_update ["MIG_PARENTTYPE"] all_rows g) (fc_rows inner)).
  split; [|split].
  - apply Forall2_map_self. intros d. apply apply_update_station.
  - eexists. split.
    + unfold BG.update_fc_within, bind.
      rewrite (SearchCursor_ok _ _ _ outer) by done.
      unfold Describe. rewrite Hin.
      unfold startEditing, startOperation, emit, try_except, bind. simpl.
      rewrite (for_update_stateless _ _ _ _ g _ _ inner); try done.
      intros; apply mark_station_columns.
    + done.
  - intros Hinner Houter.
    set (g' := fun r : row G => (mark_station_unguarded polys tt r).2).
    assert (Forall (fun d => g' (read_row ["MIG_PARENTTYPE"] d)
                             = g (read_row ["MIG_PARENTTYPE"] d))
                   (fc_rows inner)) as Hgg.
    { eapply Forall_impl; [exact Hinner|]. intros d [sh Hsh].
      unfold g', g, mark_station_unguarded, station_columns. simpl.
      rewrite Hsh, within_any_unguarded_ok.
      - by destruct (within_any sh polys).
      - unfold polys. clear -Houter.
        induction Houter; simpl; constructor; auto. }
    eexists. split.
    + unfold ROM.update_fc_within, bind.
      rewrite (SearchCursor_ok _ _ _ outer) by done.
      rewrite (for_update_stateless _ _ _ _ g' _ _ inner); try done.
      * by destruct (loop_locals _ _ _ _ _).
      * eapply Forall_impl; [exact Hgg|]. intros d Hd _. rewrite Hd.
        unfold g, station_columns.
        destruct (row_shape _); [|eauto]. destruct (within_any _ _); eauto.
    + simpl. do 2 f_equal.
      clear -Hgg. induction Hgg as [|d rest Hd _ IH]; simpl; [done|].
      rewrite IH. f_equal. unfold apply_update. by rewrite Hd.
Qed.

End Within.

(** ** The boundary routines *)

Section Boundary.
Context {G : Type} `{!Geometry G}.

Lemma scan_stations_find elif_test (items : list (value * option G)) (g : G) :
  scan_stations elif_test items g =
    match List.find (reaches elif_test g) items with
    | Some (station_global_id, Some p) => Some (station_global_id, within g p)
    | _ => None
    end.
Proof.
  induction items as [|[k [p|]] rest IH]; simpl; [done| |done].
  unfold reaches at 1. simpl.
  destruct (within g p) eqn:Hw; simpl; [by rewrite Hw|].
  destruct (elif_test g p); simpl; [by rewrite Hw|done].
Qed.

Lemma store_status_result elif_test elif_label
    (station_dict : list (value * option G)) (g : G) a b :
  store_status elif_label (scan_stations elif_test station_dict g) [a; b] =
    [(boundary_result elif_test elif_label station_dict g).1;
     VStr (boundary_result elif_test elif_label station_dict g).2].
Proof.
  rewrite scan_stations_find. unfold boundary_result.
  destruct (List.find _ _) as [[k [p|]]|]; try done.
Qed.

(** What [station_status] stores, as a function of the row. *)
Definition status_columns (elif_test : G -> G -> bool) (elif_label : string)
    (station_dict : list (value * option G)) (r : row G)
    : outcome (option (list value)) :=
  match row_shape r with
  | None => Ok None
  | Some geom =>
      Ok (Some (store_status elif_label
                  (scan_stations elif_test station_dict geom) (row_vals r)))
  end.

Lemma station_status_columns elif_test elif_label station_dict s (r : row G) :
  (station_status elif_test elif_label station_dict s r).2 =
    status_columns elif_test elif_label station_dict r.
Proof. unfold station_status, status_columns. by destruct (row_shape r). Qed.

Lemma update_events_elem path flds sel
    (g : row G -> outcome (option (list value))) fs idx i vals :
  EUpdateRow path i vals ∈ update_events path flds sel g idx fs <->
  exists j f, i = (idx + j)%nat /\ fs !! j = Some f /\ sel f = true
              /\ g (read_row flds f) = Ok (Some vals).
Proof.
  revert idx. induction fs as [|f fs IH]; intros idx; simpl.
  - split; [set_solver|]. by intros (j & f & _ & ? & _).
  - rewrite elem_of_app, IH. split.
    + intros [Hhere|(j & f' & -> & Hj & Hs & Hg)].
      * destruct (sel f) eqn:Hsel; [|set_solver].
        destruct (g (read_row flds f)) as [[v|]|] eqn:Hg; [|set_solver..].
        apply list_elem_of_singleton in Hhere. simplify_eq.
        exists 0%nat, f. split; [lia|done].
      * exists (S j), f'. split; [lia|done].
    + intros (j & f' & -> & Hj & Hs & Hg). destruct j as [|j]; simpl in Hj.
      * simplify_eq. left. rewrite Hs, Hg, Nat.add_0_r. set_solver.
      * right. exists j, f'. split; [lia|done].
Qed.

Lemma filter_drop_appended (fields : list string) fn :
  fn ∉ fields ->
  List.filter (fun k => negb (bool_decide (k = fn))) (fields ++ [fn]) = fields.
Proof.
  intros Hfn. rewrite List.filter_app. simpl.
  rewrite bool_decide_eq_true_2 by done. simpl. rewrite app_nil_r.
  induction fields as [|k fields IH]; simpl; [done|].
  rewrite bool_decide_eq_false_2 by set_solver. simpl.
  rewrite IH; [done|set_solver].
Qed.

Lemma get_field_drop_field fn (f : feature G) k :
  get_field (drop_field fn f) k = if decide (k = fn) then VNone else get_field f k.
Proof.
  unfold get_field, drop_field. simpl. destruct (decide (k = fn)) as [->|Hne].
  - by rewrite lookup_delete_eq.
  - by rewrite lookup_delete_ne.
Qed.

Lemma has_fields_elem (fc : feature_class G) flds :
  has_fields fc flds = true <-> forall k, k ∈ flds -> k ∈ fc_fields fc.
Proof.
  unfold has_fields. rewrite forallb_forall. split.
  - intros Hall k Hk. apply list_elem_of_In, Hall in Hk.
    by apply bool_decide_eq_true in Hk.
  - intros Hall k Hk. apply bool_decide_eq_true, Hall. by apply list_elem_of_In.
Qed.

End Boundary.

Section BoundaryRun.
Context {G : Type} `{!Geometry G}.

(** The rows at the end of a boundary routine: the status field goes, with
    its values, when the routine added it. *)
Definition finish_row (field_added : bool) (field_name : string)
    (f : feature G) : feature G :=
  if field_added then drop_field field_name f else f.

(** A run of a boundary routine of the script for BG, on tables that have
    the fields it names. *)
Lemma boundary_run_bg elif_test elif_label (w : world G)
    (fc station_fc globalid_field mig_stationguid_field field_name : string)
    (pts sts : feature_class G) :
  tables w !! fc = Some pts ->
  tables w !! station_fc = Some sts ->
  fc <> station_fc ->
  globalid_field ∈ fc_fields sts ->
  mig_stationguid_field ∈ fc_fields pts ->
  let station_dict :=
    build_station_dict (map (read_row [globalid_field]) (fc_rows sts)) in
  let g := status_columns elif_test elif_label station_dict in
  let flds := [mig_stationguid_field; field_name] in
  let added := bool_decide (field_name ∉ fc_fields pts) in
  BG.update_fc_within_station_boundary elif_test elif_label fc station_fc
    globalid_field mig_stationguid_field field_name w =
  (Ok tt,
   World
     (<[fc := FeatureClass (fc_fields pts)
                (map (fun d => finish_row added field_name
                                 (apply_update flds all_rows g d))
                     (fc_rows pts))]> (tables w))
     None
     (log w
      ++ (if added then [EAddField fc field_name] else [])
      ++ [EStartEditing false true; EStartOperation]
      ++ update_events fc flds all_rows g 0 (fc_rows pts)
      ++ [EStopOperation; EStopEditing true]
      ++ (if added then [EDeleteField fc field_name] else []))).
Proof.
  intros Hpts Hsts Hne Hgid Hmig station_dict g flds added.
  assert (Forall (row_ok flds all_rows g) (fc_rows pts)) as Hok.
  { apply Forall_all. intros d _. unfold g, status_columns.
    destruct (row_shape _); eauto. }
  assert (has_fields sts [globalid_field] = true) as Hsf.
  { apply has_fields_elem. set_solver. }
  unfold BG.update_fc_within_station_boundary, bind, ListFields.
  rewrite Hpts. unfold added.
  destruct (decide (field_name ∈ fc_fields pts)) as [Hin|Hnin].
  - rewrite bool_decide_eq_false_2 by (by intros ?).
    unfold ret. rewrite (SearchCursor_ok _ _ _ sts) by done.
    unfold Describe. rewrite Hpts.
    unfold startEditing, startOperation, emit, try_finally, try_except, bind.
    simpl.
    rewrite (for_update_stateless _ _ _ _ g _ _ pts); try done.
    + simpl. unfold finish_row. repeat rewrite <- app_assoc. done.
    + intros; apply station_status_columns.
    + apply has_fields_elem. set_solver.
  - rewrite bool_decide_eq_true_2 by done.
    unfold AddField, ret. rewrite Hpts. simpl.
    rewrite (SearchCursor_ok _ _ _ sts);
      [|simpl; by rewrite lookup_insert_ne|done].
    unfold Describe. simpl. rewrite lookup_insert_eq.
    unfold startEditing, startOperation, emit, try_finally, try_except, bind.
    simpl.
    rewrite (for_update_stateless _ _ _ _ g _ _
               (FeatureClass (fc_fields pts ++ [field_name]) (fc_rows pts)));
      try done.
    + simpl. unfold DeleteField. simpl. rewrite lookup_insert_eq. simpl.
      rewrite !insert_insert_eq, filter_drop_appended by done.
      rewrite map_map. repeat rewrite <- app_assoc. done.
    + intros; apply station_status_columns.
    + simpl. by rewrite lookup_insert_eq.
    + apply has_fields_elem. simpl. set_solver.
Qed.

End BoundaryRun.

Section BoundaryRows.
Context {G : Type} `{!Geometry G}.

Lemma boundary_row elif_test elif_label
    (station_dict : list (value * option G))
    (mig_stationguid_field field_name : string) (added : bool)
    (d : feature G) :
  mig_stationguid_field <> field_name ->
  let d' :=
    finish_row added field_name
      (apply_update [mig_stationguid_field; field_name] all_rows
         (status_columns elif_test elif_label station_dict) d) in
  shape d' = shape d
  /\ match shape d with
     | None =>
         (forall k, k <> field_name -> get_field d' k = get_field d k)
         /\ (added = false -> d' = d)
     | Some g =>
         get_field d' mig_stationguid_field =
           (boundary_result elif_test elif_label station_dict g).1
         /\ (added = false ->
             get_field d' field_name =
               VStr (boundary_result elif_test elif_label station_dict g).2)
         /\ (forall k, k <> mig_stationguid_field -> k <> field_name ->
               get_field d' k = get_field d k)
     end.
Proof.
  intros Hne. unfold apply_update, status_columns. simpl.
  assert (NoDup [mig_stationguid_field; field_name]) as Hnd.
  { repeat constructor; set_solver. }
  destruct (shape d) as [g|] eqn:Hg.
  - rewrite store_status_result.
    set (res := boundary_result elif_test elif_label station_dict g).
    destruct added; simpl.
    + split; [done|]. split; [|split].
      * rewrite get_field_drop_field, decide_False by done.
        by apply (get_field_write_row _ _ _ 0%nat).
      * done.
      * intros k Hk1 Hk2. rewrite get_field_drop_field, decide_False by done.
        apply get_field_write_row_other. set_solver.
    + split; [done|]. split; [|split].
      * by apply (get_field_write_row _ _ _ 0%nat).
      * intros _. by apply (get_field_write_row _ _ _ 1%nat).
      * intros k Hk1 Hk2. apply get_field_write_row_other. set_solver.
  - destruct added; simpl.
    + split; [done|]. split; [|done].
      intros k Hk. by rewrite get_field_drop_field, decide_False.
    + done.
Qed.

Lemma boundary_events elif_test elif_label
    (station_dict : list (value * option G)) fc flds (rows : list (feature G))
    i d vals :
  rows !! i = Some d ->
  EUpdateRow fc i vals ∈
    update_events fc flds all_rows
      (status_columns elif_test elif_label station_dict) 0 rows <->
  exists g, shape d = Some g
            /\ vals = store_status elif_label
                        (scan_stations elif_test station_dict g)
                        (row_vals (read_row flds d)).
Proof.
  intros Hi. rewrite update_events_elem. unfold status_columns. split.
  - intros (j & f & -> & Hj & _ & Hg). simpl in Hi. simplify_eq.
    simpl in Hg. destruct (shape d) as [g|]; [|done].
    exists g. split; [done|]. by simplify_eq.
  - intros (g & Hs & ->). exists i, d. simpl. rewrite Hs. done.
Qed.

End BoundaryRows.

Section BoundaryRunRom.
Context {G : Type} `{!Geometry G}.

Lemma update_loop_ext path flds sel
    (g g' : row G -> outcome (option (list value))) (fs : list (feature G)) :
  Forall (fun d => g' (read_row flds d) = g (read_row flds d)) fs ->
  map (apply_update flds sel g') fs = map (apply_update flds sel g) fs
  /\ (forall idx, update_events path flds sel g' idx fs
                  = update_events path flds sel g idx fs)
  /\ (Forall (row_ok flds sel g) fs -> Forall (row_ok flds sel g') fs).
Proof.
  induction 1 as [|d fs Hd _ (IH1 & IH2 & IH3)]; simpl; [done|].
  split; [|split].
  - rewrite IH1. f_equal. unfold apply_update. by rewrite Hd.
  - intros idx. by rewrite IH2, Hd.
  - intros Hok. apply Forall_cons in Hok as [Hok1 Hok2].
    constructor; [|by apply IH3]. unfold row_ok in *. by rewrite Hd.
Qed.

Lemma dict_set_Forall {V} (P : value * V -> Prop) k (v : V) d :
  P (k, v) -> Forall P d -> Forall P (dict_set k v d).
Proof.
  intros Hkv. induction 1 as [|[k' v'] d Hx Hd IH]; simpl.
  - by constructor.
  - destruct (decide (k = k')); by constructor.
Qed.

Lemma build_station_dict_polygons flds (rows : list (feature G)) :
  Forall (fun f => is_Some (shape f)) rows ->
  Forall (fun item : value * option G => is_Some item.2)
    (build_station_dict (map (read_row flds) rows)).
Proof.
  unfold build_station_dict.
  induction rows as [|f rows IH] using rev_ind; intros Hrows; [constructor|].
  apply Forall_app in Hrows as [Hrows Hf]. apply Forall_cons in Hf as [Hf _].
  rewrite map_app, foldl_app. simpl. apply dict_set_Forall; [done|by apply IH].
Qed.

Lemma scan_stations_unguarded_ok elif_test
    (items : list (value * option G)) (g : G) :
  Forall (fun item : value * option G => is_Some item.2) items ->
  scan_stations_unguarded elif_test items (Some g)
    = Ok (scan_stations elif_test items g).
Proof.
  induction 1 as [|[k o] rest [p Hp] _ IH]; simpl in *; [done|]. subst o.
  destruct (within g p); [done|]. destruct (elif_test g p); [done|]. apply IH.
Qed.

(** A run of a boundary routine of the script for ROM, when no geometry of
    the two tables is null and [field_name] is the status field its cursor
    names. *)
Lemma boundary_run_rom elif_test elif_label (w : world G)
    (fc station_fc field_name : string) (pts sts : feature_class G) :
  tables w !! fc = Some pts ->
  tables w !! station_fc = Some sts ->
  fc <> station_fc ->
  "GLOBALID" ∈ fc_fields sts ->
  "MIG_STATIONGUID" ∈ fc_fields pts ->
  Forall (fun f => is_Some (shape f)) (fc_rows pts) ->
  Forall (fun f => is_Some (shape f)) (fc_rows sts) ->
  let station_dict :=
    build_station_dict (map (read_row ["GLOBALID"]) (fc_rows sts)) in
  let g := status_columns elif_test elif_label station_dict in
  let flds := ["MIG_STATIONGUID"; field_name] in
  let added := bool_decide (field_name ∉ fc_fields pts) in
  ROM.update_fc_within_station_boundary elif_test elif_label field_name
    fc station_fc field_name w =
  (Ok tt,
   World
     (<[fc := FeatureClass (fc_fields pts)
                (map (fun d => finish_row added field_name
                                 (apply_update flds all_rows g d))
                     (fc_rows pts))]> (tables w))
     (session w)
     (log w
      ++ (if added then [EAddField fc field_name] else [])
      ++ update_events fc flds all_rows g 0 (fc_rows pts)
      ++ (if added then [EDeleteField fc field_name] else []))).
Proof.
  intros Hpts Hsts Hne Hgid Hmig Hshapes Hpolys station_dict g flds added.
  subst flds.
  set (flds := ["MIG_STATIONGUID"; field_name]).
  change (ROM.update_fc_within_station_boundary elif_test elif_label
            field_name fc station_fc field_name w)
    with (bind (ListFields fc) (fun fields =>
          bind (if decide (field_name ∈ fields) then ret false
                else bind (AddField fc field_name) (fun _ => ret true))
            (fun field_added : bool =>
          bind (SearchCursor station_fc ["GLOBALID"]) (fun station_rows =>
          bind (for_update fc flds all_rows
                  (station_status_unguarded elif_test elif_label
                     (build_station_dict station_rows)) tt)
            (fun _ => if field_added then DeleteField fc field_name
                      else ret tt)))) w).
  set (g' := fun r : row G =>
               (station_status_unguarded elif_test elif_label station_dict
                  tt r).2).
  assert (Forall (fun d => g' (read_row flds d) = g (read_row flds d))
                 (fc_rows pts)) as Hgg.
  { eapply Forall_impl; [exact Hshapes|]. intros d [sh Hsh].
    unfold g', g, station_status_unguarded, status_columns. simpl.
    rewrite Hsh, scan_stations_unguarded_ok; [done|].
    by apply build_station_dict_polygons. }
  destruct (update_loop_ext fc flds all_rows g g' (fc_rows pts) Hgg)
    as (Hrows & Hevs & Hok').
  assert (Forall (row_ok flds all_rows g') (fc_rows pts)) as Hok.
  { apply Hok'. apply Forall_all. intros d _. unfold g, status_columns.
    destruct (row_shape _); eauto. }
  assert (has_fields sts ["GLOBALID"] = true) as Hsf.
  { apply has_fields_elem. set_solver. }
  unfold bind, ListFields.
  rewrite Hpts. unfold added.
  destruct (decide (field_name ∈ fc_fields pts)) as [Hin|Hnin].
  - rewrite bool_decide_eq_false_2 by (by intros ?).
    unfold ret. rewrite (SearchCursor_ok _ _ _ sts) by done.
    rewrite (for_update_stateless _ _ _ _ g' _ _ pts); try done.
    + rewrite Hrows, Hevs. simpl. unfold finish_row.
      by rewrite app_nil_r.
    + apply has_fields_elem. set_solver.
  - rewrite bool_decide_eq_true_2 by done.
    unfold AddField, ret. rewrite Hpts. simpl.
    rewrite (SearchCursor_ok _ _ _ sts);
      [|simpl; by rewrite lookup_insert_ne|done].
    rewrite (for_update_stateless _ _ _ _ g' _ _
               (FeatureClass (fc_fields pts ++ [field_name]) (fc_rows pts)));
      try done.
    + simpl. unfold DeleteField. simpl. rewrite lookup_insert_eq. simpl.
      rewrite !insert_insert_eq, filter_drop_appended by done.
      rewrite Hrows, Hevs, map_map. repeat rewrite <- app_assoc. done.
    + simpl. by rewrite lookup_insert_eq.
    + apply has_fields_elem. simpl. set_solver.
Qed.

End BoundaryRunRom.

Section BoundaryClassifies.
Context {G : Type} `{!Geometry G}.

Lemma classifies_rows elif_test elif_label
    (station_dict : list (value * option G))
    (fc mig_stationguid_field field_name : string) (pts : feature_class G)
    i d g :
  mig_stationguid_field <> field_name ->
  fc_rows pts !! i = Some d -> shape d = Some g ->
  let flds := [mig_stationguid_field; field_name] in
  let added := bool_decide (field_name ∉ fc_fields pts) in
  let sc := status_columns elif_test elif_label station_dict in
  let res := boundary_result elif_test elif_label station_dict g in
  (forall vals,
     EUpdateRow fc i vals ∈ update_events fc flds all_rows sc 0 (fc_rows pts)
     <-> vals = [res.1; VStr res.2])
  /\ exists d',
       map (fun d => finish_row added field_name
                       (apply_update flds all_rows sc d)) (fc_rows pts) !! i
         = Some d'
       /\ get_field d' mig_stationguid_field = res.1
       /\ (field_name ∈ fc_fields pts ->
           get_field d' field_name = VStr res.2).
Proof.
  intros Hne Hi Hg flds added sc res. split.
  - intros vals. unfold sc. rewrite (boundary_events _ _ _ _ _ _ _ d) by done.
    change (row_vals (read_row flds d))
      with [get_field d mig_stationguid_field; get_field d field_name].
    split.
    + intros (g' & Hg' & ->). simplify_eq. apply store_status_result.
    + intros ->. exists g. split; [done|]. symmetry. apply store_status_result.
  - eexists. split.
    + change (map ?h ?l) with (h <$> l). by rewrite list_lookup_fmap, Hi.
    + pose proof (boundary_row elif_test elif_label station_dict
                    mig_stationguid_field field_name added d Hne) as Hrow.
      simpl in Hrow. rewrite Hg in Hrow.
      destruct Hrow as (_ & Hmig & Hst & _). split; [done|].
      intros Hin. apply Hst. unfold added.
      apply bool_decide_eq_false_2. by intros ?.
Qed.

Lemma boundary_classifies_bg elif_test elif_label (w : world G)
    (fc station_fc globalid_field mig_stationguid_field field_name : string)
    (pts sts : feature_class G) :
  tables w !! fc = Some pts ->
  tables w !! station_fc = Some sts ->
  fc <> station_fc ->
  globalid_field ∈ fc_fields sts ->
  mig_stationguid_field ∈ fc_fields pts ->
  mig_stationguid_field <> field_name ->
  classifies elif_test elif_label
    (build_station_dict (map (read_row [globalid_field]) (fc_rows sts)))
    fc mig_stationguid_field field_name pts w
    (BG.update_fc_within_station_boundary elif_test elif_label fc station_fc
       globalid_field mig_stationguid_field field_name w).
Proof.
  intros Hpts Hsts Hne Hgid Hmig Hmf.
  rewrite (boundary_run_bg _ _ _ _ _ _ _ _ pts sts) by done.
  split; [done|]. simpl.
  eexists _,
    ((if bool_decide (field_name ∉ fc_fields pts)
      then [EAddField fc field_name] else [])
     ++ [EStartEditing false true; EStartOperation]),
    (update_events fc [mig_stationguid_field; field_name] all_rows
       (status_columns elif_test elif_label
          (build_station_dict (map (read_row [globalid_field]) (fc_rows sts))))
       0 (fc_rows pts)),
    ([EStopOperation; EStopEditing true]
     ++ (if bool_decide (field_name ∉ fc_fields pts)
         then [EDeleteField fc field_name] else [])).
  split; [by rewrite lookup_insert_eq|].
  split; [by rewrite <- !app_assoc|].
  split.
  - destruct (bool_decide _); repeat constructor; intros; discriminate.
  - intros i d g Hi Hg. by apply (classifies_rows _ _ _ _ _ _ _ _ d).
Qed.

Lemma boundary_classifies_rom elif_test elif_label (w : world G)
    (fc station_fc field_name : string) (pts sts : feature_class G) :
  tables w !! fc = Some pts ->
  tables w !! station_fc = Some sts ->
  fc <> station_fc ->
  "GLOBALID" ∈ fc_fields sts ->
  "MIG_STATIONGUID" ∈ fc_fields pts ->
  "MIG_STATIONGUID" <> field_name ->
  Forall (fun f => is_Some (shape f)) (fc_rows pts) ->
  Forall (fun f => is_Some (shape f)) (fc_rows sts) ->
  classifies elif_test elif_label
    (build_station_dict (map (read_row ["GLOBALID"]) (fc_rows sts)))
    fc "MIG_STATIONGUID" field_name pts w
    (ROM.update_fc_within_station_boundary elif_test elif_label field_name
       fc station_fc field_name w).
Proof.
  intros Hpts Hsts Hne Hgid Hmig Hmf Hshapes Hpolys.
  rewrite (boundary_run_rom _ _ _ _ _ _ pts sts) by done.
  split; [done|]. simpl.
  eexists _,
    (if bool_decide (field_name ∉ fc_fields pts)
     then [EAddField fc field_name] else []),
    (update_events fc ["MIG_STATIONGUID"; field_name] all_rows
       (status_columns elif_test elif_label
          (build_station_dict (map (read_row ["GLOBALID"]) (fc_rows sts))))
       0 (fc_rows pts)),
    (if bool_decide (field_name ∉ fc_fields pts)
     then [EDeleteField fc field_name] else []).
  split; [by rewrite lookup_insert_eq|].
  split; [done|].
  split.
  - destruct (bool_decide _); repeat constructor; intros; discriminate.
  - intros i d g Hi Hg. by apply (classifies_rows _ _ _ _ _ _ _ _ d).
Qed.

End BoundaryClassifies.

Section BoundaryTheorems.
Context {G : Type} `{!Geometry G}.

(** The three cases of [boundary_result]. *)
Lemma boundary_result_cases elif_test elif_label
    (station_dict : list (value * option G)) (g : G) :
  let res := boundary_result elif_test elif_label station_dict g in
  (exists skipped k p rest,
     station_dict = skipped ++ (k, Some p) :: rest
     /\ Forall (fun station => reaches elif_test g station = false) skipped
     /\ res.1 = k
     /\ (within g p = true /\ res.2 = "Inside"
         \/ within g p = false /\ elif_test g p = true /\ res.2 = elif_label))
  \/ (Forall (fun station => reaches elif_test g station = false) station_dict
      /\ res = (VNone, "Outside")).
Proof.
  unfold boundary_result.
  induction station_dict as [|[k o] rest IH]; simpl.
  - right. by split.
  - destruct (reaches elif_test g (k, o)) eqn:Hr.
    + left. unfold reaches in Hr. simpl in Hr. destruct o as [p|]; [|done].
      exists [], k, p, rest. split; [done|]. split; [done|]. split; [done|].
      destruct (within g p); [by left|right]. by simpl in Hr.
    + destruct IH as [(skipped & k' & p & rest' & -> & Hsk & Hk & Hcase)|[Hall Hres]].
      * left. exists ((k, o) :: skipped), k', p, rest'.
        split; [done|]. split; [by constructor|]. done.
      * right. split; [by constructor|done].
Qed.

(** C2, as amended.  [update_point_fc_within_station_boundary] gives every
    point feature with a geometry the status of the first station of the
    station dictionary that reaches it: ['Inside'] when the point is within
    that station's polygon, ['On Boundary'] when it only touches it, with
    [MIG_STATIONGUID] set to that station's global ID; and ['Outside'] with
    [MIG_STATIONGUID] set to [None] when no station reaches it.  The script
    for ROM does so when no geometry of the two tables is null. *)
Theorem update_point_fc_first_station (w : world G)
    (point_fc station_fc globalid_field mig_stationguid_field field_name : string)
    (pts sts : feature_class G) :
  tables w !! point_fc = Some pts ->
  tables w !! station_fc = Some sts ->
  point_fc <> station_fc ->
  globalid_field ∈ fc_fields sts ->
  mig_stationguid_field ∈ fc_fields pts ->
  mig_stationguid_field <> field_name ->
  let station_dict :=
    build_station_dict (map (read_row [globalid_field]) (fc_rows sts)) in
  classifies touches "On Boundary" station_dict point_fc
    mig_stationguid_field field_name pts w
    (BG.update_point_fc_within_station_boundary point_fc station_fc
       globalid_field mig_stationguid_field field_name w)
  /\ (globalid_field = "GLOBALID" ->
      mig_stationguid_field = "MIG_STATIONGUID" ->
      field_name = "POINT_STATUS" ->
      Forall (fun f => is_Some (shape f)) (fc_rows pts) ->
      Forall (fun f => is_Some (shape f)) (fc_rows sts) ->
      classifies touches "On Boundary" station_dict point_fc
        mig_stationguid_field field_name pts w
        (ROM.update_point_fc_within_station_boundary point_fc station_fc
           field_name w)).
Proof.
  intros Hpts Hsts Hne Hgid Hmig Hmf station_dict. split.
  - by apply boundary_classifies_bg.
  - intros -> -> -> Hshapes Hpolys.
    by apply (boundary_classifies_rom _ _ _ _ _ _ pts sts).
Qed.

(** C3, as amended.  [update_line_fc_within_station_boundary] gives every
    line feature with a geometry the status of the first station of the
    station dictionary it is not disjoint from or is within: ['Inside']
    when the line is within that station's polygon, ['Partly Inside']
    otherwise, with [MIG_STATIONGUID] set to that station's global ID; and
    ['Outside'] with [MIG_STATIONGUID] set to [None] when there is no such
    station.  The script for ROM does so when no geometry of the two tables
    is null. *)
Theorem update_line_fc_first_station (w : world G)
    (line_fc station_fc globalid_field mig_stationguid_field field_name : string)
    (lns sts : feature_class G) :
  tables w !! line_fc = Some lns ->
  tables w !! station_fc = Some sts ->
  line_fc <> station_fc ->
  globalid_field ∈ fc_fields sts ->
  mig_stationguid_field ∈ fc_fields lns ->
  mig_stationguid_field <> field_name ->
  let station_dict :=
    build_station_dict (map (read_row [globalid_field]) (fc_rows sts)) in
  classifies not_disjoint "Partly Inside" station_dict line_fc
    mig_stationguid_field field_name lns w
    (BG.update_line_fc_within_station_boundary line_fc station_fc
       globalid_field mig_stationguid_field field_name w)
  /\ (globalid_field = "GLOBALID" ->
      mig_stationguid_field = "MIG_STATIONGUID" ->
      field_name = "LINE_STATUS" ->
      Forall (fun f => is_Some (shape f)) (fc_rows lns) ->
      Forall (fun f => is_Some (shape f)) (fc_rows sts) ->
      classifies not_disjoint "Partly Inside" station_dict line_fc
        mig_stationguid_field field_name lns w
        (ROM.update_line_fc_within_station_boundary line_fc station_fc
           field_name w)).
Proof.
  intros Hlns Hsts Hne Hgid Hmig Hmf station_dict. split.
  - by apply boundary_classifies_bg.
  - intros -> -> -> Hshapes Hpolys.
    by apply (boundary_classifies_rom _ _ _ _ _ _ lns sts).
Qed.

End BoundaryTheorems.

Lemma update_point_fc_first_station_witness :
  let station_dict :=
    build_station_dict
      (map (read_row ["GLOBALID"]) (fc_rows Sample.station_boundary_table)) in
  classifies touches "On Boundary" station_dict "Electric_Net_Junctions"
    "MIG_STATIONGUID" "POINT_STATUS" Sample.junction_table Sample.boundary_db
    (BG.update_point_fc_within_station_boundary "Electric_Net_Junctions"
       "StationBoundary" "GLOBALID" "MIG_STATIONGUID" "POINT_STATUS"
       Sample.boundary_db)
  /\ classifies touches "On Boundary" station_dict "Electric_Net_Junctions"
       "MIG_STATIONGUID" "POINT_STATUS" Sample.junction_table
       Sample.boundary_db
       (ROM.update_point_fc_within_station_boundary "Electric_Net_Junctions"
          "StationBoundary" "POINT_STATUS" Sample.boundary_db).
Proof.
  destruct (update_point_fc_first_station Sample.boundary_db
              "Electric_Net_Junctions" "StationBoundary" "GLOBALID"
              "MIG_STATIONGUID" "POINT_STATUS" Sample.junction_table
              Sample.station_boundary_table) as [Hbg Hrom].
  - reflexivity.
  - reflexivity.
  - vm_compute. discriminate.
  - apply (bool_decide_unpack _). reflexivity.
  - apply (bool_decide_unpack _). reflexivity.
  - vm_compute. discriminate.
  - split; [exact Hbg|]. apply Hrom; try reflexivity.
    + repeat constructor; eexists; reflexivity.
    + repeat constructor; eexists; reflexivity.
Defined.

(** C2 as stated fails when station polygons overlap: the junction at 10
    is within the polygon of station [B], and gets ['On Boundary'] with the
    GUID of station [A], which comes first in the station dictionary and
    which the junction touches. *)
Lemma update_point_fc_boundary_before_inside :
  let after_bg :=
    (BG.update_point_fc_within_station_boundary "Electric_Net_Junctions"
       "StationBoundary" "GLOBALID" "MIG_STATIONGUID" "POINT_STATUS"
       Sample.boundary_db).2 in
  let after_rom :=
    (ROM.update_point_fc_within_station_boundary "Electric_Net_Junctions"
       "StationBoundary" "POINT_STATUS" Sample.boundary_db).2 in
  within (Interval.Pt 10) (Interval.Seg 5 20) = true
  /\ Sample.column after_bg "Electric_Net_Junctions" "POINT_STATUS"
     = Some [VStr "Inside"; VStr "On Boundary"; VStr "Outside"]
  /\ Sample.column after_bg "Electric_Net_Junctions" "MIG_STATIONGUID"
     = Some [VStr "{A}"; VStr "{A}"; VNone]
  /\ Sample.column after_rom "Electric_Net_Junctions" "POINT_STATUS"
     = Some [VStr "Inside"; VStr "On Boundary"; VStr "Outside"]
  /\ Sample.column after_rom "Electric_Net_Junctions" "MIG_STATIONGUID"
     = Some [VStr "{A}"; VStr "{A}"; VNone].
Proof. repeat split; vm_compute; reflexivity. Qed.

Lemma update_line_fc_first_station_witness :
  let station_dict :=
    build_station_dict
      (map (read_row ["GLOBALID"]) (fc_rows Sample.station_boundary_table)) in
  classifies not_disjoint "Partly Inside" station_dict "InternalConnection"
    "MIG_STATIONGUID" "LINE_STATUS" Sample.connection_table Sample.boundary_db
    (BG.update_line_fc_within_station_boundary "InternalConnection"
       "StationBoundary" "GLOBALID" "MIG_STATIONGUID" "LINE_STATUS"
       Sample.boundary_db)
  /\ classifies not_disjoint "Partly Inside" station_dict "InternalConnection"
       "MIG_STATIONGUID" "LINE_STATUS" Sample.connection_table
       Sample.boundary_db
       (ROM.update_line_fc_within_station_boundary "InternalConnection"
          "StationBoundary" "LINE_STATUS" Sample.boundary_db).
Proof.
  destruct (update_line_fc_first_station Sample.boundary_db
              "InternalConnection" "StationBoundary" "GLOBALID"
              "MIG_STATIONGUID" "LINE_STATUS" Sample.connection_table
              Sample.station_boundary_table) as [Hbg Hrom].
  - reflexivity.
  - reflexivity.
  - vm_compute. discriminate.
  - apply (bool_decide_unpack _). reflexivity.
  - apply (bool_decide_unpack _). reflexivity.
  - vm_compute. discriminate.
  - split; [exact Hbg|]. apply Hrom; try reflexivity.
    + repeat constructor; eexists; reflexivity.
    + repeat constructor; eexists; reflexivity.
Defined.

(** C3 as stated fails when station polygons overlap: the line on [8, 12]
    is within the polygon of station [B], and gets ['Partly Inside'] with
    the GUID of station [A], which comes first in the station dictionary
    and which the line crosses. *)
Lemma update_line_fc_partly_before_inside :
  let after_bg :=
    (BG.update_line_fc_within_station_boundary "InternalConnection"
       "StationBoundary" "GLOBALID" "MIG_STATIONGUID" "LINE_STATUS"
       Sample.boundary_db).2 in
  let after_rom :=
    (ROM.update_line_fc_within_station_boundary "InternalConnection"
       "StationBoundary" "LINE_STATUS" Sample.boundary_db).2 in
  within (Interval.Seg 8 12) (Interval.Seg 5 20) = true
  /\ Sample.column after_bg "InternalConnection" "LINE_STATUS"
     = Some [VStr "Inside"; VStr "Partly Inside"; VStr "Outside"]
  /\ Sample.column after_bg "InternalConnection" "MIG_STATIONGUID"
     = Some [VStr "{A}"; VStr "{A}"; VNone]
  /\ Sample.column after_rom "InternalConnection" "LINE_STATUS"
     = Some [VStr "Inside"; VStr "Partly Inside"; VStr "Outside"]
  /\ Sample.column after_rom "InternalConnection" "MIG_STATIONGUID"
     = Some [VStr "{A}"; VStr "{A}"; VNone].
Proof. repeat split; vm_compute; reflexivity. Qed.

(** ** Null geometries in the script for ROM *)

(** C6 at a bay scheme without geometry.  The script for BG skips the row
    and marks the bay scheme on [2, 3], which is within the station scheme;
    the script for ROM raises on the row without geometry, and the bay
    scheme on [2, 3] is never marked. *)
Lemma update_fc_within_rom_null_geometry :
  let rom := ROM.update_fc_within "BayScheme" "StationScheme" Sample.scheme_db in
  let bg := BG.update_fc_within "BayScheme" "StationScheme" Sample.scheme_db in
  within (Interval.Seg 2 3) (Interval.Seg 0 10) = true
  /\ rom.1 = Raise (AttributeError "'NoneType' object has no attribute 'within'")
  /\ Sample.column rom.2 "BayScheme" "MIG_PARENTTYPE"
     = Some [VNone; VNone; VNone]
  /\ bg.1 = Ok tt
  /\ Sample.column bg.2 "BayScheme" "MIG_PARENTTYPE"
     = Some [VNone; VStr "Station"; VNone].
Proof. repeat split; vm_compute; reflexivity. Qed.

(** C9 at a transformer without geometry, in a table without status
    field.  The script for ROM adds [POINT_STATUS], raises on the row
    without geometry, and ends with the field still in the table; the
    script for BG skips the row and ends with the fields it started
    with. *)
Lemma update_point_fc_rom_leaves_status_field :
  let rom :=
    ROM.update_point_fc_within_station_boundary "MeasurementTransformer"
      "StationBoundary" "POINT_STATUS" Sample.transformer_db in
  let bg :=
    BG.update_point_fc_within_station_boundary "MeasurementTransformer"
      "StationBoundary" "GLOBALID" "MIG_STATIONGUID" "POINT_STATUS"
      Sample.transformer_db in
  Sample.fields_of Sample.transformer_db "MeasurementTransformer"
    = Some ["OBJECTID"; "MIG_STATIONGUID"]
  /\ rom.1 = Raise (AttributeError "'NoneType' object has no attribute 'within'")
  /\ Sample.fields_of rom.2 "MeasurementTransformer"
     = Some ["OBJECTID"; "MIG_STATIONGUID"; "POINT_STATUS"]
  /\ log rom.2 = [EAddField "MeasurementTransformer" "POINT_STATUS"]
  /\ bg.1 = Ok tt
  /\ Sample.fields_of bg.2 "MeasurementTransformer"
     = Some ["OBJECTID"; "MIG_STATIONGUID"].
Proof. repeat split; vm_compute; reflexivity. Qed.

(** ** [classify_junction] and [update_conductor_type] *)

Section Conductor.
Context {G : Type} `{!Geometry G}.

Lemma forallb_elements (P : value -> bool) (X : gset value) :
  forallb P (elements X) = true <-> forall x, x ∈ X -> P x = true.
Proof.
  rewrite forallb_forall. split.
  - intros Hall x Hx. apply Hall, list_elem_of_In. by apply elem_of_elements.
  - intros Hall x Hx. apply Hall. apply elem_of_elements. by apply list_elem_of_In.
Qed.

Lemma all_of_types (types : list value) (X : gset value) :
  forallb (fun subtype => bool_decide (subtype ∈ types)) (elements X) = true
  <-> forall x, x ∈ X -> x ∈ types.
Proof.
  rewrite forallb_elements. split.
  - intros Hall x Hx. by apply (bool_decide_eq_true_1 _), Hall.
  - intros Hall x Hx. by apply bool_decide_eq_true_2, Hall.
Qed.

Lemma types_apart x :
  x ∈ BG.overhead_types -> x ∈ BG.underground_types -> False.
Proof.
  intros Ho Hu.
  assert (forallb (fun u => negb (bool_decide (u ∈ BG.overhead_types)))
                  BG.underground_types = true) as Hall by (vm_compute; done).
  rewrite forallb_forall in Hall.
  apply list_elem_of_In, Hall, negb_true_iff, bool_decide_eq_false in Hu.
  done.
Qed.

(** What [retype_conductor] stores, as a function of the row. *)
Definition retype_columns (junction_conductor_map : gmap value (gset value))
    (r : row G) : outcome (option (list value)) :=
  if decide (col (row_vals r) 0 = VStr "Conductor") then
    match junction_conductor_map !! col (row_vals r) 1 with
    | Some subtype_set =>
        Ok (Some (<[0%nat := VStr (BG.classify_junction subtype_set
                                     BG.overhead_types BG.underground_types)]>
                    (row_vals r)))
    | None => Ok None
    end
  else Ok None.

Lemma retype_conductor_columns junction_conductor_map s (r : row G) :
  (BG.retype_conductor junction_conductor_map s r).2 =
    retype_columns junction_conductor_map r.
Proof.
  unfold BG.retype_conductor, retype_columns.
  destruct (decide _); [|done]. by destruct (junction_conductor_map !! _).
Qed.

(** The map of the search loop: a [TARGET_FID] of the joined layer is
    mapped to the set of the subtypes joined to it. *)
Lemma build_junction_conductor_map_lookup subtype_field
    (join : list (feature G)) oid :
  BG.build_junction_conductor_map
    (map (read_row ["TARGET_FID"; subtype_field]) join) !! oid =
  match fid_subtypes subtype_field oid join with
  | [] => None
  | l => Some (list_to_set l)
  end.
Proof.
  unfold BG.build_junction_conductor_map, fid_subtypes.
  induction join as [|r join IH] using rev_ind; [done|].
  rewrite map_app, foldl_app, List.filter_app, map_app. simpl.
  change (col [get_field r "TARGET_FID"; get_field r subtype_field] 0)
    with (get_field r "TARGET_FID").
  change (col [get_field r "TARGET_FID"; get_field r subtype_field] 1)
    with (get_field r subtype_field).
  destruct (bool_decide_reflect (get_field r "TARGET_FID" = oid)) as [<-|Hne].
  - rewrite lookup_insert_eq, IH. simpl.
    destruct (map _ (List.filter _ join)) as [|x l]; simpl.
    + f_equal; set_solver.
    + rewrite list_to_set_app_L. f_equal; set_solver.
  - rewrite lookup_insert_ne by done. rewrite IH. simpl.
    by rewrite app_nil_r.
Qed.

Lemma apply_update_retyped (join : list (feature G))
    (mig_parenttype subtype_field : string) (d : feature G) :
  mig_parenttype <> "OBJECTID" ->
  conductor_retyped join mig_parenttype subtype_field d
    (apply_update [mig_parenttype; "OBJECTID"] all_rows
       (retype_columns
          (BG.build_junction_conductor_map
             (map (read_row ["TARGET_FID"; subtype_field]) join))) d).
Proof.
  intros Hne. unfold conductor_retyped, apply_update, retype_columns. simpl.
  change (col [get_field d mig_parenttype; get_field d "OBJECTID"] 0)
    with (get_field d mig_parenttype).
  change (col [get_field d mig_parenttype; get_field d "OBJECTID"] 1)
    with (get_field d "OBJECTID").
  rewrite build_junction_conductor_map_lookup.
  destruct (decide (get_field d mig_parenttype = VStr "Conductor")) as [Hc|Hc].
  - destruct (fid_subtypes _ _ _) as [|x l] eqn:Hl.
    + rewrite decide_False; [done|]. by intros [_ ?].
    + rewrite decide_True by done.
      assert (NoDup [mig_parenttype; "OBJECTID"]) as Hnd.
      { repeat constructor; set_solver. }
      split; [|split].
      * by apply (get_field_write_row _ _ _ 0%nat).
      * intros k Hk. destruct (decide (k = "OBJECTID")) as [->|Hko].
        -- by apply (get_field_write_row _ _ _ 1%nat).
        -- apply get_field_write_row_other. set_solver.
      * done.
  - rewrite decide_False; [done|]. by intros [? _].
Qed.

End Conductor.

Section ConductorTheorem.
Context {G : Type} `{!Geometry G}.

(** C5.  [classify_junction] returns ['Overhead Conductor'] when every
    subtype of the set is an overhead type; otherwise ['Underground
    Conductor'] when every subtype is an underground type; otherwise the
    mixed label.  With the type lists of [update_conductor_type], which
    have no common member, a set that is not empty and has underground
    types only gets ['Underground Conductor'].  [update_conductor_type]
    returns, and stores the label of the subtypes joined to a row's
    [OBJECTID] in the rows whose [MIG_PARENTTYPE] is ['Conductor'] and
    whose [OBJECTID] is a [TARGET_FID] of the spatial join with the
    conductors; the other rows, and the other fields of the rows it
    stores, are unchanged. *)
Theorem classify_junction_rule (w : world G)
    (target_fc conductor_fc mig_parenttype subtype_field : string)
    (tgt cond : feature_class G) :
  tables w !! target_fc = Some tgt ->
  tables w !! conductor_fc = Some cond ->
  target_fc <> BG.temp_join_conductor ->
  mig_parenttype ∈ fc_fields tgt ->
  "OBJECTID" ∈ fc_fields tgt ->
  subtype_field ∈ fc_fields cond ->
  mig_parenttype <> "OBJECTID" ->
  (forall (subtypes : gset value) (overhead underground : list value),
     ((forall x, x ∈ subtypes -> x ∈ overhead) ->
      BG.classify_junction subtypes overhead underground
        = "Overhead Conductor")
     /\ (~ (forall x, x ∈ subtypes -> x ∈ overhead) ->
         (forall x, x ∈ subtypes -> x ∈ underground) ->
         BG.classify_junction subtypes overhead underground
           = "Underground Conductor")
     /\ (~ (forall x, x ∈ subtypes -> x ∈ overhead) ->
         ~ (forall x, x ∈ subtypes -> x ∈ underground) ->
         BG.classify_junction subtypes overhead underground
           = "Overhead Conductor Underground Conductor"))
  /\ (forall subtypes : gset value,
        subtypes <> ∅ ->
        (forall x, x ∈ subtypes -> x ∈ BG.underground_types) ->
        BG.classify_junction subtypes BG.overhead_types BG.underground_types
          = "Underground Conductor")
  /\ exists w' rows',
       BG.update_conductor_type target_fc conductor_fc mig_parenttype
         subtype_field w = (Ok tt, w')
       /\ tables w' !! target_fc = Some (FeatureClass (fc_fields tgt) rows')
       /\ Forall2
            (conductor_retyped
               (join_rows JOIN_ONE_TO_MANY (fc_rows tgt) (fc_rows cond))
               mig_parenttype subtype_field)
            (fc_rows tgt) rows'.
Proof.
  intros Htgt Hcond Htemp Hmig Hoid Hsf Hne.
  assert (forall (subtypes : gset value) (overhead underground : list value),
     ((forall x, x ∈ subtypes -> x ∈ overhead) ->
      BG.classify_junction subtypes overhead underground
        = "Overhead Conductor")
     /\ (~ (forall x, x ∈ subtypes -> x ∈ overhead) ->
         (forall x, x ∈ subtypes -> x ∈ underground) ->
         BG.classify_junction subtypes overhead underground
           = "Underground Conductor")
     /\ (~ (forall x, x ∈ subtypes -> x ∈ overhead) ->
         ~ (forall x, x ∈ subtypes -> x ∈ underground) ->
         BG.classify_junction subtypes overhead underground
           = "Overhead Conductor Underground Conductor")) as Hrule.
  { intros subtypes overhead underground. unfold BG.classify_junction.
    destruct (forallb (fun subtype => bool_decide (subtype ∈ overhead))
                (elements subtypes)) eqn:Ho.
    - pose proof (proj1 (all_of_types _ _) Ho) as Hover.
      repeat split; intros; first [done | exfalso; eauto].
    - assert (~ (forall x, x ∈ subtypes -> x ∈ overhead)) as Hno.
      { intros Hall. apply (proj2 (all_of_types _ _)) in Hall. congruence. }
      destruct (forallb (fun subtype => bool_decide (subtype ∈ underground))
                  (elements subtypes)) eqn:Hu.
      + pose proof (proj1 (all_of_types _ _) Hu) as Hunder.
        repeat split; intros; first [done | exfalso; eauto].
      + assert (~ (forall x, x ∈ subtypes -> x ∈ underground)) as Hnu.
        { intros Hall. apply (proj2 (all_of_types _ _)) in Hall. congruence. }
        repeat split; intros; first [done | exfalso; eauto]. }
  split; [exact Hrule|]. split.
  { intros subtypes Hnonempty Hunder.
    apply Hrule; [|done]. intros Hover.
    apply set_choose_L in Hnonempty as [x Hx].
    apply (types_apart x); auto. }
  set (join := join_rows JOIN_ONE_TO_MANY (fc_rows tgt) (fc_rows cond)).
  set (g := retype_columns (G:=G)
              (BG.build_junction_conductor_map
                 (map (read_row ["TARGET_FID"; subtype_field]) join))).
  exists (World
            (delete BG.temp_join_conductor
               (<[target_fc := FeatureClass (fc_fields tgt)
                    (map (apply_update [mig_parenttype; "OBJECTID"] all_rows g)
                         (fc_rows tgt))]>
                  (<[BG.temp_join_conductor :=
                       FeatureClass ("TARGET_FID" :: fc_fields cond) join]>
                     (tables w))))
            None
            (log w ++ [EStartEditing false true; EStartOperation]
             ++ update_events target_fc [mig_parenttype; "OBJECTID"] all_rows
                  g 0 (fc_rows tgt)
             ++ [EStopOperation; EStopEditing true])),
    (map (apply_update [mig_parenttype; "OBJECTID"] all_rows g) (fc_rows tgt)).
  split; [|split].
  - unfold BG.update_conductor_type, bind, SpatialJoin.
    rewrite Htgt, Hcond.
    rewrite (SearchCursor_ok _ _ _
               (FeatureClass ("TARGET_FID" :: fc_fields cond) join)).
    + unfold Describe. simpl. rewrite lookup_insert_ne by done. rewrite Htgt.
      unfold startEditing, startOperation, emit, try_finally, try_except,
        bind. simpl.
      rewrite (for_update_stateless _ _ _ _ g _ _ tgt).
      * simpl. by rewrite <- !app_assoc.
      * intros; apply retype_conductor_columns.
      * simpl. by rewrite lookup_insert_ne.
      * apply has_fields_elem. set_solver.
      * apply Forall_all. intros d _. unfold g, retype_columns.
        destruct (decide _); [|eauto].
        destruct (BG.build_junction_conductor_map _ !! _); eauto.
    + simpl. by rewrite lookup_insert_eq.
    + apply has_fields_elem. simpl. set_solver.
  - simpl. rewrite lookup_delete_ne by done. by rewrite lookup_insert_eq.
  - apply Forall2_map_self. intros d. by apply apply_update_retyped.
Qed.

End ConductorTheorem.

(** ** [update_field_based_on_whether_it_lies] *)

Section LiesLemmas.
Context {G : Type} `{!Geometry G}.

(** What [mark_parenttype] stores, as a function of the row. *)
Definition mark_columns (features_to_update : gset value) (v : value)
    (r : row G) : outcome (option (list value)) :=
  if decide (col (row_vals r) 1 ∈ features_to_update)
  then Ok (Some (<[0%nat := v]> (row_vals r)))
  else Ok None.

Lemma mark_parenttype_columns features_to_update v s (r : row G) :
  (mark_parenttype features_to_update v s r).2 =
    mark_columns features_to_update v r.
Proof.
  unfold mark_parenttype, mark_columns. destruct s as [u n].
  by destruct (decide _).
Qed.

Lemma collect_features_to_update_elem updated (join : list (feature G)) x :
  x ∈ collect_features_to_update updated (map (read_row ["TARGET_FID"]) join)
  <-> x ∈ map (fun r => get_field r "TARGET_FID") join /\ x ∉ updated.
Proof.
  unfold collect_features_to_update.
  induction join as [|r join IH] using rev_ind; simpl; [set_solver|].
  rewrite !map_app, foldl_app. simpl.
  change (col [get_field r "TARGET_FID"] 0) with (get_field r "TARGET_FID").
  destruct (decide (get_field r "TARGET_FID" ∈ updated)) as [Hin|Hnin].
  - rewrite IH. set_solver.
  - rewrite elem_of_union, IH. set_solver.
Qed.

(** [updated_features] after the update loop of one layer. *)
Lemma mark_parenttype_locals features_to_update v flds
    (rows : list (feature G)) updated n x :
  x ∈ (loop_locals flds all_rows (mark_parenttype features_to_update v)
         rows (updated, n)).1
  <-> x ∈ updated
      \/ (x ∈ features_to_update
          /\ exists d, d ∈ rows /\ col (row_vals (read_row flds d)) 1 = x).
Proof.
  revert updated n. induction rows as [|d rows IH]; intros updated n; simpl.
  - split; [by left|]. intros [?|(_ & d & Hd & _)]; [done|set_solver].
  - destruct (decide (col (map (get_field d) flds) 1 ∈ features_to_update))
      as [Hin|Hnin]; simpl; rewrite IH.
    + split.
      * intros [Hx|(Hx & d' & Hd' & Hk)]; [|right; set_solver].
        apply elem_of_union in Hx as [Hx|Hx]; [by left|].
        apply elem_of_singleton in Hx. subst x. right. set_solver.
      * intros [Hx|(Hx & d' & Hd' & Hk)]; [left; set_solver|].
        apply elem_of_cons in Hd' as [->|Hd']; [left; set_solver|].
        right. eauto.
    + split.
      * intros [Hx|(Hx & d' & Hd' & Hk)]; [by left|right; set_solver].
      * intros [Hx|(Hx & d' & Hd' & Hk)]; [by left|].
        apply elem_of_cons in Hd' as [->|Hd']; [by subst x|].
        right. eauto.
Qed.

(** The join's [TARGET_FID]s depend on the shapes and the [OBJECTID]s of
    the target rows only. *)
Lemma layer_fids_ext (rows rows' layer_rows : list (feature G)) :
  Forall2 (fun a b => shape a = shape b
                      /\ get_field a "OBJECTID" = get_field b "OBJECTID")
          rows rows' ->
  layer_fids rows' layer_rows = layer_fids rows layer_rows.
Proof.
  unfold layer_fids, join_rows.
  induction 1 as [|a b rows rows' [Hs Ho] _ IH]; simpl; [done|].
  rewrite !map_app, IH. f_equal.
  assert (List.filter (matches b) layer_rows
          = List.filter (matches a) layer_rows) as ->.
  { unfold matches. by rewrite Hs. }
  destruct (List.filter (matches a) layer_rows) as [|j ms]; [done|].
  simpl. unfold joined, get_field at 1 3. simpl.
  rewrite !lookup_insert_eq. simpl. by rewrite Ho.
Qed.

End LiesLemmas.

Section LiesSteps.
Context {G : Type} `{!Geometry G}.
Variables (mig_parenttype objectid : string).
Hypothesis fields_apart : mig_parenttype <> objectid.

Let flds : list string := [mig_parenttype; objectid].

Lemma mark_apply features_to_update v (d : feature G) :
  apply_update flds all_rows (mark_columns features_to_update v) d =
    if decide (get_field d objectid ∈ features_to_update)
    then write_row flds [v; get_field d objectid] d
    else d.
Proof.
  unfold apply_update, mark_columns. simpl.
  change (col [get_field d mig_parenttype; get_field d objectid] 1)
    with (get_field d objectid).
  by destruct (decide _).
Qed.

Lemma mark_key v k (d : feature G) :
  get_field (write_row flds [v; k] d) objectid = k.
Proof.
  apply (get_field_write_row _ _ _ 1%nat); [|done..].
  repeat constructor; set_solver.
Qed.

(** One layer, then the layers to come: the row as [lies_row] has it. *)
Lemma lies_row_step fids v rest (updated updated1 features_to_update : gset value)
    (rows : list (feature G)) (d : feature G) :
  d ∈ rows ->
  (forall x, x ∈ features_to_update <-> x ∈ fids /\ x ∉ updated) ->
  (forall x, x ∈ updated1 <->
     x ∈ updated
     \/ (x ∈ features_to_update
         /\ exists d', d' ∈ rows /\ get_field d' objectid = x)) ->
  lies_row mig_parenttype objectid ((fids, v) :: rest) updated d =
    lies_row mig_parenttype objectid rest updated1
      (apply_update flds all_rows (mark_columns features_to_update v) d)
  /\ lies_count objectid ((fids, v) :: rest) updated d =
     ((if decide (get_field d objectid ∈ features_to_update) then 1 else 0)
      + lies_count objectid rest updated1
          (apply_update flds all_rows (mark_columns features_to_update v) d))%nat.
Proof.
  intros Hd Hftu Hupd. rewrite mark_apply.
  pose proof (Hftu (get_field d objectid)) as Hk.
  assert (get_field d objectid ∈ updated1 <->
          get_field d objectid ∈ updated
          \/ get_field d objectid ∈ features_to_update) as Hk1.
  { rewrite Hupd. naive_solver. }
  clear Hftu Hupd.
  unfold lies_row, lies_count, first_layer. simpl.
  destruct (decide (get_field d objectid ∈ features_to_update)) as [Hin|Hnin].
  - rewrite mark_key.
    repeat (case_decide || case_bool_decide); simpl;
      first [done | exfalso; tauto].
  - repeat (case_decide || case_bool_decide); simpl;
      first [done | exfalso; tauto].
Qed.

(** The update loop keeps the shapes and the [OBJECTID]s. *)
Lemma mark_preserves features_to_update v (d : feature G) :
  mig_parenttype <> "OBJECTID" ->
  shape (apply_update flds all_rows (mark_columns features_to_update v) d)
    = shape d
  /\ get_field
       (apply_update flds all_rows (mark_columns features_to_update v) d)
       "OBJECTID" = get_field d "OBJECTID".
Proof.
  intros Hoid. rewrite mark_apply. destruct (decide _); [|done].
  split; [apply shape_write_row|].
  destruct (decide (objectid = "OBJECTID")) as [Heq|Hne].
  - rewrite <- Heq. apply mark_key.
  - apply get_field_write_row_other. set_solver.
Qed.

Lemma count_update_events_lt path sel
    (g : row G -> outcome (option (list value))) fs idx i :
  (i < idx)%nat ->
  count_updates path i (update_events path flds sel g idx fs) = 0%nat.
Proof.
  revert idx. induction fs as [|f fs IH]; intros idx Hlt; [done|].
  simpl. unfold count_updates in *. rewrite List.filter_app, length_app.
  rewrite IH by lia.
  destruct (sel f); [|done].
  destruct (g (read_row flds f)) as [[vals|]|]; try done. simpl.
  rewrite (bool_decide_eq_false_2 (idx = i)) by lia.
  by rewrite andb_false_r.
Qed.

Lemma count_update_events path sel
    (g : row G -> outcome (option (list value))) fs idx j :
  count_updates path (idx + j) (update_events path flds sel g idx fs) =
    match fs !! j with
    | Some f =>
        if sel f then
          match g (read_row flds f) with
          | Ok (Some _) => 1%nat
          | _ => 0%nat
          end
        else 0%nat
    | None => 0%nat
    end.
Proof.
  revert idx j. induction fs as [|f fs IH]; intros idx j; [done|].
  simpl. unfold count_updates in *. rewrite List.filter_app, length_app.
  destruct j as [|j]; simpl.
  - rewrite Nat.add_0_r.
    pose proof (count_update_events_lt path sel g fs (S idx) idx) as Hlt.
    unfold count_updates in Hlt. rewrite Hlt by lia.
    destruct (sel f); [|done].
    destruct (g (read_row flds f)) as [[vals|]|]; try done. simpl.
    by rewrite !bool_decide_eq_true_2.
  - replace (idx + S j)%nat with (S idx + j)%nat by lia. rewrite IH.
    destruct (sel f); [|done].
    destruct (g (read_row flds f)) as [[vals|]|]; try done. simpl.
    rewrite (bool_decide_eq_false_2 (idx = S idx + j)%nat) by lia.
    by rewrite andb_false_r.
Qed.

End LiesSteps.

Section LiesRun.
Context {G : Type} `{!Geometry G}.
Variables (target_fc mig_parenttype objectid : string).
Hypothesis fields_apart : mig_parenttype <> objectid.
Hypothesis oid_kept : mig_parenttype <> "OBJECTID".
Hypothesis target_not_temp : target_fc <> "TempJoin".

Let flds : list string := [mig_parenttype; objectid].

(** What a layer of the mapping has to be: a table other than the target
    and the temporary one. *)
Definition layer_ok (tbls : gmap string (feature_class G))
    (lv : string * value) : Prop :=
  lv.1 <> "TempJoin" /\ lv.1 <> target_fc /\ is_Some (tbls !! lv.1).

Lemma lies_row_nil updated (rows : list (feature G)) :
  map (lies_row mig_parenttype objectid [] updated) rows = rows.
Proof.
  induction rows as [|d rows IH]; simpl; [done|]. rewrite IH. f_equal.
  unfold lies_row. by destruct (decide _).
Qed.

(** The state after the update loop of one layer, and what it means for
    the layers to come. *)
Lemma lies_layer_step (tbls : gmap string (feature_class G))
    (tgt layer : feature_class G) p v rest updated :
  tbls !! p = Some layer ->
  Forall (layer_ok tbls) rest ->
  let join := join_rows JOIN_ONE_TO_ONE (fc_rows tgt) (fc_rows layer) in
  let ftu :=
    collect_features_to_update updated (map (read_row ["TARGET_FID"]) join) in
  let g := mark_columns (G:=G) ftu v in
  let rows1 := map (apply_update flds all_rows g) (fc_rows tgt) in
  let updated1 :=
    (loop_locals flds all_rows (mark_parenttype ftu v) (fc_rows tgt)
       (updated, 0%nat)).1 in
  forall tbls1 : gmap string (feature_class G),
    (forall q, q <> target_fc -> q <> "TempJoin" -> tbls1 !! q = tbls !! q) ->
    Forall (layer_ok tbls1) rest
    /\ map (lies_row mig_parenttype objectid
              (layers_fids tbls1 rows1 rest) updated1) rows1
       = map (lies_row mig_parenttype objectid
                (layers_fids tbls (fc_rows tgt) ((p, v) :: rest)) updated)
             (fc_rows tgt)
    /\ forall i,
         (count_updates target_fc i
            (update_events target_fc flds all_rows g 0 (fc_rows tgt))
          + match rows1 !! i with
            | Some d =>
                lies_count objectid (layers_fids tbls1 rows1 rest) updated1 d
            | None => 0
            end)%nat
         = match fc_rows tgt !! i with
           | Some d =>
               lies_count objectid
                 (layers_fids tbls (fc_rows tgt) ((p, v) :: rest)) updated d
           | None => 0%nat
           end.
Proof.
  intros Hp Hrest join ftu g rows1 updated1 tbls1 Hsame.
  assert (layers_fids tbls1 rows1 rest = layers_fids tbls (fc_rows tgt) rest)
    as Hlf.
  { unfold layers_fids. apply map_ext_in. intros [q u] Hq. simpl. f_equal.
    rewrite Forall_forall in Hrest.
    destruct (Hrest (q, u)) as (Hq1 & Hq2 & _); [by apply list_elem_of_In|].
    simpl in *. rewrite Hsame by done.
    apply layer_fids_ext. unfold rows1.
    apply Forall2_map_self. intros d. split; symmetry.
    - by apply (mark_preserves mig_parenttype objectid).
    - by apply (mark_preserves mig_parenttype objectid). }
  assert (forall d, d ∈ fc_rows tgt ->
            lies_row mig_parenttype objectid
              (layers_fids tbls (fc_rows tgt) ((p, v) :: rest)) updated d
            = lies_row mig_parenttype objectid
                (layers_fids tbls (fc_rows tgt) rest) updated1
                (apply_update flds all_rows g d)
            /\ lies_count objectid
                 (layers_fids tbls (fc_rows tgt) ((p, v) :: rest)) updated d
               = ((if decide (get_field d objectid ∈ ftu) then 1 else 0)
                  + lies_count objectid (layers_fids tbls (fc_rows tgt) rest)
                      updated1 (apply_update flds all_rows g d))%nat)
    as Hstep.
  { intros d Hd. unfold layers_fids at 1 3. simpl. rewrite Hp. simpl.
    apply (lies_row_step mig_parenttype objectid fields_apart _ v _ updated
             updated1 ftu (fc_rows tgt) d Hd).
    - intros x. unfold ftu. by rewrite collect_features_to_update_elem.
    - intros x. unfold updated1. rewrite mark_parenttype_locals.
      split; (intros [?|(? & d' & ? & ?)]; [by left|right; eauto]). }
  split; [|split].
  - eapply Forall_impl; [exact Hrest|]. intros [q u] (? & ? & ?).
    unfold layer_ok in *. simpl in *. by rewrite Hsame.
  - rewrite Hlf. unfold rows1. rewrite map_map.
    apply map_ext_in. intros d Hd. symmetry.
    by apply Hstep, list_elem_of_In.
  - intros i. rewrite Hlf.
    pose proof (count_update_events mig_parenttype objectid target_fc
                  all_rows g (fc_rows tgt) 0 i) as Hc.
    simpl in Hc. fold flds in Hc. rewrite Hc. unfold rows1.
    change (map (apply_update flds all_rows g) (fc_rows tgt))
      with (apply_update flds all_rows g <$> fc_rows tgt).
    rewrite list_lookup_fmap.
    destruct (fc_rows tgt !! i) as [d|] eqn:Hi; [|done]. simpl.
    destruct (Hstep d) as [_ Hcnt]; [by eapply list_elem_of_lookup_2|].
    symmetry. etrans; [exact Hcnt|].
    f_equal. unfold g, mark_columns. simpl.
    change (col [get_field d mig_parenttype; get_field d objectid] 1)
      with (get_field d objectid).
    by destruct (decide _).
Qed.

End LiesRun.

Section LiesRunScripts.
Context {G : Type} `{!Geometry G}.
Variables (target_fc mig_parenttype objectid : string).
Hypothesis fields_apart : mig_parenttype <> objectid.
Hypothesis oid_kept : mig_parenttype <> "OBJECTID".
Hypothesis target_not_temp : target_fc <> "TempJoin".

Let flds : list string := [mig_parenttype; objectid].

Lemma mark_row_ok ftu v (rows : list (feature G)) :
  Forall (row_ok flds all_rows (mark_columns ftu v)) rows.
Proof.
  apply Forall_all. intros d _. unfold mark_columns.
  destruct (decide _); eauto.
Qed.

Lemma lies_layers_rom layers :
  forall (w : world G) updated tgt,
    tables w !! target_fc = Some tgt ->
    has_fields tgt flds = true ->
    Forall (layer_ok target_fc (tables w)) layers ->
    exists updated' evs w',
      ROM.lies_layers target_fc mig_parenttype objectid layers updated w
        = (Ok updated', w')
      /\ lies_result target_fc mig_parenttype objectid layers updated tgt
           w w' evs.
Proof.
  induction layers as [|[p v] rest IH]; intros w updated tgt Htgt Hf Hlay.
  - exists updated, [], w. split; [done|]. unfold lies_result. simpl.
    rewrite lies_row_nil, app_nil_r. split; [by destruct tgt|].
    split; [done|]. split; [done|]. intros i.
    destruct (fc_rows tgt !! i) as [d|]; [|done].
    unfold lies_count. by destruct (decide _).
  - apply Forall_cons in Hlay as [(Hp1 & Hp2 & [layer Hlayer]) Hrest].
    simpl in Hp1, Hp2, Hlayer.
    set (join := join_rows JOIN_ONE_TO_ONE (fc_rows tgt) (fc_rows layer)).
    set (ftu := collect_features_to_update updated
                  (map (read_row ["TARGET_FID"]) join)).
    set (g := mark_columns (G:=G) ftu v).
    set (rows1 := map (apply_update flds all_rows g) (fc_rows tgt)).
    set (updated1 :=
           (loop_locals flds all_rows (mark_parenttype ftu v) (fc_rows tgt)
              (updated, 0%nat)).1).
    set (tbls1 :=
           delete "TempJoin"
             (<[target_fc := FeatureClass (fc_fields tgt) rows1]>
                (<["TempJoin" :=
                     FeatureClass ("TARGET_FID" :: fc_fields layer) join]>
                   (tables w)))).
    set (evs1 := update_events target_fc flds all_rows g 0 (fc_rows tgt)).
    set (w1 := World tbls1 (session w) (log w ++ evs1)).
    assert (forall q, q <> target_fc -> q <> "TempJoin" ->
              tbls1 !! q = tables w !! q) as Hsame.
    { intros q Hq1 Hq2. unfold tbls1.
      by rewrite lookup_delete_ne, !lookup_insert_ne. }
    destruct (lies_layer_step target_fc mig_parenttype objectid fields_apart
                oid_kept (tables w) tgt layer p v rest updated Hlayer Hrest
                tbls1 Hsame) as (Hrest1 & Hrows & Hcount).
    destruct (IH w1 updated1 (FeatureClass (fc_fields tgt) rows1))
      as (updated' & evs' & w' & Hrun & Hres).
    { simpl. unfold tbls1.
      by rewrite lookup_delete_ne, lookup_insert_eq. }
    { done. }
    { done. }
    exists updated', (evs1 ++ evs'), w'. split.
    + cbn [ROM.lies_layers]. unfold bind at 1, SpatialJoin.
      rewrite Htgt, Hlayer. unfold bind at 1.
      rewrite (SearchCursor_ok _ _ _
                 (FeatureClass ("TARGET_FID" :: fc_fields layer) join));
        [|simpl; by rewrite lookup_insert_eq
         |apply has_fields_elem; simpl; set_solver].
      unfold bind at 1.
      rewrite (for_update_stateless _ _ _ _ g _ _ tgt);
        [|intros; apply mark_parenttype_columns
         |simpl; by rewrite lookup_insert_ne
         |done
         |apply mark_row_ok].
      unfold bind at 1, Delete_if_exists. simpl. exact Hrun.
    + destruct Hres as (Htab & Hoth & Hlog & Hcnt). simpl in *.
      unfold lies_result. split; [|split; [|split]].
      * rewrite Htab. do 2 f_equal. exact Hrows.
      * intros q Hq1 Hq2. rewrite Hoth by done. by apply Hsame.
      * rewrite Hlog. by rewrite app_assoc.
      * intros i. unfold count_updates in *.
        rewrite List.filter_app, length_app, Hcnt. apply Hcount.
Qed.

End LiesRunScripts.

Section LiesRunBG.
Context {G : Type} `{!Geometry G}.
Variables (target_fc mig_parenttype objectid : string).
Hypothesis fields_apart : mig_parenttype <> objectid.
Hypothesis oid_kept : mig_parenttype <> "OBJECTID".
Hypothesis target_not_temp : target_fc <> "TempJoin".

Let flds : list string := [mig_parenttype; objectid].

Lemma lies_layers_bg layers :
  forall (w : world G) updated local_count tgt,
    tables w !! target_fc = Some tgt ->
    has_fields tgt flds = true ->
    Forall (layer_ok target_fc (tables w)) layers ->
    exists updated' evs w',
      BG.lies_layers target_fc mig_parenttype objectid layers updated
        local_count w = (Ok updated', w')
      /\ lies_result target_fc mig_parenttype objectid layers updated tgt
           w w' evs.
Proof.
  induction layers as [|[p v] rest IH];
    intros w updated local_count tgt Htgt Hf Hlay.
  - exists updated, [], w. split; [done|]. unfold lies_result. simpl.
    rewrite lies_row_nil, app_nil_r. split; [by destruct tgt|].
    split; [done|]. split; [done|]. intros i.
    destruct (fc_rows tgt !! i) as [d|]; [|done].
    unfold lies_count. by destruct (decide _).
  - apply Forall_cons in Hlay as [(Hp1 & Hp2 & [layer Hlayer]) Hrest].
    simpl in Hp1, Hp2, Hlayer.
    set (join := join_rows JOIN_ONE_TO_ONE (fc_rows tgt) (fc_rows layer)).
    set (ftu := collect_features_to_update updated
                  (map (read_row ["TARGET_FID"]) join)).
    set (g := mark_columns (G:=G) ftu v).
    set (rows1 := map (apply_update flds all_rows g) (fc_rows tgt)).
    set (frame1 :=
           loop_locals flds all_rows (mark_parenttype ftu v) (fc_rows tgt)
             (updated, 0%nat)).
    set (tbls1 :=
           delete "TempJoin"
             (<[target_fc := FeatureClass (fc_fields tgt) rows1]>
                (<["TempJoin" :=
                     FeatureClass ("TARGET_FID" :: fc_fields layer) join]>
                   (tables w)))).
    set (evs1 := update_events target_fc flds all_rows g 0 (fc_rows tgt)).
    set (w1 := World tbls1 None
                 (((((log w ++ [EStartEditing false true])
                     ++ [EStartOperation]) ++ evs1) ++ [EStopOperation])
                  ++ [EStopEditing true])).
    assert (forall q, q <> target_fc -> q <> "TempJoin" ->
              tbls1 !! q = tables w !! q) as Hsame.
    { intros q Hq1 Hq2. unfold tbls1.
      by rewrite lookup_delete_ne, !lookup_insert_ne. }
    destruct (lies_layer_step target_fc mig_parenttype objectid fields_apart
                oid_kept (tables w) tgt layer p v rest updated Hlayer Hrest
                tbls1 Hsame) as (Hrest1 & Hrows & Hcount).
    destruct (IH w1 frame1.1 (Some frame1.2)
                (FeatureClass (fc_fields tgt) rows1))
      as (updated' & evs' & w' & Hrun & Hres).
    { simpl. unfold tbls1.
      by rewrite lookup_delete_ne, lookup_insert_eq. }
    { done. }
    { done. }
    exists updated',
      ([EStartEditing false true; EStartOperation] ++ evs1
       ++ [EStopOperation; EStopEditing true] ++ evs'), w'.
    split.
    + cbn [BG.lies_layers]. unfold bind at 1, SpatialJoin.
      rewrite Htgt, Hlayer. unfold bind at 1, Describe. simpl.
      rewrite lookup_insert_ne by done. rewrite Htgt.
      unfold bind at 1, startEditing. unfold bind at 1, startOperation, emit.
      simpl. unfold bind at 1, finally_with, except_reraise, BG.lies_try.
      rewrite (SearchCursor_ok _ _ _
                 (FeatureClass ("TARGET_FID" :: fc_fields layer) join));
        [|simpl; by rewrite lookup_insert_eq
         |apply has_fields_elem; simpl; set_solver].
      rewrite (UpdateCursor_stateless _ _ _ _ g _ _ tgt);
        [|intros; apply mark_parenttype_columns
         |simpl; by rewrite lookup_insert_ne
         |done
         |apply mark_row_ok].
      simpl. exact Hrun.
    + destruct Hres as (Htab & Hoth & Hlog & Hcnt). simpl in *.
      unfold lies_result. split; [|split; [|split]].
      * rewrite Htab. do 2 f_equal. exact Hrows.
      * intros q Hq1 Hq2. rewrite Hoth by done. by apply Hsame.
      * rewrite Hlog. by rewrite <- !app_assoc.
      * intros i. rewrite <- Hcount, <- Hcnt. unfold count_updates. simpl.
        rewrite List.filter_app, length_app. simpl. done.
Qed.

End LiesRunBG.

Section LiesTheorem.
Context {G : Type} `{!Geometry G}.

Lemma NoDup_map_inj {A B} (h : A -> B) (l : list A) x y :
  NoDup (map h l) -> x ∈ l -> y ∈ l -> h x = h y -> x = y.
Proof.
  induction l as [|a l IH]; simpl; intros Hnd Hx Hy Heq; [set_solver|].
  apply NoDup_cons in Hnd as [Ha Hnd].
  assert (forall z, z ∈ l -> h z ∈ map h l) as Hin.
  { intros z Hz. apply list_elem_of_In, in_map. by apply list_elem_of_In. }
  apply elem_of_cons in Hx as [->|Hx]; apply elem_of_cons in Hy as [->|Hy].
  - done.
  - exfalso. apply Ha. rewrite Heq. by apply Hin.
  - exfalso. apply Ha. rewrite <- Heq. by apply Hin.
  - by apply IH.
Qed.

Lemma layer_fids_elem (rows js : list (feature G)) k :
  k ∈ layer_fids rows js <->
  exists t, t ∈ rows /\ get_field t "OBJECTID" = k
            /\ existsb (matches t) js = true.
Proof.
  unfold layer_fids, join_rows.
  induction rows as [|t rows IH]; simpl.
  - split; [set_solver|]. intros (t & Ht & _). set_solver.
  - rewrite map_app, elem_of_app, IH. clear IH.
    assert (existsb (matches t) js = true
            <-> List.filter (matches t) js <> []) as Hex.
    { induction js as [|j js IHj]; simpl; [done|].
      destruct (matches t j); simpl; [done|]. exact IHj. }
    split.
    + intros [Hhere|(t' & Ht' & Hk & He)].
      * destruct (List.filter (matches t) js) as [|j ms] eqn:Hms;
          [set_solver|].
        simpl in Hhere. apply list_elem_of_singleton in Hhere.
        exists t. split; [set_solver|]. split.
        -- rewrite Hhere. unfold joined, get_field at 2. simpl.
           by rewrite lookup_insert_eq.
        -- by apply Hex.
      * exists t'. split; [set_solver|done].
    + intros (t' & Ht' & Hk & He).
      apply elem_of_cons in Ht' as [->|Ht']; [left|right; eauto].
      apply Hex in He.
      destruct (List.filter (matches t) js) as [|j ms]; [done|].
      simpl. apply list_elem_of_singleton. unfold joined, get_field at 1. simpl.
      by rewrite lookup_insert_eq.
Qed.

Lemma first_layer_intersecting (tbls : gmap string (feature_class G))
    (rows : list (feature G)) mapping_layers d :
  NoDup (map (fun t => get_field t "OBJECTID") rows) ->
  d ∈ rows ->
  first_layer (layers_fids tbls rows mapping_layers) (get_field d "OBJECTID")
  = (fun lv => (layer_fids rows (default [] (fc_rows <$> tbls !! lv.1)), lv.2))
      <$> first_intersecting tbls mapping_layers d.
Proof.
  intros Hnd Hd. unfold first_layer, first_intersecting, layers_fids.
  induction mapping_layers as [|lv rest IH]; simpl; [done|].
  set (js := default [] (fc_rows <$> tbls !! lv.1)).
  assert (bool_decide (get_field d "OBJECTID" ∈ layer_fids rows js)
          = existsb (matches d) js) as ->.
  { destruct (existsb (matches d) js) eqn:He.
    - apply bool_decide_eq_true_2, layer_fids_elem. eauto.
    - apply bool_decide_eq_false_2. intros Hin.
      apply layer_fids_elem in Hin as (t & Ht & Hk & Het).
      assert (t = d) as ->; [|congruence].
      by apply (NoDup_map_inj (fun t => get_field t "OBJECTID") rows). }
  destruct (existsb (matches d) js); [done|]. exact IH.
Qed.

End LiesTheorem.

Section LiesFinal.
Context {G : Type} `{!Geometry G}.

Lemma lies_result_wins (target_fc mig_parenttype : string)
    (mapping_layers : list (string * value)) (tgt : feature_class G)
    (w w' : world G) evs :
  mig_parenttype <> "OBJECTID" ->
  NoDup (map (fun t => get_field t "OBJECTID") (fc_rows tgt)) ->
  lies_result target_fc mig_parenttype "OBJECTID" mapping_layers ∅ tgt
    w w' evs ->
  first_layer_wins target_fc mig_parenttype mapping_layers tgt w (Ok tt, w').
Proof.
  intros Hne Hnd (Htab & _ & Hlog & Hcnt).
  split; [done|]. simpl. eexists evs, _.
  split; [done|]. split; [exact Htab|].
  intros i d Hi.
  assert (d ∈ fc_rows tgt) as Hd by (by eapply list_elem_of_lookup_2).
  specialize (Hcnt i). rewrite Hi in Hcnt. rewrite Hcnt.
  change (map ?h (fc_rows tgt)) with (h <$> fc_rows tgt).
  rewrite list_lookup_fmap, Hi. simpl.
  unfold lies_count, lies_row.
  rewrite !decide_False by set_solver.
  rewrite first_layer_intersecting by done.
  destruct (first_intersecting (tables w) mapping_layers d) as [[p v]|]; simpl.
  - split; [lia|]. eexists. split; [done|]. split; [done|].
    split; [|split].
    + apply (get_field_write_row _ _ _ 0%nat); [|done..].
      repeat constructor; set_solver.
    + intros k Hk. destruct (decide (k = "OBJECTID")) as [->|Hko].
      * by apply mark_key.
      * apply get_field_write_row_other. set_solver.
    + apply shape_write_row.
  - split; [lia|]. eauto.
Qed.

(** C8.  On a target table with the fields [MIG_PARENTTYPE] and
    [OBJECTID], whose [OBJECTID]s are pairwise distinct, and mapping layers
    that are tables other than the target and the temporary join,
    [update_field_based_on_whether_it_lies] returns, stores every target
    row at most once over all layers, and leaves in [MIG_PARENTTYPE] of a
    row the value of the first layer, in the iteration order of the
    mapping, that has a feature intersecting the row; a row that no layer
    intersects is not stored. *)
Theorem update_field_first_layer_wins (w : world G) (target_fc : string)
    (mapping_layers : list (string * value)) (mig_parenttype : string)
    (tgt : feature_class G) :
  tables w !! target_fc = Some tgt ->
  mig_parenttype ∈ fc_fields tgt ->
  "OBJECTID" ∈ fc_fields tgt ->
  mig_parenttype <> "OBJECTID" ->
  target_fc <> "TempJoin" ->
  Forall (layer_ok target_fc (tables w)) mapping_layers ->
  NoDup (map (fun t => get_field t "OBJECTID") (fc_rows tgt)) ->
  first_layer_wins target_fc mig_parenttype mapping_layers tgt w
    (ROM.update_field_based_on_whether_it_lies target_fc mapping_layers
       mig_parenttype "OBJECTID" w)
  /\ first_layer_wins target_fc mig_parenttype mapping_layers tgt w
       (BG.update_field_based_on_whether_it_lies target_fc mapping_layers
          mig_parenttype "OBJECTID" w).
Proof.
  intros Htgt Hmig Hoid Hne Htemp Hlay Hnd.
  assert (has_fields tgt [mig_parenttype; "OBJECTID"] = true) as Hf.
  { apply has_fields_elem. set_solver. }
  split.
  - destruct (lies_layers_rom target_fc mig_parenttype "OBJECTID" Hne Hne
                Htemp mapping_layers w ∅ tgt Htgt Hf Hlay)
      as (updated' & evs & w' & Hrun & Hres).
    unfold ROM.update_field_based_on_whether_it_lies, bind. rewrite Hrun.
    by apply (lies_result_wins _ _ _ _ _ _ evs).
  - destruct (lies_layers_bg target_fc mig_parenttype "OBJECTID" Hne Hne
                Htemp mapping_layers w ∅ None tgt Htgt Hf Hlay)
      as (updated' & evs & w' & Hrun & Hres).
    unfold BG.update_field_based_on_whether_it_lies, bind. rewrite Hrun.
    by apply (lies_result_wins _ _ _ _ _ _ evs).
Qed.

End LiesFinal.

Lemma update_field_first_layer_wins_witness :
  first_layer_wins "Electric_Net_Junctions" "MIG_PARENTTYPE"
    Sample.mapping_el_net_junction Sample.net_junction_table Sample.net_db
    (ROM.update_field_based_on_whether_it_lies "Electric_Net_Junctions"
       Sample.mapping_el_net_junction "MIG_PARENTTYPE" "OBJECTID"
       Sample.net_db)
  /\ first_layer_wins "Electric_Net_Junctions" "MIG_PARENTTYPE"
       Sample.mapping_el_net_junction Sample.net_junction_table Sample.net_db
       (BG.update_field_based_on_whether_it_lies "Electric_Net_Junctions"
          Sample.mapping_el_net_junction "MIG_PARENTTYPE" "OBJECTID"
          Sample.net_db).
Proof.
  apply (update_field_first_layer_wins Sample.net_db "Electric_Net_Junctions"
           Sample.mapping_el_net_junction "MIG_PARENTTYPE"
           Sample.net_junction_table).
  - reflexivity.
  - apply (bool_decide_unpack _). reflexivity.
  - apply (bool_decide_unpack _). reflexivity.
  - vm_compute. discriminate.
  - vm_compute. discriminate.
  - repeat constructor; simpl; try (vm_compute; discriminate);
      eexists; reflexivity.
  - apply (bool_decide_unpack _). vm_compute. reflexivity.
Defined.

(** The junction at 25 lies on the busbar, on a conductor and on an
    internal connection, and ends as a busbar junction, the first layer of
    the mapping. *)
Example update_field_based_sample :
  Sample.column
    (BG.update_field_based_on_whether_it_lies "Electric_Net_Junctions"
       Sample.mapping_el_net_junction "MIG_PARENTTYPE" "OBJECTID"
       Sample.net_db).2 "Electric_Net_Junctions" "MIG_PARENTTYPE"
  = Some [VStr "Conductor"; VStr "Conductor"; VStr "Busbar";
          VStr "Internal Connection"; VNone].
Proof. vm_compute. reflexivity. Qed.

Lemma classify_junction_rule_witness :
  (forall (subtypes : gset value) (overhead underground : list value),
     ((forall x, x ∈ subtypes -> x ∈ overhead) ->
      BG.classify_junction subtypes overhead underground
        = "Overhead Conductor")
     /\ (~ (forall x, x ∈ subtypes -> x ∈ overhead) ->
         (forall x, x ∈ subtypes -> x ∈ underground) ->
         BG.classify_junction subtypes overhead underground
           = "Underground Conductor")
     /\ (~ (forall x, x ∈ subtypes -> x ∈ overhead) ->
         ~ (forall x, x ∈ subtypes -> x ∈ underground) ->
         BG.classify_junction subtypes overhead underground
           = "Overhead Conductor Underground Conductor"))
  /\ (forall subtypes : gset value,
        subtypes <> ∅ ->
        (forall x, x ∈ subtypes -> x ∈ BG.underground_types) ->
        BG.classify_junction subtypes BG.overhead_types BG.underground_types
          = "Underground Conductor")
  /\ exists w' rows',
       BG.update_conductor_type "Electric_Net_Junctions" "Conductor"
         "MIG_PARENTTYPE" "SUBTYPE_CD" Sample.typed_net_db = (Ok tt, w')
       /\ tables w' !! "Electric_Net_Junctions"
          = Some (FeatureClass (fc_fields Sample.typed_junction_table) rows')
       /\ Forall2
            (conductor_retyped
               (join_rows JOIN_ONE_TO_MANY
                  (fc_rows Sample.typed_junction_table)
                  (fc_rows Sample.conductor_table))
               "MIG_PARENTTYPE" "SUBTYPE_CD")
            (fc_rows Sample.typed_junction_table) rows'.
Proof.
  apply (classify_junction_rule Sample.typed_net_db "Electric_Net_Junctions"
           "Conductor" "MIG_PARENTTYPE" "SUBTYPE_CD"
           Sample.typed_junction_table Sample.conductor_table).
  - reflexivity.
  - reflexivity.
  - vm_compute. discriminate.
  - apply (bool_decide_unpack _). reflexivity.
  - apply (bool_decide_unpack _). reflexivity.
  - apply (bool_decide_unpack _). reflexivity.
  - vm_compute. discriminate.
Defined.

(** The junction at 5 lies on an overhead and on an underground conductor,
    the junction at 15 on two underground conductors; the junction at 25 is
    no conductor junction, and the one at 200 lies on no conductor. *)
Example update_conductor_type_sample :
  Sample.column
    (BG.update_conductor_type "Electric_Net_Junctions" "Conductor"
       "MIG_PARENTTYPE" "SUBTYPE_CD" Sample.typed_net_db).2
    "Electric_Net_Junctions" "MIG_PARENTTYPE"
  = Some [VStr "Overhead Conductor Underground Conductor";
          VStr "Underground Conductor"; VStr "Busbar";
          VStr "Internal Connection"; VStr "Conductor"].
Proof. vm_compute. reflexivity. Qed.

(** ** Edit sessions *)

Section EditSessions.
Context {G : Type} `{!Geometry G}.
Local Open Scope py_scope.

Lemma sessions_app st evs1 evs2 flags1 :
  sessions st evs1 = Some flags1 ->
  sessions st (evs1 ++ evs2) = (flags1 ++.) <$> sessions Idle evs2.
Proof.
  revert st flags1.
  induction evs1 as [|ev evs1 IH]; intros st flags1 Hs; simpl in *.
  - destruct st; simplify_eq. by destruct (sessions Idle evs2).
  - destruct st, ev as [[] []| | |save| | | |]; simpl in *; try done; eauto.
    destruct (sessions Idle evs1) as [flags|] eqn:Hrest; simplify_eq/=.
    rewrite (IH Idle flags Hrest).
    by destruct (sessions Idle evs2).
Qed.

Lemma sessions_updates evs rest :
  updates evs -> sessions Operating (evs ++ rest) = sessions Operating rest.
Proof.
  induction 1 as [|ev evs (fc & i & vals & ->) _ IH]; [done|]. apply IH.
Qed.

Lemma sessions_block evs save_changes :
  updates evs ->
  sessions Idle
    ([EStartEditing false true; EStartOperation] ++ evs
       ++ [EStopOperation; EStopEditing save_changes])
  = Some [save_changes].
Proof. intros Hevs. simpl. by rewrite sessions_updates. Qed.

Lemma edits_mono (tried tried' caught caught' : exn -> Prop)
    (outside outside' : nat -> world G -> exn -> Prop) (w : world G)
    (r : outcome unit * world G) :
  ((exists e, tried' e) -> exists e, tried e) ->
  (forall e, caught e -> caught' e) ->
  (forall n e, outside n r.2 e -> outside' n r.2 e) ->
  edits_in_session tried caught outside w r ->
  edits_in_session tried' caught' outside' w r.
Proof.
  intros Ht Hc Ho (evs & flags & Hlog & Hs & Hok & Hlast & Hraise & Htried).
  exists evs, flags. repeat (split; [done|]). split; [|by auto].
  intros e He. destruct (Hraise e He) as [[? ?]|[? ?]]; [left|right]; auto.
Qed.

Lemma edits_no_session (tried caught : exn -> Prop)
    (outside : nat -> world G -> exn -> Prop)
    (w : world G) (r : outcome unit * world G) evs :
  log r.2 = log w ++ evs -> sessions Idle evs = Some [] ->
  (forall e, r.1 = Raise e -> outside 0%nat r.2 e) ->
  (forall e, ~ tried e) ->
  edits_in_session tried caught outside w r.
Proof.
  intros Hlog Hs Hout Hnot. exists evs, [].
  split; [done|]. split; [done|]. split; [by constructor|].
  split; [done|]. split.
  - intros e He. right. split; [by constructor|]. by apply Hout.
  - intros [e He]. by destruct (Hnot e).
Qed.

Lemma edits_one_session (tried caught : exn -> Prop)
    (outside : nat -> world G -> exn -> Prop)
    (w : world G) (r : outcome unit * world G) pre evs save_changes post :
  log r.2 = log w ++ pre
              ++ ([EStartEditing false true; EStartOperation] ++ evs
                    ++ [EStopOperation; EStopEditing save_changes])
              ++ post ->
  sessions Idle pre = Some [] -> sessions Idle post = Some [] ->
  updates evs ->
  (if save_changes
   then (forall e, r.1 = Raise e -> outside 1%nat r.2 e)
        /\ (forall e, ~ tried e)
   else exists e, r.1 = Raise e /\ caught e) ->
  edits_in_session tried caught outside w r.
Proof.
  intros Hlog Hpre Hpost Hevs Hres.
  exists (pre ++ ([EStartEditing false true; EStartOperation] ++ evs
                    ++ [EStopOperation; EStopEditing save_changes])
              ++ post), [save_changes].
  split; [done|]. split.
  { rewrite (sessions_app _ _ _ _ Hpre).
    rewrite (sessions_app _ _ _ _ (sessions_block _ save_changes Hevs)).
    by rewrite Hpost. }
  destruct save_changes.
  - destruct Hres as [Hout Hnot].
    split; [by repeat constructor|]. split; [by intros [|i] Hi|]. split.
    + intros e He. right. split; [by repeat constructor|]. by apply Hout.
    + intros [e He]. by destruct (Hnot e).
  - destruct Hres as (e & He & Hc). split; [by rewrite He|]. split.
    + intros [|i] Hi; [|done]. eauto.
    + split; [|done]. intros e' He'. left. split; [done|]. congruence.
Qed.

Lemma edits_after (tried tried' caught : exn -> Prop)
    (outside : nat -> world G -> exn -> Prop)
    (w w1 : world G) (r : outcome unit * world G) evs1 flags1 :
  log w1 = log w ++ evs1 -> sessions Idle evs1 = Some flags1 ->
  Forall (fun save_changes => save_changes = true) flags1 ->
  (forall e, ~ tried e) ->
  edits_in_session tried' caught
    (fun n => outside (length flags1 + n)%nat) w1 r ->
  edits_in_session tried caught outside w r.
Proof.
  intros Hlog Hs Hall Hnot
    (evs & flags & Hlog' & Hs' & Hok & Hlast & Hraise & _).
  exists (evs1 ++ evs), (flags1 ++ flags).
  split; [by rewrite Hlog', Hlog, app_assoc|].
  split; [by rewrite (sessions_app _ _ _ _ Hs), Hs'|].
  split; [intros Hr; apply Forall_app; auto|].
  split; [|split].
  - intros i Hi. apply lookup_app_Some in Hi as [Hi|[Hge Hi]].
    + rewrite Forall_lookup in Hall. by specialize (Hall _ _ Hi).
    + destruct (Hlast _ Hi) as [Hlen He]. split; [|done].
      rewrite length_app. lia.
  - intros e He. destruct (Hraise e He) as [[Hl Hc]|[Hf Ho]].
    + left. split; [|done].
      destruct flags as [|b flags] using rev_ind; [done|].
      rewrite last_snoc in Hl. by rewrite app_assoc, last_snoc.
    + right. split; [by apply Forall_app|]. by rewrite length_app.
  - intros [e He]. by destruct (Hnot e).
Qed.

Lemma edits_quiet (tried caught : exn -> Prop)
    (outside : nat -> world G -> exn -> Prop)
    (w : world G) (r : outcome unit * world G) :
  log r.2 = log w ->
  (forall e, r.1 = Raise e -> outside 0%nat r.2 e) ->
  (forall e, ~ tried e) ->
  edits_in_session tried caught outside w r.
Proof.
  intros Hlog Hout Hnot.
  apply (edits_no_session _ _ _ _ _ []); [|done|done|done].
  by rewrite app_nil_r.
Qed.

(** [Describe] returns or raises, and leaves the world as it is. *)
Lemma Describe_run path (w : world G) :
  Describe path w = ((Describe path w).1, w).
Proof. unfold Describe. by destruct (tables w !! path). Qed.

Lemma commit_run (w : world G) :
  commit w
  = (Ok tt, World (tables w) None
              (log w ++ [EStopOperation; EStopEditing true])).
Proof.
  unfold commit, bind, stopOperation, emit, stopEditing. simpl.
  by rewrite <- app_assoc.
Qed.

Lemma rollback_run (w : world G) :
  rollback w
  = (Ok tt, World (default (tables w) (session w)) None
              (log w ++ [EStopOperation; EStopEditing false])).
Proof.
  unfold rollback, bind, stopOperation, emit, stopEditing. simpl.
  by rewrite <- app_assoc.
Qed.

Lemma open_session_run {A} (k : M G A) (w : world G) :
  (startEditing false true ;;; startOperation ;;; k) w = k (opened w).
Proof.
  unfold bind, startEditing, startOperation, emit, opened. simpl.
  by rewrite <- app_assoc.
Qed.

Lemma for_update_keeps_tables {L} path flds sel (body : updater G L) s0
    (w : world G) p :
  is_Some (tables w !! p) ->
  is_Some (tables (for_update path flds sel body s0 w).2 !! p).
Proof.
  intros Hp. unfold for_update, UpdateCursor, open_cursor.
  destruct (tables w !! path) as [fc|] eqn:Ht; simpl; [|done].
  destruct (has_fields fc flds); simpl; [|done].
  destruct (update_rows path flds sel body 0 (fc_rows fc) s0)
    as [[[s [[]|e]] rows'] evs]; simpl;
    (destruct (decide (p = path)) as [->|Hne];
     [by rewrite lookup_insert_eq | by rewrite lookup_insert_ne]).
Qed.

Lemma for_update_updates {L} path flds sel (body : updater G L) s0
    (w : world G) :
  exists tbl evs,
    (for_update path flds sel body s0 w).2
      = World tbl (session w) (log w ++ evs)
    /\ updates evs.
Proof.
  destruct (for_update_world path flds sel body s0 w)
    as (tbl & evs & Hw & _ & Hevs).
  exists tbl, evs. split; [done|].
  eapply Forall_impl; [exact Hevs|]. intros e (i & vals & ->). eauto.
Qed.

(** The [try] block of a routine whose body is one update loop: the loop,
    then [stopOperation] and [stopEditing(True)]; the [except] block stops
    the operation and the session without saving, and raises what the loop
    raised. *)
Lemma guarded_loop {L} (body : M G unit) path flds sel (upd : updater G L)
    s0 (w0 : world G) :
  body w0 = (for_update path flds sel upd s0 ;;; commit) w0 ->
  exists evs save_changes tbl,
    (try_except body rollback w0).2
      = World tbl None
          (log w0 ++ evs ++ [EStopOperation; EStopEditing save_changes])
    /\ updates evs
    /\ (if save_changes
        then (try_except body rollback w0).1 = Ok tt
             /\ forall e, ~ raises (for_update path flds sel upd s0) w0 e
        else exists e, (try_except body rollback w0).1 = Raise e
                       /\ raises (for_update path flds sel upd s0) w0 e)
    /\ (forall p, is_Some (tables w0 !! p) ->
          (forall t, session w0 = Some t -> is_Some (t !! p)) ->
          is_Some (tbl !! p)).
Proof.
  intros Hbody. unfold try_except, raises. rewrite Hbody. unfold bind.
  destruct (for_update_updates path flds sel upd s0 w0)
    as (tbl & evs & Hw & Hevs).
  pose proof (for_update_keeps_tables path flds sel upd s0 w0) as Hkeep.
  destruct (for_update path flds sel upd s0 w0) as [[s|e] w1];
    simpl in Hw, Hkeep; subst w1; simpl in Hkeep.
  - rewrite commit_run. simpl. exists evs, true, tbl.
    rewrite <- app_assoc. repeat split; auto.
  - rewrite rollback_run. simpl. exists evs, false.
    rewrite <- app_assoc.
    destruct (session w0) as [t|]; simpl; eexists;
      (split; [done|]); (split; [done|]); (split; [eauto|]); eauto.
Qed.

Lemma edits_guarded_loop {L} (body : M G unit) path flds sel
    (upd : updater G L) s0 (w w1 : world G) pre :
  log w1 = log w ++ pre -> sessions Idle pre = Some [] ->
  body (opened w1) = (for_update path flds sel upd s0 ;;; commit) (opened w1) ->
  edits_in_one_session (raises (for_update path flds sel upd s0) (opened w1))
    w (try_except body rollback (opened w1)).
Proof.
  intros Hlog Hpre Hbody.
  destruct (guarded_loop body path flds sel upd s0 (opened w1) Hbody)
    as (evs & save_changes & tbl & Hw & Hevs & Hres & _).
  apply (edits_one_session _ _ _ _ _ pre evs save_changes []); try done.
  - rewrite Hw. simpl. rewrite Hlog, app_nil_r.
    by rewrite <- !app_assoc.
  - destruct save_changes; [|done]. destruct Hres as [Hres Hnot].
    split; [|done]. intros e He. by rewrite Hres in He.
Qed.

Lemma update_fc_within_edits (w : world G) inner_fc outer_fc :
  edits_in_one_session
    (fun e => exists outer_rows w',
       SearchCursor outer_fc [] w = (Ok outer_rows, w')
       /\ (Describe inner_fc w).1 = Ok tt
       /\ raises (for_update inner_fc ["MIG_PARENTTYPE"] all_rows
                    (mark_station (map row_shape outer_rows)) tt)
            (opened w) e)
    w (BG.update_fc_within inner_fc outer_fc w).
Proof.
  unfold BG.update_fc_within. unfold bind at 1.
  pose proof (SearchCursor_world outer_fc [] w) as Hw.
  destruct (SearchCursor outer_fc [] w) as [[outer_rows|e] w1];
    simpl in Hw; subst w1.
  2:{ apply edits_quiet; [done|done|]. by intros e' (? & ? & ? & _). }
  unfold bind at 1. rewrite Describe_run.
  destruct (Describe inner_fc w).1 as [[]|e] eqn:Hd.
  2:{ apply edits_quiet; [done|done|]. by intros e' (? & ? & _ & ? & _). }
  rewrite open_session_run.
  eapply edits_mono;
    [| | |eapply (edits_guarded_loop _ _ _ _ _ _ w w []);
          rewrite ?app_nil_r; reflexivity].
  - intros (e & rows & w' & [= <- <-] & _ & He). eauto.
  - intros e He. eauto 10.
  - done.
Qed.

Lemma update_fc_self_edits (w : world G) source_fc field_updates :
  edits_in_one_session
    (fun e =>
       (Describe source_fc w).1 = Ok tt
       /\ raises (for_update source_fc (concat field_updates) all_rows
                    (copy_self text_as_string (concat field_updates)
                       field_updates) tt) (opened w) e)
    w (BG.update_fc_self source_fc field_updates w)
  /\ edits_in_one_session
       (fun e =>
          (Describe source_fc w).1 = Ok tt
          /\ raises (for_update source_fc (concat field_updates) all_rows
                       (copy_self (fun _ source_value => source_value)
                          (concat field_updates) field_updates) tt)
               (opened w) e)
       w (AddDB.update_fc_self source_fc field_updates w).
Proof.
  split.
  - unfold BG.update_fc_self. unfold bind at 1. rewrite Describe_run.
    destruct (Describe source_fc w).1 as [[]|e] eqn:Hd.
    2:{ apply edits_quiet; [done|done|]. by intros e' [? _]. }
    rewrite open_session_run.
    eapply edits_mono;
      [| | |eapply (edits_guarded_loop _ _ _ _ _ _ w w []);
            rewrite ?app_nil_r; reflexivity].
    + intros (e & _ & He). eauto.
    + by intros e He.
    + done.
  - unfold AddDB.update_fc_self. unfold bind at 1. rewrite Describe_run.
    destruct (Describe source_fc w).1 as [[]|e] eqn:Hd.
    2:{ apply edits_quiet; [done|done|]. by intros e' [? _]. }
    rewrite open_session_run.
    eapply edits_mono;
      [| | |eapply (edits_guarded_loop _ _ _ _ _ _ w w []);
            rewrite ?app_nil_r; reflexivity].
    + intros (e & _ & He). eauto.
    + by intros e He.
    + done.
Qed.

(** Whether an update loop raises is a matter of the rows its body raises
    on. *)
Lemma update_rows_raises {L L'} path flds sel (body : updater G L)
    (body' : updater G L') idx (fs : list (feature G)) s s' e :
  (forall s s' r e, (body s r).2 = Raise e ->
     exists e', (body' s' r).2 = Raise e') ->
  (update_rows path flds sel body idx fs s).1.1.2 = Raise e ->
  exists e', (update_rows path flds sel body' idx fs s').1.1.2 = Raise e'.
Proof.
  intros Hbody. revert idx s s'.
  induction fs as [|f fs IH]; intros idx s s'; simpl; [done|].
  destruct (sel f).
  - destruct (body s (read_row flds f)) as [s1 [upd|e1]] eqn:Hb.
    + destruct (body' s' (read_row flds f)) as [s1' [upd'|e1']] eqn:Hb';
        [|by eauto].
      specialize (IH (S idx) s1 s1').
      destruct (update_rows path flds sel body (S idx) fs s1)
        as [[[s2 o] rest] evs].
      destruct (update_rows path flds sel body' (S idx) fs s1')
        as [[[s2' o'] rest'] evs'].
      simpl in IH. intros Ho.
      assert (o = Raise e) as -> by by destruct upd.
      destruct (IH eq_refl) as [e' ->]. exists e'. by destruct upd'.
    + intros _. destruct (Hbody s s' (read_row flds f) e1) as [e' He'];
        [by rewrite Hb|].
      destruct (body' s' (read_row flds f)) as [s1' [upd'|e1']];
        simpl in He'; [done|]. by eauto.
  - specialize (IH (S idx) s s').
    destruct (update_rows path flds sel body (S idx) fs s)
      as [[[s2 o] rest] evs].
    destruct (update_rows path flds sel body' (S idx) fs s')
      as [[[s2' o'] rest'] evs'].
    simpl in *. done.
Qed.

Lemma for_update_raises {L L'} path flds sel (body : updater G L)
    (body' : updater G L') s0 s0' (w : world G) e :
  (forall s s' r e, (body s r).2 = Raise e ->
     exists e', (body' s' r).2 = Raise e') ->
  raises (for_update path flds sel body s0) w e ->
  exists e', raises (for_update path flds sel body' s0') w e'.
Proof.
  intros Hbody. unfold raises, for_update, UpdateCursor.
  destruct (open_cursor path flds w) as [[fc|e0] w1]; [|by eauto].
  pose proof (update_rows_raises path flds sel body body' 0 (fc_rows fc)
                s0 s0' e Hbody) as Hrows.
  destruct (update_rows path flds sel body 0 (fc_rows fc) s0)
    as [[[s o] rows] evs].
  destruct (update_rows path flds sel body' 0 (fc_rows fc) s0')
    as [[[s' o'] rows'] evs'].
  simpl in *. destruct o as [[]|e1]; [done|]. intros [= ->].
  destruct (Hrows eq_refl) as [e' ->]. by exists e'.
Qed.

Lemma mark_issource_raises relationship_exists relationship_exists' s s'
    (r : row G) e :
  (mark_issource relationship_exists s r).2 = Raise e ->
  exists e', (mark_issource relationship_exists' s' r).2 = Raise e'.
Proof.
  unfold mark_issource.
  destruct (row_vals r) as [|subsource [|x [|objectid_value rest]]];
    try by eauto.
  destruct (relationship_exists objectid_value); [done|].
  by destruct (decide (subsource = VInt 1)).
Qed.

Lemma update_mig_issource_edits (w : world G) dest_fc source_fc
    objectid_column fields :
  edits_in_one_session
    (fun e =>
       (Describe dest_fc w).1 = Ok tt
       /\ match fields with
          | Some fields =>
              exists relationship_exists,
                raises (for_update dest_fc fields all_rows
                          (mark_issource relationship_exists) tt)
                  (opened w) e
          | None => e = TypeError "field_names"
          end)
    w (BG.update_mig_issource dest_fc source_fc objectid_column fields w).
Proof.
  unfold BG.update_mig_issource.
  unfold bind at 1. rewrite Describe_run.
  destruct (Describe dest_fc w).1 as [[]|e] eqn:Hd.
  2:{ apply edits_quiet; [done|done|]. by intros e' [? _]. }
  rewrite open_session_run.
  destruct fields as [fields|].
  - eapply edits_mono;
      [| | |eapply (edits_guarded_loop _ _ _ _ _ _ w w []);
            rewrite ?app_nil_r; reflexivity].
    + intros (e & _ & rel & He).
      eapply for_update_raises; [|exact He]. apply mark_issource_raises.
    + intros e He. eauto.
    + done.
  - unfold try_except. rewrite rollback_run.
    apply (edits_one_session _ _ _ _ _ [] [] false []); try done;
      [|by constructor|by eauto].
    simpl. by rewrite <- !app_assoc.
Qed.

Lemma update_field_edits (w : world G) dest_fc source_fc destination_fc
    source_globalid operatingvoltage dest_globalid mig_voltage :
  edits_in_one_session
    (fun e =>
       (Describe dest_fc w).1 = Ok tt
       /\ raises
            (rows <- SearchCursor source_fc
                       [source_globalid; operatingvoltage] ;;
             for_update destination_fc [dest_globalid; mig_voltage] all_rows
               (copy_voltage (build_voltage_dict rows)) tt) (opened w) e)
    w
    (BG.update_field dest_fc source_fc destination_fc source_globalid
       operatingvoltage dest_globalid mig_voltage w).
Proof.
  set (tried := fun e : exn => _ /\ _).
  unfold BG.update_field.
  unfold bind at 1. rewrite Describe_run.
  destruct (Describe dest_fc w).1 as [[]|e] eqn:Hd.
  2:{ apply edits_quiet; [done|done|]. by intros e' [? _]. }
  rewrite open_session_run.
  unfold bind at 1, try_except. unfold bind at 1.
  pose proof (SearchCursor_world source_fc [source_globalid; operatingvoltage]
                (opened w)) as Hw.
  destruct (SearchCursor source_fc [source_globalid; operatingvoltage]
              (opened w)) as [[rows|e] w1] eqn:Hsearch;
    simpl in Hw; subst w1.
  - destruct (for_update_updates destination_fc [dest_globalid; mig_voltage]
                all_rows (copy_voltage (build_voltage_dict rows)) tt
                (opened w)) as (tbl & evs & Hw & Hevs).
    destruct (for_update destination_fc [dest_globalid; mig_voltage]
                all_rows (copy_voltage (build_voltage_dict rows)) tt
                (opened w)) as [[[]|e] w1] eqn:Hloop; simpl in Hw; subst w1.
    + rewrite commit_run.
      apply (edits_one_session _ _ _ _ _ [] evs true []); try done.
      * simpl. by rewrite app_nil_r, <- !app_assoc.
      * split; [done|]. intros e [_ He]. revert He.
        unfold raises, bind. by rewrite Hsearch, Hloop.
    + rewrite rollback_run.
      apply (edits_one_session _ _ _ _ _ [] evs false []); try done.
      * simpl. by rewrite app_nil_r, <- !app_assoc.
      * exists e. split; [done|]. split; [done|].
        unfold raises, bind. by rewrite Hsearch, Hloop.
  - rewrite rollback_run.
    apply (edits_one_session _ _ _ _ _ [] [] false []); try done;
      [|by constructor|].
    + simpl. by rewrite <- !app_assoc.
    + exists e. split; [done|]. split; [done|].
      unfold raises, bind. by rewrite Hsearch.
Qed.

Lemma SpatialJoin_log target_features join_features out_feature_class op
    (w : world G) :
  log (SpatialJoin target_features join_features out_feature_class op w).2
  = log w.
Proof.
  unfold SpatialJoin.
  destruct (tables w !! target_features); [|done].
  by destruct (tables w !! join_features).
Qed.

Lemma SpatialJoin_target target_features join_features out_feature_class op
    (w w1 : world G) :
  SpatialJoin target_features join_features out_feature_class op w
    = (Ok tt, w1) ->
  is_Some (tables w1 !! target_features).
Proof.
  unfold SpatialJoin.
  destruct (tables w !! target_features) as [tfc|] eqn:Ht; [|done].
  destruct (tables w !! join_features); [|done].
  intros [= <-]. simpl.
  destruct (decide (target_features = out_feature_class)) as [->|Hne].
  - by rewrite lookup_insert_eq.
  - by rewrite lookup_insert_ne, Ht.
Qed.

Lemma update_conductor_type_edits (w : world G) target_fc conductor_fc
    mig_parenttype subtype_field :
  edits_in_one_session
    (fun e => exists w1 rows w2,
       SpatialJoin target_fc conductor_fc BG.temp_join_conductor
         JOIN_ONE_TO_MANY w = (Ok tt, w1)
       /\ SearchCursor BG.temp_join_conductor ["TARGET_FID"; subtype_field]
            w1 = (Ok rows, w2)
       /\ raises (for_update target_fc [mig_parenttype; "OBJECTID"] all_rows
                    (BG.retype_conductor
                       (BG.build_junction_conductor_map rows)) 0%nat)
            (opened w1) e)
    w
    (BG.update_conductor_type target_fc conductor_fc mig_parenttype
       subtype_field w).
Proof.
  unfold BG.update_conductor_type. unfold bind at 1.
  pose proof (SpatialJoin_log target_fc conductor_fc BG.temp_join_conductor
                JOIN_ONE_TO_MANY w) as Hjoin.
  destruct (SpatialJoin target_fc conductor_fc BG.temp_join_conductor
              JOIN_ONE_TO_MANY w) as [[[]|e] w1] eqn:Hsj; simpl in Hjoin.
  2:{ apply edits_quiet; [done|done|]. by intros e' (? & ? & ? & ? & _). }
  unfold bind at 1.
  pose proof (SearchCursor_world BG.temp_join_conductor
                ["TARGET_FID"; subtype_field] w1) as Hw.
  destruct (SearchCursor BG.temp_join_conductor
              ["TARGET_FID"; subtype_field] w1) as [[rows|e] w2] eqn:Hsearch;
    simpl in Hw; subst w2.
  2:{ apply edits_quiet; [done|done|].
      intros e' (? & ? & ? & [= <-] & Hs' & _). by rewrite Hsearch in Hs'. }
  unfold bind at 1, Describe.
  destruct (SpatialJoin_target _ _ _ _ _ _ Hsj) as [tfc ->].
  rewrite open_session_run. unfold try_finally.
  match goal with
  | |- context [try_except ?b rollback (opened w1)] =>
      destruct (guarded_loop b target_fc [mig_parenttype; "OBJECTID"]
                  all_rows
                  (BG.retype_conductor (BG.build_junction_conductor_map rows))
                  0%nat (opened w1) eq_refl)
        as (evs & save_changes & tbl & Hw & Hevs & Hres & _);
      destruct (try_except b rollback (opened w1)) as [o w2]
  end.
  simpl in Hw, Hres. subst w2. simpl.
  apply (edits_one_session _ _ _ _ _ [] evs save_changes []); try done.
  - simpl. by rewrite Hjoin, app_nil_r, <- !app_assoc.
  - destruct save_changes.
    + destruct Hres as [-> Hnot]. split; [done|].
      intros e (? & ? & ? & [= <-] & Hs' & He).
      rewrite Hsearch in Hs'. injection Hs' as <- <-. by eapply Hnot.
    + destruct Hres as (e & -> & He). eauto 10.
Qed.

Lemma update_fc_within_station_boundary_edits (w : world G) elif_test
    elif_label fc station_fc globalid_field mig_stationguid_field field_name :
  edits_in_one_session
    (fun e => exists t w1 station_rows w2,
       tables w !! fc = Some t
       /\ w1 = (if decide (field_name ∈ fc_fields t) then w
                else (AddField fc field_name w).2)
       /\ SearchCursor station_fc [globalid_field] w1 = (Ok station_rows, w2)
       /\ raises (for_update fc [mig_stationguid_field; field_name] all_rows
                    (station_status elif_test elif_label
                       (build_station_dict station_rows)) tt)
            (opened w1) e)
    w
    (BG.update_fc_within_station_boundary elif_test elif_label fc station_fc
       globalid_field mig_stationguid_field field_name w).
Proof.
  unfold BG.update_fc_within_station_boundary.
  unfold bind at 1, ListFields.
  destruct (tables w !! fc) as [t|] eqn:Ht.
  2:{ apply edits_quiet; [done|done|]. by intros e (? & ? & ? & ? & ? & _). }
  set (tried := fun e : exn => exists t, _).
  unfold bind at 1.
  assert (exists field_added w1 pre,
            (if decide (field_name ∈ fc_fields t) then ret false
             else (AddField fc field_name ;;; ret true)) w
              = (Ok field_added, w1)
            /\ log w1 = log w ++ pre /\ sessions Idle pre = Some []
            /\ sessions Idle
                 (if field_added then [EDeleteField fc field_name] else [])
                 = Some []
            /\ is_Some (tables w1 !! fc)
            /\ w1 = (if decide (field_name ∈ fc_fields t) then w
                     else (AddField fc field_name w).2))
    as (field_added & w1 & pre & -> & Hlog & Hpre & Hpost & Hfc & Hw1).
  { destruct (decide (field_name ∈ fc_fields t)).
    - exists false, w, []. rewrite app_nil_r, Ht. eauto 10.
    - unfold bind, AddField, ret. rewrite Ht.
      eexists true, _, [EAddField fc field_name].
      split; [done|]. simpl. rewrite lookup_insert_eq. eauto 10. }
  unfold bind at 1.
  pose proof (SearchCursor_world station_fc [globalid_field] w1) as Hw.
  destruct (SearchCursor station_fc [globalid_field] w1)
    as [[station_rows|e] w2] eqn:Hsearch; simpl in Hw; subst w2.
  2:{ apply (edits_no_session _ _ _ _ _ pre); [done|done|done|].
      intros e' (t' & w1' & ? & ? & Ht' & -> & Hs' & _).
      injection Ht' as <-.
      rewrite <- Hw1, Hsearch in Hs'. done. }
  unfold bind at 1, Describe.
  destruct (tables w1 !! fc) as [t1|] eqn:Ht1; [|by destruct Hfc].
  rewrite open_session_run. unfold try_finally.
  match goal with
  | |- context [try_except ?b rollback (opened w1)] =>
      destruct (guarded_loop b fc [mig_stationguid_field; field_name]
                  all_rows
                  (station_status elif_test elif_label
                     (build_station_dict station_rows))
                  tt (opened w1) eq_refl)
        as (evs & save_changes & tbl & Hw & Hevs & Hres & Htbl);
      destruct (try_except b rollback (opened w1)) as [o w2]
  end.
  simpl in Hw, Hres, Htbl. subst w2.
  assert (is_Some (tbl !! fc)) as [t2 Ht2].
  { apply Htbl; [by rewrite Ht1|]. intros ? [= <-]. by rewrite Ht1. }
  assert (forall r : outcome unit * world G,
            r.1 = o ->
            log r.2
            = log w1
                ++ ([EStartEditing false true; EStartOperation] ++ evs
                      ++ [EStopOperation; EStopEditing save_changes])
                ++ (if field_added then [EDeleteField fc field_name] else []) ->
            edits_in_one_session tried w r) as Hend.
  { intros r Hr Hlogr.
    apply (edits_one_session _ _ _ _ _ pre evs save_changes
             (if field_added then [EDeleteField fc field_name] else []));
      try done.
    - by rewrite Hlogr, Hlog, <- !app_assoc.
    - rewrite Hr. destruct save_changes.
      + destruct Hres as [-> Hnot]. split; [done|].
        intros e (t' & w1' & ? & ? & Ht' & -> & Hs' & He).
        injection Ht' as <-.
        rewrite <- Hw1 in Hs', He. rewrite Hsearch in Hs'.
        injection Hs' as <- <-. by eapply Hnot.
      + destruct Hres as (e & -> & He). exists e. split; [done|].
        exists t, w1, station_rows, w1. by rewrite <- Hw1. }
  destruct field_added.
  - unfold DeleteField. simpl. rewrite Ht2. apply Hend; [done|].
    simpl. by rewrite <- !app_assoc.
  - apply Hend; [done|]. simpl. by rewrite app_nil_r, <- !app_assoc.
Qed.

Lemma UpdateCursor_updates {L} path flds sel (body : updater G L) s0
    (w : world G) :
  exists tbl evs,
    (UpdateCursor path flds sel body s0 w).2
      = World tbl (session w) (log w ++ evs)
    /\ updates evs.
Proof.
  destruct (UpdateCursor_world path flds sel body s0 w)
    as (tbl & evs & Hw & _ & Hevs).
  exists tbl, evs. split; [done|].
  eapply Forall_impl; [exact Hevs|]. intros e (i & vals & ->). eauto.
Qed.

(** The [try] block of [update_fc_from_dict]: it ends in an operation that
    is open when it raises, and has saved when it returns. *)
Lemma update_fc_from_dict_try_world source_fc destination_fc
    source_key_field destination_key_field field_pairs where_clause
    (w0 : world G) :
  let tried :=
    BG.update_fc_from_dict_try source_fc destination_fc source_key_field
      destination_key_field field_pairs where_clause w0 in
  exists tbl evs,
    updates evs
    /\ tried.2
       = match tried.1.2 with
         | Ok _ =>
             World tbl None
               (log w0 ++ evs ++ [EStopOperation; EStopEditing true])
         | Raise _ => World tbl (session w0) (log w0 ++ evs)
         end.
Proof.
  unfold BG.update_fc_from_dict_try.
  pose proof (SearchCursor_world source_fc (source_key_field :: field_pairs.*1)
                w0) as Hw.
  destruct (SearchCursor source_fc (source_key_field :: field_pairs.*1) w0)
    as [[rows|e] w1]; simpl in Hw; subst w1.
  - match goal with
    | |- context [UpdateCursor ?p ?f ?s ?b ?l w0] =>
        destruct (UpdateCursor_updates p f s b l w0)
          as (tbl & evs & Hw & Hevs);
        destruct (UpdateCursor p f s b l w0) as [[common_guid [[]|e]] w1]
    end; simpl in Hw; subst w1.
    + rewrite commit_run. simpl. exists tbl, evs.
      by rewrite <- app_assoc.
    + simpl. by exists tbl, evs.
  - simpl. exists (tables w0), []. split; [by constructor|].
    rewrite app_nil_r. by destruct w0.
Qed.

Lemma update_fc_from_dict_edits (w : world G) source_fc destination_fc
    source_key_field destination_key_field field_pairs where_clause :
  let block :=
    BG.update_fc_from_dict_try source_fc destination_fc source_key_field
      destination_key_field field_pairs where_clause in
  let tried := fun e =>
    (Describe destination_fc w).1 = Ok tt
    /\ raises_framed block (opened w) e in
  edits_in_session tried tried
    (fun sessions_made _ _ =>
       sessions_made = 0%nat \/ (block (opened w)).1 = (None, Ok tt))
    w
    (BG.update_fc_from_dict source_fc destination_fc source_key_field
       destination_key_field field_pairs where_clause w).
Proof.
  intros block tried.
  unfold BG.update_fc_from_dict. unfold bind at 1. rewrite Describe_run.
  destruct (Describe destination_fc w).1 as [[]|e] eqn:Hd.
  2:{ apply edits_quiet; [done|by left|]. by intros e' [? _]. }
  rewrite open_session_run.
  unfold finally_with, except_reraise. fold block.
  destruct (update_fc_from_dict_try_world source_fc destination_fc
              source_key_field destination_key_field field_pairs where_clause
              (opened w)) as (tbl & evs & Hevs & Hw).
  fold block in Hw.
  destruct (block (opened w)) as [[common_guid [[]|e]] w1] eqn:Hblock;
    simpl in Hw; subst w1.
  - assert (forall e, ~ tried e) as Hnot.
    { intros e (_ & e' & He' & _). by rewrite Hblock in He'. }
    destruct common_guid as [guid|]; simpl.
    + apply (edits_one_session _ _ _ _ _ [] evs true [EAddWarning guid]);
        try done.
      simpl. by rewrite <- !app_assoc.
    + apply (edits_one_session _ _ _ _ _ [] evs true []); try done.
      * simpl. by rewrite app_nil_r, <- !app_assoc.
      * split; [|done]. intros e _. by right.
  - rewrite rollback_run.
    destruct common_guid as [guid|]; simpl.
    + apply (edits_one_session _ _ _ _ _ [] evs false [EAddWarning guid]);
        try done.
      * simpl. by rewrite <- !app_assoc.
      * exists e. split; [done|]. split; [done|].
        unfold raises_framed. rewrite Hblock. simpl. eauto.
    + apply (edits_one_session _ _ _ _ _ [] evs false []); try done.
      * simpl. by rewrite app_nil_r, <- !app_assoc.
      * eexists. split; [done|]. split; [done|].
        unfold raises_framed. rewrite Hblock. simpl.
        exists e. split; [done|]. by intros [? ?].
Qed.

(** The [try] block of a layer of [update_field_based_on_whether_it_lies];
    when it returns, [local_count] is bound. *)
Lemma lies_try_world target_fc mig_parenttype objectid v updated_features
    local_count (w0 : world G) :
  let tried :=
    BG.lies_try target_fc mig_parenttype objectid v updated_features
      local_count w0 in
  exists tbl evs,
    updates evs
    /\ match tried.1.2 with
       | Ok _ =>
           tried.2
           = World tbl None
               (log w0 ++ evs ++ [EStopOperation; EStopEditing true])
           /\ is_Some tried.1.1
       | Raise _ => tried.2 = World tbl (session w0) (log w0 ++ evs)
       end.
Proof.
  unfold BG.lies_try.
  pose proof (SearchCursor_world BG.temp_join ["TARGET_FID"] w0) as Hw.
  destruct (SearchCursor BG.temp_join ["TARGET_FID"] w0)
    as [[rows|e] w1]; simpl in Hw; subst w1.
  - match goal with
    | |- context [UpdateCursor ?p ?f ?s ?b ?l w0] =>
        destruct (UpdateCursor_updates p f s b l w0)
          as (tbl & evs & Hw & Hevs);
        destruct (UpdateCursor p f s b l w0) as [[frame [[]|e]] w1]
    end; simpl in Hw; subst w1.
    + rewrite commit_run. simpl. exists tbl, evs.
      rewrite <- app_assoc. eauto.
    + simpl. by exists tbl, evs.
  - simpl. exists (tables w0), []. split; [by constructor|].
    rewrite app_nil_r. by destruct w0.
Qed.

Lemma lies_layers_edits target_fc mig_parenttype objectid layers :
  forall (w : world G) updated_features local_count,
    edits_in_session
      (fun e => exists join_fc v rest w1,
         layers = (join_fc, v) :: rest
         /\ SpatialJoin target_fc join_fc BG.temp_join JOIN_ONE_TO_ONE w
            = (Ok tt, w1)
         /\ raises_framed
              (BG.lies_try target_fc mig_parenttype objectid v
                 updated_features local_count) (opened w1) e)
      (fun e => exists v updated_features local_count (w1 : world G),
         raises_framed
           (BG.lies_try target_fc mig_parenttype objectid v updated_features
              local_count) (opened w1) e)
      (fun sessions_made w' e => exists join_fc v,
         layers !! sessions_made = Some (join_fc, v)
         /\ raises (SpatialJoin target_fc join_fc BG.temp_join
                      JOIN_ONE_TO_ONE) w' e)
      w
      ((BG.lies_layers target_fc mig_parenttype objectid layers
          updated_features local_count ;;; ret tt) w).
Proof.
  induction layers as [|[join_fc v] layers IH];
    intros w updated_features local_count.
  { apply edits_quiet; [done|done|]. by intros e (? & ? & ? & ? & ? & _). }
  simpl. unfold bind at 1 2.
  pose proof (SpatialJoin_log target_fc join_fc BG.temp_join JOIN_ONE_TO_ONE w)
    as Hjoin.
  destruct (SpatialJoin target_fc join_fc BG.temp_join JOIN_ONE_TO_ONE w)
    as [[[]|e] w1] eqn:Hsj; simpl in Hjoin.
  2:{ apply edits_quiet; [done| |].
      - intros e' [= <-]. simpl.
        assert (w1 = w) as ->.
        { revert Hsj. unfold SpatialJoin.
          destruct (tables w !! target_fc); [|by intros [= <-]].
          destruct (tables w !! join_fc); [done|by intros [= <-]]. }
        exists join_fc, v. split; [done|]. unfold raises. by rewrite Hsj.
      - intros e' (? & ? & ? & ? & [= <- <- <-] & Hsj' & _).
        by rewrite Hsj in Hsj'. }
  unfold bind at 1, Describe.
  destruct (SpatialJoin_target _ _ _ _ _ _ Hsj) as [tfc ->].
  rewrite open_session_run.
  unfold bind at 1, finally_with, except_reraise.
  destruct (lies_try_world target_fc mig_parenttype objectid v
              updated_features local_count (opened w1))
    as (tbl & evs & Hevs & Hw).
  set (block := BG.lies_try target_fc mig_parenttype objectid v
                  updated_features local_count) in *.
  destruct (block (opened w1)) as [[frame [result|e]] w2] eqn:Hblock;
    simpl in Hw.
  - destruct Hw as [-> [count ->]]. simpl.
    eapply (edits_after _ _ _ _ _ _ _
              ([EStartEditing false true; EStartOperation] ++ evs
                 ++ [EStopOperation; EStopEditing true]) [true]); cycle 4.
    { eapply edits_mono; [| | |apply IH]; [done|done|].
      intros n e (join_fc' & v' & Hn & He). by exists join_fc', v'. }
    { simpl. by rewrite Hjoin, <- !app_assoc. }
    { by apply sessions_block. }
    { by repeat constructor. }
    { intros e (? & ? & ? & w1' & [= <- <- <-] & Hsj' & e' & He' & _).
      rewrite Hsj in Hsj'. injection Hsj' as <-.
      fold block in He'. by rewrite Hblock in He'. }
  - subst w2. rewrite rollback_run. simpl.
    destruct frame as [count|]; simpl.
    + apply (edits_one_session _ _ _ _ _ [] evs false []); try done.
      * simpl. by rewrite Hjoin, <- !app_assoc.
      * exists e. split; [done|].
        exists v, updated_features, local_count, w1. fold block.
        unfold raises_framed. rewrite Hblock. simpl. eauto.
    + apply (edits_one_session _ _ _ _ _ [] evs false []); try done.
      * simpl. by rewrite Hjoin, <- !app_assoc.
      * eexists. split; [done|].
        exists v, updated_features, local_count, w1. fold block.
        unfold raises_framed. rewrite Hblock. simpl.
        exists e. split; [done|]. by intros [? ?].
Qed.

End EditSessions.

(** ** The script for ROM has no editor *)

Section NoEditor.
Context {G : Type} `{!Geometry G}.
Local Open Scope py_scope.

(** A computation that calls no editor, from any world *)
Definition quiet {A} (m : M G A) : Prop :=
  forall w, exists evs,
    log (m w).2 = log w ++ evs
    /\ Forall (fun ev => is_editor_event ev = false) evs.

Lemma quiet_same {A} (m : M G A) :
  (forall w, log (m w).2 = log w) -> quiet m.
Proof. intros Hm w. exists []. by rewrite app_nil_r, Hm. Qed.

Lemma quiet_ret {A} (a : A) : quiet (ret a : M G A).
Proof. by apply quiet_same. Qed.

Lemma quiet_bind {A B} (m : M G A) (k : A -> M G B) :
  quiet m -> (forall a, quiet (k a)) -> quiet (bind m k).
Proof.
  intros Hm Hk w. unfold bind.
  destruct (Hm w) as (evs & Hlog & Hevs).
  destruct (m w) as [[a|e] w1]; simpl in Hlog; [|by exists evs].
  destruct (Hk a w1) as (evs' & Hlog' & Hevs').
  exists (evs ++ evs'). split; [|by apply Forall_app].
  by rewrite Hlog', Hlog, app_assoc.
Qed.

Lemma quiet_SearchCursor path flds : quiet (SearchCursor (G:=G) path flds).
Proof.
  apply quiet_same. intros w.
  by rewrite (SearchCursor_world path flds w).
Qed.

Lemma quiet_for_update {L} path flds sel (body : updater G L) s0 :
  quiet (for_update path flds sel body s0).
Proof.
  intros w.
  destruct (for_update_world path flds sel body s0 w)
    as (tbl & evs & Hw & _ & Hevs).
  exists evs. rewrite Hw. split; [done|].
  eapply Forall_impl; [exact Hevs|]. by intros ev (i & vals & ->).
Qed.

Lemma quiet_AddField path field_name : quiet (AddField (G:=G) path field_name).
Proof.
  intros w. unfold AddField.
  destruct (tables w !! path); simpl.
  - exists [EAddField path field_name]. split; [done|]. by repeat constructor.
  - exists []. by rewrite app_nil_r.
Qed.

Lemma quiet_DeleteField path field_name :
  quiet (DeleteField (G:=G) path field_name).
Proof.
  intros w. unfold DeleteField.
  destruct (tables w !! path); simpl.
  - exists [EDeleteField path field_name]. split; [done|].
    by repeat constructor.
  - exists []. by rewrite app_nil_r.
Qed.

Lemma quiet_SpatialJoin target_features join_features out_feature_class op :
  quiet (SpatialJoin (G:=G) target_features join_features out_feature_class
           op).
Proof. apply quiet_same. intros w. apply SpatialJoin_log. Qed.

Lemma quiet_Delete_if_exists path : quiet (Delete_if_exists (G:=G) path).
Proof. by apply quiet_same. Qed.

Lemma quiet_ListFields path : quiet (ListFields (G:=G) path).
Proof.
  apply quiet_same. intros w. unfold ListFields.
  by destruct (tables w !! path).
Qed.

Lemma quiet_calls_no_editor (m : M G unit) (w : world G) :
  quiet m -> calls_no_editor w (m w).
Proof. intros Hm. apply Hm. Qed.

Ltac quiet_step :=
  lazymatch goal with
  | |- quiet (bind _ _) => apply quiet_bind; [|intros ?]
  | |- quiet (ret _) => apply quiet_ret
  | |- quiet (SearchCursor _ _) => apply quiet_SearchCursor
  | |- quiet (for_update _ _ _ _ _) => apply quiet_for_update
  | |- quiet (AddField _ _) => apply quiet_AddField
  | |- quiet (DeleteField _ _) => apply quiet_DeleteField
  | |- quiet (SpatialJoin _ _ _ _) => apply quiet_SpatialJoin
  | |- quiet (Delete_if_exists _) => apply quiet_Delete_if_exists
  | |- quiet (ListFields _) => apply quiet_ListFields
  end.

Ltac quiet := repeat quiet_step.

Lemma quiet_rom_update_fc_from_dict source_fc destination_fc
    source_key_field destination_key_field field_pairs
    (where_clause : feature G -> bool) :
  quiet (ROM.update_fc_from_dict source_fc destination_fc source_key_field
           destination_key_field field_pairs where_clause).
Proof. unfold ROM.update_fc_from_dict. quiet. Qed.

Lemma quiet_rom_update_fc_within inner_fc outer_fc :
  quiet (ROM.update_fc_within (G:=G) inner_fc outer_fc).
Proof. unfold ROM.update_fc_within. quiet. Qed.

Lemma quiet_rom_update_fc_self source_fc field_updates :
  quiet (ROM.update_fc_self (G:=G) source_fc field_updates).
Proof. unfold ROM.update_fc_self. quiet. Qed.

Lemma quiet_rom_update_field source_fc destination_fc source_globalid
    operatingvoltage dest_globalid mig_voltage :
  quiet (ROM.update_field (G:=G) source_fc destination_fc source_globalid
           operatingvoltage dest_globalid mig_voltage).
Proof. unfold ROM.update_field. quiet. Qed.

Lemma quiet_rom_lies_layers target_fc mig_parenttype objectid layers :
  forall updated_features,
    quiet (ROM.lies_layers (G:=G) target_fc mig_parenttype objectid layers
             updated_features).
Proof.
  induction layers as [|[join_fc v] layers IH]; intros updated_features;
    simpl; [apply quiet_ret|].
  quiet. apply IH.
Qed.

Lemma quiet_rom_update_field_based_on_whether_it_lies target_fc
    mapping_layers mig_parenttype objectid :
  quiet (ROM.update_field_based_on_whether_it_lies (G:=G) target_fc
           mapping_layers mig_parenttype objectid).
Proof.
  unfold ROM.update_field_based_on_whether_it_lies.
  apply quiet_bind; [apply quiet_rom_lies_layers|intros ?; apply quiet_ret].
Qed.

Lemma quiet_rom_update_fc_within_station_boundary elif_test elif_label
    status_field fc station_fc field_name :
  quiet (ROM.update_fc_within_station_boundary (G:=G) elif_test elif_label
           status_field fc station_fc field_name).
Proof.
  unfold ROM.update_fc_within_station_boundary.
  apply quiet_bind; [apply quiet_ListFields|intros fields].
  apply quiet_bind; [by destruct (decide _); quiet|intros field_added].
  quiet. destruct field_added; quiet.
Qed.

Lemma quiet_rom_update_mig_issource dest_fc source_fc global_id_column :
  quiet (ROM.update_mig_issource (G:=G) dest_fc source_fc global_id_column).
Proof. intros w. unfold ROM.update_mig_issource. apply quiet_for_update. Qed.

End NoEditor.

Section EditSessionTheorem.
Context {G : Type} `{!Geometry G}.
Local Open Scope py_scope.

(** C4, as amended.  Every row-update routine of
    [BG_Utility_Geodatabase.py], and [update_fc_self] of
    [add_DB_GLOBALID__DB_OBJECTID.py], calls [updateRow] only inside an
    operation of a session opened with [startEditing(False, True)] and
    [startOperation], and closes every session it opens with
    [stopOperation] and [stopEditing].  A call that returns has saved
    every session.  When the statements of its [try] block raise, the
    session is not saved; a session that is not saved is the last one, and
    the call raises the exception of the [try] block.  A call that raises
    with every session saved has raised outside its sessions: before its
    one session or, in [update_field_based_on_whether_it_lies], which
    makes a session for each layer, in the spatial join of the next layer.
    That routine is its loop over the layers with no feature updated and
    [local_count] unbound; the loop is taken from any of its states, so
    that its first layer stands for each layer.  Where a [finally] block
    reads a local of the [try] block ([common_guid] of
    [update_fc_from_dict], [local_count] of the loop over the layers), the
    call raises the exception of the [try] block when the local is bound,
    and what it raises else is left open, as is that [update_fc_from_dict]
    may raise after it saved, when its [try] block returned without a row
    read.  No routine of [ROM_Utility_Geodatabase.py] calls the editor. *)
Theorem row_updates_in_edit_session (w : world G) :
  (forall source_fc destination_fc source_key_field destination_key_field
          field_pairs where_clause,
     let block :=
       BG.update_fc_from_dict_try source_fc destination_fc source_key_field
         destination_key_field field_pairs where_clause in
     let tried := fun e =>
       (Describe destination_fc w).1 = Ok tt
       /\ raises_framed block (opened w) e in
     edits_in_session tried tried
       (fun sessions_made _ _ =>
          sessions_made = 0%nat \/ (block (opened w)).1 = (None, Ok tt))
       w
       (BG.update_fc_from_dict source_fc destination_fc source_key_field
          destination_key_field field_pairs where_clause w))
  /\ (forall inner_fc outer_fc,
        edits_in_one_session
          (fun e => exists outer_rows w',
             SearchCursor outer_fc [] w = (Ok outer_rows, w')
             /\ (Describe inner_fc w).1 = Ok tt
             /\ raises (for_update inner_fc ["MIG_PARENTTYPE"] all_rows
                          (mark_station (map row_shape outer_rows)) tt)
                  (opened w) e)
          w (BG.update_fc_within inner_fc outer_fc w))
  /\ (forall source_fc field_updates,
        edits_in_one_session
          (fun e =>
             (Describe source_fc w).1 = Ok tt
             /\ raises (for_update source_fc (concat field_updates) all_rows
                          (copy_self text_as_string (concat field_updates)
                             field_updates) tt) (opened w) e)
          w (BG.update_fc_self source_fc field_updates w))
  /\ (forall dest_fc source_fc destination_fc source_globalid
             operatingvoltage dest_globalid mig_voltage,
        edits_in_one_session
          (fun e =>
             (Describe dest_fc w).1 = Ok tt
             /\ raises
                  (rows <- SearchCursor source_fc
                             [source_globalid; operatingvoltage] ;;
                   for_update destination_fc [dest_globalid; mig_voltage]
                     all_rows (copy_voltage (build_voltage_dict rows)) tt)
                  (opened w) e)
          w
          (BG.update_field dest_fc source_fc destination_fc source_globalid
             operatingvoltage dest_globalid mig_voltage w))
  /\ (forall target_fc mapping_layers mig_parenttype objectid,
        BG.update_field_based_on_whether_it_lies target_fc mapping_layers
          mig_parenttype objectid w
        = (BG.lies_layers target_fc mig_parenttype objectid mapping_layers
             ∅ None ;;; ret tt) w
        /\ forall updated_features local_count,
             edits_in_session
               (fun e => exists join_fc v rest w1,
                  mapping_layers = (join_fc, v) :: rest
                  /\ SpatialJoin target_fc join_fc BG.temp_join
                       JOIN_ONE_TO_ONE w = (Ok tt, w1)
                  /\ raises_framed
                       (BG.lies_try target_fc mig_parenttype objectid v
                          updated_features local_count) (opened w1) e)
               (fun e => exists v updated_features local_count
                                (w1 : world G),
                  raises_framed
                    (BG.lies_try target_fc mig_parenttype objectid v
                       updated_features local_count) (opened w1) e)
               (fun sessions_made w' e => exists join_fc v,
                  mapping_layers !! sessions_made = Some (join_fc, v)
                  /\ raises (SpatialJoin target_fc join_fc BG.temp_join
                               JOIN_ONE_TO_ONE) w' e)
               w
               ((BG.lies_layers target_fc mig_parenttype objectid
                   mapping_layers updated_features local_count ;;; ret tt)
                  w))
  /\ (forall target_fc conductor_fc mig_parenttype subtype_field,
        edits_in_one_session
          (fun e => exists w1 rows w2,
             SpatialJoin target_fc conductor_fc BG.temp_join_conductor
               JOIN_ONE_TO_MANY w = (Ok tt, w1)
             /\ SearchCursor BG.temp_join_conductor
                  ["TARGET_FID"; subtype_field] w1 = (Ok rows, w2)
             /\ raises (for_update target_fc [mig_parenttype; "OBJECTID"]
                          all_rows
                          (BG.retype_conductor
                             (BG.build_junction_conductor_map rows)) 0%nat)
                  (opened w1) e)
          w
          (BG.update_conductor_type target_fc conductor_fc mig_parenttype
             subtype_field w))
  /\ (forall line_fc station_fc globalid_field mig_stationguid_field
             field_name,
        edits_in_one_session
          (fun e => exists t w1 station_rows w2,
             tables w !! line_fc = Some t
             /\ w1 = (if decide (field_name ∈ fc_fields t) then w
                      else (AddField line_fc field_name w).2)
             /\ SearchCursor station_fc [globalid_field] w1
                = (Ok station_rows, w2)
             /\ raises (for_update line_fc
                          [mig_stationguid_field; field_name] all_rows
                          (station_status not_disjoint "Partly Inside"
                             (build_station_dict station_rows)) tt)
                  (opened w1) e)
          w
          (BG.update_line_fc_within_station_boundary line_fc station_fc
             globalid_field mig_stationguid_field field_name w))
  /\ (forall point_fc station_fc globalid_field mig_stationguid_field
             field_name,
        edits_in_one_session
          (fun e => exists t w1 station_rows w2,
             tables w !! point_fc = Some t
             /\ w1 = (if decide (field_name ∈ fc_fields t) then w
                      else (AddField point_fc field_name w).2)
             /\ SearchCursor station_fc [globalid_field] w1
                = (Ok station_rows, w2)
             /\ raises (for_update point_fc
                          [mig_stationguid_field; field_name] all_rows
                          (station_status touches "On Boundary"
                             (build_station_dict station_rows)) tt)
                  (opened w1) e)
          w
          (BG.update_point_fc_within_station_boundary point_fc station_fc
             globalid_field mig_stationguid_field field_name w))
  /\ (forall dest_fc source_fc objectid_column fields,
        edits_in_one_session
          (fun e =>
             (Describe dest_fc w).1 = Ok tt
             /\ match fields with
                | Some fields =>
                    exists relationship_exists,
                      raises (for_update dest_fc fields all_rows
                                (mark_issource relationship_exists) tt)
                        (opened w) e
                | None => e = TypeError "field_names"
                end)
          w
          (BG.update_mig_issource dest_fc source_fc objectid_column fields w))
  /\ (forall source_fc field_updates,
        edits_in_one_session
          (fun e =>
             (Describe source_fc w).1 = Ok tt
             /\ raises (for_update source_fc (concat field_updates) all_rows
                          (copy_self (fun _ source_value => source_value)
                             (concat field_updates) field_updates) tt)
                  (opened w) e)
          w (AddDB.update_fc_self source_fc field_updates w))
  /\ (forall source_fc destination_fc source_key_field destination_key_field
             field_pairs where_clause,
        calls_no_editor w
          (ROM.update_fc_from_dict source_fc destination_fc source_key_field
             destination_key_field field_pairs where_clause w))
  /\ (forall inner_fc outer_fc,
        calls_no_editor w (ROM.update_fc_within inner_fc outer_fc w))
  /\ (forall source_fc field_updates,
        calls_no_editor w (ROM.update_fc_self source_fc field_updates w))
  /\ (forall source_fc destination_fc source_globalid operatingvoltage
             dest_globalid mig_voltage,
        calls_no_editor w
          (ROM.update_field source_fc destination_fc source_globalid
             operatingvoltage dest_globalid mig_voltage w))
  /\ (forall target_fc mapping_layers mig_parenttype objectid,
        calls_no_editor w
          (ROM.update_field_based_on_whether_it_lies target_fc mapping_layers
             mig_parenttype objectid w))
  /\ (forall line_fc station_fc field_name,
        calls_no_editor w
          (ROM.update_line_fc_within_station_boundary line_fc station_fc
             field_name w))
  /\ (forall point_fc station_fc field_name,
        calls_no_editor w
          (ROM.update_point_fc_within_station_boundary point_fc station_fc
             field_name w))
  /\ (forall dest_fc source_fc global_id_column,
        calls_no_editor w
          (ROM.update_mig_issource dest_fc source_fc global_id_column w)).
Proof.
  split; [intros; apply update_fc_from_dict_edits|].
  split; [intros; apply update_fc_within_edits|].
  split; [intros; apply update_fc_self_edits|].
  split; [intros; apply update_field_edits|].
  split; [intros; split; [done|]; intros; apply lies_layers_edits|].
  split; [intros; apply update_conductor_type_edits|].
  split; [intros; apply update_fc_within_station_boundary_edits|].
  split; [intros; apply update_fc_within_station_boundary_edits|].
  split; [intros; apply update_mig_issource_edits|].
  split; [intros; apply update_fc_self_edits|].
  split; [intros; apply quiet_rom_update_fc_from_dict|].
  split; [intros; apply quiet_rom_update_fc_within|].
  split; [intros; apply quiet_rom_update_fc_self|].
  split; [intros; apply quiet_rom_update_field|].
  split; [intros; apply quiet_rom_update_field_based_on_whether_it_lies|].
  split; [intros; apply quiet_rom_update_fc_within_station_boundary|].
  split; [intros; apply quiet_rom_update_fc_within_station_boundary|].
  intros; apply quiet_rom_update_mig_issource.
Qed.

End EditSessionTheorem.

(** [update_fc_from_dict] of [ROM_Utility_Geodatabase.py] stores a row and
    returns, and has called nothing of an editor. *)
Lemma update_fc_from_dict_rom_no_edit_session :
  let r := ROM.update_fc_from_dict "Station" "StationEquipment" "OBJECTID"
             "STATION_OID" [("OPERATINGVOLTAGE", "MIG_VOLTAGE")]
             Sample.station_oid_not_null Sample.station_db in
  r.1 = Ok tt
  /\ log r.2 = [EUpdateRow "StationEquipment" 0 [VInt 2; VInt 110]]
  /\ List.filter is_editor_event (log r.2) = []
  /\ sessions Idle (log r.2) = None.
Proof. vm_compute. done. Qed.

(** The same call of [BG_Utility_Geodatabase.py]; the warning names the key
    of the last row the update loop read. *)
Example update_fc_from_dict_sample_trace :
  log (BG.update_fc_from_dict "Station" "StationEquipment" "OBJECTID"
         "STATION_OID" [("OPERATINGVOLTAGE", "MIG_VOLTAGE")]
         Sample.station_oid_not_null Sample.station_db).2
  = [EStartEditing false true; EStartOperation;
     EUpdateRow "StationEquipment" 0 [VInt 2; VInt 110];
     EStopOperation; EStopEditing true; EAddWarning (VInt 7)].
Proof. vm_compute. reflexivity. Qed.

(** [Station] has no field [MIG_PARENTTYPE]: the update cursor of
    [update_fc_within] raises inside the [try] block, and the [except]
    block stops the operation and the session without saving. *)
Example update_fc_within_sample_rollback :
  BG.update_fc_within "Station" "StationEquipment" Sample.station_db
  = (Raise (RuntimeError "cannot find a field"),
     World (tables Sample.station_db) None
       [EStartEditing false true; EStartOperation;
        EStopOperation; EStopEditing false]).
Proof. vm_compute. reflexivity. Qed.

(** [update_fc_self] on the circuit sources, as [main] calls it: the
    script of the utility geodatabase stores the object identifier as a
    string in the field with [TEXT] in its name. *)
Example update_fc_self_sample :
  let field_updates :=
    [["OBJECTID"; "MIG_OID"; "MIG_OID_TEXT"]; ["GLOBALID"; "MIG_GLOBALID"]] in
  let r := BG.update_fc_self "CircuitSource" field_updates Sample.circuit_db in
  let r' := AddDB.update_fc_self "CircuitSource" field_updates
              Sample.circuit_db in
  r.1 = Ok tt
  /\ Sample.column r.2 "CircuitSource" "MIG_OID" = Some [VInt 1; VInt 2]
  /\ Sample.column r.2 "CircuitSource" "MIG_OID_TEXT"
     = Some [VStr "1"; VStr "2"]
  /\ Sample.column r.2 "CircuitSource" "MIG_GLOBALID"
     = Some [VStr "{C1}"; VStr "{C2}"]
  /\ Sample.column r'.2 "CircuitSource" "MIG_OID_TEXT"
     = Some [VInt 1; VInt 2]
  /\ log r.2
     = [EStartEditing false true; EStartOperation;
        EUpdateRow "CircuitSource" 0
          [VInt 1; VInt 1; VStr "1"; VStr "{C1}"; VStr "{C1}"];
        EUpdateRow "CircuitSource" 1
          [VInt 2; VInt 2; VStr "2"; VStr "{C2}"; VStr "{C2}"];
        EStopOperation; EStopEditing true].
Proof. vm_compute. done. Qed.

(** [update_mig_issource] on the circuit breakers, as [main] calls it: a
    breaker a circuit source refers to is a source; another one with
    [SUBSOURCE] 1 gets 2; the others keep their value. *)
Example update_mig_issource_sample :
  Sample.column
    (BG.update_mig_issource "CircuitBreaker" (Some "CircuitSource")
       (Some "CIRCUITBREAKER_OID")
       (Some ["SUBSOURCE"; "MIG_ISSOURCE"; "OBJECTID"]) Sample.circuit_db).2
    "CircuitBreaker" "MIG_ISSOURCE"
  = Some [VInt 1; VInt 2; VNone; VInt 1].
Proof. vm_compute. reflexivity. Qed.

(** * The other routines *)

(** ** [update_fc_self] *)

Section SelfUpdate.
Context {G : Type} `{!Geometry G}.

(** The source field of the first tuple that has the field [k] among its
    targets *)
Fixpoint source_of (field_updates : list (list string)) (k : string)
    : option string :=
  match field_updates with
  | [] => None
  | [] :: rest => source_of rest k
  | (source_field :: targets) :: rest =>
      if decide (k ∈ targets) then Some source_field else source_of rest k
  end.

(** The column of the field [k] in a cursor row on [fields] *)
Definition value_of (fields : list string) (vals : list value) (k : string)
    : value :=
  match index_of k fields with
  | Some i => col vals i
  | None => VNone
  end.

Lemma index_of_lookup x l i : index_of x l = Some i -> l !! i = Some x.
Proof.
  revert i. induction l as [|y l IH]; intros i; simpl; [done|].
  destruct (decide (x = y)) as [->|Hne]; [by intros [= <-]|].
  destruct (index_of x l) as [j|]; [|done]. intros [= <-]. by apply IH.
Qed.

Lemma index_of_elem x l : x ∈ l -> is_Some (index_of x l).
Proof.
  induction l as [|y l IH]; simpl; [by intros ?%elem_of_nil|].
  intros Hx. destruct (decide (x = y)); [by eexists|].
  destruct IH as [j Hj]; [set_solver|]. rewrite Hj. by eexists.
Qed.

Lemma index_of_NoDup x l i :
  NoDup l -> l !! i = Some x -> index_of x l = Some i.
Proof.
  intros Hnd Hi. destruct (index_of_elem x l) as [j Hj].
  { by eapply list_elem_of_lookup_2. }
  rewrite Hj. f_equal.
  apply index_of_lookup in Hj. by eapply NoDup_lookup.
Qed.

Lemma value_of_read_row fields (d : feature G) k :
  k ∈ fields -> value_of fields (row_vals (read_row fields d)) k = get_field d k.
Proof.
  intros Hk. unfold value_of.
  destruct (index_of_elem k fields Hk) as [i Hi]. rewrite Hi.
  apply col_read_row. by apply index_of_lookup.
Qed.

Lemma value_of_insert fields vals i t v k :
  NoDup fields -> fields !! i = Some t -> length vals = length fields ->
  k ∈ fields ->
  value_of fields (<[i := v]> vals) k
  = if decide (k = t) then v else value_of fields vals k.
Proof.
  intros Hnd Hi Hlen Hk. unfold value_of.
  destruct (index_of_elem k fields Hk) as [j Hj]. rewrite Hj.
  apply index_of_lookup in Hj. unfold col.
  destruct (decide (k = t)) as [->|Hne].
  - assert (j = i) as -> by by eapply NoDup_lookup.
    rewrite list_lookup_insert_eq; [done|].
    rewrite Hlen. by eapply lookup_lt_Some.
  - rewrite list_lookup_insert_ne; [done|]. intros ->. congruence.
Qed.

Lemma assign_targets_ok convert fields v targets vals :
  NoDup fields -> (forall t, t ∈ targets -> t ∈ fields) ->
  length vals = length fields ->
  exists vals',
    assign_targets convert fields v targets vals = Ok vals'
    /\ length vals' = length fields
    /\ forall k, k ∈ fields ->
         value_of fields vals' k
         = if decide (k ∈ targets) then convert k v else value_of fields vals k.
Proof.
  intros Hnd. revert vals.
  induction targets as [|t targets IH]; intros vals Hin Hlen; simpl.
  - exists vals. split; [done|]. split; [done|]. intros k Hk.
    destruct (decide (k ∈ [])) as [?%elem_of_nil|]; done.
  - destruct (index_of_elem t fields) as [i Hi]; [set_solver|].
    rewrite Hi. apply index_of_lookup in Hi.
    destruct (IH (<[i := convert t v]> vals)) as (vals' & Hrun & Hlen' & Hv).
    { set_solver. }
    { by rewrite length_insert. }
    exists vals'. split; [done|]. split; [done|]. intros k Hk.
    rewrite (Hv k Hk), (value_of_insert _ _ _ t) by done.
    repeat case_decide; set_solver.
Qed.

Lemma source_of_elem field_updates k source_field :
  source_of field_updates k = Some source_field ->
  source_field ∈ concat field_updates /\ k ∈ concat field_updates.
Proof.
  induction field_updates as [|[|s targets] rest IH]; simpl; [done|auto|].
  case_decide; [intros [= <-]|]; set_solver.
Qed.

Lemma source_of_None field_updates k :
  source_of field_updates k = None <->
  forall source_field targets,
    (source_field :: targets) ∈ field_updates -> k ∉ targets.
Proof.
  induction field_updates as [|[|s targets] rest IH]; simpl.
  - split; [|done]. intros _ ? ? ?%elem_of_nil. done.
  - rewrite IH. split; intros Hall s' t' Hin; apply (Hall s' t');
      set_solver.
  - case_decide.
    + split; [done|]. intros Hall. exfalso. apply (Hall s targets); set_solver.
    + rewrite IH. split; intros Hall s' t' Hin.
      * apply elem_of_cons in Hin as [[= -> ->]|Hin]; [done|].
        by apply (Hall s' t').
      * apply (Hall s' t'). set_solver.
Qed.

Lemma source_of_Some field_updates k source_field targets :
  NoDup (concat field_updates) ->
  (source_field :: targets) ∈ field_updates -> k ∈ targets ->
  source_of field_updates k = Some source_field.
Proof.
  induction field_updates as [|u rest IH]; intros Hnd Hin Hk;
    [by apply elem_of_nil in Hin|].
  simpl in Hnd. apply NoDup_app in Hnd as (Hu & Hsep & Hrest).
  apply elem_of_cons in Hin as [<-|Hin]; simpl.
  - by rewrite decide_True.
  - assert (k ∈ concat rest) as Hkr.
    { apply list_elem_of_In, in_concat. exists (source_field :: targets).
      split; apply list_elem_of_In; set_solver. }
    destruct u as [|s t]; [by apply IH|].
    rewrite decide_False; [by apply IH|].
    intros Hkt. apply (Hsep k); set_solver.
Qed.

(** The columns at the end of the loop over [field_updates], when the
    tuples are not empty and no field is named twice. *)
Lemma self_update_ok convert fields field_updates vals :
  NoDup fields -> NoDup (concat field_updates) ->
  (forall k, k ∈ concat field_updates -> k ∈ fields) ->
  Forall (fun update_sub_tuple => update_sub_tuple <> []) field_updates ->
  length vals = length fields ->
  exists vals',
    self_update convert fields field_updates vals = Ok vals'
    /\ length vals' = length fields
    /\ forall k, k ∈ fields ->
         value_of fields vals' k
         = match source_of field_updates k with
           | Some source_field => convert k (value_of fields vals source_field)
           | None => value_of fields vals k
           end.
Proof.
  intros Hnd. revert vals.
  induction field_updates as [|u rest IH]; intros vals Hndc Hin Hne Hlen.
  { exists vals. by repeat split. }
  apply Forall_cons in Hne as [Hu Hne].
  destruct u as [|s targets]; [done|]. simpl in *.
  apply NoDup_cons in Hndc as [Hs Hndc].
  apply NoDup_app in Hndc as (Ht & Hsep & Hrest).
  destruct (index_of_elem s fields) as [i Hi]; [set_solver|]. rewrite Hi.
  destruct (assign_targets_ok convert fields (col vals i) targets vals)
    as (vals1 & Hrun1 & Hlen1 & Hv1); [done|set_solver|done|].
  rewrite Hrun1.
  destruct (IH vals1) as (vals' & Hrun & Hlen' & Hv);
    [done|set_solver|done|done|].
  exists vals'. split; [done|]. split; [done|]. intros k Hk.
  rewrite (Hv k Hk).
  assert (value_of fields vals s = col vals i) as Hsv.
  { unfold value_of. by rewrite Hi. }
  destruct (decide (k ∈ targets)) as [Hkt|Hkt].
  - destruct (source_of rest k) as [s'|] eqn:Hs'.
    { apply source_of_elem in Hs' as [_ Hkr]. by destruct (Hsep k). }
    rewrite (Hv1 k Hk), decide_True by done. by rewrite Hsv.
  - destruct (source_of rest k) as [s'|] eqn:Hs'.
    + apply source_of_elem in Hs' as [Hs'r Hkr].
      rewrite (Hv1 s'); [|set_solver].
      rewrite decide_False; [done|]. intros Hst. by destruct (Hsep s').
    + rewrite (Hv1 k Hk). by rewrite decide_False.
Qed.

(** What the body of the loop of [update_fc_self] stores *)
Definition self_columns (convert : string -> value -> value)
    (fields : list string) (field_updates : list (list string))
    (r : row G) : outcome (option (list value)) :=
  (copy_self convert fields field_updates tt r).2.

Lemma get_field_write_row_value_of fields vals (d : feature G) k :
  NoDup fields -> length vals = length fields -> k ∈ fields ->
  get_field (write_row fields vals d) k = value_of fields vals k.
Proof.
  intros Hnd Hlen Hk. unfold value_of.
  destruct (index_of_elem k fields Hk) as [i Hi]. rewrite Hi.
  apply index_of_lookup in Hi.
  destruct (lookup_lt_is_Some_2 vals i) as [v Hv].
  { rewrite Hlen. by eapply lookup_lt_Some. }
  unfold col. rewrite Hv. simpl. by apply (get_field_write_row _ _ _ i).
Qed.

Lemma apply_update_self convert field_updates (d : feature G) :
  NoDup (concat field_updates) ->
  Forall (fun update_sub_tuple => update_sub_tuple <> []) field_updates ->
  let fields := concat field_updates in
  row_ok fields all_rows (self_columns convert fields field_updates) d
  /\ self_copied convert field_updates d
       (apply_update fields all_rows
          (self_columns convert fields field_updates) d).
Proof.
  intros Hnd Hne fields.
  destruct (self_update_ok convert fields field_updates
              (row_vals (read_row fields d)))
    as (vals' & Hrun & Hlen & Hv); try done.
  { apply length_read_row. }
  unfold row_ok, apply_update, self_columns, copy_self. simpl.
  change (map (get_field d) fields) with (row_vals (read_row fields d)).
  rewrite Hrun. simpl. split; [eauto|].
  split; [apply shape_write_row|]. split.
  - intros source_field targets t Hin Ht.
    assert (t ∈ fields /\ source_field ∈ fields) as [Htf Hsf].
    { split; apply list_elem_of_In, in_concat;
        exists (source_field :: targets);
        split; apply list_elem_of_In; set_solver. }
    rewrite get_field_write_row_value_of, (Hv t Htf) by done.
    rewrite (source_of_Some _ _ source_field targets) by done.
    by rewrite value_of_read_row.
  - intros k Hk. apply source_of_None in Hk.
    destruct (decide (k ∈ fields)) as [Hkf|Hkf].
    + rewrite get_field_write_row_value_of, (Hv k Hkf), Hk by done.
      by rewrite value_of_read_row.
    + by apply get_field_write_row_other.
Qed.

End SelfUpdate.

Section SelfUpdateTheorem.
Context {G : Type} `{!Geometry G}.

(** X2.  [update_fc_self] of the three scripts, on a table that has the fields
    named, with tuples that are not empty and name no field twice: the call
    returns, and in every row each target field has the value of the source
    field of its tuple; the scripts of the utility geodatabases store it as
    a string in a field with [TEXT] in its name.  Nothing else changes. *)
Theorem update_fc_self_copies (w : world G) (source_fc : string)
    (field_updates : list (list string)) (fc : feature_class G) :
  tables w !! source_fc = Some fc ->
  field_updates <> [] ->
  Forall (fun update_sub_tuple => update_sub_tuple <> []) field_updates ->
  NoDup (concat field_updates) ->
  (forall k, k ∈ concat field_updates -> k ∈ fc_fields fc) ->
  (exists rows' w',
     AddDB.update_fc_self source_fc field_updates w = (Ok tt, w')
     /\ tables w'
        = <[source_fc := FeatureClass (fc_fields fc) rows']> (tables w)
     /\ Forall2 (self_copied (fun _ source_value => source_value)
                   field_updates) (fc_rows fc) rows')
  /\ (exists rows' w',
        BG.update_fc_self source_fc field_updates w = (Ok tt, w')
        /\ tables w'
           = <[source_fc := FeatureClass (fc_fields fc) rows']> (tables w)
        /\ Forall2 (self_copied text_as_string field_updates)
             (fc_rows fc) rows')
  /\ (exists rows' w',
        ROM.update_fc_self source_fc field_updates w = (Ok tt, w')
        /\ tables w'
           = <[source_fc := FeatureClass (fc_fields fc) rows']> (tables w)
        /\ Forall2 (self_copied text_as_string field_updates)
             (fc_rows fc) rows').
Proof.
  intros Hfc _ Hne Hnd Hin.
  assert (has_fields fc (concat field_updates) = true) as Hf.
  { by apply has_fields_elem. }
  assert (forall convert,
            Forall (row_ok (concat field_updates) all_rows
                      (self_columns convert (concat field_updates)
                         field_updates)) (fc_rows fc)) as Hok.
  { intros convert. apply Forall_all. intros d.
    by apply apply_update_self. }
  assert (forall convert,
            Forall2 (self_copied convert field_updates) (fc_rows fc)
              (map (apply_update (concat field_updates) all_rows
                      (self_columns convert (concat field_updates)
                         field_updates)) (fc_rows fc))) as Hrows.
  { intros convert. apply Forall2_map_self. intros d.
    by apply apply_update_self. }
  split; [|split].
  - eexists _, _. split; [|split; [|apply Hrows]].
    + unfold AddDB.update_fc_self, bind, Describe. rewrite Hfc.
      unfold startEditing, startOperation, emit, try_except. simpl.
      rewrite (for_update_stateless _ _ _ _
                 (self_columns (fun _ source_value => source_value)
                    (concat field_updates) field_updates) _ _ fc);
        try done; apply Hok.
    + done.
  - eexists _, _. split; [|split; [|apply Hrows]].
    + unfold BG.update_fc_self, bind, Describe. rewrite Hfc.
      unfold startEditing, startOperation, emit, try_except. simpl.
      rewrite (for_update_stateless _ _ _ _
                 (self_columns text_as_string (concat field_updates)
                    field_updates) _ _ fc);
        try done; apply Hok.
    + done.
  - eexists _, _. split; [|split; [|apply Hrows]].
    + unfold ROM.update_fc_self.
      rewrite (for_update_stateless _ _ _ _
                 (self_columns text_as_string (concat field_updates)
                    field_updates) _ _ fc);
        try done; try apply Hok.
      by destruct (loop_locals _ _ _ _ _).
    + done.
Qed.

End SelfUpdateTheorem.

(** ** [update_mig_issource] *)

Section IsSource.
Context {G : Type} `{!Geometry G}.

Lemma write_row_insert flds i t v (d : feature G) k :
  NoDup flds -> flds !! i = Some t ->
  get_field (write_row flds (<[i := v]> (row_vals (read_row flds d))) d) k
  = if decide (k = t) then v else get_field d k.
Proof.
  intros Hnd Hi.
  assert (i < length flds)%nat as Hlt by by eapply lookup_lt_Some.
  destruct (decide (k ∈ flds)) as [Hk|Hk].
  - apply list_elem_of_lookup in Hk as [j Hj].
    destruct (decide (k = t)) as [->|Hne].
    + assert (j = i) as -> by by eapply NoDup_lookup.
      apply (get_field_write_row _ _ _ i); [done|done|].
      apply list_lookup_insert_eq. by rewrite length_read_row.
    + apply (get_field_write_row _ _ _ j); [done|done|].
      rewrite list_lookup_insert_ne by congruence.
      unfold read_row. simpl. by rewrite list_lookup_fmap, Hj.
  - rewrite get_field_write_row_other by done.
    rewrite decide_False; [done|]. intros ->.
    apply Hk. by eapply list_elem_of_lookup_2.
Qed.

Lemma write_row_same flds (d : feature G) k :
  NoDup flds ->
  get_field (write_row flds (row_vals (read_row flds d)) d) k = get_field d k.
Proof.
  intros Hnd. destruct (decide (k ∈ flds)) as [Hk|Hk].
  - apply list_elem_of_lookup in Hk as [j Hj].
    apply (get_field_write_row _ _ _ j); [done|done|].
    unfold read_row. simpl. by rewrite list_lookup_fmap, Hj.
  - by apply get_field_write_row_other.
Qed.

Lemma check_relationship_bg_rom source_fc column v (w : world G) :
  ROM.check_relationship source_fc column v w
  = BG.check_relationship source_fc column v w.
Proof. done. Qed.

Lemma check_relationship_ok source_fc column v (w : world G) src :
  tables w !! source_fc = Some src -> column ∈ fc_fields src ->
  exists b,
    BG.check_relationship source_fc column v w = (Ok b, w)
    /\ (b = true <-> related_to w source_fc column v).
Proof.
  intros Hsrc Hc. unfold BG.check_relationship, bind.
  rewrite (SearchCursor_ok _ _ _ src); [|done|apply has_fields_elem; set_solver].
  eexists. split; [done|]. rewrite existsb_exists. split.
  - intros (r & Hr & Hv). apply in_map_iff in Hr as (f & <- & Hf).
    apply bool_decide_eq_true in Hv.
    exists src, f. split; [done|]. split; [done|].
    split; [by apply list_elem_of_In|done].
  - intros (src' & f & Hsrc' & _ & Hf & Hv). simplify_eq.
    exists (read_row [column] f). split.
    + apply in_map. by apply list_elem_of_In.
    + by apply bool_decide_eq_true.
Qed.

Lemma check_relationship_raises source_fc column v (w : world G) :
  (forall src, tables w !! source_fc = Some src -> column ∉ fc_fields src) ->
  exists e, BG.check_relationship source_fc column v w = (Raise e, w).
Proof.
  intros Hno. unfold BG.check_relationship, bind, SearchCursor, bind,
    open_cursor.
  destruct (tables w !! source_fc) as [src|]; [|by eexists].
  specialize (Hno src eq_refl).
  destruct (has_fields src [column]) eqn:Hf; [|by eexists].
  exfalso. apply Hno. apply (proj1 (has_fields_elem _ _) Hf). set_solver.
Qed.

Lemma truthy_path s : truthy (VStr s) = true <-> s <> "".
Proof.
  simpl. rewrite negb_true_iff. split.
  - intros Hs ->. done.
  - intros Hs. by apply String.eqb_neq.
Qed.

(** The outcome of the check in the two scripts, from a world with the
    tables of [w] *)
Lemma relationship_cases (w w0 : world G) source_fc column v :
  tables w0 = tables w ->
  match source_fc, column with
  | Some s, Some c =>
      if truthy (VStr s) && truthy (VStr c) then
        match BG.check_relationship s c v w0 with
        | (Ok b, _) =>
            ~ check_fails w source_fc column
            /\ (b = true <-> related w source_fc column v)
        | (Raise _, _) =>
            check_fails w source_fc column /\ ~ related w source_fc column v
        end
      else ~ check_fails w source_fc column /\ ~ related w source_fc column v
  | _, _ => ~ check_fails w source_fc column /\ ~ related w source_fc column v
  end.
Proof.
  intros Hw.
  assert (forall P : string -> string -> Prop,
            (forall s c, checks source_fc column s c -> False) ->
            ~ (exists s c, checks source_fc column s c /\ P s c)) as Hno.
  { intros P Hc (s & c & Hsc & _). eauto. }
  destruct source_fc as [s|]; [|by split; apply Hno; intros ? ? (? & ?)].
  destruct column as [c|];
    [|by split; apply Hno; intros ? ? (? & ? & ?)].
  destruct (truthy (VStr s)) eqn:Hs; cbn [andb].
  2:{ split; apply Hno; intros s' c' Hch;
        destruct Hch as (Hs' & Hc' & Hne1 & Hne2); simplify_eq;
        apply truthy_path in Hne1; congruence. }
  destruct (truthy (VStr c)) eqn:Hc; cbn [andb].
  2:{ split; apply Hno; intros s' c' Hch;
        destruct Hch as (Hs' & Hc' & Hne1 & Hne2); simplify_eq;
        apply truthy_path in Hne2; congruence. }
  apply truthy_path in Hs, Hc.
  assert (checks (Some s) (Some c) s c) as Hchecks by done.
  destruct (tables w !! s) as [src|] eqn:Hsrc.
  - destruct (decide (c ∈ fc_fields src)) as [Hin|Hin].
    + destruct (check_relationship_ok s c v w0 src) as (b & -> & Hb);
        [by rewrite Hw|done|].
      cbv beta iota. split.
      * intros (s' & c' & ([= <-] & [= <-] & _) & Hfail).
        by apply (Hfail src).
      * rewrite Hb. unfold related, related_to. rewrite Hw. split.
        -- intros Hrel. by exists s, c.
        -- by intros (s' & c' & ([= <-] & [= <-] & _) & Hrel).
    + destruct (check_relationship_raises s c v w0) as [e ->].
      { rewrite Hw. intros src' Hsrc'. by simplify_eq. }
      cbv beta iota. split.
      * exists s, c. split; [done|]. intros src' Hsrc'. by simplify_eq.
      * intros (s' & c' & ([= <-] & [= <-] & _) & src' & f & Hsrc' & Hc' & _).
        by simplify_eq.
  - destruct (check_relationship_raises s c v w0) as [e ->].
    { rewrite Hw. intros src' Hsrc'. by simplify_eq. }
    cbv beta iota. split.
    + exists s, c. split; [done|]. intros src' Hsrc'. by simplify_eq.
    + intros (s' & c' & ([= <-] & [= <-] & _) & src' & f & Hsrc' & _).
      by simplify_eq.
Qed.

(** What the bodies of the two loops store *)
Definition issource_columns (relationship_exists : value -> bool)
    (r : row G) : outcome (option (list value)) :=
  (mark_issource relationship_exists tt r).2.

Definition issource_columns_rom
    (relationship : option (value -> outcome bool)) (r : row G)
    : outcome (option (list value)) :=
  (mark_issource_rom relationship tt r).2.

Lemma apply_update_issource relationship_exists f0 f1 f2 more
    (d : feature G) :
  NoDup (f0 :: f1 :: f2 :: more) ->
  let flds := f0 :: f1 :: f2 :: more in
  let d' := apply_update flds all_rows (issource_columns relationship_exists)
              d in
  row_ok flds all_rows (issource_columns relationship_exists) d
  /\ shape d' = shape d
  /\ (forall k, k <> f1 -> get_field d' k = get_field d k)
  /\ get_field d' f1
     = if relationship_exists (get_field d f2) then VInt 1
       else if decide (get_field d f0 = VInt 1) then VInt 2
            else get_field d f1.
Proof.
  intros Hnd flds d'. subst d'.
  unfold row_ok, apply_update, issource_columns, mark_issource. simpl.
  change (get_field d f0 :: get_field d f1 :: get_field d f2
            :: map (get_field d) more)
    with (row_vals (read_row flds d)).
  destruct (relationship_exists (get_field d f2)); simpl;
    [|destruct (decide (get_field d f0 = VInt 1)); simpl].
  - split; [eauto|]. split; [apply shape_write_row|].
    pose proof (write_row_insert flds 1 f1 (VInt 1) d) as Hw.
    split; [intros k Hk|]; rewrite Hw by done; by case_decide.
  - split; [eauto|]. split; [apply shape_write_row|].
    pose proof (write_row_insert flds 1 f1 (VInt 2) d) as Hw.
    split; [intros k Hk|]; rewrite Hw by done; by case_decide.
  - split; [eauto|]. split; [apply shape_write_row|].
    split; [intros k Hk|]; by apply write_row_same.
Qed.

Lemma apply_update_issource_rom relationship f0 f1 f2 (d : feature G) :
  NoDup [f0; f1; f2] ->
  let flds := [f0; f1; f2] in
  let d' := apply_update flds all_rows (issource_columns_rom relationship)
              d in
  row_ok flds all_rows (issource_columns_rom relationship) d
  /\ shape d' = shape d
  /\ (forall k, k <> f1 -> get_field d' k = get_field d k)
  /\ get_field d' f1
     = match relationship with
       | Some check =>
           match check (get_field d f2) with
           | Ok relationship_exists =>
               if decide (get_field d f0 = VInt 1) then VInt 2
               else if relationship_exists then VInt 1
                    else get_field d f1
           | Raise _ => get_field d f1
           end
       | None =>
           if decide (get_field d f0 = VInt 1) then VInt 2
           else get_field d f1
       end.
Proof.
  intros Hnd flds d'. subst d'.
  pose proof (fun v k => write_row_insert flds 1 f1 v d k Hnd eq_refl) as Hw.
  pose proof (fun k => write_row_same flds d k Hnd) as Hw0.
  unfold row_ok, apply_update, issource_columns_rom, mark_issource_rom.
  simpl.
  change [get_field d f0; get_field d f1; get_field d f2]
    with (row_vals (read_row flds d)) in *.
  destruct relationship as [check|];
    [destruct (check (get_field d f2)) as [[]|e]|];
    try destruct (decide (get_field d f0 = VInt 1)); simpl;
    (split; [eauto|]); (split; [first [apply shape_write_row|done]|]);
    change [get_field d f0; VInt 1; get_field d f2]
      with (<[1%nat := VInt 1]> (row_vals (read_row flds d)));
    change [get_field d f0; VInt 2; get_field d f2]
      with (<[1%nat := VInt 2]> (row_vals (read_row flds d)));
    change [get_field d f0; get_field d f1; get_field d f2]
      with (row_vals (read_row flds d));
    rewrite ?Hw, ?Hw0;
    (split; [intros k Hk; rewrite ?Hw, ?Hw0; by try case_decide|]);
    by try case_decide.
Qed.

End IsSource.

Section IsSourceTheorems.
Context {G : Type} `{!Geometry G}.

(** X3.  [update_mig_issource] and [check_relationship] of the script for BG,
    on a destination that has the cursor fields, which are distinct, and is
    not the source itself: the call returns, and a row whose third field
    has a value found in the column of the source gets 1 in its second
    field; another row whose first field is 1 gets 2; all else is as it
    was.  A source or a column that is not named, or is missing, is a
    source that holds no value. *)
Theorem update_mig_issource_marks (w : world G) (dest_fc : string)
    (source_fc objectid_column : option string) (f0 f1 f2 : string)
    (more : list string) (dst : feature_class G) :
  tables w !! dest_fc = Some dst ->
  NoDup (f0 :: f1 :: f2 :: more) ->
  (forall k, k ∈ f0 :: f1 :: f2 :: more -> k ∈ fc_fields dst) ->
  source_fc <> Some dest_fc ->
  exists rows' w',
    BG.update_mig_issource dest_fc source_fc objectid_column
      (Some (f0 :: f1 :: f2 :: more)) w = (Ok tt, w')
    /\ tables w' = <[dest_fc := FeatureClass (fc_fields dst) rows']> (tables w)
    /\ Forall2 (marked_issource_bg w source_fc objectid_column f0 f1 f2)
         (fc_rows dst) rows'.
Proof.
  intros Hdst Hnd Hin _.
  set (flds := f0 :: f1 :: f2 :: more).
  set (rel := fun objectid_value =>
         match source_fc, objectid_column with
         | Some s, Some c =>
             if truthy (VStr s) && truthy (VStr c) then
               match BG.check_relationship s c objectid_value (opened w) with
               | (Ok b, _) => b
               | (Raise _, _) => false
               end
             else false
         | _, _ => false
         end).
  exists (map (apply_update flds all_rows (issource_columns rel)) (fc_rows dst)).
  eexists. split; [|split].
  - unfold BG.update_mig_issource. unfold bind at 1, Describe.
    rewrite Hdst. rewrite open_session_run. unfold try_except.
    cbv beta zeta. fold rel. fold flds. unfold bind.
    rewrite (for_update_stateless _ _ _ _ (issource_columns rel) _ _ dst);
      try done.
    + by apply has_fields_elem.
    + apply Forall_all. intros d. by apply apply_update_issource.
  - done.
  - apply Forall2_map_self. intros d.
    destruct (apply_update_issource rel f0 f1 f2 more d Hnd)
      as (_ & Hshape & Hother & Hiss).
    split; [done|]. split; [done|]. fold flds in Hiss. rewrite Hiss.
    pose proof (relationship_cases w (opened w) source_fc objectid_column
                  (get_field d f2) eq_refl) as Hrel.
    assert (rel (get_field d f2) = true
            <-> related w source_fc objectid_column (get_field d f2)) as Hb.
    { unfold rel. destruct source_fc as [s|]; [|by split; [|tauto]].
      destruct objectid_column as [c|]; [|by split; [|tauto]].
      destruct (truthy (VStr s) && truthy (VStr c)); [|by split; [|tauto]].
      destruct (BG.check_relationship s c (get_field d f2) (opened w))
        as [[b|e] w1]; [tauto|]. by split; [|tauto]. }
    destruct (rel (get_field d f2)).
    + split; [done|]. split; intros Hn; destruct Hn; by apply Hb.
    + assert (~ related w source_fc objectid_column (get_field d f2)) as Hn.
      { intros Hr. apply Hb in Hr. done. }
      split; [done|].
      destruct (decide (get_field d f0 = VInt 1)); by split.
Qed.

(** X4.  [update_mig_issource] and [check_relationship] of the script for ROM,
    on a destination that has the three cursor fields and is not the source
    itself: the call returns.  When the call names a source and a column
    and the check raises, no row changes.  Otherwise a row with [SUBSOURCE]
    1 gets [MIG_ISSOURCE] 2, whether its [GLOBALID] is found in the source
    or not; another row whose [GLOBALID] is found gets 1; all else is as it
    was. *)
Theorem update_mig_issource_rom_marks (w : world G) (dest_fc : string)
    (source_fc global_id_column : option string) (dst : feature_class G) :
  tables w !! dest_fc = Some dst ->
  (forall k, k ∈ ["SUBSOURCE"; "MIG_ISSOURCE"; "GLOBALID"] ->
             k ∈ fc_fields dst) ->
  source_fc <> Some dest_fc ->
  exists rows' w',
    ROM.update_mig_issource dest_fc source_fc global_id_column w = (Ok tt, w')
    /\ tables w' = <[dest_fc := FeatureClass (fc_fields dst) rows']> (tables w)
    /\ Forall2 (marked_issource_rom w source_fc global_id_column)
         (fc_rows dst) rows'.
Proof.
  intros Hdst Hin _.
  set (flds := ["SUBSOURCE"; "MIG_ISSOURCE"; "GLOBALID"]).
  assert (NoDup flds) as Hnd.
  { apply (bool_decide_unpack _). reflexivity. }
  set (relationship :=
         match source_fc, global_id_column with
         | Some s, Some c =>
             if truthy (VStr s) && truthy (VStr c)
             then Some (fun global_id_value =>
                          (ROM.check_relationship s c global_id_value w).1)
             else None
         | _, _ => None
         end).
  set (g := issource_columns_rom (G:=G) relationship).
  assert (forall d : feature G,
            row_ok flds all_rows g d
            /\ marked_issource_rom w source_fc global_id_column d
                 (apply_update flds all_rows g d)) as Hrow.
  { intros d.
    destruct (apply_update_issource_rom relationship "SUBSOURCE"
                "MIG_ISSOURCE" "GLOBALID" d Hnd)
      as (Hok & Hshape & Hother & Hiss).
    split; [done|]. split; [done|]. split; [done|].
    fold flds in Hiss. fold g in Hiss. rewrite Hiss. clear Hiss.
    pose proof (relationship_cases w w source_fc global_id_column
                  (get_field d "GLOBALID") eq_refl) as Hrel.
    unfold relationship.
    destruct source_fc as [s|]; [destruct global_id_column as [c|]|].
    - destruct (truthy (VStr s) && truthy (VStr c)).
      + rewrite check_relationship_bg_rom.
        destruct (BG.check_relationship s c (get_field d "GLOBALID") w)
          as [[b|e] w1]; cbv beta iota zeta.
        * destruct Hrel as [Hnf Hb]. simpl.
          destruct (decide (get_field d "SUBSOURCE" = VInt 1)) as [Hs|Hs];
            [by repeat split|].
          destruct b; repeat split; try done.
          -- intros _ Hn. destruct Hn. by apply Hb.
          -- intros _ Hr. apply Hb in Hr. done.
        * destruct Hrel as [Hf Hnr]. simpl. by repeat split.
      + destruct Hrel as [Hnf Hnr]. cbv zeta.
        by destruct (decide (get_field d "SUBSOURCE" = VInt 1));
          repeat split.
    - destruct Hrel as [Hnf Hnr]. cbv zeta.
      by destruct (decide (get_field d "SUBSOURCE" = VInt 1));
        repeat split.
    - destruct Hrel as [Hnf Hnr]. cbv zeta.
      by destruct (decide (get_field d "SUBSOURCE" = VInt 1));
        repeat split. }
  exists (map (apply_update flds all_rows g) (fc_rows dst)).
  eexists. split; [|split].
  - unfold ROM.update_mig_issource. cbv beta zeta.
    fold relationship. fold flds.
    rewrite (for_update_stateless _ _ _ _ g _ _ dst); try done.
    + by destruct (loop_locals _ _ _ _ _).
    + by apply has_fields_elem.
    + apply Forall_all. intros d. apply Hrow.
  - done.
  - apply Forall2_map_self. intros d. apply Hrow.
Qed.

End IsSourceTheorems.

(** ** [update_mig_voltage] *)

Section MigVoltage.
Context {G : Type} `{!Geometry G}.
Local Open Scope py_scope.

Lemma SpatialJoin_ok target_features join_features out op (w : world G)
    tfc jfc :
  tables w !! target_features = Some tfc ->
  tables w !! join_features = Some jfc ->
  SpatialJoin target_features join_features out op w
  = (Ok tt,
     World (<[out := FeatureClass ("TARGET_FID" :: fc_fields jfc)
                       (join_rows op (fc_rows tfc) (fc_rows jfc))]>
              (tables w))
           (session w) (log w)).
Proof. intros Ht Hj. unfold SpatialJoin. by rewrite Ht, Hj. Qed.

Lemma join_rows_cons (t : feature G) ts js :
  join_rows JOIN_ONE_TO_ONE (t :: ts) js
  = match List.find (matches t) js with
    | Some j => [joined t j]
    | None => []
    end ++ join_rows JOIN_ONE_TO_ONE ts js.
Proof.
  unfold join_rows. simpl. f_equal.
  induction js as [|j js IH]; simpl; [done|].
  by destruct (matches t j).
Qed.

Lemma joined_fields (t j : feature G) :
  get_field (joined t j) "TARGET_FID" = get_field t "OBJECTID"
  /\ get_field (joined t j) "OPERATINGVOLTAGE"
     = get_field j "OPERATINGVOLTAGE".
Proof.
  unfold joined, get_field. simpl.
  by rewrite lookup_insert_eq, lookup_insert_ne.
Qed.

Lemma join_rows_no_key (ts js : list (feature G)) k :
  k ∉ map (fun t => get_field t "OBJECTID") ts ->
  List.filter
    (fun s => bool_decide (get_field s "TARGET_FID" = k)
              && live "TARGET_FID" "OPERATINGVOLTAGE" s)
    (join_rows JOIN_ONE_TO_ONE ts js) = [].
Proof.
  induction ts as [|t ts IH]; intros Hk; [done|].
  rewrite join_rows_cons, List.filter_app, IH by set_solver.
  rewrite app_nil_r.
  destruct (List.find (matches t) js) as [j|]; [|done]. simpl.
  destruct (joined_fields t j) as [-> _].
  rewrite bool_decide_eq_false_2; [done|]. set_solver.
Qed.

(** The dictionary of [update_field] on the output of a spatial join, at
    the object identifier of a destination feature *)
Lemma join_voltage_lookup (ts js : list (feature G)) (d : feature G) :
  NoDup (map (fun t => get_field t "OBJECTID") ts) -> d ∈ ts ->
  build_voltage_dict
    (map (read_row ["TARGET_FID"; "OPERATINGVOLTAGE"])
         (join_rows JOIN_ONE_TO_ONE ts js))
    !! get_field d "OBJECTID"
  = layer_voltage js d.
Proof.
  intros Hnd Hd. rewrite build_voltage_dict_lookup.
  unfold last_live_match, layer_voltage.
  induction ts as [|t ts IH]; [by apply elem_of_nil in Hd|].
  simpl in Hnd. apply NoDup_cons in Hnd as [Ht Hnd].
  rewrite join_rows_cons, List.filter_app.
  apply elem_of_cons in Hd as [->|Hd].
  - rewrite (join_rows_no_key ts js) by done. rewrite app_nil_r.
    destruct (List.find (matches t) js) as [j|]; [|done]. simpl.
    unfold live. destruct (joined_fields t j) as [-> ->].
    rewrite bool_decide_eq_true_2 by done. simpl.
    destruct (_ && _); [|done]. simpl.
    by destruct (joined_fields t j) as [_ ->].
  - rewrite <- (IH Hnd Hd).
    assert (get_field t "OBJECTID" <> get_field d "OBJECTID") as Hne.
    { intros Heq. apply Ht. rewrite Heq.
      apply list_elem_of_In.
      apply (in_map (fun t => get_field t "OBJECTID")).
      by apply list_elem_of_In. }
    destruct (List.find (matches t) js) as [j|]; [|done]. simpl.
    destruct (joined_fields t j) as [-> _].
    by rewrite bool_decide_eq_false_2.
Qed.

(** A run of [update_field] of the script for BG, on tables that have the
    fields it names *)
Lemma update_field_run (w : world G) (source_fc destination_fc : string)
    (source_globalid operatingvoltage dest_globalid mig_voltage : string)
    (src dst : feature_class G) :
  tables w !! source_fc = Some src ->
  tables w !! destination_fc = Some dst ->
  has_fields src [source_globalid; operatingvoltage] = true ->
  has_fields dst [dest_globalid; mig_voltage] = true ->
  exists w',
    BG.update_field destination_fc source_fc destination_fc source_globalid
      operatingvoltage dest_globalid mig_voltage w = (Ok tt, w')
    /\ tables w'
       = <[destination_fc :=
             FeatureClass (fc_fields dst)
               (map (apply_update [dest_globalid; mig_voltage] all_rows
                       (voltage_columns
                          (build_voltage_dict
                             (map (read_row [source_globalid; operatingvoltage])
                                  (fc_rows src)))))
                    (fc_rows dst))]> (tables w).
Proof.
  intros Hsrc Hdst Hsf Hdf.
  set (g := voltage_columns (G:=G)
              (build_voltage_dict
                 (map (read_row [source_globalid; operatingvoltage])
                      (fc_rows src)))).
  assert (Forall (row_ok [dest_globalid; mig_voltage] all_rows g) (fc_rows dst))
    as Hok.
  { apply Forall_all. intros d _. unfold g, voltage_columns.
    destruct (build_voltage_dict _ !! _); eauto. }
  eexists. split.
  - unfold BG.update_field, bind, Describe. rewrite Hdst.
    unfold startEditing, startOperation, emit, try_except, bind. simpl.
    rewrite (SearchCursor_ok _ _ _ src) by done.
    rewrite (for_update_stateless _ _ _ _ g _ _ dst); try done.
    intros; apply copy_voltage_columns.
  - done.
Qed.

(** One [update_field] of [update_mig_voltage] on a feature [d'] that has
    the object identifier of the destination feature [d] *)
Lemma apply_update_layer_voltage (ts js : list (feature G))
    (d d' : feature G) :
  NoDup (map (fun t => get_field t "OBJECTID") ts) -> d ∈ ts ->
  get_field d' "OBJECTID" = get_field d "OBJECTID" ->
  let d'' :=
    apply_update ["OBJECTID"; "MIG_VOLTAGE"] all_rows
      (voltage_columns
         (build_voltage_dict
            (map (read_row ["TARGET_FID"; "OPERATINGVOLTAGE"])
                 (join_rows JOIN_ONE_TO_ONE ts js)))) d' in
  shape d'' = shape d'
  /\ (forall k, k <> "MIG_VOLTAGE" -> get_field d'' k = get_field d' k)
  /\ get_field d'' "MIG_VOLTAGE"
     = default (get_field d' "MIG_VOLTAGE") (layer_voltage js d).
Proof.
  intros Hnd Hd Hoid d''. subst d''.
  unfold apply_update, voltage_columns. simpl.
  change (col [get_field d' "OBJECTID"; get_field d' "MIG_VOLTAGE"] 0)
    with (get_field d' "OBJECTID").
  rewrite Hoid, join_voltage_lookup by done.
  destruct (layer_voltage js d) as [v|]; [|done]. simpl.
  assert (NoDup ["OBJECTID"; "MIG_VOLTAGE"]) as Hnd2.
  { apply (bool_decide_unpack _). reflexivity. }
  split; [done|]. split.
  - intros k Hk. destruct (decide (k = "OBJECTID")) as [->|Hko].
    + rewrite Hoid. by apply (get_field_write_row _ _ _ 0%nat).
    + apply get_field_write_row_other. set_solver.
  - by apply (get_field_write_row _ _ _ 1%nat).
Qed.

Lemma bind_Ok {A B} (m : M G A) (k : A -> M G B) (w w' : world G) a :
  m w = (Ok a, w') -> (x <- m ;; k x) w = k a w'.
Proof. intros Hm. unfold bind. by rewrite Hm. Qed.

Lemma try_except_Ok {A} (body : M G A) handler (w w' : world G) a :
  body w = (Ok a, w') -> try_except body handler w = (Ok a, w').
Proof. intros Hm. unfold try_except. by rewrite Hm. Qed.

Lemma if_path_Some (p : string) (m : string -> M G unit) :
  p <> "" -> if_path (Some p) m = m p.
Proof.
  intros Hp. unfold if_path.
  assert (truthy (VStr p) = true) as ->; [|done].
  simpl. apply negb_true_iff. by apply String.eqb_neq.
Qed.

Lemma Delete_ok path (w : world G) :
  is_Some (tables w !! path) ->
  Delete path w = (Ok tt, World (delete path (tables w)) (session w) (log w)).
Proof. intros [fc Hfc]. unfold Delete. by rewrite Hfc. Qed.

Lemma Forall2_map_self_elem {A} (P : A -> A -> Prop) (h : A -> A)
    (l : list A) :
  (forall x, x ∈ l -> P x (h x)) -> Forall2 P l (map h l).
Proof.
  induction l as [|x l IH]; intros HP; simpl; constructor.
  - apply HP. set_solver.
  - apply IH. intros y Hy. apply HP. set_solver.
Qed.

End MigVoltage.

Section MigVoltageTheorem.
Context {G : Type} `{!Geometry G}.
Local Open Scope py_scope.

(** X5.  [update_mig_voltage] of the script for BG, called with three output
    names that are not empty, on a destination with distinct object
    identifiers and the fields [OBJECTID] and [MIG_VOLTAGE] and without a
    field [OPERATINGVOLTAGE], when the three layers have a field
    [OPERATINGVOLTAGE] and the seven table names are distinct: the call
    returns, the three outputs are deleted, and every destination feature
    gets the voltage of the first busbar that intersects it; when there is
    none, or its voltage or the object identifier is not truthy, that of
    the first conductor, and then that of the first internal connection;
    else it keeps its voltage. *)
Theorem update_mig_voltage_priority (w : world G)
    (join_internal join_conductor join_busbar dest_fc : string)
    (dst internal conductor busbar : feature_class G) :
  tables w !! dest_fc = Some dst ->
  tables w !! "Свързваща линия" = Some internal ->
  tables w !! "Проводник" = Some conductor ->
  tables w !! "Шина" = Some busbar ->
  "OBJECTID" ∈ fc_fields dst -> "MIG_VOLTAGE" ∈ fc_fields dst ->
  "OPERATINGVOLTAGE" ∉ fc_fields dst ->
  "OPERATINGVOLTAGE" ∈ fc_fields internal ->
  "OPERATINGVOLTAGE" ∈ fc_fields conductor ->
  "OPERATINGVOLTAGE" ∈ fc_fields busbar ->
  NoDup [join_internal; join_conductor; join_busbar; dest_fc;
         "Свързваща линия"; "Проводник"; "Шина"] ->
  join_internal <> "" -> join_conductor <> "" -> join_busbar <> "" ->
  NoDup (map (fun t => get_field t "OBJECTID") (fc_rows dst)) ->
  exists rows' w',
    BG.update_mig_voltage (Some join_internal) (Some join_conductor)
      (Some join_busbar) dest_fc w = (Ok tt, w')
    /\ tables w'
       = delete join_busbar
           (delete join_conductor
              (delete join_internal
                 (<[dest_fc := FeatureClass (fc_fields dst) rows']>
                    (tables w))))
    /\ Forall2
         (voltage_by_priority (fc_rows internal) (fc_rows conductor)
            (fc_rows busbar))
         (fc_rows dst) rows'.
Proof.
  intros Hdst Hi Hc Hb Hoid Hmv _ Hvi Hvc Hvb Hnames Hji Hjc Hjb Hnd.
  assert (join_internal <> join_conductor /\ join_internal <> join_busbar
          /\ join_internal <> dest_fc /\ join_internal <> "Свързваща линия"
          /\ join_internal <> "Проводник" /\ join_internal <> "Шина"
          /\ join_conductor <> join_busbar /\ join_conductor <> dest_fc
          /\ join_conductor <> "Свързваща линия"
          /\ join_conductor <> "Проводник" /\ join_conductor <> "Шина"
          /\ join_busbar <> dest_fc /\ join_busbar <> "Свързваща линия"
          /\ join_busbar <> "Проводник" /\ join_busbar <> "Шина")
    as (N1 & N2 & N3 & N4 & N5 & N6 & N7 & N8 & N9 & N10 & N11 & N12 & N13
        & N14 & N15).
  { repeat (apply NoDup_cons in Hnames as [? Hnames]).
    repeat match goal with
           | H : _ ∉ _ :: _ |- _ => apply not_elem_of_cons in H as [? ?]
           end.
    by repeat split. }
  set (flds := ["OBJECTID"; "MIG_VOLTAGE"]).
  set (src_flds := ["TARGET_FID"; "OPERATINGVOLTAGE"]).
  set (step := fun layer : feature_class G =>
         apply_update (G:=G) flds all_rows
           (voltage_columns
              (build_voltage_dict
                 (map (read_row src_flds)
                      (join_rows JOIN_ONE_TO_ONE (fc_rows dst)
                         (fc_rows layer)))))).
  set (T3 := <[join_busbar := join_table dst busbar]>
               (<[join_conductor := join_table dst conductor]>
                  (<[join_internal := join_table dst internal]> (tables w)))).
  assert (forall layer : feature_class G,
            "OPERATINGVOLTAGE" ∈ fc_fields layer ->
            has_fields (join_table dst layer) src_flds = true) as Hsf.
  { intros layer Hl. apply has_fields_elem. simpl. set_solver. }
  assert (forall rows : list (feature G),
            has_fields (FeatureClass (fc_fields dst) rows) flds = true) as Hdf.
  { intros rows. apply has_fields_elem. simpl. set_solver. }
  (* the three spatial joins *)
  assert ((if_path (Some join_internal)
             (fun out =>
                SpatialJoin dest_fc "Свързваща линия" out JOIN_ONE_TO_ONE) ;;;
           if_path (Some join_conductor)
             (fun out => SpatialJoin dest_fc "Проводник" out JOIN_ONE_TO_ONE) ;;;
           if_path (Some join_busbar)
             (fun out => SpatialJoin dest_fc "Шина" out JOIN_ONE_TO_ONE)) w
          = (Ok tt, World T3 (session w) (log w))) as Hjoins.
  { rewrite !if_path_Some by done.
    erewrite bind_Ok; [|by apply (SpatialJoin_ok _ _ _ _ _ dst internal)].
    erewrite bind_Ok.
    2:{ apply (SpatialJoin_ok _ _ _ _ _ dst conductor); simpl;
          by rewrite lookup_insert_ne by done. }
    rewrite (SpatialJoin_ok _ _ _ _ _ dst busbar);
      [reflexivity|simpl; by rewrite !lookup_insert_ne by done..]. }
  (* the three updates *)
  destruct (update_field_run (World T3 (session w) (log w)) join_internal
              dest_fc "TARGET_FID" "OPERATINGVOLTAGE" "OBJECTID" "MIG_VOLTAGE"
              (join_table dst internal) dst)
    as (w4 & Hrun4 & Ht4); [| |by apply Hsf|by apply (Hdf (fc_rows dst))|].
  { unfold T3. simpl. rewrite !lookup_insert_ne by done; by rewrite lookup_insert_eq. }
  { unfold T3. simpl. by rewrite !lookup_insert_ne by done. }
  simpl in Ht4.
  destruct (update_field_run w4 join_conductor
              dest_fc "TARGET_FID" "OPERATINGVOLTAGE" "OBJECTID" "MIG_VOLTAGE"
              (join_table dst conductor)
              (FeatureClass (fc_fields dst) (map (step internal) (fc_rows dst))))
    as (w5 & Hrun5 & Ht5); [| |by apply Hsf|by apply Hdf|].
  { rewrite Ht4. unfold T3.
    rewrite !lookup_insert_ne by done; by rewrite lookup_insert_eq. }
  { rewrite Ht4. by rewrite lookup_insert_eq. }
  destruct (update_field_run w5 join_busbar
              dest_fc "TARGET_FID" "OPERATINGVOLTAGE" "OBJECTID" "MIG_VOLTAGE"
              (join_table dst busbar)
              (FeatureClass (fc_fields dst)
                 (map (step conductor) (map (step internal) (fc_rows dst)))))
    as (w6 & Hrun6 & Ht6); [| |by apply Hsf|by apply Hdf|].
  { rewrite Ht5, Ht4. unfold T3.
    rewrite !lookup_insert_ne by done; by rewrite lookup_insert_eq. }
  { rewrite Ht5. by rewrite lookup_insert_eq. }
  simpl in Ht5, Ht6. fold src_flds flds in Ht4, Ht5, Ht6.
  fold (step internal) in Ht4. fold (step conductor) in Ht5.
  fold (step busbar) in Ht6.
  exists (map (step busbar)
            (map (step conductor) (map (step internal) (fc_rows dst)))).
  eexists. split; [|split].
  - unfold BG.update_mig_voltage.
    erewrite bind_Ok; [|apply try_except_Ok, Hjoins].
    apply try_except_Ok.
    rewrite !if_path_Some by done.
    erewrite bind_Ok; [|exact Hrun4].
    erewrite bind_Ok; [|exact Hrun5].
    erewrite bind_Ok; [|exact Hrun6].
    erewrite bind_Ok.
    2:{ apply Delete_ok. rewrite Ht6, Ht5, Ht4. unfold T3.
        rewrite !lookup_insert_ne by done; by rewrite lookup_insert_eq. }
    erewrite bind_Ok.
    2:{ apply Delete_ok. simpl. rewrite Ht6, Ht5, Ht4. unfold T3.
        rewrite lookup_delete_ne by done.
        rewrite !lookup_insert_ne by done; by rewrite lookup_insert_eq. }
    apply Delete_ok. simpl. rewrite Ht6, Ht5, Ht4. unfold T3.
    rewrite !lookup_delete_ne by done.
    rewrite !lookup_insert_ne by done; by rewrite lookup_insert_eq.
  - simpl. rewrite Ht6, Ht5, Ht4. unfold T3.
    apply map_eq. intros p.
    destruct (decide (p = join_busbar)) as [->|?];
      [by rewrite !lookup_delete_eq|].
    rewrite !(lookup_delete_ne _ join_busbar) by done.
    destruct (decide (p = join_conductor)) as [->|?];
      [by rewrite !lookup_delete_eq|].
    rewrite !(lookup_delete_ne _ join_conductor) by done.
    destruct (decide (p = join_internal)) as [->|?];
      [by rewrite !lookup_delete_eq|].
    rewrite !(lookup_delete_ne _ join_internal) by done.
    destruct (decide (p = dest_fc)) as [->|?];
      [by rewrite !lookup_insert_eq|].
    by rewrite !lookup_insert_ne by done.
  - rewrite !map_map. apply Forall2_map_self_elem. intros d Hd.
    destruct (apply_update_layer_voltage (fc_rows dst) (fc_rows internal)
                d d Hnd Hd eq_refl) as (Hs1 & Ho1 & Hv1).
    fold src_flds flds in Hs1, Ho1, Hv1. fold (step internal) in Hs1, Ho1, Hv1.
    destruct (apply_update_layer_voltage (fc_rows dst) (fc_rows conductor)
                d (step internal d) Hnd Hd) as (Hs2 & Ho2 & Hv2).
    { by apply Ho1. }
    fold src_flds flds in Hs2, Ho2, Hv2.
    fold (step conductor) in Hs2, Ho2, Hv2.
    destruct (apply_update_layer_voltage (fc_rows dst) (fc_rows busbar)
                d (step conductor (step internal d)) Hnd Hd)
      as (Hs3 & Ho3 & Hv3).
    { rewrite Ho2, Ho1; done. }
    fold src_flds flds in Hs3, Ho3, Hv3. fold (step busbar) in Hs3, Ho3, Hv3.
    split; [by rewrite Hs3, Hs2, Hs1|]. split.
    + intros k Hk. by rewrite Ho3, Ho2, Ho1.
    + rewrite Hv3, Hv2, Hv1.
      by destruct (layer_voltage (fc_rows busbar) d),
        (layer_voltage (fc_rows conductor) d),
        (layer_voltage (fc_rows internal) d).
Qed.

End MigVoltageTheorem.

(** ** What a call keeps of the geodatabase *)

Section Kept.
Context {G : Type} `{!Geometry G}.
Local Open Scope py_scope.

(** The tables a call may change at will are those of [excl]; of another
    table, the call keeps the relation [R] to what the table was in [T0].
    When [free] holds, [R] allows any change that keeps the shapes of the
    rows, in their order. *)
Variable excl : string -> Prop.
Variable R : feature_class G -> feature_class G -> Prop.
Variable free : Prop.
Hypothesis R_shapes :
  free -> forall a b b',
    R a b -> map shape (fc_rows b') = map shape (fc_rows b) -> R a b'.
Variable T0 : gmap string (feature_class G).

Definition kept (t : gmap string (feature_class G)) : Prop :=
  forall p, ~ excl p ->
    match T0 !! p with
    | Some a => exists b, t !! p = Some b /\ R a b
    | None => t !! p = None
    end.

(** The invariant of a run: the tables are kept, and so are those an open
    edit session would restore. *)
Definition inv (w : world G) : Prop :=
  kept (tables w) /\ forall t, session w = Some t -> kept t.

Definition preserves {A} (m : M G A) : Prop :=
  forall w, inv w -> inv (m w).2.

Definition preserves_framed {L A} (body : framed G L A) : Prop :=
  forall w, inv w -> inv (body w).2.

Lemma inv_log (w : world G) evs :
  inv w -> inv (World (tables w) (session w) evs).
Proof. done. Qed.

Lemma kept_insert t path (b b' : feature_class G) :
  excl path \/ free ->
  t !! path = Some b ->
  map shape (fc_rows b') = map shape (fc_rows b) ->
  kept t -> kept (<[path := b']> t).
Proof.
  intros Hpath Hb Hshape Hk p Hp. specialize (Hk p Hp).
  destruct (decide (p = path)) as [->|Hne].
  - destruct Hpath as [?|Hfree]; [done|].
    rewrite lookup_insert_eq. rewrite Hb in Hk.
    destruct (T0 !! path) as [a|]; [|done].
    destruct Hk as (b0 & [= <-] & HR). exists b'. split; [done|].
    by apply (R_shapes Hfree a b).
  - by rewrite lookup_insert_ne.
Qed.

Lemma kept_insert_excl t path (b' : feature_class G) :
  excl path -> kept t -> kept (<[path := b']> t).
Proof.
  intros Hpath Hk p Hp. specialize (Hk p Hp).
  rewrite lookup_insert_ne; [done|]. by intros ->.
Qed.

Lemma kept_delete_excl t path :
  excl path -> kept t -> kept (delete path t).
Proof.
  intros Hpath Hk p Hp. specialize (Hk p Hp).
  rewrite lookup_delete_ne; [done|]. by intros ->.
Qed.

(** *** The combinators *)

Lemma preserves_ret {A} (a : A) : preserves (ret a).
Proof. by intros w Hw. Qed.

Lemma preserves_raise {A} e : preserves (raise (A:=A) e).
Proof. by intros w Hw. Qed.

Lemma preserves_bind {A B} (m : M G A) (k : A -> M G B) :
  preserves m -> (forall a, preserves (k a)) -> preserves (x <- m ;; k x).
Proof.
  intros Hm Hk w Hw. unfold bind. specialize (Hm w Hw).
  destruct (m w) as [[a|e] w1]; [|done]. by apply Hk.
Qed.

Lemma preserves_try_except {A} (body : M G A) handler :
  preserves body -> preserves handler -> preserves (try_except body handler).
Proof.
  intros Hb Hh w Hw. unfold try_except. specialize (Hb w Hw).
  destruct (body w) as [[a|e] w1]; [done|]. specialize (Hh w1 Hb).
  by destruct (handler w1) as [[[]|e'] w2].
Qed.

Lemma preserves_try_finally {A} (body : M G A) fin :
  preserves body -> preserves fin -> preserves (try_finally body fin).
Proof.
  intros Hb Hf w Hw. unfold try_finally. specialize (Hb w Hw).
  destruct (body w) as [o w1]. specialize (Hf w1 Hb).
  by destruct (fin w1) as [[[]|e'] w2].
Qed.

Lemma preserves_except_reraise {L A} (body : framed G L A) handler :
  preserves_framed body -> preserves handler ->
  preserves_framed (except_reraise body handler).
Proof.
  intros Hb Hh w Hw. unfold except_reraise. specialize (Hb w Hw).
  destruct (body w) as [[l [a|e]] w1]; [done|]. specialize (Hh w1 Hb).
  by destruct (handler w1) as [[[]|e'] w2].
Qed.

Lemma preserves_finally_with {L A} (body : framed G L A) fin :
  preserves_framed body -> (forall l, preserves (fin l)) ->
  preserves (finally_with body fin).
Proof.
  intros Hb Hf w Hw. unfold finally_with. specialize (Hb w Hw).
  destruct (body w) as [[l o] w1]. specialize (Hf l w1 Hb).
  by destruct (fin l w1) as [[[]|e'] w2].
Qed.

Lemma preserves_if_path path (m : string -> M G unit) :
  (forall p, preserves (m p)) -> preserves (if_path path m).
Proof.
  intros Hm. unfold if_path. destruct path as [p|]; [|apply preserves_ret].
  destruct (truthy (VStr p)); [apply Hm|apply preserves_ret].
Qed.

(** *** The library *)

Lemma preserves_SearchCursor path flds : preserves (SearchCursor path flds).
Proof. intros w Hw. by rewrite SearchCursor_world. Qed.

Lemma preserves_Describe path : preserves (Describe path).
Proof. intros w Hw. unfold Describe. by destruct (tables w !! path). Qed.

Lemma preserves_ListFields path : preserves (ListFields path).
Proof. intros w Hw. unfold ListFields. by destruct (tables w !! path). Qed.

Lemma preserves_startEditing a b : preserves (startEditing a b).
Proof.
  intros w [Hk Hs]. split; [done|]. simpl. by intros t [= <-].
Qed.

Lemma preserves_startOperation : preserves startOperation.
Proof. by intros w Hw. Qed.

Lemma preserves_stopOperation : preserves stopOperation.
Proof. by intros w Hw. Qed.

Lemma preserves_stopEditing save_changes : preserves (stopEditing save_changes).
Proof.
  intros w [Hk Hs]. split; [|done]. simpl.
  destruct save_changes; [done|].
  destruct (session w) as [t|]; [by apply Hs|done].
Qed.

Lemma preserves_commit : preserves commit.
Proof.
  apply preserves_bind; [apply preserves_stopOperation|intros _].
  apply preserves_stopEditing.
Qed.

Lemma preserves_rollback : preserves rollback.
Proof.
  apply preserves_bind; [apply preserves_stopOperation|intros _].
  apply preserves_stopEditing.
Qed.

Lemma update_rows_shapes {L} path flds sel (body : updater G L) idx fs s :
  map shape (update_rows path flds sel body idx fs s).1.2 = map shape fs.
Proof.
  revert idx s. induction fs as [|f fs IH]; intros idx s; simpl; [done|].
  destruct (sel f).
  - destruct (body s (read_row flds f)) as [s' [upd|e]]; [|done].
    specialize (IH (S idx) s').
    destruct (update_rows path flds sel body (S idx) fs s')
      as [[[s'' o] rest'] evs].
    destruct upd; simpl in *; [|by rewrite IH].
    by rewrite shape_write_row, IH.
  - specialize (IH (S idx) s).
    destruct (update_rows path flds sel body (S idx) fs s)
      as [[[s'' o] rest'] evs].
    simpl in *. by rewrite IH.
Qed.

Lemma preserves_UpdateCursor {L} path flds sel (body : updater G L) s0 :
  excl path \/ free ->
  forall w, inv w -> inv (UpdateCursor path flds sel body s0 w).2.
Proof.
  intros Hpath w [Hk Hs]. unfold UpdateCursor, open_cursor.
  destruct (tables w !! path) as [fc|] eqn:Hfc; [|done].
  destruct (has_fields fc flds); [|done]. simpl.
  pose proof (update_rows_shapes path flds sel body 0 (fc_rows fc) s0)
    as Hshape.
  destruct (update_rows path flds sel body 0 (fc_rows fc) s0)
    as [[[s o] rows'] evs].
  split; [|done]. simpl. by apply (kept_insert _ _ fc).
Qed.

Lemma preserves_for_update {L} path flds sel (body : updater G L) s0 :
  excl path \/ free -> preserves (for_update path flds sel body s0).
Proof.
  intros Hpath w Hw. unfold for_update.
  pose proof (preserves_UpdateCursor path flds sel body s0 Hpath w Hw) as Hu.
  by destruct (UpdateCursor path flds sel body s0 w) as [[s [[]|e]] w1].
Qed.

Lemma preserves_AddField path field_name :
  excl path \/ free -> preserves (AddField path field_name).
Proof.
  intros Hpath w [Hk Hs]. unfold AddField.
  destruct (tables w !! path) as [fc|] eqn:Hfc; [|done].
  split; [|done]. simpl. by apply (kept_insert _ _ fc).
Qed.

Lemma preserves_DeleteField path field_name :
  excl path \/ free -> preserves (DeleteField path field_name).
Proof.
  intros Hpath w [Hk Hs]. unfold DeleteField.
  destruct (tables w !! path) as [fc|] eqn:Hfc; [|done].
  split; [|done]. simpl. apply (kept_insert _ _ fc); try done. simpl.
  rewrite map_map. apply map_ext. intros f. done.
Qed.

Lemma preserves_SpatialJoin target_features join_features out op :
  excl out -> preserves (SpatialJoin target_features join_features out op).
Proof.
  intros Hout w [Hk Hs]. unfold SpatialJoin.
  destruct (tables w !! target_features); [|done].
  destruct (tables w !! join_features); [|done].
  split; [|done]. simpl. by apply kept_insert_excl.
Qed.

Lemma preserves_Delete_if_exists path :
  excl path -> preserves (Delete_if_exists path).
Proof.
  intros Hpath w [Hk Hs]. split; [|done]. simpl. by apply kept_delete_excl.
Qed.

Lemma preserves_Delete path : excl path -> preserves (Delete path).
Proof.
  intros Hpath w [Hk Hs]. unfold Delete.
  destruct (tables w !! path); [|done].
  split; [|done]. simpl. by apply kept_delete_excl.
Qed.

(** *** The routines *)

Ltac keep :=
  lazymatch goal with
  | |- preserves (SearchCursor _ _) => apply preserves_SearchCursor
  | |- preserves (Describe _) => apply preserves_Describe
  | |- preserves (ListFields _) => apply preserves_ListFields
  | |- preserves (startEditing _ _) => apply preserves_startEditing
  | |- preserves startOperation => apply preserves_startOperation
  | |- preserves stopOperation => apply preserves_stopOperation
  | |- preserves (stopEditing _) => apply preserves_stopEditing
  | |- preserves commit => apply preserves_commit
  | |- preserves rollback => apply preserves_rollback
  | |- preserves (for_update _ _ _ _ _) =>
      apply preserves_for_update; solve [auto]
  | |- preserves (AddField _ _) => apply preserves_AddField; solve [auto]
  | |- preserves (DeleteField _ _) => apply preserves_DeleteField; solve [auto]
  | |- preserves (SpatialJoin _ _ _ _) =>
      apply preserves_SpatialJoin; solve [auto]
  | |- preserves (Delete_if_exists _) =>
      apply preserves_Delete_if_exists; solve [auto]
  | |- preserves (Delete _) => apply preserves_Delete; solve [auto]
  | |- preserves (ret _) => apply preserves_ret
  | |- preserves (raise _) => apply preserves_raise
  | |- preserves (try_except _ _) => apply preserves_try_except
  | |- preserves (try_finally _ _) => apply preserves_try_finally
  | |- preserves (finally_with _ _) =>
      apply preserves_finally_with; [|intros ?]
  | |- preserves_framed (except_reraise _ _) => apply preserves_except_reraise
  | |- preserves (if_path _ _) => apply preserves_if_path; intros ?
  | |- preserves (bind _ _) => apply preserves_bind; [|intros ?]
  | |- preserves (if ?c then _ else _) => destruct c
  | |- preserves (match ?c with Some _ => _ | None => _ end) => destruct c
  end.

Ltac keeps := repeat keep.

Lemma keeps_rom_update_fc_from_dict source_fc destination_fc source_key_field
    destination_key_field field_pairs where_clause :
  excl destination_fc \/ free ->
  preserves (ROM.update_fc_from_dict source_fc destination_fc source_key_field
               destination_key_field field_pairs where_clause).
Proof. intros Hd. unfold ROM.update_fc_from_dict. cbv zeta. keeps. Qed.

Lemma keeps_rom_update_fc_within inner_fc outer_fc :
  excl inner_fc \/ free -> preserves (ROM.update_fc_within inner_fc outer_fc).
Proof. intros Hd. unfold ROM.update_fc_within. cbv zeta. keeps. Qed.

Lemma keeps_rom_update_fc_self source_fc field_updates :
  excl source_fc \/ free ->
  preserves (ROM.update_fc_self source_fc field_updates).
Proof. intros Hd. unfold ROM.update_fc_self. cbv zeta. keeps. Qed.

Lemma keeps_rom_update_field source_fc destination_fc source_globalid
    operatingvoltage dest_globalid mig_voltage :
  excl destination_fc \/ free ->
  preserves (ROM.update_field source_fc destination_fc source_globalid
               operatingvoltage dest_globalid mig_voltage).
Proof. intros Hd. unfold ROM.update_field. cbv zeta. keeps. Qed.

Lemma keeps_rom_lies_layers target_fc mig_parenttype objectid layers :
  excl target_fc \/ free -> excl ROM.temp_join ->
  forall updated_features,
    preserves (ROM.lies_layers target_fc mig_parenttype objectid layers
                 updated_features).
Proof.
  intros Hd Ht. induction layers as [|[join_fc v] layers IH];
    intros updated_features; simpl; keeps. apply IH.
Qed.

Lemma keeps_rom_update_field_based_on_whether_it_lies target_fc
    mapping_layers mig_parenttype objectid :
  excl target_fc \/ free -> excl ROM.temp_join ->
  preserves (ROM.update_field_based_on_whether_it_lies target_fc
               mapping_layers mig_parenttype objectid).
Proof.
  intros Hd Ht. unfold ROM.update_field_based_on_whether_it_lies.
  apply preserves_bind; [by apply keeps_rom_lies_layers|intros _].
  apply preserves_ret.
Qed.

Lemma keeps_rom_update_fc_within_station_boundary elif_test elif_label
    status_field fc station_fc field_name :
  excl fc \/ free ->
  preserves (ROM.update_fc_within_station_boundary elif_test elif_label
               status_field fc station_fc field_name).
Proof.
  intros Hd. unfold ROM.update_fc_within_station_boundary. cbv zeta. keeps.
Qed.

Lemma keeps_rom_update_mig_issource dest_fc source_fc global_id_column :
  excl dest_fc \/ free ->
  preserves (ROM.update_mig_issource dest_fc source_fc global_id_column).
Proof.
  intros Hd w Hw. unfold ROM.update_mig_issource. cbv zeta.
  by apply (preserves_for_update _ _ _ _ _ Hd w Hw).
Qed.

Lemma keeps_update_fc_from_dict source_fc destination_fc source_key_field
    destination_key_field field_pairs where_clause :
  excl destination_fc \/ free ->
  preserves (BG.update_fc_from_dict source_fc destination_fc source_key_field
               destination_key_field field_pairs where_clause).
Proof.
  intros Hd. unfold BG.update_fc_from_dict. keeps.
  - intros w Hw. unfold BG.update_fc_from_dict_try. cbv zeta.
    pose proof (preserves_SearchCursor source_fc
                  (source_key_field :: field_pairs.*1) w Hw) as H1.
    destruct (SearchCursor source_fc (source_key_field :: field_pairs.*1) w)
      as [[rows|e] w1]; simpl in H1; [|exact H1].
    match goal with
    | |- context [UpdateCursor ?p ?f ?s ?b ?l w1] =>
        pose proof (preserves_UpdateCursor p f s b l Hd w1 H1) as H2;
        destruct (UpdateCursor p f s b l w1) as [[common_guid [[]|e]] w2]
    end; simpl in H2; [|exact H2].
    pose proof (preserves_commit w2 H2) as H3.
    destruct (commit w2) as [o w3]. exact H3.
  - unfold BG.update_fc_from_dict_finally.
    match goal with |- preserves (match ?c with _ => _ end) => destruct c end.
    + by intros w Hw.
    + apply preserves_raise.
Qed.

Lemma keeps_update_fc_within inner_fc outer_fc :
  excl inner_fc \/ free -> preserves (BG.update_fc_within inner_fc outer_fc).
Proof. intros Hd. unfold BG.update_fc_within. cbv zeta. keeps. Qed.

Lemma keeps_update_fc_self source_fc field_updates :
  excl source_fc \/ free ->
  preserves (BG.update_fc_self source_fc field_updates)
  /\ preserves (AddDB.update_fc_self source_fc field_updates).
Proof.
  intros Hd. split.
  - unfold BG.update_fc_self. cbv zeta. keeps.
  - unfold AddDB.update_fc_self. cbv zeta. keeps.
Qed.

Lemma keeps_update_field dest_fc source_fc destination_fc source_globalid
    operatingvoltage dest_globalid mig_voltage :
  excl destination_fc \/ free ->
  preserves (BG.update_field dest_fc source_fc destination_fc source_globalid
               operatingvoltage dest_globalid mig_voltage).
Proof. intros Hd. unfold BG.update_field. cbv zeta. keeps. Qed.

Lemma keeps_update_mig_voltage join_internal join_conductor join_busbar
    dest_fc :
  excl dest_fc \/ free ->
  (forall p, join_internal = Some p -> excl p) ->
  (forall p, join_conductor = Some p -> excl p) ->
  (forall p, join_busbar = Some p -> excl p) ->
  preserves (BG.update_mig_voltage join_internal join_conductor join_busbar
               dest_fc).
Proof.
  intros Hd Hi Hc Hb.
  assert (forall path (m : string -> M G unit),
            (forall p, path = Some p -> preserves (m p)) ->
            preserves (if_path path m)) as Hpath.
  { intros path m Hm. unfold if_path.
    destruct path as [p|]; [|apply preserves_ret].
    destruct (truthy (VStr p)); [by apply Hm|apply preserves_ret]. }
  unfold BG.update_mig_voltage.
  repeat lazymatch goal with
    | |- preserves (bind _ _) => apply preserves_bind; [|intros ?]
    | |- preserves (try_except _ _) => apply preserves_try_except
    | |- preserves (ret _) => apply preserves_ret
    | |- preserves (if_path _ _) => apply Hpath; intros p Hp
    | |- preserves (SpatialJoin _ _ _ _) => apply preserves_SpatialJoin; eauto
    | |- preserves (Delete _) => apply preserves_Delete; eauto
    | |- preserves (BG.update_field _ _ _ _ _ _ _) =>
        by apply keeps_update_field
    end.
Qed.

Lemma keeps_lies_layers target_fc mig_parenttype objectid layers :
  excl target_fc \/ free -> excl BG.temp_join ->
  forall updated_features local_count,
    preserves (BG.lies_layers target_fc mig_parenttype objectid layers
                 updated_features local_count).
Proof.
  intros Hd Ht. induction layers as [|[join_fc v] layers IH];
    intros updated_features local_count; simpl; keeps.
  - intros w Hw. unfold BG.lies_try.
    pose proof (preserves_SearchCursor BG.temp_join ["TARGET_FID"] w Hw) as H1.
    destruct (SearchCursor BG.temp_join ["TARGET_FID"] w)
      as [[rows|e] w1]; simpl in H1; [|exact H1].
    match goal with
    | |- context [UpdateCursor ?p ?f ?s ?b ?l w1] =>
        pose proof (preserves_UpdateCursor p f s b l Hd w1 H1) as H2;
        destruct (UpdateCursor p f s b l w1) as [[frame [[]|e]] w2]
    end; simpl in H2; [|exact H2].
    pose proof (preserves_commit w2 H2) as H3.
    destruct (commit w2) as [[[]|e] w3]; exact H3.
  - unfold BG.lies_finally.
    match goal with |- preserves (match ?c with _ => _ end) => destruct c end;
      keeps.
  - apply IH.
Qed.

Lemma keeps_update_field_based_on_whether_it_lies target_fc mapping_layers
    mig_parenttype objectid :
  excl target_fc \/ free -> excl BG.temp_join ->
  preserves (BG.update_field_based_on_whether_it_lies target_fc
               mapping_layers mig_parenttype objectid).
Proof.
  intros Hd Ht. unfold BG.update_field_based_on_whether_it_lies.
  apply preserves_bind; [by apply keeps_lies_layers|intros _].
  apply preserves_ret.
Qed.

Lemma keeps_update_conductor_type target_fc conductor_fc mig_parenttype
    subtype_field :
  excl target_fc \/ free -> excl BG.temp_join_conductor ->
  preserves (BG.update_conductor_type target_fc conductor_fc mig_parenttype
               subtype_field).
Proof. intros Hd Ht. unfold BG.update_conductor_type. cbv zeta. keeps. Qed.

Lemma keeps_update_fc_within_station_boundary elif_test elif_label fc
    station_fc globalid_field mig_stationguid_field field_name :
  excl fc \/ free ->
  preserves (BG.update_fc_within_station_boundary elif_test elif_label fc
               station_fc globalid_field mig_stationguid_field field_name).
Proof.
  intros Hd. unfold BG.update_fc_within_station_boundary. cbv zeta. keeps.
Qed.

Lemma keeps_update_mig_issource dest_fc source_fc objectid_column fields :
  excl dest_fc \/ free ->
  preserves (BG.update_mig_issource dest_fc source_fc objectid_column fields).
Proof.
  intros Hd. unfold BG.update_mig_issource. keeps.
  intros w Hw. cbv zeta beta. destruct fields as [fields|]; [|exact Hw].
  match goal with
  | |- inv (bind ?m ?k w).2 => apply (preserves_bind m k); [|intros ?|done]
  end; keeps.
Qed.

End Kept.

Section CallTheorems.
Context {G : Type} `{!Geometry G}.

(** Whatever a call changes besides its temporaries and the tables of
    [excl], it keeps in the relation [R]. *)
Lemma run_preserves excl (R : feature_class G -> feature_class G -> Prop)
    free T0 (c : call G) :
  (free -> forall a b b',
     R a b -> map shape (fc_rows b') = map shape (fc_rows b) -> R a b') ->
  excl (destination c) \/ free ->
  (forall p, p ∈ temporaries c -> excl p) ->
  preserves excl R T0 (run c).
Proof.
  intros HR Hd Ht.
  destruct c; simpl in Hd; simpl.
  - by apply (keeps_update_fc_from_dict excl R free).
  - by apply (keeps_update_fc_within excl R free).
  - by apply (keeps_update_fc_self excl R free HR T0).
  - by apply (keeps_update_field excl R free).
  - apply (keeps_update_mig_voltage excl R free); try done;
      intros p ->; apply Ht; unfold temporaries;
      apply list_elem_of_omap; exists (Some p); (split; [|done]); set_solver.
  - apply (keeps_update_field_based_on_whether_it_lies excl R free);
      try done. apply Ht. set_solver.
  - apply (keeps_update_conductor_type excl R free); try done.
    apply Ht. set_solver.
  - by apply (keeps_update_fc_within_station_boundary excl R free).
  - by apply (keeps_update_fc_within_station_boundary excl R free).
  - by apply (keeps_update_mig_issource excl R free).
  - by apply (keeps_rom_update_fc_from_dict excl R free).
  - by apply (keeps_rom_update_fc_within excl R free).
  - by apply (keeps_rom_update_fc_self excl R free).
  - by apply (keeps_rom_update_field excl R free).
  - apply (keeps_rom_update_field_based_on_whether_it_lies excl R free);
      try done. apply Ht. set_solver.
  - by apply (keeps_rom_update_fc_within_station_boundary excl R free).
  - by apply (keeps_rom_update_fc_within_station_boundary excl R free).
  - by apply (keeps_rom_update_mig_issource excl R free).
  - by apply (keeps_update_fc_self excl R free HR T0).
Qed.

(** X6.  A call of a routine, made with no edit session open, changes no table
    but its destination and its temporaries, whether it returns or
    raises: every other table is there afterwards exactly if it was there
    before, with the fields and the rows it had. *)
Theorem call_writes_destination_only (w : world G) (c : call G) (p : string) :
  session w = None ->
  p <> destination c -> p ∉ temporaries c ->
  tables (run c w).2 !! p = tables w !! p.
Proof.
  intros Hs Hd Ht.
  pose proof (run_preserves (fun q => q = destination c \/ q ∈ temporaries c)
                eq False (tables w) c) as Hrun.
  destruct (Hrun ltac:(done) ltac:(by left; left) ltac:(by right) w)
    as [Hk _].
  - split.
    + intros q _. destruct (tables w !! q); eauto.
    + intros t. by rewrite Hs.
  - specialize (Hk p). destruct (tables w !! p) as [a|].
    + destruct Hk as (b & -> & ->); [tauto|done].
    + apply Hk. tauto.
Qed.

End CallTheorems.

(** ** The two utility scripts side by side *)

Section Agree.
Context {G : Type} `{!Geometry G}.
Local Open Scope py_scope.

(** Two results agree: when both calls return, they leave the same
    tables. *)
Definition agree (r r' : outcome unit * world G) : Prop :=
  r.1 = Ok tt -> r'.1 = Ok tt -> tables r'.2 = tables r.2.

(** The loop body [body'] does what [body] does, wherever [body']
    returns. *)
Definition refines {L} (body body' : updater G L) : Prop :=
  forall s r s' u, body' s r = (s', Ok u) -> body s r = (s', Ok u).

Lemma refines_refl {L} (body : updater G L) : refines body body.
Proof. by intros s r s' u. Qed.

Lemma update_rows_refines {L} path flds sel (body body' : updater G L) :
  refines body body' ->
  forall fs idx s s_end rows' evs,
    update_rows path flds sel body' idx fs s = (s_end, Ok tt, rows', evs) ->
    update_rows path flds sel body idx fs s = (s_end, Ok tt, rows', evs).
Proof.
  intros Href fs. induction fs as [|f fs IH];
    intros idx s s_end rows' evs; simpl; [done|].
  destruct (sel f).
  - destruct (body' s (read_row flds f)) as [s' [upd|e]] eqn:Hb; [|done].
    rewrite (Href _ _ _ _ Hb).
    destruct (update_rows path flds sel body' (S idx) fs s')
      as [[[s'' o] rest'] evs'] eqn:Hrec.
    intros Heq.
    assert (o = Ok tt) as -> by (destruct upd; by simplify_eq).
    by rewrite (IH _ _ _ _ _ Hrec).
  - destruct (update_rows path flds sel body' (S idx) fs s)
      as [[[s'' o] rest'] evs'] eqn:Hrec.
    intros Heq. assert (o = Ok tt) as -> by by simplify_eq.
    by rewrite (IH _ _ _ _ _ Hrec).
Qed.

(** An update loop that returns from a world returns from every world
    with the same tables, for a body it refines too, with the same locals
    and the same tables. *)
Lemma for_update_refines {L} path flds sel (body body' : updater G L) s0
    (w w' : world G) s w1' :
  refines body body' -> tables w = tables w' ->
  for_update path flds sel body' s0 w' = (Ok s, w1') ->
  exists w1,
    for_update path flds sel body s0 w = (Ok s, w1)
    /\ tables w1 = tables w1' /\ session w1 = session w.
Proof.
  intros Href Ht. unfold for_update, UpdateCursor, open_cursor.
  rewrite Ht.
  destruct (tables w' !! path) as [fc|]; [|done].
  destruct (has_fields fc flds); [|done].
  destruct (update_rows path flds sel body' 0 (fc_rows fc) s0)
    as [[[s1 o] rows'] evs] eqn:Hrun.
  destruct o as [[]|e]; [|done].
  rewrite (update_rows_refines _ _ _ _ _ Href _ _ _ _ _ _ Hrun).
  intros [= <- <-]. eexists. split; [done|]. simpl. by rewrite Ht.
Qed.

Lemma SearchCursor_tables path flds (w w' : world G) :
  tables w = tables w' ->
  (SearchCursor path flds w).1 = (SearchCursor path flds w').1.
Proof.
  intros Ht. unfold SearchCursor, bind, open_cursor. rewrite Ht.
  destruct (tables w' !! path) as [fc|]; [|done].
  by destruct (has_fields fc flds).
Qed.

Lemma bind_inv_Ok {A B} (m : M G A) (k : A -> M G B) (w w2 : world G) b :
  (x <- m ;; k x) w = (Ok b, w2) ->
  exists a w1, m w = (Ok a, w1) /\ k a w1 = (Ok b, w2).
Proof.
  unfold bind. destruct (m w) as [[a|e] w1]; [|done]. eauto.
Qed.

Lemma SearchCursor_same path flds (w w' w1 : world G) rows :
  tables w = tables w' ->
  SearchCursor path flds w' = (Ok rows, w1) ->
  SearchCursor path flds w = (Ok rows, w).
Proof.
  intros Ht Hs. pose proof (SearchCursor_tables path flds w w' Ht) as H1.
  pose proof (SearchCursor_world path flds w) as H2.
  rewrite Hs in H1. destruct (SearchCursor path flds w) as [o w0].
  simpl in *. by subst.
Qed.

(** The [try] block of a routine of the script for BG that is one update
    loop, against the bare loop of the script for ROM *)
Lemma guarded_loop_agrees {L} (block : M G unit) path flds sel
    (body body' : updater G L) s0 (w w' w1' : world G) s :
  block (opened w) = (for_update path flds sel body s0 ;;; commit) (opened w) ->
  refines body body' -> tables w = tables w' ->
  for_update path flds sel body' s0 w' = (Ok s, w1') ->
  exists w1,
    try_except block rollback (opened w) = (Ok tt, w1)
    /\ tables w1 = tables w1'.
Proof.
  intros Hblock Href Ht Hloop.
  destruct (for_update_refines path flds sel body body' s0 (opened w) w' s w1'
              Href Ht Hloop) as (w1 & Hrun & Ht1 & _).
  unfold try_except. rewrite Hblock. unfold bind. rewrite Hrun, commit_run.
  eexists. split; [done|]. done.
Qed.

Lemma within_any_unguarded_refines (g : G) polys b :
  within_any_unguarded (Some g) polys = Ok b -> within_any g polys = b.
Proof.
  induction polys as [|[o|] polys IH]; simpl; [by intros [= <-]| |done].
  destruct (within g o); [by intros [= <-]|]. apply IH.
Qed.

Lemma mark_station_refines polys :
  refines (mark_station polys) (mark_station_unguarded polys).
Proof.
  intros [] r s' u. unfold mark_station, mark_station_unguarded.
  destruct (row_shape r) as [g|].
  - destruct (within_any_unguarded (Some g) polys) as [b|e] eqn:Hw; [|done].
    rewrite (within_any_unguarded_refines _ _ _ Hw). by destruct b.
  - destruct polys as [|o polys]; simpl; [done|by destruct o].
Qed.

Lemma update_fc_within_agrees (w : world G) inner_fc outer_fc :
  agree (BG.update_fc_within inner_fc outer_fc w)
        (ROM.update_fc_within inner_fc outer_fc w).
Proof.
  destruct (ROM.update_fc_within inner_fc outer_fc w) as [[[]|e] w'] eqn:Hrom;
    [|by intros ? ?].
  unfold ROM.update_fc_within in Hrom.
  apply bind_inv_Ok in Hrom as (rows & w0 & Hs & Hloop).
  pose proof (SearchCursor_world outer_fc [] w) as Hw0.
  rewrite Hs in Hw0. simpl in Hw0. subst w0.
  unfold BG.update_fc_within.
  erewrite bind_Ok; [|exact Hs]. unfold bind at 1, Describe.
  destruct (tables w !! inner_fc); [|by intros ? ?].
  rewrite open_session_run.
  edestruct (guarded_loop_agrees (L:=unit)) as (w1 & -> & Ht);
    [reflexivity|apply mark_station_refines|reflexivity|exact Hloop|].
  by intros _ _.
Qed.

Lemma update_fc_self_agrees (w : world G) source_fc field_updates :
  agree (BG.update_fc_self source_fc field_updates w)
        (ROM.update_fc_self source_fc field_updates w).
Proof.
  destruct (ROM.update_fc_self source_fc field_updates w)
    as [[[]|e] w'] eqn:Hrom; [|by intros ? ?].
  unfold ROM.update_fc_self in Hrom. cbv zeta in Hrom.
  unfold BG.update_fc_self. cbv zeta. unfold bind at 1, Describe.
  destruct (tables w !! source_fc); [|by intros ? ?].
  rewrite open_session_run.
  edestruct (guarded_loop_agrees (L:=unit)) as (w1 & -> & Ht);
    [reflexivity|apply refines_refl|reflexivity|exact Hrom|].
  by intros _ _.
Qed.

Lemma update_field_agrees (w : world G) dest_fc source_fc destination_fc
    source_globalid operatingvoltage dest_globalid mig_voltage :
  agree (BG.update_field dest_fc source_fc destination_fc source_globalid
           operatingvoltage dest_globalid mig_voltage w)
        (ROM.update_field source_fc destination_fc source_globalid
           operatingvoltage dest_globalid mig_voltage w).
Proof.
  destruct (ROM.update_field source_fc destination_fc source_globalid
              operatingvoltage dest_globalid mig_voltage w)
    as [[[]|e] w'] eqn:Hrom; [|by intros ? ?].
  unfold ROM.update_field in Hrom. cbv zeta in Hrom.
  apply bind_inv_Ok in Hrom as (rows & w0 & Hs & Hloop).
  pose proof (SearchCursor_world source_fc [source_globalid; operatingvoltage]
                w) as Hw0.
  rewrite Hs in Hw0. simpl in Hw0. subst w0.
  unfold BG.update_field. cbv zeta. unfold bind at 1, Describe.
  destruct (tables w !! dest_fc); [|by intros ? ?].
  rewrite open_session_run.
  destruct (for_update_refines destination_fc [dest_globalid; mig_voltage]
              all_rows (copy_voltage (build_voltage_dict rows))
              (copy_voltage (build_voltage_dict rows)) tt (opened w) w tt w'
              (refines_refl _) eq_refl Hloop) as (w1 & Hrun & Ht1 & _).
  erewrite bind_Ok.
  2:{ apply try_except_Ok. erewrite bind_Ok; [exact Hrun|].
      by apply (SearchCursor_same _ _ _ w w). }
  rewrite commit_run. by intros _ _.
Qed.

Lemma update_fc_from_dict_agrees (w : world G) source_fc destination_fc
    source_key_field destination_key_field field_pairs where_clause :
  agree (BG.update_fc_from_dict source_fc destination_fc source_key_field
           destination_key_field field_pairs where_clause w)
        (ROM.update_fc_from_dict source_fc destination_fc source_key_field
           destination_key_field field_pairs where_clause w).
Proof.
  destruct (ROM.update_fc_from_dict source_fc destination_fc source_key_field
              destination_key_field field_pairs where_clause w)
    as [[[]|e] w'] eqn:Hrom; [|by intros ? ?].
  unfold ROM.update_fc_from_dict in Hrom. cbv zeta in Hrom.
  apply bind_inv_Ok in Hrom as (rows & w0 & Hs & Hloop).
  pose proof (SearchCursor_world source_fc (source_key_field :: field_pairs.*1)
                w) as Hw0.
  rewrite Hs in Hw0. simpl in Hw0. subst w0.
  apply bind_inv_Ok in Hloop as (s & w1' & Hloop & [= <-]).
  unfold BG.update_fc_from_dict. unfold bind at 1, Describe.
  destruct (tables w !! destination_fc); [|by intros ? ?].
  rewrite open_session_run.
  unfold finally_with, except_reraise, BG.update_fc_from_dict_try. cbv zeta.
  rewrite (SearchCursor_same _ _ (opened w) w w rows eq_refl Hs).
  destruct (for_update_refines destination_fc
              (destination_key_field :: field_pairs.*2) where_clause
              (copy_related (build_origin_fc_dict field_pairs.*1 rows)
                 field_pairs)
              (copy_related (build_origin_fc_dict field_pairs.*1 rows)
                 field_pairs) None (opened w) w s w1'
              (refines_refl _) eq_refl Hloop) as (w1 & Hrun & Ht1 & _).
  unfold for_update in Hrun.
  destruct (UpdateCursor destination_fc
              (destination_key_field :: field_pairs.*2) where_clause
              (copy_related (build_origin_fc_dict field_pairs.*1 rows)
                 field_pairs) None (opened w))
    as [[s1 [[]|e1]] w2]; [|done].
  injection Hrun as -> ->.
  rewrite commit_run. cbv beta iota.
  destruct s as [guid|]; simpl; [|by intros ? ?].
  by intros _ _.
Qed.

Lemma SpatialJoin_same target_features join_features out op
    (w w' wa' : world G) :
  tables w = tables w' ->
  SpatialJoin target_features join_features out op w' = (Ok tt, wa') ->
  SpatialJoin target_features join_features out op w
  = (Ok tt, World (tables wa') (session w) (log w)).
Proof.
  intros Ht. unfold SpatialJoin. rewrite Ht.
  destruct (tables w' !! target_features); [|done].
  destruct (tables w' !! join_features); [|done].
  by intros [= <-].
Qed.

Lemma lies_layers_agree target_fc mig_parenttype objectid layers :
  forall (w w' w1 w2 : world G) updated_features local_count uf1 uf2,
    tables w = tables w' ->
    BG.lies_layers target_fc mig_parenttype objectid layers updated_features
      local_count w = (Ok uf1, w1) ->
    ROM.lies_layers target_fc mig_parenttype objectid layers updated_features
      w' = (Ok uf2, w2) ->
    tables w2 = tables w1.
Proof.
  induction layers as [|[join_fc v] layers IH];
    intros w w' w1 w2 updated_features local_count uf1 uf2 Ht Hbg Hrom.
  { simpl in *. unfold ret in *. by simplify_eq. }
  simpl in Hrom.
  apply bind_inv_Ok in Hrom as ([] & wa' & Hjoin & Hrom).
  apply bind_inv_Ok in Hrom as (rows & w0 & Hs & Hrom).
  pose proof (SearchCursor_world ROM.temp_join ["TARGET_FID"] wa') as Hw0.
  rewrite Hs in Hw0. simpl in Hw0. subst w0.
  apply bind_inv_Ok in Hrom as (frame & wb' & Hloop & Hrom).
  apply bind_inv_Ok in Hrom as ([] & wc' & Hdel & Hrom).
  unfold Delete_if_exists in Hdel. injection Hdel as <-.
  simpl in Hbg.
  erewrite bind_Ok in Hbg; [|by apply (SpatialJoin_same _ _ _ _ w w' wa')].
  unfold bind at 1, Describe in Hbg. simpl in Hbg.
  destruct (tables wa' !! target_fc); [|done].
  rewrite open_session_run in Hbg.
  unfold bind at 1, finally_with, except_reraise, BG.lies_try in Hbg.
  match type of Hbg with
  | context [SearchCursor _ _ ?wo] =>
      rewrite (SearchCursor_same BG.temp_join ["TARGET_FID"] wo wa' wa' rows
                 eq_refl Hs) in Hbg;
      destruct (for_update_refines target_fc [mig_parenttype; objectid]
                  all_rows
                  (mark_parenttype
                     (collect_features_to_update updated_features rows) v)
                  (mark_parenttype
                     (collect_features_to_update updated_features rows) v)
                  (updated_features, 0%nat) wo wa' frame wb'
                  (refines_refl _) eq_refl Hloop) as (wb & Hrun & Htb & _)
  end.
  unfold for_update in Hrun.
  match type of Hrun with
  | context [UpdateCursor ?p ?f ?s ?b ?l ?wo] =>
      destruct (UpdateCursor p f s b l wo) as [[s1 [[]|e1]] wb0]; [|done]
  end.
  injection Hrun as -> ->.
  rewrite commit_run in Hbg. simpl in Hbg.
  eapply IH; [|exact Hbg|exact Hrom]. simpl. by rewrite Htb.
Qed.

Lemma update_field_based_on_whether_it_lies_agrees (w : world G) target_fc
    mapping_layers mig_parenttype objectid :
  agree (BG.update_field_based_on_whether_it_lies target_fc mapping_layers
           mig_parenttype objectid w)
        (ROM.update_field_based_on_whether_it_lies target_fc mapping_layers
           mig_parenttype objectid w).
Proof.
  unfold BG.update_field_based_on_whether_it_lies,
    ROM.update_field_based_on_whether_it_lies, agree, bind, ret.
  destruct (BG.lies_layers target_fc mig_parenttype objectid mapping_layers
              ∅ None w) as [[uf1|e1] w1] eqn:Hbg; [|done].
  destruct (ROM.lies_layers target_fc mig_parenttype objectid mapping_layers
              ∅ w) as [[uf2|e2] w2] eqn:Hrom; [|done].
  intros _ _. simpl. by eapply lies_layers_agree.
Qed.

End Agree.

Section AgreeTheorem.
Context {G : Type} `{!Geometry G}.

(** X9.  [update_fc_from_dict], [update_fc_within], [update_fc_self],
    [update_field] and [update_field_based_on_whether_it_lies] of the two
    utility scripts, called with the same arguments from the same world:
    when both calls return, they leave the same tables.  The editor of the
    script for BG and its tests for a null geometry change no result of a
    call that returns. *)
Theorem scripts_agree (w w1 w2 : world G) (c c' : call G) :
  rom_sibling c = Some c' ->
  run c w = (Ok tt, w1) -> run c' w = (Ok tt, w2) ->
  tables w2 = tables w1.
Proof.
  intros Hc Hbg Hrom.
  assert (agree (run c w) (run c' w)) as Hagree.
  { destruct c; try discriminate Hc; injection Hc as <-; simpl.
    - apply update_fc_from_dict_agrees.
    - apply update_fc_within_agrees.
    - apply update_fc_self_agrees.
    - apply update_field_agrees.
    - apply update_field_based_on_whether_it_lies_agrees. }
  unfold agree in Hagree. rewrite Hbg, Hrom in Hagree. by apply Hagree.
Qed.

End AgreeTheorem.

(** ** The boundary routines: the rest of the row, the added field *)

Section BoundaryRest.
Context {G : Type} `{!Geometry G}.
Local Open Scope py_scope.

Lemma boundary_rest_bg elif_test elif_label (w : world G)
    (fc station_fc globalid_field mig_stationguid_field field_name : string)
    (pts sts : feature_class G) :
  tables w !! fc = Some pts ->
  tables w !! station_fc = Some sts ->
  fc <> station_fc ->
  globalid_field ∈ fc_fields sts ->
  mig_stationguid_field ∈ fc_fields pts ->
  mig_stationguid_field <> field_name ->
  exists rows' w',
    BG.update_fc_within_station_boundary elif_test elif_label fc station_fc
      globalid_field mig_stationguid_field field_name w = (Ok tt, w')
    /\ tables w' = <[fc := FeatureClass (fc_fields pts) rows']> (tables w)
    /\ Forall2
         (boundary_rest mig_stationguid_field field_name
            (field_name ∈ fc_fields pts))
         (fc_rows pts) rows'.
Proof.
  intros Hpts Hsts Hne Hgid Hmig Hmf.
  rewrite (boundary_run_bg elif_test elif_label w fc station_fc globalid_field
             mig_stationguid_field field_name pts sts) by done.
  eexists _, _. split; [done|]. split; [done|].
  apply Forall2_map_self. intros d.
  pose proof (boundary_row elif_test elif_label
                (build_station_dict
                   (map (read_row [globalid_field]) (fc_rows sts)))
                mig_stationguid_field field_name
                (bool_decide (field_name ∉ fc_fields pts)) d Hmf)
    as [Hshape Hrow].
  split; [done|]. destruct (shape d) as [g|].
  - destruct Hrow as (_ & _ & Hother). by split.
  - destruct Hrow as [Hother Hsame]. split; [|intros _; split].
    + intros k _ Hk. by apply Hother.
    + by apply Hother.
    + intros Hin. apply Hsame. apply bool_decide_eq_false. tauto.
Qed.

(** The status field a boundary routine adds is added before the station
    table is read, outside the [try]: when the read fails, the call raises
    and the field stays. *)
Lemma boundary_field_stays_bg elif_test elif_label (w : world G)
    (fc station_fc globalid_field mig_stationguid_field field_name : string)
    (pts : feature_class G) (e : exn) :
  tables w !! fc = Some pts ->
  field_name ∉ fc_fields pts ->
  fc <> station_fc ->
  (SearchCursor station_fc [globalid_field] w).1 = Raise e ->
  BG.update_fc_within_station_boundary elif_test elif_label fc station_fc
    globalid_field mig_stationguid_field field_name w
  = (Raise e,
     World (<[fc := FeatureClass (fc_fields pts ++ [field_name])
                      (fc_rows pts)]> (tables w))
           (session w) (log w ++ [EAddField fc field_name])).
Proof.
  intros Hpts Hfn Hne He. revert He.
  unfold SearchCursor at 1, bind at 1, open_cursor. intros He.
  unfold BG.update_fc_within_station_boundary.
  unfold bind at 1, ListFields. rewrite Hpts. cbv beta iota.
  rewrite decide_False by done.
  unfold bind at 1. unfold bind at 1, AddField. rewrite Hpts.
  cbv beta iota. unfold ret at 1. cbv beta iota.
  unfold bind at 1, SearchCursor at 1, bind at 1, open_cursor. simpl.
  rewrite lookup_insert_ne by done.
  destruct (tables w !! station_fc) as [sts|]; simpl in *;
    [|by injection He as <-].
  destruct (bool_decide (_ ∈ fc_fields sts)); simpl in *; [done|].
  by injection He as <-.
Qed.

Lemma boundary_field_stays_rom elif_test elif_label status_field
    (w : world G) (fc station_fc field_name : string)
    (pts : feature_class G) (e : exn) :
  tables w !! fc = Some pts ->
  field_name ∉ fc_fields pts ->
  fc <> station_fc ->
  (SearchCursor station_fc ["GLOBALID"] w).1 = Raise e ->
  ROM.update_fc_within_station_boundary elif_test elif_label status_field
    fc station_fc field_name w
  = (Raise e,
     World (<[fc := FeatureClass (fc_fields pts ++ [field_name])
                      (fc_rows pts)]> (tables w))
           (session w) (log w ++ [EAddField fc field_name])).
Proof.
  intros Hpts Hfn Hne He. revert He.
  unfold SearchCursor at 1, bind at 1, open_cursor. intros He.
  unfold ROM.update_fc_within_station_boundary.
  unfold bind at 1, ListFields. rewrite Hpts. cbv beta iota.
  rewrite decide_False by done.
  unfold bind at 1. unfold bind at 1, AddField. rewrite Hpts.
  cbv beta iota. unfold ret at 1. cbv beta iota.
  unfold bind at 1, SearchCursor at 1, bind at 1, open_cursor. simpl.
  rewrite lookup_insert_ne by done.
  destruct (tables w !! station_fc) as [sts|]; simpl in *;
    [|by injection He as <-].
  destruct (bool_decide (_ ∈ fc_fields sts)); simpl in *; [done|].
  by injection He as <-.
Qed.

End BoundaryRest.

Section BoundaryRestTheorems.
Context {G : Type} `{!Geometry G}.

(** X10. [update_line_fc_within_station_boundary] and
    [update_point_fc_within_station_boundary] of the script for BG, on a
    table that has the station GUID field: the call returns, the table
    keeps its fields and the shapes of its features, and no field of a
    feature other than the station GUID and the status is changed.  A
    feature without geometry is skipped: its station GUID is as before,
    and when the status field was there before the call the feature is
    unchanged. *)
Theorem boundary_routines_keep_rest (w : world G)
    (fc station_fc globalid_field mig_stationguid_field field_name : string)
    (pts sts : feature_class G) :
  tables w !! fc = Some pts ->
  tables w !! station_fc = Some sts ->
  fc <> station_fc ->
  globalid_field ∈ fc_fields sts ->
  mig_stationguid_field ∈ fc_fields pts ->
  mig_stationguid_field <> field_name ->
  (exists rows' w',
     BG.update_line_fc_within_station_boundary fc station_fc globalid_field
       mig_stationguid_field field_name w = (Ok tt, w')
     /\ tables w' = <[fc := FeatureClass (fc_fields pts) rows']> (tables w)
     /\ Forall2
          (boundary_rest mig_stationguid_field field_name
             (field_name ∈ fc_fields pts))
          (fc_rows pts) rows')
  /\ (exists rows' w',
        BG.update_point_fc_within_station_boundary fc station_fc
          globalid_field mig_stationguid_field field_name w = (Ok tt, w')
        /\ tables w' = <[fc := FeatureClass (fc_fields pts) rows']> (tables w)
        /\ Forall2
             (boundary_rest mig_stationguid_field field_name
                (field_name ∈ fc_fields pts))
             (fc_rows pts) rows').
Proof.
  intros Hpts Hsts Hne Hgid Hmig Hmf.
  split; by eapply boundary_rest_bg.
Qed.

(** X11. The boundary routines of the two utility scripts add the status
    field before they read the station table, and outside any [try]: on a
    table without the status field, when the station table cannot be read
    the call raises the error of the read, no edit session is opened, and
    the table is left with the status field added. *)
Theorem boundary_status_field_stays (w : world G)
    (fc station_fc globalid_field mig_stationguid_field field_name : string)
    (pts : feature_class G) (e : exn) :
  tables w !! fc = Some pts ->
  field_name ∉ fc_fields pts ->
  fc <> station_fc ->
  (SearchCursor station_fc [globalid_field] w).1 = Raise e ->
  let w' :=
    World (<[fc := FeatureClass (fc_fields pts ++ [field_name])
                     (fc_rows pts)]> (tables w))
          (session w) (log w ++ [EAddField fc field_name]) in
  BG.update_line_fc_within_station_boundary fc station_fc globalid_field
    mig_stationguid_field field_name w = (Raise e, w')
  /\ BG.update_point_fc_within_station_boundary fc station_fc globalid_field
       mig_stationguid_field field_name w = (Raise e, w')
  /\ (globalid_field = "GLOBALID" ->
      ROM.update_line_fc_within_station_boundary fc station_fc field_name w
      = (Raise e, w')
      /\ ROM.update_point_fc_within_station_boundary fc station_fc field_name
           w = (Raise e, w')).
Proof.
  intros Hpts Hfn Hne He w'.
  split; [|split; [|intros ->; split]].
  - by apply boundary_field_stays_bg.
  - by apply boundary_field_stays_bg.
  - by apply boundary_field_stays_rom.
  - by apply boundary_field_stays_rom.
Qed.

End BoundaryRestTheorems.

(** ** The routines on the sample geodatabases *)

Lemma update_fc_within_marks_station_witness :
  exists rows',
    Forall2 (station_marked (fc_rows Sample.station_scheme_table))
      (fc_rows Sample.bay_scheme_table) rows'
    /\ (exists w',
          BG.update_fc_within "BayScheme" "StationScheme" Sample.scheme_db
          = (Ok tt, w')
          /\ tables w' =
               <["BayScheme" :=
                   FeatureClass (fc_fields Sample.bay_scheme_table) rows']>
                 (tables Sample.scheme_db))
    /\ (Forall (fun f => is_Some (shape f)) (fc_rows Sample.bay_scheme_table) ->
        Forall (fun f => is_Some (shape f))
          (fc_rows Sample.station_scheme_table) ->
        exists w',
          ROM.update_fc_within "BayScheme" "StationScheme" Sample.scheme_db
          = (Ok tt, w')
          /\ tables w' =
               <["BayScheme" :=
                   FeatureClass (fc_fields Sample.bay_scheme_table) rows']>
                 (tables Sample.scheme_db)).
Proof.
  apply (update_fc_within_marks_station Sample.scheme_db "BayScheme"
           "StationScheme" Sample.bay_scheme_table
           Sample.station_scheme_table).
  - reflexivity.
  - reflexivity.
  - reflexivity.
Defined.

Lemma update_fc_self_copies_witness :
  let field_updates :=
    [["OBJECTID"; "MIG_OID"; "MIG_OID_TEXT"]; ["GLOBALID"; "MIG_GLOBALID"]] in
  (exists rows' w',
     AddDB.update_fc_self "CircuitSource" field_updates Sample.circuit_db
     = (Ok tt, w')
     /\ tables w'
        = <["CircuitSource" :=
              FeatureClass (fc_fields Sample.circuit_source_table) rows']>
            (tables Sample.circuit_db)
     /\ Forall2 (self_copied (fun _ source_value => source_value)
                   field_updates)
          (fc_rows Sample.circuit_source_table) rows')
  /\ (exists rows' w',
        BG.update_fc_self "CircuitSource" field_updates Sample.circuit_db
        = (Ok tt, w')
        /\ tables w'
           = <["CircuitSource" :=
                 FeatureClass (fc_fields Sample.circuit_source_table) rows']>
               (tables Sample.circuit_db)
        /\ Forall2 (self_copied text_as_string field_updates)
             (fc_rows Sample.circuit_source_table) rows')
  /\ (exists rows' w',
        ROM.update_fc_self "CircuitSource" field_updates Sample.circuit_db
        = (Ok tt, w')
        /\ tables w'
           = <["CircuitSource" :=
                 FeatureClass (fc_fields Sample.circuit_source_table) rows']>
               (tables Sample.circuit_db)
        /\ Forall2 (self_copied text_as_string field_updates)
             (fc_rows Sample.circuit_source_table) rows').
Proof.
  apply (update_fc_self_copies Sample.circuit_db "CircuitSource"
           [["OBJECTID"; "MIG_OID"; "MIG_OID_TEXT"];
            ["GLOBALID"; "MIG_GLOBALID"]] Sample.circuit_source_table).
  - reflexivity.
  - discriminate.
  - apply (bool_decide_unpack _). reflexivity.
  - apply (bool_decide_unpack _). reflexivity.
  - apply has_fields_elem. reflexivity.
Defined.

Lemma update_mig_issource_marks_witness :
  exists rows' w',
    BG.update_mig_issource "CircuitBreaker" (Some "CircuitSource")
      (Some "CIRCUITBREAKER_OID")
      (Some ["SUBSOURCE"; "MIG_ISSOURCE"; "OBJECTID"]) Sample.circuit_db
    = (Ok tt, w')
    /\ tables w'
       = <["CircuitBreaker" :=
             FeatureClass (fc_fields Sample.circuit_breaker_table) rows']>
           (tables Sample.circuit_db)
    /\ Forall2
         (marked_issource_bg Sample.circuit_db (Some "CircuitSource")
            (Some "CIRCUITBREAKER_OID") "SUBSOURCE" "MIG_ISSOURCE" "OBJECTID")
         (fc_rows Sample.circuit_breaker_table) rows'.
Proof.
  apply (update_mig_issource_marks Sample.circuit_db "CircuitBreaker"
           (Some "CircuitSource") (Some "CIRCUITBREAKER_OID")
           "SUBSOURCE" "MIG_ISSOURCE" "OBJECTID" []
           Sample.circuit_breaker_table).
  - reflexivity.
  - apply (bool_decide_unpack _). reflexivity.
  - apply has_fields_elem. reflexivity.
  - discriminate.
Defined.

Lemma update_mig_issource_rom_marks_witness :
  exists rows' w',
    ROM.update_mig_issource "CircuitBreaker" (Some "CircuitSource")
      (Some "BREAKER_GUID") Sample.breaker_db = (Ok tt, w')
    /\ tables w'
       = <["CircuitBreaker" :=
             FeatureClass (fc_fields Sample.breaker_table) rows']>
           (tables Sample.breaker_db)
    /\ Forall2
         (marked_issource_rom Sample.breaker_db (Some "CircuitSource")
            (Some "BREAKER_GUID"))
         (fc_rows Sample.breaker_table) rows'.
Proof.
  apply (update_mig_issource_rom_marks Sample.breaker_db "CircuitBreaker"
           (Some "CircuitSource") (Some "BREAKER_GUID") Sample.breaker_table).
  - reflexivity.
  - apply has_fields_elem. reflexivity.
  - discriminate.
Defined.

(** A breaker with [SUBSOURCE] 1 that a source refers to: the script for
    ROM tests [SUBSOURCE] first and stores 2; the script for BG tests the
    relationship first and stores 1. *)
Example update_mig_issource_order :
  Sample.column
    (ROM.update_mig_issource "CircuitBreaker" (Some "CircuitSource")
       (Some "BREAKER_GUID") Sample.breaker_db).2
    "CircuitBreaker" "MIG_ISSOURCE"
  = Some [VInt 2; VInt 2; VNone; VInt 1]
  /\ Sample.column
       (BG.update_mig_issource "CircuitBreaker" (Some "CircuitSource")
          (Some "BREAKER_GUID")
          (Some ["SUBSOURCE"; "MIG_ISSOURCE"; "GLOBALID"]) Sample.breaker_db).2
       "CircuitBreaker" "MIG_ISSOURCE"
     = Some [VInt 1; VInt 2; VNone; VInt 1].
Proof. vm_compute. done. Qed.

(** A source column that does not exist: the script for ROM stores no
    value at all, the script for BG goes on as if no source was named. *)
Example update_mig_issource_missing_column :
  Sample.column
    (ROM.update_mig_issource "CircuitBreaker" (Some "CircuitSource")
       (Some "NO_SUCH_FIELD") Sample.breaker_db).2
    "CircuitBreaker" "MIG_ISSOURCE"
  = Some [VNone; VNone; VNone; VNone]
  /\ Sample.column
       (BG.update_mig_issource "CircuitBreaker" (Some "CircuitSource")
          (Some "NO_SUCH_FIELD")
          (Some ["SUBSOURCE"; "MIG_ISSOURCE"; "GLOBALID"]) Sample.breaker_db).2
       "CircuitBreaker" "MIG_ISSOURCE"
     = Some [VInt 2; VInt 2; VNone; VNone].
Proof. vm_compute. done. Qed.

Lemma update_mig_voltage_priority_witness :
  exists rows' w',
    BG.update_mig_voltage (Some "join_internal_layer")
      (Some "join_conductor_layer") (Some "join_busbar_layer") "Connector"
      Sample.voltage_db = (Ok tt, w')
    /\ tables w'
       = delete "join_busbar_layer"
           (delete "join_conductor_layer"
              (delete "join_internal_layer"
                 (<["Connector" :=
                      FeatureClass (fc_fields Sample.voltage_connector_table)
                        rows']> (tables Sample.voltage_db))))
    /\ Forall2
         (voltage_by_priority (fc_rows Sample.voltage_internal_table)
            (fc_rows Sample.voltage_conductor_table)
            (fc_rows Sample.voltage_busbar_table))
         (fc_rows Sample.voltage_connector_table) rows'.
Proof.
  apply (update_mig_voltage_priority Sample.voltage_db "join_internal_layer"
           "join_conductor_layer" "join_busbar_layer" "Connector"
           Sample.voltage_connector_table Sample.voltage_internal_table
           Sample.voltage_conductor_table Sample.voltage_busbar_table).
  - reflexivity.
  - reflexivity.
  - reflexivity.
  - reflexivity.
  - apply (bool_decide_unpack _). reflexivity.
  - apply (bool_decide_unpack _). reflexivity.
  - apply (bool_decide_unpack _). reflexivity.
  - apply (bool_decide_unpack _). reflexivity.
  - apply (bool_decide_unpack _). reflexivity.
  - apply (bool_decide_unpack _). reflexivity.
  - apply (bool_decide_unpack _). reflexivity.
  - discriminate.
  - discriminate.
  - discriminate.
  - apply (bool_decide_unpack _). vm_compute. reflexivity.
Defined.

(** The connector at 5 gets the voltage of the conductor, not of the
    internal connection; the one at 15 keeps its voltage, the internal
    connection it lies on having none; the one at 25 gets the voltage of
    the busbar; the one at 100 keeps its voltage. *)
Example update_mig_voltage_sample :
  Sample.column
    (BG.update_mig_voltage (Some "join_internal_layer")
       (Some "join_conductor_layer") (Some "join_busbar_layer") "Connector"
       Sample.voltage_db).2 "Connector" "MIG_VOLTAGE"
  = Some [VInt 20; VNone; VInt 110; VInt 7].
Proof. vm_compute. reflexivity. Qed.

Lemma call_writes_destination_only_witness :
  tables
    (run (BG_update_field_based_on_whether_it_lies "Electric_Net_Junctions"
            Sample.mapping_el_net_junction "MIG_PARENTTYPE" "OBJECTID")
         Sample.net_db).2 !! "Conductor"
  = tables Sample.net_db !! "Conductor".
Proof.
  apply (call_writes_destination_only Sample.net_db
           (BG_update_field_based_on_whether_it_lies "Electric_Net_Junctions"
              Sample.mapping_el_net_junction "MIG_PARENTTYPE" "OBJECTID")
           "Conductor").
  - reflexivity.
  - discriminate.
  - apply (bool_decide_unpack _). reflexivity.
Defined.

Lemma scripts_agree_witness :
  tables
    (run (ROM_update_field_based_on_whether_it_lies "Electric_Net_Junctions"
            Sample.mapping_el_net_junction "MIG_PARENTTYPE" "OBJECTID")
         Sample.net_db).2
  = tables
      (run (BG_update_field_based_on_whether_it_lies "Electric_Net_Junctions"
              Sample.mapping_el_net_junction "MIG_PARENTTYPE" "OBJECTID")
           Sample.net_db).2.
Proof.
  apply (scripts_agree Sample.net_db _ _
           (BG_update_field_based_on_whether_it_lies "Electric_Net_Junctions"
              Sample.mapping_el_net_junction "MIG_PARENTTYPE" "OBJECTID")
           (ROM_update_field_based_on_whether_it_lies "Electric_Net_Junctions"
              Sample.mapping_el_net_junction "MIG_PARENTTYPE" "OBJECTID")).
  - reflexivity.
  - vm_compute. reflexivity.
  - vm_compute. reflexivity.
Defined.

Lemma boundary_routines_keep_rest_witness :
  (exists rows' w',
     BG.update_line_fc_within_station_boundary "MeasurementTransformer"
       "StationBoundary" "GLOBALID" "MIG_STATIONGUID" "POINT_STATUS"
       Sample.transformer_db = (Ok tt, w')
     /\ tables w'
        = <["MeasurementTransformer" :=
              FeatureClass (fc_fields Sample.transformer_table) rows']>
            (tables Sample.transformer_db)
     /\ Forall2
          (boundary_rest "MIG_STATIONGUID" "POINT_STATUS"
             ("POINT_STATUS" ∈ fc_fields Sample.transformer_table))
          (fc_rows Sample.transformer_table) rows')
  /\ (exists rows' w',
        BG.update_point_fc_within_station_boundary "MeasurementTransformer"
          "StationBoundary" "GLOBALID" "MIG_STATIONGUID" "POINT_STATUS"
          Sample.transformer_db = (Ok tt, w')
        /\ tables w'
           = <["MeasurementTransformer" :=
                 FeatureClass (fc_fields Sample.transformer_table) rows']>
               (tables Sample.transformer_db)
        /\ Forall2
             (boundary_rest "MIG_STATIONGUID" "POINT_STATUS"
                ("POINT_STATUS" ∈ fc_fields Sample.transformer_table))
             (fc_rows Sample.transformer_table) rows').
Proof.
  apply (boundary_routines_keep_rest Sample.transformer_db
           "MeasurementTransformer" "StationBoundary" "GLOBALID"
           "MIG_STATIONGUID" "POINT_STATUS" Sample.transformer_table
           Sample.station_boundary_table).
  - reflexivity.
  - reflexivity.
  - discriminate.
  - apply (bool_decide_unpack _). reflexivity.
  - apply (bool_decide_unpack _). reflexivity.
  - discriminate.
Defined.

Lemma boundary_status_field_stays_witness :
  let w' :=
    World (<["MeasurementTransformer" :=
               FeatureClass (fc_fields Sample.transformer_table
                             ++ ["POINT_STATUS"])
                 (fc_rows Sample.transformer_table)]>
             (tables Sample.transformer_db))
          (session Sample.transformer_db)
          (log Sample.transformer_db
           ++ [EAddField "MeasurementTransformer" "POINT_STATUS"]) in
  let e := RuntimeError "cannot open the table" in
  BG.update_line_fc_within_station_boundary "MeasurementTransformer"
    "Substation" "GLOBALID" "MIG_STATIONGUID" "POINT_STATUS"
    Sample.transformer_db = (Raise e, w')
  /\ BG.update_point_fc_within_station_boundary "MeasurementTransformer"
       "Substation" "GLOBALID" "MIG_STATIONGUID" "POINT_STATUS"
       Sample.transformer_db = (Raise e, w')
  /\ ("GLOBALID" = "GLOBALID" ->
      ROM.update_line_fc_within_station_boundary "MeasurementTransformer"
        "Substation" "POINT_STATUS" Sample.transformer_db = (Raise e, w')
      /\ ROM.update_point_fc_within_station_boundary "MeasurementTransformer"
           "Substation" "POINT_STATUS" Sample.transformer_db
         = (Raise e, w')).
Proof.
  apply (boundary_status_field_stays Sample.transformer_db
           "MeasurementTransformer" "Substation" "GLOBALID" "MIG_STATIONGUID"
           "POINT_STATUS" Sample.transformer_table
           (RuntimeError "cannot open the table")).
  - reflexivity.
  - apply (bool_decide_unpack _). reflexivity.
  - discriminate.
  - reflexivity.
Defined.
